(* ===== verification/_CoqProject ===== *)
-Q . S2P
Prelude.v
TextOrder.v
Externals.v
Concrete.v
Domain.v
Buckets.v
Scheduler.v
Aggregator.v
SharedBars.v
Pricing.v
Repository.v
Exact.v
Wal.v
Lease.v
Cluster.v
Queues.v
Metrics.v
WalMetrics.v
Config.v
ClickHouse.v
Tables.v
Schema.v
Http.v
FanOut.v
Adapter.v
Binance.v
Bybit.v
Okx.v
Bitget.v
Hyperliquid.v
Mexc.v
KuCoin.v
BingX.v
Aster.v
Adapters.v
Json.v
CoreJson.v
Wire.v
Runner.v
BarTypes.v
Backfill.v
Wiring.v
Boot.v
Sweep.v
WsClient.v
ApiAuth.v
ApiRest.v
ApiGrpc.v
ApiWs.v
ApiMetrics.v
Hub.v
Server.v
Live.v
LoopMetrics.v
SysMetrics.v
Pipeline.v
TestKit.v
TestsCore.v
TestsStorage.v
TestsCollector.v
TestsExchanges.v
TestsWire.v
TestsApi.v
