(* ===== verification/Prelude.v ===== *)
(** * A verification development for the OI and funding collector

    The repository collects open interest, prices and funding rates of
    perpetual futures from nine exchanges once a minute (and, where a venue
    pushes them, continuously), stores one-minute OHLC bars in ClickHouse behind
    a write-ahead log and a leader lease, and serves them over REST, gRPC and
    WebSocket.  This library models its Rust crates under [src/crates/] as
    executable definitions and proves what they promise each other.

    ** How the parts interact

    A scheduler ([Scheduler]) ticks each exchange loop ([Runner]) once per
    closed minute.  The loop asks the venue's adapter ([Adapter], one file per
    venue, chosen in [Adapters]) for prices, open interest and funding, converts
    units ([Domain.enrich]) with a price that may come from another venue
    ([Pricing]), folds the samples into the running bars ([Aggregator]) and
    writes the bars of the closed minute through the storage stack.  The live
    streams ([WsClient], [Live]) fold into the same bars, while the loop flushes
    them ([SharedBars]), and publish the bar in progress.  The stack is
    ClickHouse ([ClickHouse], its server [Tables], its schema [Schema]) behind
    the leader gate and the Redis composite ([Repository]) behind the
    write-ahead log with its drainer ([Wal]); the lease ([Lease]) decides which
    node is the leader, and [Cluster] puts several nodes with their logs,
    drainers and unfinished writes around one lease and one database, which
    [Queues] shows to implement a system of queues without files.  [Wiring]
    is what the collector builds of all this from its configuration ([Config]),
    and the resync command; [Boot] is how it starts, stage by stage.  Settlements are swept from the venues' histories
    ([Sweep]) and missed minutes written again by hand ([Backfill]).  The API
    process ([Server]: routes, guards, start-up) reads the same repository
    ([ApiRest], [ApiGrpc], [SysMetrics]), streams what Redis publishes
    ([ApiGrpc]; [ApiWs] is one browser's connection, [Hub] the subscriber and
    the broadcast ring that feed them) and checks tokens ([ApiAuth]).
    The answers of the exchanges are texts: [Wire] decodes them as the derived
    [Deserialize] implementations do and runs the adapters over them, and
    [CoreJson] is the JSON of the core values.
    [Pipeline] follows one measurement through all of it.  What the tasks tell
    the metrics recorder ([Metrics]) is beside this: [WalMetrics], [LoopMetrics]
    and [ApiMetrics] hold the same operations with their calls to the recorder,
    each proved to do what the bare one does.  The Tests files replay the
    repository's own tests on these definitions.

    ** Files

    - [Prelude]: panics ([run]), errors ([result], [let?]), machine integers,
      integer text, ASCII case, bytes and effectful calls on a world ([SE]).
      [TextOrder]: the order of the WAL's file names as text.
    - [Externals]: the interfaces of third-party code (decimals, date-times,
      JSON) and the laws the proofs use; [Concrete]: one instance of each, which
      the witnesses run and which shows that the laws can hold; [Exact]: a second
      instance, closer to the real libraries (decimals with a scale, calendar
      dates, CRC-32), which the replayed tests run.
    - [Domain] (oi-core), [Buckets] (common/bucket.rs and its copies).
    - [Scheduler], [Aggregator], [Pricing], [Runner], [Backfill], [Sweep],
      [Live]: the modules of the same names of oi-collector (price_provider.rs
      and funding_sweep.rs are [Pricing] and [Sweep]).  [SharedBars] is the
      aggregator's DashMap under concurrent tasks, entry by entry; [BarTypes]
      the well-formedness of bars, from the parsers to the wire.
    - [Repository] (traits.rs, leader_gated.rs, redis.rs, pubsub.rs,
      composite.rs), [Wal] (wal.rs), [ClickHouse], [Tables] and [Schema]
      (clickhouse.rs, and the migration script in [Schema]), [Lease]
      (oi-replication/failover.rs), [Cluster] (the tasks of wal.rs and
      leader_gated.rs on several nodes, step by step), [Queues] (its abstract
      specification and the refinement).
    - [Metrics] (metrics.rs of both programs), [WalMetrics] (wal.rs with its
      counters and gauges), [LoopMetrics] (the loops of runner.rs,
      funding_sweep.rs, live.rs and common/ws.rs with theirs), [ApiMetrics]
      (rest.rs, grpc.rs and ws.rs with theirs).
    - [Http] (common/http.rs), [FanOut] (the bounded FuturesUnordered loops),
      [Adapter] (the trait and the helpers of the adapters), [Binance], [Bybit],
      [Okx], [Bitget], [Hyperliquid], [Mexc], [KuCoin], [BingX], [Aster] (rest.rs
      and stream.rs, or mod.rs, of each), [Adapters] (the factory of runner.rs),
      [WsClient] (common/ws.rs and the ws.rs of each venue).  [Json]: serde_json's
      values, derived decoders as combinators, and a reader of JSON text;
      [CoreJson] (the serde attributes of oi-core), [Wire] (the wire structs of
      the adapters).
    - [Config] (config.rs of both programs), [Wiring] (the stack and the tasks of
      [run_async] in runner.rs, and main.rs of the collector), [Boot] (the
      stages of [run_async], the adapters' HTTP clients).
    - [ApiAuth], [ApiRest], [ApiGrpc], [ApiWs], [SysMetrics]: the modules of
      oi-api; [Hub]: the broadcaster of ws.rs with its connections; [Server]:
      server.rs and the routers of rest.rs and ws.rs.
    - [Pipeline]: theorems that cross the files above.
    - [TestKit], [TestsCore], [TestsStorage], [TestsCollector], [TestsExchanges],
      [TestsWire] (the mock-server tests of oi-exchanges/tests) and [TestsApi]:
      one definition per test of the repository, under the test's name, and for
      each file the list of its tests, none of which fails.

    ** How code is read

    A struct is a record, an enum an inductive type, a [Result] a [result]; a
    HashMap is a [gmap] and, where the code walks one, the order is an argument
    the theorems quantify over.  Arithmetic of decimals and dates that aborts the
    task on overflow is in [run].  A call with effects is a function on a world:
    [SE W E A] is [W -> result E A * W].  The file system of the WAL is a
    disk with contents and a directory, each of which may be ahead of what a power
    loss leaves, and a plan of faults; Redis, the
    ClickHouse client, sockets and HTTP answers are parameters, with what the
    code relies on stated as classes of laws ([DecimalLaws], [TimeLaws],
    [CodecLaws], [RedisLaws] and so on).  Asynchronous tasks are atomic between
    the points where they await something another task can change: which task
    of a fan-out completes next is an argument ([FanOut]); clock readings,
    received frames and the branches a [select!] takes are input sequences.
    Logging is left out.  The metrics recorder is the list of calls made to it.

    ** What the theorems show

    - End to end: a leader's minute is in the table, or whole in the node's log,
      unless the disk refused it, and whenever the table holds it a REST range
      returns its bars; once a leader's drainer has had its turns, every bar that
      waited in its queue can be read over REST, and nothing can that no node
      appended; every change a venue pushes reaches, as the bar in
      progress, the socket of every browser that wants it ([Pipeline]).
    - The cluster: in any interleaving of ticks, writes, drains, lost lease
      messages, crashes and power losses of any number of nodes, every appended
      batch is in the database or in a log, whole (or set aside, or reaped where a
      standby is told to), or was lost in a power loss that came before the
      directory was written back; rows arrive only from a node that was
      the leader when its write or drain was admitted; and a leader left to
      itself empties its log ([Cluster]).  Every step of it, crashes included, is
      one atomic step of an abstract system of queues, whose guarantees it
      therefore has ([Queues]).
    - Durability of one node: an append that reports success survives a crash of
      the process, and a power loss once the directory has been written back,
      which the code does not wait for; neither exposes half a file; a drain
      replays the queue in order
      and removes only what the target accepted, quarantining only what it could
      not read; the cache and the publisher never change the outcome of a write
      ([Wal], [Repository]).
    - One writer: at most one node holds the lease, in any interleaving with lost
      requests and replies; which configurations keep a lone leader in place
      ([Lease], [Config]).
    - Bars: the running bar is the OHLC of the samples observed, for every
      optional column, and well typed on the wire; the aggregator refines a log
      of samples; with live tasks observing while the loop flushes no sample is
      lost but those [observe] itself discards, and a flush returns the
      due bars it collected; the minute loop writes the bar of every sample it
      enriched; and the schedule skips no minute and catches up ([Domain],
      [Aggregator], [SharedBars], [BarTypes], [Scheduler], [Runner],
      [Backfill]).
    - Database: what is written is read back, last versions included, with
      duplicates the engine has not merged yet; migration, row structs, inserts
      and SELECT texts agree on tables, columns, types and keys ([Tables],
      [Schema]).
    - Funding: settlements are derived exactly at the rollovers, in order, and a
      sweep hands over all events it fetched ([Runner], [Sweep]).
    - Exchanges: every adapter answers only about the instruments asked for and
      with its own exchange, and lists the rows its guard keeps; paginated discovery is complete and terminates;
      partial failures leave the other answers; delta merging, positional
      matching and interval caches ([Adapters] and the venue files); HTTP answers
      are classified and error texts cut at character boundaries ([Http]).
    - Streams: every instrument is subscribed once on every connection, frames
      survive reconnects in order, exactly the changes are folded and
      published, and no idle timeout ends a silent connection ([WsClient],
      [Live]).
    - API: no data leaves the server without a listed token; a batch is its
      single requests for every completion order; the columnar format reads back
      as the buckets and values of the row format, and carries nothing else; the
      two subscription protocols select the same bars, whatever is asked; a browser is
      handed an ordered part of the stream with exact lag counting, whatever the
      others do; the system metrics add up and every answer's peak is the maximum
      so far ([Server], [ApiRest], [ApiGrpc], [ApiWs], [Hub], [SysMetrics]).
    - Metrics: instrumentation changes nothing; the log's counters and gauge
      account for its files, with its writes and its drainer interleaved; the collector's counters for what the repository
      accepted, the API's for the statuses answered and the sockets open, each
      with what it does not count ([WalMetrics], [LoopMetrics], [ApiMetrics]).
    - Texts: fields no struct names never matter, while one row that does not fit
      fails its venue's page; the core values' JSON reads back, and names two
      venues otherwise than every other interface ([Wire], [CoreJson]).
    - Operation: the tasks, drainer and stack the collector starts for a
      configuration, that it starts whole or says which stage failed, with no
      writer before the schema; the resync command carries out valid arguments
      over the exchanges they name and refuses all others ([Wiring], [Boot]).
    - Tests: 160 tests of the repository hold of the model, from the arithmetic
      of bars to the adapters against recorded answers, which checks the
      definitions against what the code is known to do (the Tests files).

    ** Assumptions

    Node names are distinct.  A crash of the process leaves the kernel's view of
    the directory; a power loss keeps the contents that were synced and, of the
    changes to the directory since it was last written back, any that the file
    system chooses to have kept (nothing in the code syncs the directory).  A
    file's name is not used twice while it matters: the names repeat only for the
    same millisecond, process id and counter.  A write that failed behind tokio's
    buffered file is reported by the next call on the same handle, so
    [sync_all] does not succeed after it ([Wal], [Cluster]).  Redis executes its scripts atomically and
    expires the lease by its own clock ([Lease]); a pipeline that succeeded was
    executed in order ([RedisLaws]).  ClickHouse keeps the last row of a key
    within its TTL visible and answers a SELECT from what is visible
    ([Tables.ServerLaws]).  tokio's broadcast channel hands each receiver the
    values in order and skips only what lies further back than the capacity
    ([Hub.BroadcastLaws]).  DashMap operations on one entry are atomic
    ([SharedBars]).  Each class of laws has an instance the witnesses run.

    ** Bounds and fuel

    Bybit's discovery follows at most the 32 pages the code allows, and the
    theorem says what a longer listing gives.  [FanOut.fan_out] takes as many
    steps as there are items, one per completion, and completes them all.
    [WsClient.chunks], [WsClient.from_utf8_lossy] and [ApiRest.debug_duration]
    take the length of their input (nine digits for a fraction of a second), and
    [Json.json_read] three times the length of the text, one for each reader a
    character can go through; a text it gives up on is a syntax error.  The
    broadcast ring holds the code's 4096 values ([Hub.BROADCAST_CAPACITY]).  No
    other definition has fuel.

    ** Not modelled

    Logging; the metrics recorder with its HTTP listener, and the elapsed times
    its timers record; the async runtime and the TLS provider; the parsers
    behind the configuration (TOML, environment), serde_json's number printing
    and string escapes, the JSON text of the API's answers and the text of
    protobuf; what ClickHouse does with a statement beyond its laws; the token
    bucket and connection pool inside the HTTP client; percent-decoding and the
    extractors' rejections in the HTTP router; the empty backup module; the tests that start containers, TLS or a
    Redis subscriber. *)

From Stdlib Require Import ZArith Lia Ascii String DecimalString DecimalN DecimalZ.
From stdpp Require Import base option list strings gmap.

Create HintDb oi.

Declare Scope oi_scope.
Delimit Scope oi_scope with oi.

(** * Outcomes *)

(** A computation that may panic: arithmetic of [rust_decimal] and date
    arithmetic of [time] abort the running task on overflow. *)
Inductive run (A : Type) : Type :=
| Ret (a : A)
| Panic.
Arguments Ret {A} a.
Arguments Panic {A}.

(** Rust's [Result<T, E>], error type first so that [result E] is a monad. *)
Inductive result (E T : Type) : Type :=
| Ok (t : T)
| Err (e : E).
Arguments Ok {E T} t.
Arguments Err {E T} e.

(** The value of a run, for concrete runs. *)
Definition run_or {A} (d : A) (r : run A) : A :=
  match r with Ret a => a | Panic => d end.
Lemma run_or_ret {A} (d a : A) (r : run A) : r = Ret a → a = run_or d r.
Proof. by intros ->. Qed.

#[export] Instance run_ret : MRet run := λ A a, Ret a.
#[export] Instance run_bind : MBind run := λ A B f m,
  match m with Ret a => f a | Panic => Panic end.
#[export] Instance run_fmap : FMap run := λ A B f m,
  match m with Ret a => Ret (f a) | Panic => Panic end.
#[export] Instance result_ret E : MRet (result E) := λ T t, Ok t.
#[export] Instance result_bind E : MBind (result E) := λ T U f m,
  match m with Ok t => f t | Err e => Err e end.
#[export] Instance result_fmap E : FMap (result E) := λ T U f m,
  match m with Ok t => Ok (f t) | Err e => Err e end.

(** The [?] operator. *)
Notation "'let?' x ':=' e 'in' k" :=
  (match e with Ok x => k | Err err => Err err end)
  (at level 10, x name, e at level 100, k at level 200) : oi_scope.
Open Scope oi_scope.

Definition result_ok {E T} (r : result E T) : option T :=
  match r with Ok t => Some t | Err _ => None end.
Definition is_ok {E T} (r : result E T) : bool :=
  match r with Ok _ => true | Err _ => false end.
(** [Result::unwrap_or]; in concrete runs it reads the value off a result. *)
Definition unwrap_or {E T} (d : T) (r : result E T) : T :=
  match r with Ok t => t | Err _ => d end.
Lemma unwrap_or_ok {E T} (d t : T) (r : result E T) : r = Ok t → t = unwrap_or d r.
Proof. by intros ->. Qed.
(** [Result::map_err]. *)
Definition map_err {E F T} (f : E → F) (r : result E T) : result F T :=
  match r with Ok t => Ok t | Err e => Err (f e) end.
(** [Option::map(f).transpose()] for a fallible [f]. *)
Definition opt_traverse {E A B} (f : A → result E B) (o : option A)
  : result E (option B) :=
  match o with None => Ok None | Some a => Some <$> f a end.
(** [iter.map(f).collect::<Result<Vec<_>, _>>()]: first error wins. *)
Fixpoint list_traverse {E A B} (f : A → result E B) (l : list A)
  : result E (list B) :=
  match l with
  | [] => Ok []
  | a :: l' => let? b := f a in let? bs := list_traverse f l' in Ok (b :: bs)
  end.
(** [Option::map(f)] for an [f] that may panic. *)
Definition opt_run {A B} (f : A → run B) (o : option A) : run (option B) :=
  match o with None => Ret None | Some a => Some <$> f a end.

(** [Option::or]. *)
Definition opt_or {A} (a b : option A) : option A :=
  match a with Some _ => a | None => b end.

(** * Machine integers *)

Open Scope Z_scope.

Definition u8_max : Z := 2 ^ 8 - 1.
Definition u32_max : Z := 2 ^ 32 - 1.
Definition u64_max : Z := 2 ^ 64 - 1.
Definition u128_max : Z := 2 ^ 128 - 1.
Definition i64_min : Z := - 2 ^ 63.
Definition i64_max : Z := 2 ^ 63 - 1.

(** [u32::saturating_add]. *)
Definition u32_saturating_add (a b : Z) : Z := Z.min (a + b) u32_max.
(** [u128::saturating_sub] (and every other unsigned width). *)
Definition saturating_sub (a b : Z) : Z := Z.max 0 (a - b).
(** The cast [x as i64]: wrap around modulo 2^64. *)
Definition as_i64 (z : Z) : Z := (z + 2 ^ 63) mod 2 ^ 64 - 2 ^ 63.
(** The cast [x as u64]. *)
Definition as_u64 (z : Z) : Z := z mod 2 ^ 64.

Lemma as_i64_small z : i64_min ≤ z ≤ i64_max → as_i64 z = z.
Proof. unfold as_i64, i64_min, i64_max. intros. rewrite Z.mod_small; lia. Qed.

(** * Integers as decimal text *)

(** [Display] of an integer. *)
Definition int_to_string (z : Z) : string := NilZero.string_of_int (Z.to_int z).
(** A non-empty run of ASCII digits. *)
Definition digits_value (s : string) : option Z :=
  (λ d, Z.of_N (N.of_uint d)) <$> NilZero.uint_of_string s.
Definition in_width (lo hi z : Z) : option Z :=
  if (lo <=? z) && (z <=? hi) then Some z else None.
(** [str::parse::<uN>]: an optional [+], then digits within the width. *)
Definition parse_unsigned (hi : Z) (s : string) : option Z :=
  match s with
  | String "+" s' => digits_value s' ≫= in_width 0 hi
  | _ => digits_value s ≫= in_width 0 hi
  end.
(** [str::parse::<iN>]: an optional sign, then digits within the width. *)
Definition parse_signed (lo hi : Z) (s : string) : option Z :=
  match s with
  | String "-" s' => digits_value s' ≫= λ z, in_width lo hi (- z)
  | String "+" s' => digits_value s' ≫= in_width lo hi
  | _ => digits_value s ≫= in_width lo hi
  end.

Lemma in_width_some lo hi z : lo ≤ z ≤ hi → in_width lo hi z = Some z.
Proof.
  intros [H1 H2]. unfold in_width.
  rewrite (proj2 (Z.leb_le _ _) H1), (proj2 (Z.leb_le _ _) H2). done.
Qed.

Lemma in_width_range lo hi z z' : in_width lo hi z = Some z' → lo ≤ z' ≤ hi ∧ z' = z.
Proof.
  unfold in_width. destruct (_ && _) eqn:E; [|done]. intros [= <-].
  apply andb_true_iff in E. rewrite !Z.leb_le in E. done.
Qed.

Lemma digits_value_pos p :
  digits_value (NilZero.string_of_uint (Pos.to_uint p)) = Some (Z.pos p).
Proof.
  unfold digits_value.
  rewrite NilZero.usu by apply DecimalPos.Unsigned.to_uint_nonnil.
  change (Some (Z.of_N (N.of_uint (N.to_uint (N.pos p)))) = Some (Z.pos p)).
  by rewrite DecimalN.Unsigned.of_to.
Qed.

(** The first character of a printed number is a digit, never a sign. *)
Lemma digits_no_sign s z :
  digits_value s = Some z → (∀ s', s ≠ String "+" s') ∧ (∀ s', s ≠ String "-" s').
Proof.
  unfold digits_value. intros H. split; intros s' ->; simpl in H;
    unfold NilZero.uint_of_string in H; simpl in H; by destruct (NilEmpty.uint_of_string s').
Qed.

Lemma parse_signed_digits lo hi s z :
  digits_value s = Some z → lo ≤ z ≤ hi → parse_signed lo hi s = Some z.
Proof.
  intros H Hr. destruct (digits_no_sign s z H) as [Hp Hm].
  assert (parse_signed lo hi s = digits_value s ≫= in_width lo hi) as ->.
  { destruct s as [|[[][][][][][][][]] s']; try done;
      [by destruct (Hp s')|by destruct (Hm s')]. }
  rewrite H. by apply in_width_some.
Qed.

Lemma parse_unsigned_digits hi s z :
  digits_value s = Some z → 0 ≤ z ≤ hi → parse_unsigned hi s = Some z.
Proof.
  intros H Hr. destruct (digits_no_sign s z H) as [Hp Hm].
  assert (parse_unsigned hi s = digits_value s ≫= in_width 0 hi) as ->.
  { destruct s as [|[[][][][][][][][]] s']; try done. by destruct (Hp s'). }
  rewrite H. by apply in_width_some.
Qed.

Lemma parse_int_to_string lo hi z :
  lo ≤ z ≤ hi → parse_signed lo hi (int_to_string z) = Some z.
Proof.
  intros Hr. destruct z as [|p|p].
  - apply (parse_signed_digits _ _ "0"); [done|lia].
  - apply parse_signed_digits; [apply digits_value_pos|lia].
  - change (int_to_string (Z.neg p))
      with (String "-" (NilZero.string_of_uint (Pos.to_uint p))).
    unfold parse_signed. rewrite digits_value_pos. simpl.
    by apply in_width_some.
Qed.

Lemma parse_nat_to_string hi z :
  0 ≤ z ≤ hi → parse_unsigned hi (int_to_string z) = Some z.
Proof.
  intros Hr. destruct z as [|p|p]; [| |lia].
  - apply (parse_unsigned_digits _ "0"); [done|lia].
  - apply parse_unsigned_digits; [apply digits_value_pos|lia].
Qed.

(** * ASCII case *)

(** [u8::to_ascii_lowercase] and [u8::to_ascii_uppercase]. *)
Definition ascii_lower (c : ascii) : ascii :=
  let n := nat_of_ascii c in
  if (65 <=? n)%nat && (n <=? 90)%nat then ascii_of_nat (n + 32) else c.
Definition ascii_upper (c : ascii) : ascii :=
  let n := nat_of_ascii c in
  if (97 <=? n)%nat && (n <=? 122)%nat then ascii_of_nat (n - 32) else c.
Fixpoint string_map (f : ascii → ascii) (s : string) : string :=
  match s with
  | EmptyString => EmptyString
  | String c s' => String (f c) (string_map f s')
  end.
Definition to_ascii_lowercase : string → string := string_map ascii_lower.
Definition to_ascii_uppercase : string → string := string_map ascii_upper.

(** [str::starts_with] and [str::ends_with]. *)
Definition starts_with (p s : string) : bool := String.prefix p s.
(** [str::strip_suffix]. *)
Fixpoint strip_suffix (p s : string) : option string :=
  if String.eqb s p then Some EmptyString
  else match s with
       | EmptyString => None
       | String c s' => String c <$> strip_suffix p s'
       end.
Definition ends_with (p s : string) : bool := bool_decide (is_Some (strip_suffix p s)).
(** [str::strip_prefix]. *)
Definition strip_prefix (p s : string) : option string :=
  if String.prefix p s
  then Some (String.substring (String.length p) (String.length s - String.length p) s)
  else None.

Lemma string_app_cons c a b : String c a +:+ b = String c (a +:+ b).
Proof. done. Qed.
Lemma string_app_length a b :
  String.length (a +:+ b) = (String.length a + String.length b)%nat.
Proof. induction a as [|c a IH]; [done|]. rewrite string_app_cons. simpl. by rewrite IH. Qed.

Lemma string_app_assoc a b c : a +:+ (b +:+ c) = (a +:+ b) +:+ c.
Proof. induction a as [|x a IH]; [done|]. by rewrite !string_app_cons, IH. Qed.

Lemma strip_suffix_some p s a : strip_suffix p s = Some a → s = a +:+ p.
Proof.
  revert a. induction s as [|c s IH]; intros a; cbn [strip_suffix].
  { destruct (String.eqb_spec EmptyString p) as [<-|]; [by intros [= <-]|done]. }
  destruct (String.eqb_spec (String c s) p) as [<-|Hne]; [by intros [= <-]|].
  destruct (strip_suffix p s) as [a'|]; [|done]. intros [= <-].
  rewrite string_app_cons. f_equal. by apply IH.
Qed.

Lemma strip_suffix_app p a : strip_suffix p (a +:+ p) = Some a.
Proof.
  induction a as [|c a IH].
  - change (EmptyString +:+ p) with p. destruct p; cbn [strip_suffix]; by rewrite String.eqb_refl.
  - rewrite string_app_cons. cbn [strip_suffix].
    destruct (String.eqb_spec (String c (a +:+ p)) p) as [E|_]; [|by rewrite IH].
    apply (f_equal String.length) in E. simpl in E. rewrite string_app_length in E. lia.
Qed.

Lemma ends_with_app p a : ends_with p (a +:+ p) = true.
Proof. unfold ends_with. by rewrite strip_suffix_app. Qed.

Lemma strip_prefix_spec p s t : strip_prefix p s = Some t ↔ s = String.append p t.
Proof.
  unfold strip_prefix. revert s. induction p as [|c p IH]; intros s; simpl.
  - rewrite Nat.sub_0_r.
    assert (String.substring 0 (String.length s) s = s) as ->.
    { induction s as [|x s IHs]; simpl; [done|]. by rewrite IHs. }
    change (String.append EmptyString t) with t. destruct s; simpl; split; congruence.
  - destruct s as [|x s]; simpl; [done|].
    change (String.append (String c p) t) with (String c (String.append p t)).
    destruct (ascii_dec c x) as [->|Hne]; [|split; [done|congruence]].
    rewrite IH. split; congruence.
Qed.

Lemma starts_with_spec p s : starts_with p s = true ↔ ∃ t, s = String.append p t.
Proof.
  unfold starts_with. setoid_rewrite <- strip_prefix_spec. unfold strip_prefix.
  destruct (String.prefix p s); naive_solver.
Qed.

(** The last character, which tells suffixes apart. *)
Fixpoint string_last (s : string) : option ascii :=
  match s with
  | EmptyString => None
  | String c EmptyString => Some c
  | String _ s' => string_last s'
  end.
Lemma string_last_app a c b : string_last (a +:+ String c b) = string_last (String c b).
Proof.
  induction a as [|x a IH]; [done|]. rewrite string_app_cons, <- IH.
  by destruct a.
Qed.

(** * Fallible operations on a world *)

(** An effectful call: reads and changes a world [W], may fail with [E]. *)
Definition SE (W E A : Type) : Type := W → result E A * W.

#[export] Instance se_ret W E : MRet (SE W E) := λ A a w, (Ok a, w).
#[export] Instance se_bind W E : MBind (SE W E) := λ A B f m w,
  match m w with (Ok a, w') => f a w' | (Err e, w') => (Err e, w') end.
Definition se_fail {W E A} (e : E) : SE W E A := λ w, (Err e, w).
(** A pure fallible value as a call. *)
Definition se_lift {W E A} (r : result E A) : SE W E A := λ w, (r, w).
(** [match call().await { Ok .. Err .. }]: the outcome itself as the value. *)
Definition se_try {W E F A} (m : SE W E A) : SE W F (result E A) := λ w,
  let '(r, w') := m w in (Ok r, w').
Definition se_map_err {W E F A} (f : E → F) (m : SE W E A) : SE W F A := λ w,
  let '(r, w') := m w in (map_err f r, w').
(** Run a call on the second half of a pair of worlds. *)
Definition se_snd {V W E A} (m : SE W E A) : SE (V * W) E A := λ vw,
  let '(r, w') := m vw.2 in (r, (vw.1, w')).
Definition se_fst {V W E A} (m : SE V E A) : SE (V * W) E A := λ vw,
  let '(r, v') := m vw.1 in (r, (v', vw.2)).

(** * Bytes *)

(** [u32::to_be_bytes] and [u32::from_be_bytes]. *)
Definition be_bytes32 (z : Z) : list Z :=
  [Z.land (Z.shiftr z 24) 255; Z.land (Z.shiftr z 16) 255;
   Z.land (Z.shiftr z 8) 255; Z.land z 255].
Definition be_value32 (b : list Z) : Z :=
  foldl (λ acc x, Z.lor (Z.shiftl acc 8) x) 0 b.

Lemma shiftl_land_low a x : 0 ≤ x < 2 ^ 8 → Z.land (Z.shiftl a 8) x = 0.
Proof.
  intros Hx. apply Z.bits_inj'. intros n Hn.
  rewrite Z.land_spec, Z.bits_0, Z.shiftl_spec by lia.
  destruct (Z.lt_ge_cases n 8); [by rewrite Z.testbit_neg_r by lia|].
  rewrite <- (Z.mod_small x (2 ^ 8)) by lia.
  by rewrite Z.mod_pow2_bits_high, andb_false_r by lia.
Qed.

Lemma shiftl_lor_low a x : 0 ≤ x < 2 ^ 8 → Z.lor (Z.shiftl a 8) x = a * 2 ^ 8 + x.
Proof.
  intros Hx. pose proof (shiftl_land_low a x Hx) as Hd.
  rewrite <- (Z.shiftl_mul_pow2 a 8), Z.add_nocarry_lxor by (done || lia).
  symmetry. by apply Z.lxor_lor.
Qed.

Lemma be_value_bytes32 z : 0 ≤ z < 2 ^ 32 → be_value32 (be_bytes32 z) = z.
Proof.
  intros Hz. unfold be_value32, be_bytes32. cbn [foldl].
  change 255 with (Z.ones 8). rewrite !Z.land_ones by lia.
  rewrite !Z.shiftr_div_pow2 by lia.
  rewrite !shiftl_lor_low by (apply Z.mod_pos_bound; lia).
  pose proof (Z.div_mod z (2 ^ 8) ltac:(lia)).
  pose proof (Z.div_mod (z / 2 ^ 8) (2 ^ 8) ltac:(lia)) as H1.
  pose proof (Z.div_mod (z / 2 ^ 16) (2 ^ 8) ltac:(lia)) as H2.
  rewrite Z.div_div, <- Z.pow_add_r in H1, H2 by lia.
  change (8 + 8) with 16 in *. change (16 + 8) with 24 in *.
  assert (z / 2 ^ 24 < 2 ^ 8) by (apply Z.div_lt_upper_bound; lia).
  assert (0 ≤ z / 2 ^ 24) by (apply Z.div_pos; lia).
  rewrite (Z.mod_small (z / 2 ^ 24)) by lia. lia.
Qed.

(** Inversion of the binds. *)
Lemma se_bind_inv {W E A B} (m : SE W E A) (k : A → SE W E B) w r w' :
  (m ≫= k) w = (r, w') →
  (∃ e, m w = (Err e, w') ∧ r = Err e) ∨ (∃ a w1, m w = (Ok a, w1) ∧ k a w1 = (r, w')).
Proof.
  unfold mbind, se_bind. destruct (m w) as [[a|e] w1] eqn:E1; [by right; eauto|].
  intros [= <- <-]. left. eauto.
Qed.
Lemma se_map_err_inv {W E F A} (f : E → F) (m : SE W E A) w r w' :
  se_map_err f m w = (r, w') → ∃ r0, m w = (r0, w') ∧ r = map_err f r0.
Proof. unfold se_map_err. destruct (m w) as [r0 w1]. intros [= <- <-]. eauto. Qed.
Lemma se_fst_inv {V W E A} (m : SE V E A) (v : V) (w : W) r vw' :
  se_fst m (v, w) = (r, vw') → ∃ v', m v = (r, v') ∧ vw' = (v', w).
Proof. unfold se_fst. simpl. destruct (m v) as [r0 v']. intros [= <- <-]. eauto. Qed.
Lemma se_snd_inv {V W E A} (m : SE W E A) (v : V) (w : W) r vw' :
  se_snd m (v, w) = (r, vw') → ∃ w', m w = (r, w') ∧ vw' = (v, w').
Proof. unfold se_snd. simpl. destruct (m w) as [r0 w']. intros [= <- <-]. eauto. Qed.
Lemma se_try_inv {W E F A} (m : SE W E A) w (r : result F (result E A)) w' :
  se_try m w = (r, w') → ∃ r0, m w = (r0, w') ∧ r = Ok r0.
Proof. unfold se_try. destruct (m w) as [r0 w1]. intros [= <- <-]. eauto. Qed.

Lemma pair_parts {A B} (p : A * B) a b : p = (a, b) → a = p.1 ∧ b = p.2.
Proof. by intros ->. Qed.
