(* ===== verification/TextOrder.v ===== *)
(** Decimal text as a sort key: for numbers with the same count of digits,
    lexicographic order of names that start with the number is numeric order;
    and a number's text never holds a dash, so a name is split unambiguously at
    its first one. *)

From Stdlib Require Import ZArith Lia String Ascii DecimalString HexadecimalString HexadecimalN.
From Stdlib Require Decimal Hexadecimal DecimalFacts DecimalPos DecimalN.
From stdpp Require Import base option list strings.
From S2P Require Import Prelude.
Open Scope Z_scope.

(** Lower-case hexadecimal, the [{:x}] format. *)
Definition hex_string (z : Z) : string :=
  HexadecimalString.NilZero.string_of_uint (N.to_hex_uint (Z.to_N z)).

(** * Numeric and lexicographic order *)

Definition uval (d : Decimal.uint) : Z := Z.of_N (N.of_uint d).
Definition udigits (d : Decimal.uint) : nat := Decimal.nb_digits d.

Lemma of_uint_acc_value d p :
  Z.pos (Pos.of_uint_acc d p) = Z.pos p * 10 ^ Z.of_nat (udigits d) + uval d.
Proof.
  revert p. unfold uval, udigits, N.of_uint.
  induction d as [|d IH|d IH|d IH|d IH|d IH|d IH|d IH|d IH|d IH|d IH]; intros p;
    [cbn; lia|..]; cbn [Pos.of_uint_acc Decimal.nb_digits Pos.of_uint Z.of_N];
    rewrite Nat2Z.inj_succ, Z.pow_succ_r, !IH by lia; lia.
Qed.

Definition dcons (k : nat) (d : Decimal.uint) : Decimal.uint :=
  match k with
  | 0%nat => Decimal.D0 d | 1%nat => Decimal.D1 d | 2%nat => Decimal.D2 d | 3%nat => Decimal.D3 d | 4%nat => Decimal.D4 d
  | 5%nat => Decimal.D5 d | 6%nat => Decimal.D6 d | 7%nat => Decimal.D7 d | 8%nat => Decimal.D8 d | _ => Decimal.D9 d
  end.

Lemma uint_cases d : d = Decimal.Nil ∨ ∃ k d', (k < 10)%nat ∧ d = dcons k d'.
Proof.
  destruct d as [|d|d|d|d|d|d|d|d|d|d]; [by left|right..];
    [exists 0%nat|exists 1%nat|exists 2%nat|exists 3%nat|exists 4%nat|exists 5%nat
    |exists 6%nat|exists 7%nat|exists 8%nat|exists 9%nat]; exists d; split; (lia || done).
Qed.

Lemma dcons_facts k d :
  (k < 10)%nat →
  uval (dcons k d) = Z.of_nat k * 10 ^ Z.of_nat (udigits d) + uval d
  ∧ udigits (dcons k d) = S (udigits d)
  ∧ DecimalString.NilEmpty.string_of_uint (dcons k d)
    = String (ascii_of_nat (48 + k)) (DecimalString.NilEmpty.string_of_uint d).
Proof.
  intros Hk. do 10 (destruct k as [|k]; [repeat split; try done;
    unfold dcons, uval, N.of_uint; cbn [Pos.of_uint Z.of_N];
    rewrite ?of_uint_acc_value; unfold uval, N.of_uint; lia|]). lia.
Qed.

Lemma udigits_cases d :
  match udigits d with
  | O => d = Decimal.Nil
  | S n => ∃ k d', (k < 10)%nat ∧ d = dcons k d' ∧ udigits d' = n
  end.
Proof.
  destruct (uint_cases d) as [->|(k & d' & Hk & ->)]; [done|].
  destruct (dcons_facts k d' Hk) as (_ & -> & _). eauto.
Qed.

Lemma uval_bound d : 0 ≤ uval d < 10 ^ Z.of_nat (udigits d).
Proof.
  remember (udigits d) as n eqn:Hn. revert d Hn.
  induction n as [|n IH]; intros d Hn; pose proof (udigits_cases d) as H; rewrite <- Hn in H.
  - by subst d.
  - destruct H as (k & d' & Hk & -> & Hd).
    destruct (dcons_facts k d' Hk) as (-> & _ & _). rewrite Hd.
    specialize (IH d' (eq_sym Hd)). rewrite Nat2Z.inj_succ, Z.pow_succ_r by lia.
    set (P := 10 ^ Z.of_nat n) in *. nia.
Qed.

Lemma N_ascii_of_nat k : (k < 256)%nat → N_of_ascii (ascii_of_nat k) = N.of_nat k.
Proof. intros. unfold ascii_of_nat. rewrite N_ascii_embedding; lia. Qed.

(** Same number of digits: the smaller number's text compares smaller, whatever
    follows it. *)
Lemma digits_compare a b s t :
  udigits a = udigits b → uval a < uval b →
  String.compare (DecimalString.NilEmpty.string_of_uint a +:+ s) (DecimalString.NilEmpty.string_of_uint b +:+ t) = Lt.
Proof.
  remember (udigits a) as n eqn:Hn. revert a b Hn.
  induction n as [|n IH]; intros a b Ha Hb Hlt;
    pose proof (udigits_cases a) as Ca; pose proof (udigits_cases b) as Cb;
    rewrite <- Ha in Ca; rewrite <- Hb in Cb; [by subst|].
  destruct Ca as (k & a' & Hk & -> & Ha'), Cb as (j & b' & Hj & -> & Hb').
  destruct (dcons_facts k a' Hk) as (Va & _ & ->), (dcons_facts j b' Hj) as (Vb & _ & ->).
  rewrite Va, Vb, Ha', Hb' in Hlt.
  pose proof (uval_bound a') as Ba. pose proof (uval_bound b') as Bb.
  rewrite Ha' in Ba. rewrite Hb' in Bb. set (P := 10 ^ Z.of_nat n) in *.
  change (match Ascii.compare (ascii_of_nat (48 + k)) (ascii_of_nat (48 + j)) with
          | Eq => String.compare (DecimalString.NilEmpty.string_of_uint a' +:+ s)
                    (DecimalString.NilEmpty.string_of_uint b' +:+ t)
          | x => x end = Lt).
  unfold Ascii.compare. rewrite !N_ascii_of_nat by lia.
  assert ((k < j)%nat ∨ k = j) as [Hkj| ->] by nia.
  - destruct (N.compare_spec (N.of_nat (48 + k)) (N.of_nat (48 + j))); [lia|done|lia].
  - rewrite N.compare_refl. apply IH; [done|done|lia].
Qed.

(** * Numbers as name prefixes *)

(** A number with [k] digits in decimal. *)
Definition has_digits (k : nat) (z : Z) : Prop := 10 ^ (Z.of_nat k - 1) ≤ z < 10 ^ Z.of_nat k.

Lemma pos_uval p : uval (Pos.to_uint p) = Z.pos p.
Proof.
  unfold uval. change (Pos.to_uint p) with (N.to_uint (N.pos p)).
  by rewrite DecimalN.Unsigned.of_to.
Qed.

(** No leading zero. *)
Lemma to_uint_leading p : ∃ k d, (0 < k < 10)%nat ∧ Pos.to_uint p = dcons k d.
Proof.
  pose proof (pos_uval p) as Hv.
  destruct (uint_cases (Pos.to_uint p)) as [E|(k & d & Hk & E)]; [by rewrite E in Hv|].
  destruct (decide (k = 0%nat)) as [->|]; [|exists k, d; split; [lia|done]].
  exfalso. simpl in E.
  assert (Hu : Decimal.unorm (Decimal.D0 d) = Decimal.D0 d).
  { rewrite <- E. rewrite <- (DecimalN.Unsigned.to_of (Pos.to_uint p)).
    change (Pos.to_uint p) with (N.to_uint (N.pos p)). by rewrite DecimalN.Unsigned.of_to. }
  rewrite DecimalFacts.unorm_D0 in Hu. destruct (uint_cases d) as [->|(j & d' & Hj & Ed)].
  - rewrite E in Hv. done.
  - assert (Hd : d ≠ Decimal.Nil) by (rewrite Ed; do 10 (destruct j; [done|]); lia).
    pose proof (DecimalFacts.nb_digits_unorm d Hd) as H. rewrite Hu in H. simpl in H. lia.
Qed.

Lemma to_uint_digits k z p :
  z = Z.pos p → (0 < k)%nat → has_digits k z → udigits (Pos.to_uint p) = k.
Proof.
  intros -> Hk0 [Hlo Hhi]. destruct (to_uint_leading p) as (j & d & Hj & E).
  pose proof (pos_uval p) as Hv. rewrite E in *.
  destruct (dcons_facts j d ltac:(lia)) as (V & -> & _). rewrite V in Hv.
  pose proof (uval_bound d) as Hb.
  assert (10 ^ Z.of_nat (udigits d) ≤ Z.pos p < 10 ^ (Z.of_nat (udigits d) + 1)) as [H1 H2].
  { rewrite Z.pow_add_r by lia. set (P := 10 ^ Z.of_nat (udigits d)) in *. nia. }
  assert (Z.of_nat k - 1 < Z.of_nat (udigits d) + 1)
    by (apply (Z.pow_lt_mono_r_iff 10); lia).
  assert (Z.of_nat (udigits d) < Z.of_nat k) by (apply (Z.pow_lt_mono_r_iff 10); lia).
  lia.
Qed.

Lemma int_to_string_pos p :
  int_to_string (Z.pos p) = DecimalString.NilEmpty.string_of_uint (Pos.to_uint p).
Proof.
  unfold int_to_string. simpl. unfold DecimalString.NilZero.string_of_uint.
  destruct (Pos.to_uint p) eqn:E; try done. pose proof (pos_uval p) as H. by rewrite E in H.
Qed.

(** Names that start with numbers of [k] digits sort by the number. *)
Lemma name_order k a b s t :
  (0 < k)%nat → has_digits k a → has_digits k b → a < b →
  String.le (int_to_string a +:+ s) (int_to_string b +:+ t)
  ∧ ¬ String.le (int_to_string b +:+ t) (int_to_string a +:+ s).
Proof.
  intros Hk Ha Hb Hlt.
  assert (0 < 10 ^ (Z.of_nat k - 1)) by (apply Z.pow_pos_nonneg; lia).
  destruct a as [|p|p]; [by destruct Ha; lia| |by destruct Ha; lia].
  destruct b as [|q|q]; [by destruct Hb; lia| |by destruct Hb; lia].
  assert (C : String.compare (int_to_string (Z.pos p) +:+ s) (int_to_string (Z.pos q) +:+ t) = Lt).
  { rewrite !int_to_string_pos. apply digits_compare.
    - by rewrite (to_uint_digits k _ p eq_refl), (to_uint_digits k _ q eq_refl).
    - by rewrite !pos_uval. }
  unfold String.le, String.leb. split; [by rewrite C|].
  rewrite String.compare_antisym, C. simpl. by intros [].
Qed.

(** * Splitting a name at its first dash *)

Definition dash : ascii := "-"%char.

Fixpoint no_dash (s : string) : bool :=
  match s with
  | EmptyString => true
  | String c s' => negb (Ascii.eqb c dash) && no_dash s'
  end.

(** Split at the first dash. *)
Fixpoint split_dash (s : string) : option (string * string) :=
  match s with
  | EmptyString => None
  | String c s' =>
      if Ascii.eqb c dash then Some (EmptyString, s')
      else match split_dash s' with
           | Some (a, b) => Some (String c a, b)
           | None => None
           end
  end.

Lemma split_dash_app a b : no_dash a = true → split_dash (a +:+ String dash b) = Some (a, b).
Proof.
  induction a as [|c a IH]; [done|]. intros [Hc Ha]%andb_true_iff.
  change (split_dash (String c (a +:+ String dash b)) = Some (String c a, b)).
  cbn [split_dash]. apply negb_true_iff in Hc. by rewrite Hc, IH.
Qed.

Lemma split_dash_join a b : no_dash a = true → split_dash (a +:+ "-" +:+ b) = Some (a, b).
Proof. apply split_dash_app. Qed.

Lemma decimal_no_dash d : no_dash (DecimalString.NilEmpty.string_of_uint d) = true.
Proof. by induction d. Qed.
Lemma hex_no_dash d : no_dash (HexadecimalString.NilEmpty.string_of_uint d) = true.
Proof. by induction d. Qed.

Lemma int_to_string_no_dash z : 0 ≤ z → no_dash (int_to_string z) = true.
Proof.
  destruct z as [|p|p]; [done| |lia]. intros _. rewrite int_to_string_pos.
  apply decimal_no_dash.
Qed.
Lemma hex_string_no_dash z : no_dash (hex_string z) = true.
Proof.
  unfold hex_string, HexadecimalString.NilZero.string_of_uint.
  destruct (N.to_hex_uint _) eqn:E; try apply hex_no_dash. done.
Qed.
Lemma hex_string_inj a b : 0 ≤ a → 0 ≤ b → hex_string a = hex_string b → a = b.
Proof.
  unfold hex_string. intros Ha Hb H.
  assert (Hn : ∀ n, N.to_hex_uint n ≠ Hexadecimal.Nil) by (intros [|p]; [done|];
    intros E; pose proof (HexadecimalN.Unsigned.of_to (N.pos p)) as H'; by rewrite E in H').
  apply (f_equal HexadecimalString.NilZero.uint_of_string) in H.
  rewrite !HexadecimalString.NilZero.usu in H by apply Hn. injection H as H.
  apply HexadecimalN.Unsigned.to_uint_inj in H. lia.
Qed.
