(* ===== verification/Externals.v ===== *)
(** The third-party code the repository calls, as interfaces.

    [rust_decimal::Decimal] and [time::OffsetDateTime] are not part of the
    repository, so they are parameters of the model: a class of operations the
    definitions use, and a separate class of laws ([DecimalLaws], [TimeLaws])
    stating the documented behaviour the theorems rely on.  [time::Duration]
    is represented by its length in nanoseconds.  [Concrete.v] gives an
    instance of both. *)

From S2P Require Import Prelude.
From Stdlib Require Import ZArith Lia String.
From stdpp Require Import base option list strings.
Open Scope Z_scope.
Open Scope oi_scope.

(** * rust_decimal *)

(** [dec_mul] panics when the product does not fit in 96 bits; [dec_from_str]
    returns the [Display] text of the error. *)
Class DecimalLib := {
  Dec : Type;
  dec_cmp : Dec → Dec → comparison;
  dec_mul : Dec → Dec → run Dec;
  dec_from_str : string → result string Dec;
  dec_to_string : Dec → string;
  dec_one : Dec;
}.

Definition dec_gtb `{DecimalLib} (a b : Dec) : bool :=
  match dec_cmp a b with Gt => true | _ => false end.
Definition dec_ltb `{DecimalLib} (a b : Dec) : bool :=
  match dec_cmp a b with Lt => true | _ => false end.
Definition dec_eqb `{DecimalLib} (a b : Dec) : bool :=
  match dec_cmp a b with Eq => true | _ => false end.
(** Order and equality of decimals are numeric: [1.0 == 1.00]. *)
Definition dec_leq `{DecimalLib} (a b : Dec) : Prop := dec_cmp a b ≠ Gt.
#[export] Instance dec_equiv `{DecimalLib} : Equiv Dec :=
  λ a b, dec_cmp a b = Eq.

Class DecimalLaws (DL : DecimalLib) : Prop := {
  dec_cmp_refl a : dec_cmp a a = Eq;
  dec_cmp_opp a b : dec_cmp b a = CompOpp (dec_cmp a b);
  dec_leq_trans_law a b c : dec_leq a b → dec_leq b c → dec_leq a c;
  dec_text_round_trip d : ∃ d', dec_from_str (dec_to_string d) = Ok d' ∧ d' ≡ d;
}.

Section decimal_facts.
Context `{DL : DecimalLib, !DecimalLaws DL}.

Lemma dec_leq_refl (a : Dec) : dec_leq a a.
Proof. unfold dec_leq. by rewrite dec_cmp_refl. Qed.
Lemma dec_leq_trans (a b c : Dec) : dec_leq a b → dec_leq b c → dec_leq a c.
Proof. apply dec_leq_trans_law. Qed.
Lemma dec_gtb_false (a b : Dec) : dec_gtb a b = false ↔ dec_leq a b.
Proof. unfold dec_gtb, dec_leq. destruct (dec_cmp a b); naive_solver. Qed.
Lemma dec_gtb_true_le (a b : Dec) : dec_gtb a b = true → dec_leq b a.
Proof.
  unfold dec_gtb, dec_leq. rewrite (dec_cmp_opp a b). by destruct (dec_cmp a b).
Qed.
Lemma dec_ltb_true_le (a b : Dec) : dec_ltb a b = true → dec_leq a b.
Proof. unfold dec_ltb, dec_leq. by destruct (dec_cmp a b). Qed.
Lemma dec_ltb_false (a b : Dec) : dec_ltb a b = false → dec_leq b a.
Proof.
  unfold dec_ltb, dec_leq. rewrite (dec_cmp_opp a b). by destruct (dec_cmp a b).
Qed.
Lemma dec_leq_antisym (a b : Dec) : dec_leq a b → dec_leq b a → a ≡ b.
Proof.
  unfold dec_leq, equiv, dec_equiv. rewrite (dec_cmp_opp a b).
  by destruct (dec_cmp a b).
Qed.
Lemma dec_equiv_leq (a b : Dec) : a ≡ b → dec_leq a b.
Proof. unfold equiv, dec_equiv, dec_leq. by intros ->. Qed.

#[export] Instance dec_equivalence : Equivalence (≡@{Dec}).
Proof.
  split.
  - intros a. apply dec_cmp_refl.
  - intros a b. unfold equiv, dec_equiv. rewrite (dec_cmp_opp a b).
    by intros ->.
  - intros a b c H1 H2. apply dec_leq_antisym.
    + eapply dec_leq_trans; apply dec_equiv_leq; eassumption.
    + unfold equiv, dec_equiv in *. unfold dec_leq in *.
      eapply (dec_leq_trans _ b); unfold dec_leq.
      * rewrite dec_cmp_opp, H2. done.
      * rewrite dec_cmp_opp, H1. done.
Qed.

#[export] Instance dec_leq_proper : Proper ((≡) ==> (≡) ==> iff) (@dec_leq DL).
Proof.
  assert (∀ a a' b b' : Dec, a ≡ a' → b ≡ b' → dec_leq a b → dec_leq a' b') as H.
  { intros a a' b b' Ha Hb Hab.
    apply (dec_leq_trans _ a); [by apply dec_equiv_leq|].
    apply (dec_leq_trans _ b); [done|by apply dec_equiv_leq]. }
  intros a a' Ha b b' Hb; split; apply H; done.
Qed.
End decimal_facts.

#[export] Hint Resolve dec_leq_refl : oi.

(** * time *)

Definition nanos_per_sec : Z := 1000000000.
Definition nanos_per_min : Z := 60 * nanos_per_sec.
(** [OffsetDateTime] spans the years -9999 to 9999. *)
Definition odt_min_nanos : Z := -377705116800 * nanos_per_sec.
Definition odt_max_nanos : Z := 253402300800 * nanos_per_sec - 1.
Definition odt_in_range (n : Z) : Prop := odt_min_nanos ≤ n ≤ odt_max_nanos.

(** [Duration] constructors. *)
Definition dur_seconds (s : Z) : Z := s * nanos_per_sec.
Definition dur_minutes (m : Z) : Z := m * nanos_per_min.
Definition dur_hours (h : Z) : Z := h * 60 * nanos_per_min.
Definition dur_millis (ms : Z) : Z := ms * 1000000.

Class TimeLib := {
  OffsetDateTime : Type;
  unix_timestamp_nanos : OffsetDateTime → Z;
  from_unix_timestamp_nanos : Z → result string OffsetDateTime;
  odt_second : OffsetDateTime → Z;
  odt_nanosecond : OffsetDateTime → Z;
  odt_add : OffsetDateTime → Z → run OffsetDateTime;
  odt_sub : OffsetDateTime → Z → run OffsetDateTime;
  odt_diff : OffsetDateTime → OffsetDateTime → Z;
  odt_cmp : OffsetDateTime → OffsetDateTime → comparison;
  rfc3339_parse : string → result string OffsetDateTime;
  rfc3339_format : OffsetDateTime → result string string;
  odt_to_string : OffsetDateTime → string;
}.

Definition odt_eqb `{TimeLib} (a b : OffsetDateTime) : bool :=
  match odt_cmp a b with Eq => true | _ => false end.
Definition odt_leb `{TimeLib} (a b : OffsetDateTime) : bool :=
  match odt_cmp a b with Gt => false | _ => true end.
Definition odt_ltb `{TimeLib} (a b : OffsetDateTime) : bool :=
  match odt_cmp a b with Lt => true | _ => false end.
(** Two date-times are equal when they are the same instant. *)
#[export] Instance odt_equiv `{TimeLib} : Equiv OffsetDateTime :=
  λ a b, unix_timestamp_nanos a = unix_timestamp_nanos b.

Class TimeLaws (TL : TimeLib) : Prop := {
  odt_nanos_range t : odt_in_range (unix_timestamp_nanos t);
  from_nanos_in n : odt_in_range n →
    ∃ t, from_unix_timestamp_nanos n = Ok t ∧ unix_timestamp_nanos t = n;
  from_nanos_out n : ¬ odt_in_range n →
    ∃ e, from_unix_timestamp_nanos n = Err e;
  odt_second_law t :
    odt_second t = (unix_timestamp_nanos t / nanos_per_sec) mod 60;
  odt_nanosecond_law t :
    odt_nanosecond t = unix_timestamp_nanos t mod nanos_per_sec;
  odt_add_in t d : odt_in_range (unix_timestamp_nanos t + d) →
    ∃ t', odt_add t d = Ret t' ∧
          unix_timestamp_nanos t' = unix_timestamp_nanos t + d;
  odt_add_out t d : ¬ odt_in_range (unix_timestamp_nanos t + d) →
    odt_add t d = Panic;
  odt_sub_add t d : odt_sub t d = odt_add t (- d);
  odt_diff_law a b :
    odt_diff a b = unix_timestamp_nanos a - unix_timestamp_nanos b;
  odt_cmp_law a b :
    odt_cmp a b = Z.compare (unix_timestamp_nanos a) (unix_timestamp_nanos b);
}.

Section time_facts.
Context `{TL : TimeLib, !TimeLaws TL}.
Implicit Types t u : OffsetDateTime.

#[export] Instance odt_equivalence : Equivalence (≡@{OffsetDateTime}).
Proof. unfold equiv, odt_equiv. split; red; intros; congruence. Qed.

Lemma odt_eqb_spec t u : odt_eqb t u = true ↔ t ≡ u.
Proof.
  unfold odt_eqb, equiv, odt_equiv. rewrite odt_cmp_law.
  destruct (Z.compare_spec (unix_timestamp_nanos t) (unix_timestamp_nanos u));
    split; intros; try done; lia.
Qed.
Lemma odt_eqb_refl t : odt_eqb t t = true.
Proof. by apply odt_eqb_spec. Qed.
Lemma odt_eqb_false t u : odt_eqb t u = false ↔ ¬ t ≡ u.
Proof. rewrite <- odt_eqb_spec. destruct (odt_eqb t u); naive_solver. Qed.
Lemma odt_leb_spec t u :
  odt_leb t u = true ↔ unix_timestamp_nanos t ≤ unix_timestamp_nanos u.
Proof.
  unfold odt_leb. rewrite odt_cmp_law.
  destruct (Z.compare_spec (unix_timestamp_nanos t) (unix_timestamp_nanos u));
    split; intros; try done; lia.
Qed.
Lemma odt_ltb_spec t u :
  odt_ltb t u = true ↔ unix_timestamp_nanos t < unix_timestamp_nanos u.
Proof.
  unfold odt_ltb. rewrite odt_cmp_law.
  destruct (Z.compare_spec (unix_timestamp_nanos t) (unix_timestamp_nanos u));
    split; intros; try done; lia.
Qed.

(** A date-time sum is defined exactly when the result is representable. *)
Lemma odt_add_ret t d t' :
  odt_add t d = Ret t' →
  unix_timestamp_nanos t' = unix_timestamp_nanos t + d.
Proof.
  intros H.
  destruct (decide (odt_min_nanos ≤ unix_timestamp_nanos t + d
                    ∧ unix_timestamp_nanos t + d ≤ odt_max_nanos)) as [Hr|Hr].
  - destruct (odt_add_in t d Hr) as (u & Hu & <-). congruence.
  - by rewrite (odt_add_out t d Hr) in H.
Qed.
End time_facts.

(** * serde_json *)

(** The accessors the code uses on untyped payloads: a missing key, an index
    out of range or a value of another kind is [None]. *)
Class JsonLib := {
  Value : Type;
  json_get : Value → string → option Value;
  json_as_str : Value → option string;
  json_as_array : Value → option (list Value);
  json_from_str : string → option Value;
}.

(** [v.get(k).and_then(|x| x.as_str())]. *)
Definition get_str `{JsonLib} (v : Value) (k : string) : option string :=
  json_get v k ≫= json_as_str.

(** [Decimal::from_str(s).ok()] and its composition with [get_str]. *)
Definition dec_parse_ok `{DecimalLib} (s : string) : option Dec := result_ok (dec_from_str s).

(** [OffsetDateTime::from_unix_timestamp_nanos(i128::from(ms) * 1_000_000)]. *)
Definition from_millis `{TimeLib} (ms : Z) : result string OffsetDateTime :=
  from_unix_timestamp_nanos (ms * 1000000).
(** The same read leniently, for positive times only. *)
Definition next_ts_of_millis `{TimeLib} (ms : Z) : option OffsetDateTime :=
  if 0 <? ms then result_ok (from_millis ms) else None.
(** [t.unix_timestamp_nanos() / 1_000_000], an [i128]. *)
Definition to_millis `{TimeLib} (t : OffsetDateTime) : Z := unix_timestamp_nanos t ÷ 1000000.
