(* ===== verification/Concrete.v ===== *)
(** A concrete instance of the third-party interfaces: integer decimals and
    date-times as nanosecond counts clamped to the representable range.  The
    theorems never use it; the concrete runs of the witnesses do, and it shows
    that the laws of [Externals.v] can be met. *)

From S2P Require Import Prelude Externals.
From Stdlib Require Import ZArith Lia String DecimalString Ascii.
From stdpp Require Import base option list strings.
Open Scope Z_scope.

(** Integer text of any length. *)
Definition z_of_string (s : string) : option Z :=
  match s with
  | String "-" s' => Z.opp <$> digits_value s'
  | _ => digits_value s
  end.

Definition z_dec_mul (a b : Z) : run Z :=
  if Z.abs (a * b) <? 2 ^ 96 then Ret (a * b) else Panic.
Definition z_from_str (s : string) : result string Z :=
  match z_of_string s with Some z => Ok z | None => Err "Invalid decimal"%string end.

#[export] Instance z_decimal : DecimalLib := {|
  Dec := Z; dec_cmp := Z.compare; dec_mul := z_dec_mul;
  dec_from_str := z_from_str; dec_to_string := int_to_string; dec_one := 1;
|}.

Definition odt_clamp (z : Z) : Z := Z.max odt_min_nanos (Z.min z odt_max_nanos).
Definition odt_ok (z : Z) : bool := (odt_min_nanos <=? z) && (z <=? odt_max_nanos).
Definition z_odt_add (t d : Z) : run Z :=
  if odt_ok (odt_clamp t + d) then Ret (odt_clamp t + d) else Panic.
Definition z_odt_from_nanos (n : Z) : result string Z :=
  if odt_ok n then Ok n else Err "timestamp out of range"%string.

#[export] Instance z_time : TimeLib := {|
  OffsetDateTime := Z;
  unix_timestamp_nanos := odt_clamp;
  from_unix_timestamp_nanos := z_odt_from_nanos;
  odt_second t := (odt_clamp t / nanos_per_sec) mod 60;
  odt_nanosecond t := odt_clamp t mod nanos_per_sec;
  odt_add := z_odt_add;
  odt_sub t d := z_odt_add t (- d);
  odt_diff a b := odt_clamp a - odt_clamp b;
  odt_cmp a b := Z.compare (odt_clamp a) (odt_clamp b);
  rfc3339_parse s := match z_of_string s with
                     | Some z => z_odt_from_nanos z
                     | None => Err "bad rfc3339"%string end;
  rfc3339_format t := Ok (int_to_string (odt_clamp t));
  odt_to_string t := int_to_string (odt_clamp t);
|}.

Lemma z_to_of_string z : z_of_string (int_to_string z) = Some z.
Proof.
  destruct z as [|p|p]; [done| |].
  - pose proof (digits_value_pos p) as H.
    change (int_to_string (Z.pos p)) with (NilZero.string_of_uint (Pos.to_uint p)).
    destruct (digits_no_sign _ _ H) as [_ Hm]. revert H Hm.
    generalize (NilZero.string_of_uint (Pos.to_uint p)). intros s H Hm.
    destruct s as [|[[][][][][][][][]] s']; try done. by destruct (Hm s').
  - change (int_to_string (Z.neg p))
      with (String "-" (NilZero.string_of_uint (Pos.to_uint p))).
    unfold z_of_string. by rewrite digits_value_pos.
Qed.

Lemma odt_ok_spec z : odt_ok z = true ↔ odt_in_range z.
Proof. unfold odt_ok, odt_in_range. rewrite andb_true_iff, !Z.leb_le. done. Qed.
Lemma odt_clamp_range z : odt_in_range (odt_clamp z).
Proof.
  unfold odt_in_range, odt_clamp, odt_min_nanos, odt_max_nanos, nanos_per_sec. lia.
Qed.
Lemma odt_clamp_id z : odt_in_range z → odt_clamp z = z.
Proof. unfold odt_in_range, odt_clamp. lia. Qed.

#[export] Instance z_decimal_laws : DecimalLaws z_decimal.
Proof.
  split; unfold dec_leq, equiv, dec_equiv; simpl.
  - apply Z.compare_refl.
  - intros a b. apply Z.compare_antisym.
  - intros a b c. intros H1 H2 H3. rewrite Z.compare_gt_iff in *. lia.
  - intros d. exists d. unfold z_from_str. rewrite z_to_of_string.
    split; [done|apply Z.compare_refl].
Qed.

#[export] Instance z_time_laws : TimeLaws z_time.
Proof.
  split; simpl; try done.
  - apply odt_clamp_range.
  - intros n Hn. exists n. unfold z_odt_from_nanos.
    rewrite (proj2 (odt_ok_spec n) Hn). split; [done|by apply odt_clamp_id].
  - intros n Hn. eexists. unfold z_odt_from_nanos.
    destruct (odt_ok n) eqn:E; [|done]. by apply odt_ok_spec in E.
  - intros t d Hr. exists (odt_clamp t + d). unfold z_odt_add.
    rewrite (proj2 (odt_ok_spec _) Hr). split; [done|by apply odt_clamp_id].
  - intros t d Hr. unfold z_odt_add. destruct (odt_ok _) eqn:E; [|done].
    by apply odt_ok_spec in E.
Qed.

(** JSON values as a tree. *)
#[warnings="-register-all"]
Inductive jvalue :=
| JNull
| JStr (s : string)
| JArr (l : list jvalue)
| JObj (kvs : list (string * jvalue)).

Definition jlookup (kvs : list (string * jvalue)) (k : string) : option jvalue :=
  snd <$> head (filter (λ kv, kv.1 = k) kvs).
#[export] Instance tree_json : JsonLib := {|
  Value := jvalue;
  json_get v k := match v with JObj kvs => jlookup kvs k | _ => None end;
  json_as_str v := match v with JStr s => Some s | _ => None end;
  json_as_array v := match v with JArr l => Some l | _ => None end;
  json_from_str s := if String.eqb s "null" then Some JNull else None;
|}.
