(* ===== verification/Domain.v ===== *)
(** The crate [oi-core]: exchanges, instruments, units, the error types, the
    value objects that flow through the platform, and the one-minute OHLC fold
    ([OiSnapshot::start_from_sample] and [observe]). *)

From Stdlib Require Import ZArith Lia String Ascii.
From stdpp Require Import base option list strings countable gmap.
From S2P Require Import Prelude Externals Concrete.
Open Scope Z_scope.
Open Scope oi_scope.

(** * Errors (error.rs) *)

(** [retry_after] is a [std::time::Duration], in nanoseconds. *)
Inductive ExchangeError :=
| Transient (source_kind message : string)
| RateLimited (retry_after : option Z)
| Auth (message : string)
| Schema (message : string)
| NotFound (message : string)
| Unexpected (message : string).

Definition is_retryable (e : ExchangeError) : bool :=
  match e with Transient _ _ | RateLimited _ => true | _ => false end.

Inductive CoreError :=
| CExchange (e : ExchangeError)
| CStorage (message : string)
| CConfig (message : string)
| CIo (message : string)
| COther (message : string).

(** * Exchanges (exchange.rs) *)

Inductive Exchange :=
| Binance | Bybit | Okx | BingX | KuCoin | Mexc | Bitget | Hyperliquid | Aster.

#[export] Instance exchange_eq_dec : EqDecision Exchange.
Proof. solve_decision. Defined.

Definition code (e : Exchange) : string :=
  match e with
  | Binance => "binance" | Bybit => "bybit" | Okx => "okx" | BingX => "bingx"
  | KuCoin => "kucoin" | Mexc => "mexc" | Bitget => "bitget"
  | Hyperliquid => "hyperliquid" | Aster => "aster"
  end.

Definition exchange_all : list Exchange :=
  [Binance; Bybit; Okx; BingX; KuCoin; Mexc; Bitget; Hyperliquid; Aster].

Definition exchange_from_str (s : string) : result string Exchange :=
  let l := to_ascii_lowercase s in
  if String.eqb l "binance" then Ok Binance
  else if String.eqb l "bybit" then Ok Bybit
  else if String.eqb l "okx" then Ok Okx
  else if String.eqb l "bingx" then Ok BingX
  else if String.eqb l "kucoin" then Ok KuCoin
  else if String.eqb l "mexc" then Ok Mexc
  else if String.eqb l "bitget" then Ok Bitget
  else if String.eqb l "hyperliquid" then Ok Hyperliquid
  else if String.eqb l "aster" then Ok Aster
  else Err ("unknown exchange: " +:+ l).

(** * Instruments (instrument.rs) *)

Record InstrumentId := mkId { exchange : Exchange; symbol : string }.

#[export] Instance instrument_eq_dec : EqDecision InstrumentId.
Proof. solve_decision. Defined.

Definition id_key (i : InstrumentId) : string :=
  code (exchange i) +:+ ":" +:+ symbol i.

Lemma exchange_all_complete e : e ∈ exchange_all.
Proof. destruct e; set_solver. Qed.
Lemma code_from_str e : exchange_from_str (code e) = Ok e.
Proof. by destruct e. Qed.

#[export] Instance exchange_countable : Countable Exchange.
Proof.
  refine (inj_countable code (λ s, result_ok (exchange_from_str s)) _).
  intros e. by rewrite code_from_str.
Defined.
#[export] Instance instrument_countable : Countable InstrumentId.
Proof.
  refine (inj_countable' (λ i, (exchange i, symbol i)) (λ p, mkId p.1 p.2) _).
  by intros [].
Defined.

(** * Units (unit.rs) *)

Inductive UnitKind := Coins | Usd | Contracts.
#[export] Instance unit_eq_dec : EqDecision UnitKind.
Proof. solve_decision. Defined.

(** * Price sources (price.rs) *)

Inductive PriceSource := Mark | Last | Index | Mid.

Section values.
Context {DL : DecimalLib} {TL : TimeLib}.

Definition to_coins (u : UnitKind) (native : Dec) (multiplier : option Dec)
  : run (option Dec) :=
  match u with
  | Coins => Ret (Some native)
  | Contracts => opt_run (λ m, dec_mul native m) multiplier
  | Usd => Ret None
  end.

Definition to_usd (u : UnitKind) (native : Dec) (multiplier price : option Dec)
  : run (option Dec) :=
  match u with
  | Usd => Ret (Some native)
  | Coins => opt_run (λ p, dec_mul native p) price
  | Contracts =>
      match multiplier, price with
      | Some m, Some p => Some <$> (nm ← dec_mul native m; dec_mul nm p)
      | _, _ => Ret None
      end
  end.

Record InstrumentMeta := mkMeta {
  meta_id : InstrumentId;
  base_asset : string;
  quote_asset : string;
  is_perpetual : bool;
  meta_native_unit : UnitKind;
  contract_multiplier : option Dec;
  price_tick : option Dec;
  qty_step : option Dec;
  active : bool;
}.

Record PriceQuote := mkQuote {
  q_instrument : InstrumentId;
  q_price : Dec;
  q_source : PriceSource;
  q_ts : OffsetDateTime;
}.

Record FundingBar := mkFunding {
  f_instrument : InstrumentId;
  f_bucket_ts : OffsetDateTime;
  f_recv_ts : OffsetDateTime;
  f_rate : Dec;
  f_next_funding_ts : option OffsetDateTime;
  f_interval_hours : option Z;
}.

Record FundingEvent := mkEvent {
  ev_instrument : InstrumentId;
  ev_settlement_ts : OffsetDateTime;
  ev_rate : Dec;
  ev_mark_price : option Dec;
}.

(** * Samples and bars (snapshot.rs) *)

Record RawOi := mkRaw {
  raw_instrument : InstrumentId;
  raw_value : Dec;
  raw_unit : UnitKind;
  raw_bucket_ts : OffsetDateTime;
  raw_recv_ts : OffsetDateTime;
  raw_price_hint : option PriceQuote;
}.

Record OiSample := mkSample {
  s_instrument : InstrumentId;
  s_bucket_ts : OffsetDateTime;
  s_recv_ts : OffsetDateTime;
  s_native_value : Dec;
  s_native_unit : UnitKind;
  s_oi_coins : option Dec;
  s_oi_usd : option Dec;
  s_price_used : option Dec;
}.

(** Panics when a unit conversion overflows. *)
Definition enrich (raw : RawOi) (meta : InstrumentMeta) (price_usd : option Dec)
  : run (result ExchangeError OiSample) :=
  if negb (bool_decide (raw_instrument raw = meta_id meta))
  then Ret (Err (Schema ("instrument mismatch: raw=" +:+ id_key (raw_instrument raw)
                         +:+ " meta=" +:+ id_key (meta_id meta))))
  else
    let mult := contract_multiplier meta in
    let price := opt_or (q_price <$> raw_price_hint raw) price_usd in
    oi_coins ← to_coins (raw_unit raw) (raw_value raw) mult;
    oi_usd ← to_usd (raw_unit raw) (raw_value raw) mult price;
    Ret (Ok {| s_instrument := raw_instrument raw;
               s_bucket_ts := raw_bucket_ts raw;
               s_recv_ts := raw_recv_ts raw;
               s_native_value := raw_value raw;
               s_native_unit := raw_unit raw;
               s_oi_coins := oi_coins;
               s_oi_usd := oi_usd;
               s_price_used := price |}).

Record OiSnapshot := mkSnapshot {
  instrument : InstrumentId;
  bucket_ts : OffsetDateTime;
  first_recv_ts : OffsetDateTime;
  last_recv_ts : OffsetDateTime;
  samples : Z;
  native_unit : UnitKind;
  native_open : Dec;
  native_high : Dec;
  native_low : Dec;
  native_close : Dec;
  oi_coins_open : option Dec;
  oi_coins_high : option Dec;
  oi_coins_low : option Dec;
  oi_coins_close : option Dec;
  oi_usd_open : option Dec;
  oi_usd_high : option Dec;
  oi_usd_low : option Dec;
  oi_usd_close : option Dec;
  price_used_close : option Dec;
}.

Definition start_from_sample (s : OiSample) : OiSnapshot :=
  {| instrument := s_instrument s;
     bucket_ts := s_bucket_ts s;
     first_recv_ts := s_recv_ts s;
     last_recv_ts := s_recv_ts s;
     samples := 1;
     native_unit := s_native_unit s;
     native_open := s_native_value s;
     native_high := s_native_value s;
     native_low := s_native_value s;
     native_close := s_native_value s;
     oi_coins_open := s_oi_coins s;
     oi_coins_high := s_oi_coins s;
     oi_coins_low := s_oi_coins s;
     oi_coins_close := s_oi_coins s;
     oi_usd_open := s_oi_usd s;
     oi_usd_high := s_oi_usd s;
     oi_usd_low := s_oi_usd s;
     oi_usd_close := s_oi_usd s;
     price_used_close := s_price_used s |}.

(** The four references [fold_optional] updates, as one tuple
    (open, high, low, close). *)
Definition OptOhlc : Type := option Dec * option Dec * option Dec * option Dec.

Definition fold_optional (st : OptOhlc) (incoming : option Dec) : OptOhlc :=
  match incoming with
  | None => st
  | Some v =>
      let '(open, high, low, close) := st in
      match open with
      | None => (Some v, Some v, Some v, Some v)
      | Some _ =>
          (open,
           match high with Some h => if dec_gtb v h then Some v else high | None => high end,
           match low with Some l => if dec_ltb v l then Some v else low | None => low end,
           Some v)
      end
  end.

(** [observe(&mut self, s)]: [Ok] carries the updated bar, [Err] leaves it. *)
Definition observe (b : OiSnapshot) (s : OiSample) : result ExchangeError OiSnapshot :=
  if negb (bool_decide (s_instrument s = instrument b))
     || negb (odt_eqb (s_bucket_ts s) (bucket_ts b))
  then Err (Schema ("observe: sample bucket " +:+ id_key (s_instrument s) +:+ "@"
              +:+ odt_to_string (s_bucket_ts s) +:+ " does not match bar "
              +:+ id_key (instrument b) +:+ "@" +:+ odt_to_string (bucket_ts b)))
  else
    let v := s_native_value s in
    let '(co, ch, cl, cc) :=
      fold_optional (oi_coins_open b, oi_coins_high b, oi_coins_low b, oi_coins_close b)
                    (s_oi_coins s) in
    let '(uo, uh, ul, uc) :=
      fold_optional (oi_usd_open b, oi_usd_high b, oi_usd_low b, oi_usd_close b)
                    (s_oi_usd s) in
    Ok {| instrument := instrument b;
          bucket_ts := bucket_ts b;
          first_recv_ts := first_recv_ts b;
          last_recv_ts := s_recv_ts s;
          samples := u32_saturating_add (samples b) 1;
          native_unit := native_unit b;
          native_open := native_open b;
          native_high := if dec_gtb v (native_high b) then v else native_high b;
          native_low := if dec_ltb v (native_low b) then v else native_low b;
          native_close := v;
          oi_coins_open := co; oi_coins_high := ch;
          oi_coins_low := cl; oi_coins_close := cc;
          oi_usd_open := uo; oi_usd_high := uh;
          oi_usd_low := ul; oi_usd_close := uc;
          price_used_close := match s_price_used s with
                              | Some p => Some p
                              | None => price_used_close b
                              end |}.

(** A bar and the samples that follow its first one. *)
Fixpoint observe_all (b : OiSnapshot) (l : list OiSample) : result ExchangeError OiSnapshot :=
  match l with
  | [] => Ok b
  | s :: l' => let? b' := observe b s in observe_all b' l'
  end.

(** * Reference description of a bar *)

Definition is_max (h : Dec) (vs : list Dec) : Prop :=
  h ∈ vs ∧ ∀ v, v ∈ vs → dec_leq v h.
Definition is_min (l : Dec) (vs : list Dec) : Prop :=
  l ∈ vs ∧ ∀ v, v ∈ vs → dec_leq l v.

(** [o], [h], [l], [c] are the first, a greatest, a least and the last of [vs]. *)
Definition ohlc_of (vs : list Dec) (o h l c : Dec) : Prop :=
  head vs = Some o ∧ last vs = Some c ∧ is_max h vs ∧ is_min l vs.

(** The same for a nullable column: it ranges over the samples that have a
    value, and all four are absent when none has. *)
Definition opt_ohlc_of (vs : list Dec) (st : OptOhlc) : Prop :=
  match vs with
  | [] => st = (None, None, None, None)
  | _ => ∃ o h l c, st = (Some o, Some h, Some l, Some c) ∧ ohlc_of vs o h l c
  end.

Record bar_of (ss : list OiSample) (b : OiSnapshot) : Prop := {
  bar_samples : samples b = Z.min (Z.of_nat (length ss)) u32_max;
  bar_first : first_recv_ts <$> Some b = s_recv_ts <$> head ss;
  bar_last : last_recv_ts <$> Some b = s_recv_ts <$> last ss;
  bar_native : ohlc_of (s_native_value <$> ss)
                 (native_open b) (native_high b) (native_low b) (native_close b);
  bar_coins : opt_ohlc_of (omap s_oi_coins ss)
                (oi_coins_open b, oi_coins_high b, oi_coins_low b, oi_coins_close b);
  bar_usd : opt_ohlc_of (omap s_oi_usd ss)
                (oi_usd_open b, oi_usd_high b, oi_usd_low b, oi_usd_close b);
  bar_price : price_used_close b = last (omap s_price_used ss);
}.
End values.

(** * Lemmas *)

(** A code holds no colon, so the key determines the exchange. *)
Lemma id_key_inj_helper e1 e2 s1 s2 :
  code e1 +:+ ":" +:+ s1 = code e2 +:+ ":" +:+ s2 → e1 = e2 ∧ s1 = s2.
Proof. destruct e1, e2; cbv [String.append code]; intros H; simplify_eq; done. Qed.

Section bar_lemmas.
Context {DL : DecimalLib} {TL : TimeLib} {DLaws : DecimalLaws DL} {TLaws : TimeLaws TL}.

Lemma is_max_snoc h vs v :
  is_max h vs → is_max (if dec_gtb v h then v else h) (vs ++ [v]).
Proof.
  intros [Hin Hle]. destruct (dec_gtb v h) eqn:E; split.
  - set_solver.
  - intros w [Hw|Hw%list_elem_of_singleton]%elem_of_app; [|subst; apply dec_leq_refl].
    eapply dec_leq_trans; [by apply Hle|]. by apply dec_gtb_true_le.
  - set_solver.
  - intros w [Hw|Hw%list_elem_of_singleton]%elem_of_app; [by apply Hle|subst].
    by apply dec_gtb_false.
Qed.

Lemma is_min_snoc l vs v :
  is_min l vs → is_min (if dec_ltb v l then v else l) (vs ++ [v]).
Proof.
  intros [Hin Hle]. destruct (dec_ltb v l) eqn:E; split.
  - set_solver.
  - intros w [Hw|Hw%list_elem_of_singleton]%elem_of_app; [|subst; apply dec_leq_refl].
    eapply dec_leq_trans; [by apply dec_ltb_true_le|]. by apply Hle.
  - set_solver.
  - intros w [Hw|Hw%list_elem_of_singleton]%elem_of_app; [by apply Hle|subst].
    by apply dec_ltb_false.
Qed.

Lemma ohlc_singleton v : ohlc_of [v] v v v v.
Proof.
  repeat split; try done; try apply list_elem_of_here;
    intros w Hw%list_elem_of_singleton; subst; apply dec_leq_refl.
Qed.

Lemma ohlc_snoc vs o h l c v :
  ohlc_of vs o h l c →
  ohlc_of (vs ++ [v]) o (if dec_gtb v h then v else h) (if dec_ltb v l then v else l) v.
Proof.
  intros (Ho & _ & Hh & Hl). repeat split.
  - by destruct vs.
  - by rewrite last_snoc.
  - by apply is_max_snoc.
  - by apply is_max_snoc.
  - by apply is_min_snoc.
  - by apply is_min_snoc.
Qed.

Lemma opt_ohlc_start o : opt_ohlc_of (option_list o) (o, o, o, o).
Proof.
  destruct o as [v|]; simpl; [|done]. exists v, v, v, v.
  split; [done|apply ohlc_singleton].
Qed.

Lemma opt_ohlc_snoc vs st o :
  opt_ohlc_of vs st → opt_ohlc_of (vs ++ option_list o) (fold_optional st o).
Proof.
  destruct o as [v|]; simpl; [|by rewrite app_nil_r].
  destruct vs as [|w vs]; simpl.
  - intros ->. exists v, v, v, v. split; [done|apply ohlc_singleton].
  - intros (o & h & l & c & -> & H).
    apply (ohlc_snoc _ _ _ _ _ v) in H.
    eexists _, _, _, _. split; [|apply H].
    by destruct (dec_gtb v h), (dec_ltb v l).
Qed.

(** Low ≤ open, close ≤ high, for any column that describes its samples. *)
Lemma ohlc_bounds vs o h l c :
  ohlc_of vs o h l c →
  dec_leq l o ∧ dec_leq o h ∧ dec_leq l c ∧ dec_leq c h ∧ dec_leq l h.
Proof.
  intros (Ho & Hc & [Hh Hmax] & [Hl Hmin]).
  assert (o ∈ vs) by (by apply head_Some_elem_of).
  assert (c ∈ vs) by (by apply last_Some_elem_of in Hc).
  auto 10.
Qed.

Lemma start_bar_of s : bar_of [s] (start_from_sample s).
Proof.
  split; simpl; try done.
  - apply ohlc_singleton.
  - destruct (s_oi_coins s); apply (opt_ohlc_start (Some _)) || done.
  - destruct (s_oi_usd s); apply (opt_ohlc_start (Some _)) || done.
  - by destruct (s_price_used s).
Qed.

Lemma omap_snoc {A B} (f : A → option B) l x :
  omap f (l ++ [x]) = omap f l ++ option_list (f x).
Proof. rewrite omap_app. simpl. by destruct (f x). Qed.

(** Same instrument and same minute. *)
Definition same_bar (b : OiSnapshot) (s : OiSample) : Prop :=
  s_instrument s = instrument b ∧ s_bucket_ts s ≡ bucket_ts b.

Lemma observe_accepts b s :
  same_bar b s ↔ ∃ b', observe b s = Ok b'.
Proof.
  unfold same_bar, observe. rewrite <- odt_eqb_spec.
  split.
  - intros [-> ->]. rewrite bool_decide_true by done. simpl.
    destruct (fold_optional _ _) as [[[]]], (fold_optional _ _) as [[[]]]. eauto.
  - intros [b' H]. case_bool_decide as Hi; simpl in H; [|done].
    by destruct (odt_eqb _ _).
Qed.

Lemma observe_keys b s b' :
  observe b s = Ok b' →
  same_bar b s ∧ instrument b' = instrument b ∧ bucket_ts b' = bucket_ts b
  ∧ native_unit b' = native_unit b ∧ last_recv_ts b' = s_recv_ts s
  ∧ samples b' = u32_saturating_add (samples b) 1.
Proof.
  intros H. split; [apply observe_accepts; eauto|].
  unfold observe in H. destruct (_ || _); [done|].
  destruct (fold_optional _ _) as [[[]]], (fold_optional _ _) as [[[]]].
  by injection H as <-.
Qed.

Lemma observe_bar_of ss b s b' :
  bar_of ss b → ss ≠ [] → observe b s = Ok b' → bar_of (ss ++ [s]) b'.
Proof.
  intros Hb Hne H. destruct (observe_keys _ _ _ H) as (_ & _ & _ & _ & Hl & Hs).
  pose proof (opt_ohlc_snoc _ _ (s_oi_coins s) (bar_coins _ _ Hb)) as Hco.
  pose proof (opt_ohlc_snoc _ _ (s_oi_usd s) (bar_usd _ _ Hb)) as Hus.
  unfold observe in H. destruct (_ || _); [done|].
  destruct (fold_optional _ (s_oi_coins s)) as [[[]]],
           (fold_optional _ (s_oi_usd s)) as [[[]]].
  injection H as <-. simpl in *. split; simpl.
  - rewrite length_app, (bar_samples _ _ Hb). simpl.
    unfold u32_saturating_add. lia.
  - rewrite head_app. pose proof (bar_first _ _ Hb) as Hf. simpl in Hf.
    destruct ss; [done|]. by rewrite Hf.
  - by rewrite last_snoc.
  - rewrite fmap_app. eapply ohlc_snoc, (bar_native _ _ Hb).
  - by rewrite omap_snoc.
  - by rewrite omap_snoc.
  - rewrite omap_snoc, (bar_price _ _ Hb).
    destruct (s_price_used s); simpl; by rewrite ?last_snoc, ?app_nil_r.
Qed.

Lemma observe_all_bar_of ss b l :
  bar_of ss b → ss ≠ [] → Forall (same_bar b) l →
  ∃ b', observe_all b l = Ok b' ∧ bar_of (ss ++ l) b'
        ∧ instrument b' = instrument b ∧ bucket_ts b' = bucket_ts b
        ∧ native_unit b' = native_unit b.
Proof.
  revert ss b. induction l as [|s l IH]; simpl; intros ss b Hb Hne Hl.
  - exists b. by rewrite app_nil_r.
  - apply Forall_cons in Hl as [Hs Hl].
    destruct (proj1 (observe_accepts b s) Hs) as [b1 H1]. rewrite H1.
    destruct (observe_keys _ _ _ H1) as (_ & Hi & Hbt & Hu & _).
    destruct (IH (ss ++ [s]) b1) as (b' & Ho & Hb' & Hi' & Hbt' & Hu').
    + by eapply observe_bar_of.
    + by destruct ss.
    + eapply Forall_impl; [exact Hl|]. intros x [Hx1 Hx2].
      split; [by rewrite Hi|by rewrite Hbt].
    + exists b'. rewrite <- (assoc_L (++) ss [s] l) in Hb'.
      split; [done|split; [done|]]. by rewrite Hi', Hbt', Hu'.
Qed.
End bar_lemmas.

#[export] Hint Resolve ohlc_singleton start_bar_of : oi.

(** * Properties *)

(** An exchange name parses, in any letter case, to exactly the venue whose
    stable code it is, and fails for every other text; so parsing inverts
    [code] and no two venues share a code. *)
Theorem exchange_from_str_iff s e :
  exchange_from_str s = Ok e ↔ to_ascii_lowercase s = code e.
Proof.
  unfold exchange_from_str. split.
  - intros H. repeat case_match; simplify_eq;
      match goal with E : String.eqb _ _ = true |- _ =>
        by apply String.eqb_eq in E end.
  - intros ->. by destruct e.
Qed.

(** Storage keys identify instruments: the key ["exchange:symbol"] is the
    same for two instruments only when exchange and symbol are the same,
    whatever characters the symbols hold. *)
Theorem id_key_injective i1 i2 : id_key i1 = id_key i2 ↔ i1 = i2.
Proof.
  split; [|by intros ->]. destruct i1, i2. unfold id_key. simpl.
  by intros [-> ->]%id_key_inj_helper.
Qed.

Section properties.
Context {DL : DecimalLib} {TL : TimeLib}.

(** What the enriched columns are, unit by unit. *)
Definition enriched_values (u : UnitKind) (v : Dec) (mult price coins usd : option Dec) : Prop :=
  match u with
  | Coins => coins = Some v ∧ opt_run (dec_mul v) price = Ret usd
  | Usd => coins = None ∧ usd = Some v
  | Contracts =>
      opt_run (dec_mul v) mult = Ret coins ∧
      match coins, price with
      | Some c, Some p => opt_run (dec_mul c) (Some p) = Ret usd
      | _, _ => usd = None
      end
  end.

(** Enrichment keeps the identity and the native value, takes the price
    published with the sample before the one supplied, converts contracts to
    coins with the multiplier and coins to dollars with the price (the dollar
    value is the coin value times the price for every unit but [Usd]), leaves
    a column empty exactly when an input for it is missing, and refuses a
    sample of another instrument. *)
Theorem enrich_correct raw meta price_usd s :
  enrich raw meta price_usd = Ret (Ok s) →
  raw_instrument raw = meta_id meta
  ∧ s_instrument s = raw_instrument raw
  ∧ s_bucket_ts s = raw_bucket_ts raw
  ∧ s_recv_ts s = raw_recv_ts raw
  ∧ s_native_value s = raw_value raw
  ∧ s_native_unit s = raw_unit raw
  ∧ s_price_used s = match raw_price_hint raw with
                     | Some q => Some (q_price q)
                     | None => price_usd
                     end
  ∧ enriched_values (raw_unit raw) (raw_value raw) (contract_multiplier meta)
      (s_price_used s) (s_oi_coins s) (s_oi_usd s).
Proof.
  unfold enrich. case_bool_decide as Hid; simpl; [|done].
  set (p := opt_or (q_price <$> raw_price_hint raw) price_usd).
  assert (Hp : p = match raw_price_hint raw with
                   | Some q => Some (q_price q) | None => price_usd end)
    by (by subst p; destruct (raw_price_hint raw)).
  destruct (to_coins _ _ _) as [c|] eqn:Ec; simpl; [|done].
  destruct (to_usd _ _ _ p) as [d|] eqn:Ed; simpl; [|done].
  intros [= <-]. simpl. rewrite <- Hp. do 7 (split; [done|]).
  destruct (raw_unit raw); simpl in *; [by simplify_eq..|].
  split; [done|]. destruct (contract_multiplier meta) as [m|]; simpl in *.
  - destruct (dec_mul (raw_value raw) m) as [nm|] eqn:E; simpl in *; [|done].
    injection Ec as <-. by destruct p; simpl in *; [|injection Ed as <-].
  - injection Ec as <-. by injection Ed as <-.
Qed.

Context {DLaws : DecimalLaws DL} {TLaws : TimeLaws TL}.

(** C9. The one-minute bar: folding any non-empty sequence of samples of one
    instrument and minute never fails, and yields the OHLC bar of the sequence:
    open and close are the first and the last value, high a greatest and low a
    least one; each nullable column does the same over the samples that carry
    a value and is empty when none does; the count is the number of samples,
    capped at the largest 32-bit value; the receive times are the first and
    the last; the closing price is the last one known. *)
Theorem bar_fold_correct s l :
  Forall (λ x, s_instrument x = s_instrument s ∧ s_bucket_ts x ≡ s_bucket_ts s) l →
  ∃ b, observe_all (start_from_sample s) l = Ok b
       ∧ instrument b = s_instrument s ∧ bucket_ts b = s_bucket_ts s
       ∧ native_unit b = s_native_unit s
       ∧ bar_of (s :: l) b
       ∧ dec_leq (native_low b) (native_open b) ∧ dec_leq (native_open b) (native_high b)
       ∧ dec_leq (native_low b) (native_close b) ∧ dec_leq (native_close b) (native_high b).
Proof.
  intros Hl.
  destruct (observe_all_bar_of [s] (start_from_sample s) l)
    as (b & Hb & Hbar & Hi & Ht & Hu); [apply start_bar_of|done|done|].
  exists b. do 4 (split; [done|]). split; [done|].
  pose proof (ohlc_bounds _ _ _ _ _ (bar_native _ _ Hbar)). naive_solver.
Qed.
End properties.

(** * Concrete runs *)

Definition ex_btc : InstrumentId := mkId Okx "BTC-USDT-SWAP".
Definition ex_meta : InstrumentMeta :=
  mkMeta ex_btc "BTC" "USDT" true Contracts (Some 10) None None true.
Definition ex_raw (v t : Z) : RawOi := mkRaw ex_btc v Contracts 0 t None.
Definition ex_sample (v t : Z) (usd : option Z) : OiSample :=
  mkSample ex_btc 0 t v Coins (Some v) usd usd.

Lemma enrich_correct_witness :
  enrich (ex_raw 7 1) ex_meta (Some 100) =
    Ret (Ok (mkSample ex_btc 0 1 7 Contracts (Some 70) (Some 7000) (Some 100)))
  ∧ enriched_values Contracts 7 (Some 10) (Some 100) (Some 70) (Some 7000).
Proof.
  assert (H : enrich (ex_raw 7 1) ex_meta (Some 100) =
    Ret (Ok (mkSample ex_btc 0 1 7 Contracts (Some 70) (Some 7000) (Some 100))))
    by reflexivity.
  split; [exact H|].
  destruct (enrich_correct _ _ _ _ H) as (_ & _ & _ & _ & _ & _ & _ & Hv). exact Hv.
Defined.

Lemma bar_fold_correct_witness :
  ∃ b, observe_all (start_from_sample (ex_sample 100 1 None))
         [ex_sample 130 2 (Some 5); ex_sample 90 3 None] = Ok b
       ∧ native_high b = 130 ∧ native_low b = 90 ∧ samples b = 3
       ∧ oi_usd_open b = Some 5 ∧ dec_leq (native_low b) (native_open b).
Proof.
  destruct (bar_fold_correct (ex_sample 100 1 None)
              [ex_sample 130 2 (Some 5); ex_sample 90 3 None])
    as (b & Hb & _ & _ & _ & _ & Hl & _).
  - repeat constructor.
  - exists b. split; [exact Hb|]. revert Hl.
    rewrite (unwrap_or_ok (start_from_sample (ex_sample 0 0 None)) _ _ Hb). intros Hl.
    do 4 (split; [reflexivity|]). exact Hl.
Defined.
