(* ===== verification/Buckets.v ===== *)
(** Minute alignment: [floor_to_minute] and [next_minute_after] of
    [common/bucket.rs], and the five private copies of the same truncation
    that other modules of the repository carry. *)

From Stdlib Require Import ZArith Lia String.
From stdpp Require Import base option list strings.
From S2P Require Import Prelude Externals Concrete.
Open Scope Z_scope.
Open Scope oi_scope.

Section buckets.
Context {TL : TimeLib}.

(** common/bucket.rs *)
Definition floor_to_minute (ts : OffsetDateTime) : run OffsetDateTime :=
  let seconds := odt_second ts in
  let nanos := odt_nanosecond ts in
  t ← odt_sub ts (dur_seconds seconds);
  odt_sub t nanos.

Definition next_minute_after (now : OffsetDateTime) : run OffsetDateTime :=
  f ← floor_to_minute now;
  odt_add f (dur_minutes 1).

(** scheduler.rs *)
Definition floor_minute (ts : OffsetDateTime) : run OffsetDateTime :=
  let sec := odt_second ts in
  let nanos := odt_nanosecond ts in
  t ← odt_sub ts (dur_seconds sec);
  odt_sub t nanos.

(** live.rs *)
Definition live_floor (ts : OffsetDateTime) : run OffsetDateTime :=
  let sec := odt_second ts in
  let nanos := odt_nanosecond ts in
  t ← odt_sub ts (dur_seconds sec);
  odt_sub t nanos.

(** backfill.rs *)
Definition backfill_floor (ts : OffsetDateTime) : run OffsetDateTime :=
  let sec := odt_second ts in
  let nanos := odt_nanosecond ts in
  t ← odt_sub ts (dur_seconds sec);
  odt_sub t nanos.

(** The start of the minute that holds [ts], as an instant. *)
Definition minute_start (n : Z) : Z := n / nanos_per_min * nanos_per_min.

(** [ts] is the first instant of its minute. *)
Definition aligned (ts : OffsetDateTime) : Prop :=
  unix_timestamp_nanos ts mod nanos_per_min = 0.

Context {TLaws : TimeLaws TL}.

Lemma minute_split n :
  minute_start n = n - (n / nanos_per_sec) mod 60 * nanos_per_sec - n mod nanos_per_sec.
Proof.
  unfold minute_start, nanos_per_min, nanos_per_sec.
  pose proof (Z.div_mod n 1000000000).
  pose proof (Z.div_mod (n / 1000000000) 60).
  rewrite (Z.mul_comm 60 1000000000), <- Z.div_div by lia. lia.
Qed.

Lemma minute_start_bounds n : minute_start n ≤ n < minute_start n + nanos_per_min.
Proof.
  unfold minute_start. pose proof (Z.div_mod n nanos_per_min).
  pose proof (Z.mod_pos_bound n nanos_per_min).
  unfold nanos_per_min, nanos_per_sec in *. lia.
Qed.

Lemma minute_start_aligned n : minute_start n mod nanos_per_min = 0.
Proof. unfold minute_start. by apply Z.mod_mul. Qed.

Lemma minute_start_id n : n mod nanos_per_min = 0 → minute_start n = n.
Proof.
  intros H. unfold minute_start. pose proof (Z.div_mod n nanos_per_min).
  unfold nanos_per_min, nanos_per_sec in *. lia.
Qed.

Lemma minute_start_in_range n : odt_in_range n → odt_in_range (minute_start n).
Proof.
  intros [H1 H2]. pose proof (minute_start_bounds n). split; [|lia].
  replace odt_min_nanos with (minute_start odt_min_nanos) by reflexivity.
  unfold minute_start. apply Z.mul_le_mono_nonneg_r; [done|].
  by apply Z.div_le_mono.
Qed.

Lemma floor_to_minute_run ts :
  ∃ f, floor_to_minute ts = Ret f
       ∧ unix_timestamp_nanos f = minute_start (unix_timestamp_nanos ts).
Proof.
  unfold floor_to_minute. rewrite odt_second_law, odt_nanosecond_law.
  set (n := unix_timestamp_nanos ts).
  pose proof (odt_nanos_range ts) as Hn. fold n in Hn.
  pose proof (minute_start_in_range n Hn) as [Hf1 _].
  pose proof (minute_split n) as Hs.
  pose proof (Z.mod_pos_bound (n / nanos_per_sec) 60 ltac:(lia)).
  pose proof (Z.mod_pos_bound n nanos_per_sec ltac:(done)).
  rewrite odt_sub_add.
  destruct (odt_add_in ts (- dur_seconds ((n / nanos_per_sec) mod 60)))
    as (t & -> & Ht); fold n.
  { unfold dur_seconds, odt_in_range in *. unfold nanos_per_sec in *. lia. }
  fold n in Ht. simpl. rewrite odt_sub_add.
  destruct (odt_add_in t (- (n mod nanos_per_sec))) as (f & -> & Hf).
  { rewrite Ht. unfold dur_seconds, odt_in_range in *. unfold nanos_per_sec in *. lia. }
  exists f. split; [done|]. rewrite Hf, Ht, Hs. unfold dur_seconds. lia.
Qed.

(** The private copies are the same function. *)
Lemma floor_minute_eq ts : floor_minute ts = floor_to_minute ts.
Proof. done. Qed.
Lemma live_floor_eq ts : live_floor ts = floor_to_minute ts.
Proof. done. Qed.
Lemma backfill_floor_eq ts : backfill_floor ts = floor_to_minute ts.
Proof. done. Qed.

Lemma floor_to_minute_ret ts f :
  floor_to_minute ts = Ret f →
  unix_timestamp_nanos f = minute_start (unix_timestamp_nanos ts).
Proof. destruct (floor_to_minute_run ts) as (g & -> & Hg). by intros [= <-]. Qed.

(** Truncation to the minute is total (no date in the representable range
    makes it panic), yields the aligned instant at or before the given one and
    less than a minute away, and does nothing to an aligned instant; the next
    tick is aligned, strictly later and at most a minute away. *)
Theorem floor_to_minute_correct ts :
  ∃ f, floor_to_minute ts = Ret f
       ∧ aligned f
       ∧ unix_timestamp_nanos f ≤ unix_timestamp_nanos ts
       ∧ unix_timestamp_nanos ts < unix_timestamp_nanos f + nanos_per_min
       ∧ (aligned ts → f ≡ ts)
       ∧ (∃ g, floor_to_minute f = Ret g ∧ g ≡ f)
       ∧ (∀ nx, next_minute_after ts = Ret nx →
            aligned nx ∧ unix_timestamp_nanos ts < unix_timestamp_nanos nx
            ∧ unix_timestamp_nanos nx ≤ unix_timestamp_nanos ts + nanos_per_min).
Proof.
  destruct (floor_to_minute_run ts) as (f & Hf & Hn). exists f.
  destruct (floor_to_minute_run f) as (g & Hg & Hgn).
  pose proof (minute_start_bounds (unix_timestamp_nanos ts)).
  pose proof (minute_start_aligned (unix_timestamp_nanos ts)) as Ha.
  split; [done|]. unfold aligned. rewrite Hn. do 3 (split; [lia||done|]).
  split; [intros E; unfold equiv, odt_equiv; by rewrite Hn, minute_start_id|].
  split.
  - exists g. split; [done|]. unfold equiv, odt_equiv.
    by rewrite Hgn, Hn, (minute_start_id (minute_start _)).
  - intros nx. unfold next_minute_after. rewrite Hf. simpl.
    intros Hx%odt_add_ret. unfold dur_minutes in Hx.
    rewrite Hx, Hn, Z.mul_1_l. split; [|lia].
    by rewrite <- Zplus_mod_idemp_l, Ha, Z.add_0_l, Z_mod_same_full.
Qed.
End buckets.

Lemma floor_to_minute_correct_witness :
  ∃ f, floor_to_minute (TL:=z_time) 90000000007 = Ret f
       ∧ f = 60000000000 ∧ aligned (TL:=z_time) f.
Proof.
  destruct (floor_to_minute_correct (TL:=z_time) 90000000007) as (f & Hf & Ha & _).
  exists f. split; [exact Hf|]. split; [|exact Ha].
  rewrite (run_or_ret 0 _ _ Hf). reflexivity.
Defined.
