(* ===== verification/Scheduler.v ===== *)
(** The minute scheduler of [oi-collector/src/scheduler.rs]: a state carrying
    the last bucket handed out, and one [next] step per collector iteration.
    The wall clock is the argument of each step; the sleep the code performs is
    returned as a number of milliseconds. *)

From Stdlib Require Import ZArith Lia String.
From stdpp Require Import base option list strings.
From S2P Require Import Prelude Externals Concrete Buckets.
Open Scope Z_scope.
Open Scope oi_scope.

Section scheduler.
Context {TL : TimeLib}.

Record MinuteTick := mkTick { tick_bucket_ts : OffsetDateTime; late : bool }.

Record MinuteScheduler := mkSched { offset : Z; last_bucket : option OffsetDateTime }.

(** [offset_secs] is [offset.as_secs()], an unsigned 64-bit count. *)
Definition scheduler_new (offset_secs : Z) : MinuteScheduler :=
  {| offset := dur_seconds (as_i64 offset_secs); last_bucket := None |}.

Definition plan (last_bucket : option OffsetDateTime) (now : OffsetDateTime) (offset : Z)
  : run (OffsetDateTime * Z) :=
  target ← match last_bucket with
           | Some b => odt_add b (dur_minutes 1)
           | None => f ← floor_minute now; odt_sub f (dur_minutes 1)
           end;
  closed ← odt_add target (dur_minutes 1);
  deadline ← odt_add closed offset;
  Ret (target, odt_diff deadline now).

(** [wait.whole_milliseconds().max(0)]: truncated towards zero. *)
Definition sleep_millis (wait : Z) : Z := Z.max (wait ÷ 1000000) 0.

Definition sched_next (s : MinuteScheduler) (now : OffsetDateTime)
  : run (MinuteTick * Z * MinuteScheduler) :=
  '(target, wait) ← plan (last_bucket s) now (offset s);
  let is_late := (wait <=? 0) && bool_decide (is_Some (last_bucket s)) in
  ms ← (if 0 <? wait then Ret (sleep_millis wait)
        else if is_late then
          closed ← odt_add target (dur_minutes 1);
          deadline ← odt_add closed (offset s);
          let behind := odt_diff now deadline in
          Ret 0
        else Ret 0);
  Ret ({| tick_bucket_ts := target; late := is_late |}, ms,
       {| offset := offset s; last_bucket := Some target |}).

(** The collector loop's use of it: one clock reading per iteration. *)
Fixpoint sched_run (s : MinuteScheduler) (nows : list OffsetDateTime)
  : run (list (MinuteTick * Z) * MinuteScheduler) :=
  match nows with
  | [] => Ret ([], s)
  | now :: nows' =>
      '(tick, ms, s1) ← sched_next s now;
      '(rest, s2) ← sched_run s1 nows';
      Ret ((tick, ms) :: rest, s2)
  end.

(** The bucket the next step is about, as an instant. *)
Definition next_target (s : MinuteScheduler) (now : OffsetDateTime) : Z :=
  match last_bucket s with
  | Some b => unix_timestamp_nanos b + nanos_per_min
  | None => minute_start (unix_timestamp_nanos now) - nanos_per_min
  end.

(** How far [now] is past the moment the next bucket is due. *)
Definition lag (s : MinuteScheduler) (now : OffsetDateTime) : Z :=
  unix_timestamp_nanos now - (next_target s now + nanos_per_min + offset s).

(** Every iteration's work (from wake-up to the next call) leaves at least
    [slack] of the minute unused. *)
Fixpoint paced (slack : Z) (nows : list OffsetDateTime) (ticks : list (MinuteTick * Z)) : Prop :=
  match nows, ticks with
  | now :: ((now' :: _) as nows'), (_, ms) :: ticks' =>
      unix_timestamp_nanos now'
        ≤ unix_timestamp_nanos now + dur_millis ms + (nanos_per_min - slack)
      ∧ paced slack nows' ticks'
  | _, _ => True
  end.

Context {TLaws : TimeLaws TL}.

Lemma plan_ret s now target wait :
  plan (last_bucket s) now (offset s) = Ret (target, wait) →
  unix_timestamp_nanos target = next_target s now ∧ wait = - lag s now.
Proof.
  unfold plan, lag, next_target, dur_minutes. intros H.
  destruct (match last_bucket s with Some b => _ | None => _ end) as [t|] eqn:Et;
    simpl in H; [|done].
  destruct (odt_add t _) as [c|] eqn:Ec; simpl in H; [|done].
  destruct (odt_add c _) as [d|] eqn:Ed; simpl in H; [|done].
  injection H as <- <-. rewrite odt_diff_law.
  apply odt_add_ret in Ec, Ed.
  assert (Ht : unix_timestamp_nanos t = next_target s now).
  { unfold next_target. destruct (last_bucket s) as [b|].
    - apply odt_add_ret in Et. lia.
    - destruct (floor_minute now) as [f|] eqn:Ef; simpl in Et; [|done].
      rewrite floor_minute_eq in Ef. apply floor_to_minute_ret in Ef.
      rewrite odt_sub_add in Et. apply odt_add_ret in Et. lia. }
  unfold next_target in Ht. split; [done|lia].
Qed.

Lemma sched_next_ret s now tick ms s' :
  sched_next s now = Ret (tick, ms, s') →
  unix_timestamp_nanos (tick_bucket_ts tick) = next_target s now
  ∧ (late tick = true ↔ 0 ≤ lag s now ∧ is_Some (last_bucket s))
  ∧ ms = sleep_millis (- lag s now)
  ∧ s' = {| offset := offset s; last_bucket := Some (tick_bucket_ts tick) |}.
Proof.
  unfold sched_next. destruct (plan _ _ _) as [[target wait]|] eqn:Hp; simpl; [|done].
  apply plan_ret in Hp as [Ht ->].
  destruct (_ : run Z) as [m|] eqn:Hm; simpl; [|done].
  intros [= <- <- <-]. simpl. split; [done|]. split.
  { rewrite andb_true_iff, Z.leb_le, bool_decide_eq_true. by split; intros [? ?]; split; lia || done. }
  split; [|done]. destruct (Z.ltb_spec 0 (- lag s now)); [by injection Hm as <-|].
  assert (sleep_millis (- lag s now) = 0) as ->.
  { unfold sleep_millis. apply Z.max_r.
    rewrite <- (Z.opp_involutive (- lag s now)), Z.quot_opp_l by lia.
    pose proof (Z.quot_pos (- - lag s now) 1000000). lia. }
  destruct (_ && _); [|by injection Hm as <-].
  destruct (odt_add target _); simpl in Hm; [|done].
  destruct (odt_add _ _); simpl in Hm; [|done]. by injection Hm as <-.
Qed.

Lemma next_target_some s now b :
  last_bucket s = Some b → next_target s now = unix_timestamp_nanos b + nanos_per_min.
Proof. unfold next_target. by intros ->. Qed.

(** A step succeeds when the instants it computes are representable. *)
Lemma sched_next_total s now :
  odt_in_range (next_target s now) →
  odt_in_range (next_target s now + nanos_per_min) →
  odt_in_range (next_target s now + nanos_per_min + offset s) →
  ∃ r, sched_next s now = Ret r.
Proof.
  intros H1 H2 H3. unfold sched_next, plan, dur_minutes.
  assert (∃ t, match last_bucket s with
               | Some b => odt_add b (1 * nanos_per_min)
               | None => f ← floor_minute now; odt_sub f (1 * nanos_per_min)
               end = Ret t ∧ unix_timestamp_nanos t = next_target s now)
    as (t & -> & Ht).
  { unfold next_target in *. destruct (last_bucket s) as [b|].
    - destruct (odt_add_in b (1 * nanos_per_min)) as (t & ? & ?); [done|].
      exists t. split; [done|lia].
    - rewrite floor_minute_eq.
      destruct (floor_to_minute_run now) as (f & -> & Hf). simpl.
      rewrite odt_sub_add.
      destruct (odt_add_in f (- (1 * nanos_per_min))) as (t & ? & ?).
      + by rewrite Hf.
      + exists t. split; [done|lia]. }
  simpl. destruct (odt_add_in t (1 * nanos_per_min)) as (c & Hc & Hcn).
  { by rewrite Ht. }
  rewrite Hc. simpl. destruct (odt_add_in c (offset s)) as (d & Hd & Hdn).
  { by rewrite Hcn, Ht. }
  rewrite Hd. simpl. rewrite Hc. simpl. rewrite Hd. simpl.
  destruct (0 <? _); simpl; [eauto|]. destruct (_ && _); simpl; eauto.
Qed.

Lemma sched_run_cons s now nows ticks s' :
  sched_run s (now :: nows) = Ret (ticks, s') →
  ∃ tick ms s1 rest, sched_next s now = Ret (tick, ms, s1)
    ∧ sched_run s1 nows = Ret (rest, s') ∧ ticks = (tick, ms) :: rest.
Proof.
  simpl. destruct (sched_next s now) as [[[tick ms] s1]|] eqn:E1; simpl; [|done].
  destruct (sched_run s1 nows) as [[rest s2]|] eqn:E2; simpl; [|done].
  intros [= <- <-]. eauto 10.
Qed.

Lemma sched_run_buckets s nows ticks s' now0 :
  sched_run s nows = Ret (ticks, s') → head nows = Some now0 →
  ∀ k tick ms, ticks !! k = Some (tick, ms) →
  unix_timestamp_nanos (tick_bucket_ts tick)
    = next_target s now0 + Z.of_nat k * nanos_per_min.
Proof.
  revert s ticks now0. induction nows as [|now nows IH]; [done|].
  intros s ticks now0 H [= <-].
  destruct (sched_run_cons _ _ _ _ _ H) as (t0 & m0 & s1 & rest & Hn & Hr & ->).
  destruct (sched_next_ret _ _ _ _ _ Hn) as (Ht & _ & _ & ->).
  intros [|k] tick ms; simpl; [intros [= <- <-]; lia|]. intros Hk.
  destruct nows as [|now' nows]; [by injection Hr as <-; rewrite lookup_nil in Hk|].
  rewrite (IH _ _ now' Hr eq_refl _ _ _ Hk).
  rewrite (next_target_some _ _ (tick_bucket_ts t0)) by done. lia.
Qed.

Lemma sched_run_length s nows ticks s' :
  sched_run s nows = Ret (ticks, s') → length ticks = length nows.
Proof.
  revert s ticks. induction nows as [|now nows IH]; intros s ticks.
  - by intros [= <- <-].
  - intros (t0 & m0 & s1 & rest & _ & Hr & ->)%sched_run_cons. simpl.
    by rewrite (IH _ _ Hr).
Qed.

Lemma sched_run_total s nows now0 :
  head nows = Some now0 → 0 ≤ offset s →
  odt_min_nanos ≤ next_target s now0 →
  next_target s now0 + Z.of_nat (length nows) * nanos_per_min + offset s ≤ odt_max_nanos →
  ∃ r, sched_run s nows = Ret r.
Proof.
  revert s now0. induction nows as [|now nows IH]; [done|].
  intros s now0 [= <-] Ho Hlo Hhi. cbn [length] in Hhi.
  assert (0 < nanos_per_min) by done.
  destruct (sched_next_total s now) as [[[t m] s1] Hs]; [unfold odt_in_range; lia..|].
  simpl. rewrite Hs. simpl. destruct (sched_next_ret _ _ _ _ _ Hs) as (Ht & _ & _ & ->).
  destruct nows as [|now' nows]; [simpl; eauto|].
  pose proof (next_target_some (mkSched (offset s) (Some (tick_bucket_ts t))) now'
                _ eq_refl) as Hnt.
  destruct (IH (mkSched (offset s) (Some (tick_bucket_ts t))) now') as [[rest s2] ->];
    [done|done|lia|cbn [offset] in *; lia|]. simpl. eauto.
Qed.

(** C10. The no-skip invariant.  However long the iterations take, a scheduler
    started fresh hands out the minute before the first clock reading's, then
    every following minute exactly once: the k-th tick is the first bucket plus
    k minutes, each aligned.  The whole run succeeds as long as the instants it
    needs are representable dates. *)
Theorem scheduler_no_skip offset_secs nows now0 :
  head nows = Some now0 → 0 ≤ offset_secs < 2 ^ 32 →
  odt_min_nanos + nanos_per_min ≤ minute_start (unix_timestamp_nanos now0) →
  minute_start (unix_timestamp_nanos now0) + Z.of_nat (length nows) * nanos_per_min
    + dur_seconds offset_secs ≤ odt_max_nanos →
  ∃ ticks s', sched_run (scheduler_new offset_secs) nows = Ret (ticks, s')
    ∧ length ticks = length nows
    ∧ ∀ k tick ms, ticks !! k = Some (tick, ms) →
        unix_timestamp_nanos (tick_bucket_ts tick)
          = minute_start (unix_timestamp_nanos now0) - nanos_per_min
            + Z.of_nat k * nanos_per_min
        ∧ aligned (tick_bucket_ts tick).
Proof.
  intros Hh Ho Hlo Hhi.
  assert (Hoff : offset (scheduler_new offset_secs) = dur_seconds offset_secs).
  { simpl. rewrite as_i64_small; [done|]. unfold i64_min, i64_max. lia. }
  assert (0 < nanos_per_min) by done.
  destruct (sched_run_total (scheduler_new offset_secs) nows now0) as [[ticks s'] Hr].
  - done.
  - rewrite Hoff. unfold dur_seconds, nanos_per_sec. lia.
  - unfold next_target. simpl. lia.
  - unfold next_target in *. rewrite Hoff. cbn [last_bucket scheduler_new]. lia.
  - exists ticks, s'. split; [done|]. split; [by eapply sched_run_length|].
    intros k tick ms Hk.
    pose proof (sched_run_buckets _ _ _ _ _ Hr Hh _ _ _ Hk) as Hb.
    unfold next_target in Hb. simpl in Hb. split; [done|].
    unfold aligned. rewrite Hb.
    replace (_ - _ + _) with
      (minute_start (unix_timestamp_nanos now0) + (Z.of_nat k - 1) * nanos_per_min) by lia.
    rewrite Z.mod_add by done. apply minute_start_aligned.
Qed.

(** Only closed minutes are handed out: the loop wakes (the clock reading
    plus the sleep) less than one millisecond before the bucket's minute has
    been over for [offset], or later; and a tick is flagged late exactly when a
    previous bucket exists and no waiting was left. *)
Theorem scheduler_waits s now tick ms s' :
  sched_next s now = Ret (tick, ms, s') →
  0 ≤ ms
  ∧ unix_timestamp_nanos (tick_bucket_ts tick) + nanos_per_min + offset s
      < unix_timestamp_nanos now + dur_millis ms + dur_millis 1
  ∧ (0 < ms → unix_timestamp_nanos now + dur_millis ms
       ≤ unix_timestamp_nanos (tick_bucket_ts tick) + nanos_per_min + offset s)
  ∧ (late tick = true ↔
       is_Some (last_bucket s) ∧
       unix_timestamp_nanos (tick_bucket_ts tick) + nanos_per_min + offset s
         ≤ unix_timestamp_nanos now).
Proof.
  intros (Ht & Hl & -> & _)%sched_next_ret.
  unfold lag in *. rewrite <- Ht in *. clear Ht.
  set (d := unix_timestamp_nanos now - _) in *.
  assert (Hd : unix_timestamp_nanos (tick_bucket_ts tick) + nanos_per_min + offset s
               = unix_timestamp_nanos now - d) by (subst d; lia).
  unfold sleep_millis, dur_millis. rewrite Hd.
  pose proof (Z.quot_rem' (- d) 1000000).
  split; [lia|]. destruct (Z.le_gt_cases 0 d) as [Hge|Hlt].
  - pose proof (Z.quot_opp_l d 1000000 ltac:(lia)).
    pose proof (Z.quot_pos d 1000000 Hge ltac:(lia)).
    split; [lia|]. split; [lia|]. rewrite Hl. naive_solver lia.
  - pose proof (Z.rem_bound_pos (- d) 1000000 ltac:(lia) ltac:(lia)).
    split; [lia|]. split; [lia|]. rewrite Hl. naive_solver lia.
Qed.

(** C23. The schedule heals itself: if every iteration leaves at least [slack]
    of its minute unused, then a scheduler that is [l] behind is back on time
    after fewer than [l / slack + 2] ticks. *)
Theorem scheduler_catches_up s b nows now0 ticks s' slack :
  last_bucket s = Some b → 0 < slack →
  sched_run s nows = Ret (ticks, s') → head nows = Some now0 →
  paced slack nows ticks →
  lag s now0 < (Z.of_nat (length nows) - 1) * slack →
  ∃ k tick ms, ticks !! k = Some (tick, ms) ∧ late tick = false.
Proof.
  intros Hb Hs. revert s b Hb now0 ticks.
  induction nows as [|now nows IH]; [done|].
  intros s b Hb now0 ticks H [= <-] Hp Hl. cbn [length] in Hl.
  destruct (sched_run_cons _ _ _ _ _ H) as (t0 & m0 & s1 & rest & Hn & Hr & ->).
  destruct (late t0) eqn:Elate; [|by exists 0%nat, t0, m0].
  destruct (sched_next_ret _ _ _ _ _ Hn) as (Ht & Hlate & Hms & ->).
  destruct (proj1 Hlate Elate) as [Hlag _].
  destruct nows as [|now' nows]; [simpl in Hl; lia|].
  destruct Hp as [Hpace Hp].
  assert (m0 = 0) as ->.
  { rewrite Hms. unfold sleep_millis. apply Z.max_r.
    rewrite Z.quot_opp_l by lia. pose proof (Z.quot_pos (lag s now) 1000000). lia. }
  destruct (IH (mkSched (offset s) (Some (tick_bucket_ts t0))) (tick_bucket_ts t0)
              eq_refl now' rest) as (k & tick & ms & Hk & Hkl); [done|done|done| |].
  - revert Hl Hpace. unfold lag.
    rewrite (next_target_some (mkSched _ (Some (tick_bucket_ts t0))) now' _ eq_refl), Ht.
    cbn [offset length]. unfold dur_millis. lia.
  - by exists (S k), tick, ms.
Qed.
End scheduler.

(** * Concrete runs: three iterations, the second of which overruns. *)

Definition sec (s : Z) : Z := s * nanos_per_sec.
Definition ex_clock : list Z := [sec 605; sec 720; sec 725].

Lemma scheduler_no_skip_witness :
  ∃ ticks s', sched_run (TL:=z_time) (scheduler_new 2) ex_clock = Ret (ticks, s')
    ∧ (λ t, (tick_bucket_ts t.1, late t.1, t.2)) <$> ticks
      = [(sec 540, false, 0); (sec 600, true, 0); (sec 660, true, 0)]
    ∧ length ticks = 3%nat.
Proof.
  destruct (scheduler_no_skip (TL:=z_time) 2 ex_clock (sec 605))
    as (ticks & s' & Hr & Hlen & _);
    [reflexivity|lia|vm_compute; discriminate|vm_compute; discriminate|].
  exists ticks, s'. split; [exact Hr|]. split; [|exact Hlen].
  change ticks with ((ticks, s').1). rewrite (run_or_ret ([], s') _ _ Hr). reflexivity.
Defined.

Definition ex_sched (b : Z) : MinuteScheduler :=
  mkSched (TL:=z_time) (sec 2) (Some (sec b)).

Lemma scheduler_waits_witness :
  ∃ tick ms s', sched_next (TL:=z_time) (ex_sched 540) (sec 630)
                = Ret (tick, ms, s')
    ∧ ms = 32000 ∧ sec 600 + nanos_per_min + sec 2 < sec 630 + dur_millis ms + dur_millis 1.
Proof.
  do 3 eexists. split; [reflexivity|]. split; [reflexivity|].
  apply (scheduler_waits (TL:=z_time) (ex_sched 540) (sec 630)
           (mkTick (TL:=z_time) (sec 600) false) 32000
           (ex_sched 600)).
  reflexivity.
Defined.

(** 30 seconds behind, each iteration taking 40 seconds: on time again after
    at most three ticks. *)
Lemma scheduler_catches_up_witness :
  ∃ ticks s', sched_run (TL:=z_time) (ex_sched 540)
                [sec 692; sec 732; sec 772] = Ret (ticks, s')
    ∧ ∃ k tick ms, ticks !! k = Some (tick, ms) ∧ late tick = false.
Proof.
  do 2 eexists. split; [reflexivity|].
  eapply (scheduler_catches_up (TL:=z_time) (ex_sched 540) (sec 540)
           [sec 692; sec 732; sec 772] (sec 692) _ _ (sec 20));
    [reflexivity|reflexivity|reflexivity|reflexivity| |reflexivity].
  vm_compute. repeat split; discriminate.
Defined.
