(* ===== verification/Aggregator.v ===== *)
(** The intra-minute aggregator of [oi-collector/src/aggregator.rs]: a map from
    instruments to running bars.  The iteration order of the concurrent map is
    unspecified, so the operations that walk it take the order as an argument
    and the theorems hold for every one. *)

From Stdlib Require Import ZArith Lia String.
From stdpp Require Import base option list strings gmap.
From S2P Require Import Prelude Externals Concrete Domain.
Open Scope Z_scope.
Open Scope oi_scope.

(** [OiAggregator.bars] *)
Abbreviation OiAggregator := (gmap InstrumentId OiSnapshot).
(** The specification's state: the samples of each instrument's open minute. *)
Abbreviation SampleLog := (gmap InstrumentId (list OiSample)).

Section aggregator.
Context {DL : DecimalLib} {TL : TimeLib}.

Definition aggregator_new : OiAggregator := ∅.

(** [observe(&self, sample)]: the bar after the fold and the new map. *)
Definition agg_observe (bars : OiAggregator) (sample : OiSample)
  : OiSnapshot * OiAggregator :=
  let k := s_instrument sample in
  let '(entry, bars) :=
    match bars !! k with
    | Some entry => (entry, bars)
    | None => (start_from_sample sample, <[k := start_from_sample sample]> bars)
    end in
  if odt_eqb (bucket_ts entry) (s_bucket_ts sample) then
    if (samples entry =? 1) && odt_eqb (last_recv_ts entry) (s_recv_ts sample)
    then (entry, bars)
    else match observe entry sample with
         | Ok entry' => (entry', <[k := entry']> bars)
         | Err _ => (entry, bars)
         end
  else
    let entry' := start_from_sample sample in
    (entry', <[k := entry']> bars).

Definition current (bars : OiAggregator) (i : InstrumentId) : option OiSnapshot :=
  bars !! i.

(** The keys the first phase of [flush_through] collects. *)
Definition flush_keys (order : list (InstrumentId * OiSnapshot)) (up_to : OffsetDateTime)
  : list InstrumentId :=
  (filter (λ r, odt_leb (bucket_ts r.2) up_to = true) order).*1.

(** The second phase: remove each key and collect the bars. *)
Fixpoint remove_keys (bars : OiAggregator) (keys : list InstrumentId)
  : list OiSnapshot * OiAggregator :=
  match keys with
  | [] => ([], bars)
  | k :: keys' =>
      match bars !! k with
      | Some bar =>
          let '(out, bars') := remove_keys (delete k bars) keys' in (bar :: out, bars')
      | None => remove_keys bars keys'
      end
  end.

Definition flush_through (order : list (InstrumentId * OiSnapshot))
    (bars : OiAggregator) (up_to : OffsetDateTime) : list OiSnapshot * OiAggregator :=
  remove_keys bars (flush_keys order up_to).

Definition flush_all (order : list (InstrumentId * OiSnapshot)) (bars : OiAggregator)
  : list OiSnapshot * OiAggregator :=
  remove_keys bars order.*1.

Definition agg_len (bars : OiAggregator) : nat := size bars.
Definition agg_is_empty (bars : OiAggregator) : bool := bool_decide (bars = ∅).

(** * Specification: the samples of each instrument's open minute *)

(** A sample of the minute in progress is appended, except a second one with
    the receive time of a lone first sample; any other minute starts over. *)
Definition log_observe (log : SampleLog) (s : OiSample) : SampleLog :=
  let k := s_instrument s in
  match log !! k with
  | Some (s0 :: rest) =>
      if odt_eqb (s_bucket_ts s0) (s_bucket_ts s) then
        match rest with
        | [] => if odt_eqb (s_recv_ts s0) (s_recv_ts s) then log
                else <[k := [s0; s]]> log
        | _ => <[k := s0 :: rest ++ [s]]> log
        end
      else <[k := [s]]> log
  | _ => <[k := [s]]> log
  end.

Definition bar_for (k : InstrumentId) (ss : list OiSample) (b : OiSnapshot) : Prop :=
  instrument b = k ∧ bar_of ss b ∧ ss ≠ [] ∧ Forall (same_bar b) ss.

(** Every running bar is the OHLC bar of the samples logged for it. *)
Definition represents (bars : OiAggregator) (log : SampleLog) : Prop :=
  ∀ k, option_Forall2 (λ b ss, bar_for k ss b) (bars !! k) (log !! k).

Context {DLaws : DecimalLaws DL} {TLaws : TimeLaws TL}.

Lemma bar_for_start s : bar_for (s_instrument s) [s] (start_from_sample s).
Proof.
  split; [done|]. split; [apply start_bar_of|]. split; [done|].
  by constructor; [split|].
Qed.

Lemma bar_for_snoc k ss b s b' :
  bar_for k ss b → observe b s = Ok b' → bar_for k (ss ++ [s]) b'.
Proof.
  intros (Hi & Hb & Hne & Hall) Ho.
  destruct (observe_keys _ _ _ Ho) as (Hs & Hi' & Ht' & _).
  split; [congruence|]. split; [by eapply observe_bar_of|].
  split; [by destruct ss|].
  apply Forall_app; split; [|constructor; [|done]].
  - eapply Forall_impl; [exact Hall|]. intros x []. split; congruence.
  - destruct Hs. split; congruence.
Qed.

Lemma represents_insert bars log k b ss :
  represents bars log → bar_for k ss b →
  represents (<[k := b]> bars) (<[k := ss]> log).
Proof.
  intros Hr Hb k'. destruct (decide (k' = k)) as [->|].
  - rewrite !lookup_insert_eq. by constructor.
  - rewrite !lookup_insert_ne by done. apply Hr.
Qed.

(** A bar whose log holds one sample is recognised by its count. *)
Lemma bar_for_single k s0 rest b :
  bar_for k (s0 :: rest) b → (samples b =? 1) = bool_decide (rest = []).
Proof.
  intros (_ & Hb & _). rewrite (bar_samples _ _ Hb). unfold u32_max.
  destruct rest as [|s1 rest]; [done|].
  rewrite bool_decide_false by done. apply Z.eqb_neq. cbn [length]. lia.
Qed.

Lemma bar_for_bucket k s0 rest b s :
  bar_for k (s0 :: rest) b →
  odt_eqb (bucket_ts b) (s_bucket_ts s) = odt_eqb (s_bucket_ts s0) (s_bucket_ts s).
Proof.
  intros (_ & _ & _ & [[_ H] _]%Forall_cons).
  apply eq_true_iff_eq. rewrite !odt_eqb_spec. by rewrite H.
Qed.

Lemma observe_same k ss b s :
  bar_for k ss b → s_instrument s = k →
  odt_eqb (bucket_ts b) (s_bucket_ts s) = true → ∃ b', observe b s = Ok b'.
Proof.
  intros (Hi & _) Hs He. apply observe_accepts. split; [congruence|].
  symmetry. by apply odt_eqb_spec.
Qed.

Lemma agg_observe_simulates bars log s :
  represents bars log →
  represents (agg_observe bars s).2 (log_observe log s)
  ∧ (agg_observe bars s).2 !! s_instrument s = Some (agg_observe bars s).1
  ∧ ∀ k, k ≠ s_instrument s → (agg_observe bars s).2 !! k = bars !! k.
Proof.
  intros Hr. unfold agg_observe, log_observe.
  pose proof (Hr (s_instrument s)) as Hk.
  assert (Hnew : ∀ (bs : OiAggregator) b ss,
    represents bs log → bar_for (s_instrument s) ss b →
    represents (<[s_instrument s := b]> bs) (<[s_instrument s := ss]> log)
    ∧ <[s_instrument s := b]> bs !! s_instrument s = Some b
    ∧ ∀ k, k ≠ s_instrument s → <[s_instrument s := b]> bs !! k = bs !! k).
  { intros bs b ss H1 H2. split; [by apply represents_insert|].
    split; [by rewrite lookup_insert_eq|]. intros. by rewrite lookup_insert_ne. }
  inversion Hk as [b ss Hb Eb El|Eb El].
  2:{ simpl. rewrite !odt_eqb_refl. simpl. apply Hnew, bar_for_start. done. }
  destruct ss as [|s0 rest]; [by destruct Hb as (_ & _ & ? & _)|].
  rewrite (bar_for_bucket _ _ _ _ s Hb), (bar_for_single _ _ _ _ Hb).
  destruct (odt_eqb (s_bucket_ts s0) (s_bucket_ts s)) eqn:Ebk;
    [|by apply Hnew; [|apply bar_for_start]].
  destruct (observe_same _ _ _ s Hb) as [b' Hb']; [done|by rewrite (bar_for_bucket _ _ _ _ s Hb)|].
  rewrite Hb'. pose proof (bar_for_snoc _ _ _ _ _ Hb Hb') as Hsn.
  case_bool_decide as Hrest; simpl; [subst rest|by destruct rest; [|apply Hnew]].
  assert (last_recv_ts b = s_recv_ts s0) as ->.
  { destruct Hb as (_ & Hb & _). pose proof (bar_last _ _ Hb) as Hl. by injection Hl. }
  destruct (odt_eqb (s_recv_ts s0) (s_recv_ts s)); [|by apply Hnew].
  split; [done|]. by split.
Qed.

(** Walking the collected keys removes exactly the bars they name. *)
Lemma remove_keys_spec bars keys :
  NoDup keys → (∀ k, k ∈ keys → is_Some (bars !! k)) →
  (remove_keys bars keys).1 = omap (λ k, bars !! k) keys
  ∧ ∀ k, (remove_keys bars keys).2 !! k = if decide (k ∈ keys) then None else bars !! k.
Proof.
  revert bars. induction keys as [|k keys IH]; intros bars Hnd Hin.
  { split; [done|]. intros k. case_decide as Hk; [by apply not_elem_of_nil in Hk|done]. }
  apply NoDup_cons in Hnd as [Hk Hnd].
  destruct (Hin k) as [b Hb]; [left|]. cbn [remove_keys omap list_omap].
  rewrite Hb.
  destruct (IH (delete k bars)) as [IH1 IH2]; [done| |].
  { intros k' Hk'. rewrite lookup_delete_ne by (by intros ->). apply Hin. by right. }
  destruct (remove_keys (delete k bars) keys) as [out bars'] eqn:E. simpl in *. split.
  - rewrite IH1. f_equal. apply list_omap_ext, Forall_Forall2_diag, Forall_forall.
    intros k' Hk'. by rewrite lookup_delete_ne by (by intros ->).
  - intros k'. rewrite IH2. destruct (decide (k' = k)) as [->|].
    + rewrite lookup_delete_eq, (decide_True (P:=k ∈ k :: keys)) by left.
      by destruct (decide _).
    + rewrite lookup_delete_ne by done.
      destruct (decide (k' ∈ keys)); [rewrite decide_True by (by right); done|].
      by rewrite decide_False by (by intros [?|?]%elem_of_cons).
Qed.

(** The iteration order of the map is some permutation of its entries. *)
Definition iteration_of (order : list (InstrumentId * OiSnapshot)) (bars : OiAggregator) : Prop :=
  order ≡ₚ map_to_list bars.

Lemma iteration_lookup order bars k b :
  iteration_of order bars → (k, b) ∈ order ↔ bars !! k = Some b.
Proof. intros ->. apply elem_of_map_to_list. Qed.

Lemma iteration_nodup order bars : iteration_of order bars → NoDup order.*1.
Proof. intros ->. apply NoDup_fst_map_to_list. Qed.

Lemma omap_keys order bars (l : list (InstrumentId * OiSnapshot)) :
  iteration_of order bars → l ⊆ order → omap (λ k, bars !! k) l.*1 = l.*2.
Proof.
  intros Ho. induction l as [|[k b] l IH]; intros Hl; [done|].
  cbn [fmap list_fmap fst snd omap list_omap].
  rewrite (proj1 (iteration_lookup _ _ k b Ho)) by (apply Hl; left).
  f_equal. apply IH. set_solver.
Qed.

Lemma filter_keys_spec (P : InstrumentId * OiSnapshot → Prop) `{∀ x, Decision (P x)} order bars :
  iteration_of order bars →
  NoDup (filter P order).*1
  ∧ (∀ k, k ∈ (filter P order).*1 ↔ ∃ b, bars !! k = Some b ∧ P (k, b)).
Proof.
  intros Ho. split.
  - apply NoDup_fmap_fst.
    + intros k b1 b2 [_ H1]%list_elem_of_filter [_ H2]%list_elem_of_filter.
      apply (iteration_lookup _ _ _ _ Ho) in H1, H2. congruence.
    + apply NoDup_filter. rewrite Ho. apply NoDup_map_to_list.
  - intros k. rewrite list_elem_of_fmap. split.
    + intros ([k' b] & -> & [HP Hin]%list_elem_of_filter).
      exists b. split; [by apply (iteration_lookup _ _ _ _ Ho)|done].
    + intros (b & Hb & HP). exists (k, b). split; [done|].
      apply list_elem_of_filter. split; [done|]. by apply (iteration_lookup _ _ _ _ Ho).
Qed.

(** Removing the entries of the order that satisfy [P]. *)
Lemma remove_filtered (P : InstrumentId * OiSnapshot → Prop) `{∀ x, Decision (P x)} order bars :
  iteration_of order bars →
  (remove_keys bars (filter P order).*1).1 = (filter P order).*2
  ∧ (remove_keys bars (filter P order).*1).2 = filter (λ kb, ¬ P kb) bars.
Proof.
  intros Ho. destruct (filter_keys_spec P order bars Ho) as [Hnd Hin].
  destruct (remove_keys_spec bars _ Hnd) as [H1 H2].
  { intros k (b & Hb & _)%Hin. eauto. }
  split.
  - rewrite H1. eapply omap_keys; [exact Ho|].
    intros x [_ Hx]%list_elem_of_filter. done.
  - apply map_eq. intros k. rewrite H2. case_decide as Hk.
    + apply Hin in Hk as (b & Hb & HP). symmetry.
      apply map_lookup_filter_None. right. intros x Hx. simplify_eq. naive_solver.
    + destruct (bars !! k) as [b|] eqn:Eb; symmetry.
      * apply map_lookup_filter_Some. split; [done|]. intros HP. apply Hk, Hin. eauto.
      * apply map_lookup_filter_None. by left.
Qed.

Lemma flush_through_bars order bars up_to :
  iteration_of order bars →
  (flush_through order bars up_to).1
    ≡ₚ (map_to_list (filter (λ kb, odt_leb (bucket_ts kb.2) up_to = true) bars)).*2
  ∧ (flush_through order bars up_to).2
    = filter (λ kb, ¬ odt_leb (bucket_ts kb.2) up_to = true) bars.
Proof.
  intros Ho. set (P := λ kb : InstrumentId * OiSnapshot, odt_leb (bucket_ts kb.2) up_to = true).
  destruct (remove_filtered P order bars Ho) as [H1 H2].
  unfold flush_through, flush_keys. fold P. split; [|exact H2]. rewrite H1.
  apply fmap_Permutation, NoDup_Permutation.
  - apply NoDup_filter. rewrite Ho. apply NoDup_map_to_list.
  - apply NoDup_map_to_list.
  - intros [k b]. rewrite list_elem_of_filter, (iteration_lookup _ _ _ _ Ho).
    rewrite elem_of_map_to_list, map_lookup_filter_Some. naive_solver.
Qed.

(** A first sample starts its instrument's bar. *)
Lemma agg_observe_fresh bars s :
  bars !! s_instrument s = None →
  (agg_observe bars s).2 = <[s_instrument s := start_from_sample s]> bars.
Proof.
  intros Hb. unfold agg_observe. rewrite Hb. simpl. by rewrite !odt_eqb_refl.
Qed.

(** C17. The aggregator refines its specification, the log of each instrument's
    open minute: from a state whose bars are the OHLC bars of the logged
    samples, [observe] leads to the bars of the log after [log_observe],
    returns the instrument's new bar and touches no other instrument. *)
Theorem aggregator_refines bars log s :
  represents bars log →
  represents (agg_observe bars s).2 (log_observe log s)
  ∧ current (agg_observe bars s).2 (s_instrument s) = Some (agg_observe bars s).1
  ∧ ∀ k, k ≠ s_instrument s → current (agg_observe bars s).2 k = current bars k.
Proof. apply agg_observe_simulates. Qed.

(** The minute flush, for any iteration order of the map: it returns each
    bar whose minute is at or before the bound exactly once and nothing else,
    keeps exactly the newer bars, and a second flush of the same bound finds
    nothing; [flush_all] returns every bar and empties the map. *)
Theorem flush_through_drains order bars up_to :
  iteration_of order bars →
  let '(out, bars') := flush_through order bars up_to in
  out ≡ₚ (map_to_list (filter (λ kb, odt_leb (bucket_ts kb.2) up_to = true) bars)).*2
  ∧ bars' = filter (λ kb, ¬ odt_leb (bucket_ts kb.2) up_to = true) bars
  ∧ (∀ order', iteration_of order' bars' → flush_through order' bars' up_to = ([], bars'))
  ∧ (flush_all order bars).1 ≡ₚ (map_to_list bars).*2
  ∧ agg_is_empty (flush_all order bars).2 = true.
Proof.
  intros Ho. set (P := λ kb : InstrumentId * OiSnapshot, odt_leb (bucket_ts kb.2) up_to = true).
  destruct (flush_through_bars order bars up_to Ho) as [H1 H2].
  destruct (flush_through order bars up_to) as [out bars']. simpl in H1, H2. subst bars'.
  split; [done|]. split; [done|]. clear H1. split.
  - intros order' Ho'. unfold flush_through, flush_keys. fold P.
    assert (filter P order' = []) as ->; [|done].
    apply elem_of_nil_inv. intros [k b] [HP Hin]%list_elem_of_filter.
    apply (iteration_lookup _ _ _ _ Ho') in Hin.
    apply map_lookup_filter_Some in Hin as [_ Hn]. done.
  - unfold flush_all. destruct (remove_filtered (λ _, True) order bars Ho) as [H1 H2].
    assert (filter (λ _, True) order = order) as E.
    { clear. induction order as [|x l IH]; [done|]. rewrite filter_cons_True by done. by rewrite IH. }
    rewrite E in H1, H2. rewrite H1, H2. split; [by rewrite Ho|].
    unfold agg_is_empty. apply bool_decide_eq_true, map_eq. intros k.
    rewrite lookup_empty. apply map_lookup_filter_None. right. naive_solver.
Qed.

(** A minute can lose its bar: when a sample of a newer minute reaches the
    aggregator before the flush of minute [m], the bar of [m] is replaced, so the
    flush of [m] does not return that instrument and leaves the new one-sample
    bar; and a late sample of [m] in turn discards the newer minute's bar. *)
Theorem early_sample_discards_minute order bars b new late_s m :
  current bars (s_instrument new) = Some b →
  odt_eqb (bucket_ts b) (s_bucket_ts new) = false →
  odt_leb (s_bucket_ts new) m = false →
  s_instrument late_s = s_instrument new →
  odt_leb (s_bucket_ts late_s) m = true →
  iteration_of order (agg_observe bars new).2 →
  (s_instrument new ∉ flush_keys order m)
  ∧ current (flush_through order (agg_observe bars new).2 m).2 (s_instrument new)
    = Some (start_from_sample new)
  ∧ current (agg_observe (agg_observe bars new).2 late_s).2 (s_instrument new)
    = Some (start_from_sample late_s).
Proof.
  unfold current. intros Hb Hne Hnew Hi Hlate.
  assert (Ho : (agg_observe bars new).2 = <[s_instrument new := start_from_sample new]> bars).
  { unfold agg_observe. rewrite Hb. by rewrite Hne. }
  rewrite Ho. intros Hord.
  destruct (filter_keys_spec (λ r, odt_leb (bucket_ts r.2) m = true) _ _ Hord) as [Hnd Hin].
  assert (Hk : s_instrument new ∉ flush_keys order m).
  { intros (b' & Hb' & Hle)%Hin. rewrite lookup_insert_eq in Hb'. injection Hb' as <-.
    simpl in Hle. congruence. }
  split; [done|]. split.
  - unfold flush_through, flush_keys.
    destruct (remove_filtered (λ r, odt_leb (bucket_ts r.2) m = true) _ _ Hord) as [_ ->].
    apply map_lookup_filter_Some. rewrite lookup_insert_eq. split; [done|].
    simpl. congruence.
  - unfold agg_observe. rewrite Hi, lookup_insert_eq. simpl.
    destruct (odt_eqb (s_bucket_ts new) (s_bucket_ts late_s)) eqn:E;
      [|simpl; by rewrite lookup_insert_eq].
    apply odt_eqb_spec in E. apply odt_leb_spec in Hlate.
    rewrite <- E in Hlate. apply odt_leb_spec in Hlate. congruence.
Qed.
End aggregator.

(** * Concrete runs *)

Definition ex_at (m t v : Z) : OiSample :=
  mkSample ex_btc (m * nanos_per_min) (m * nanos_per_min + t) v Coins (Some v) None None.

Lemma aggregator_refines_witness :
  let '(b1, bars1) := agg_observe aggregator_new (ex_at 10 1 100) in
  let '(b2, bars2) := agg_observe bars1 (ex_at 10 2 80) in
  native_low b2 = 80 ∧ samples b2 = 2
  ∧ represents bars2 (<[ex_btc := [ex_at 10 1 100; ex_at 10 2 80]]> ∅).
Proof.
  assert (H0 : represents (∅ : OiAggregator) (∅ : SampleLog))
    by (intros k; rewrite !lookup_empty; constructor).
  destruct (aggregator_refines ∅ ∅ (ex_at 10 1 100) H0) as [H1 _].
  destruct (aggregator_refines _ _ (ex_at 10 2 80) H1) as [H2 _].
  split; [reflexivity|]. split; [reflexivity|]. exact H2.
Defined.

Definition ex_bars : OiAggregator :=
  (agg_observe (agg_observe aggregator_new (ex_at 10 1 100)).2
     (mkSample (mkId Binance "ETHUSDT") (11 * nanos_per_min) 3 5 Coins None None None)).2.

Lemma flush_through_drains_witness :
  let '(out, bars') := flush_through (map_to_list ex_bars) ex_bars (10 * nanos_per_min) in
  instrument <$> out = [ex_btc] ∧ agg_len bars' = 1%nat
  ∧ bars' = filter (λ kb, ¬ odt_leb (bucket_ts kb.2) (10 * nanos_per_min) = true) ex_bars.
Proof.
  pose proof (flush_through_drains (map_to_list ex_bars) ex_bars (10 * nanos_per_min)
                (reflexivity _)) as H.
  assert (E : instrument <$> (flush_through (map_to_list ex_bars) ex_bars
                                (10 * nanos_per_min)).1 = [ex_btc]
              ∧ agg_len (flush_through (map_to_list ex_bars) ex_bars
                           (10 * nanos_per_min)).2 = 1%nat)
    by (split; reflexivity).
  destruct (flush_through _ _ _) as [out bars'].
  destruct H as (_ & H & _), E as [E1 E2]. split; [exact E1|]. split; [exact E2|exact H].
Defined.

Lemma early_sample_discards_minute_witness :
  let bars := (agg_observe aggregator_new (ex_at 10 1 100)).2 in
  let bars' := (agg_observe bars (ex_at 11 1 101)).2 in
  (ex_btc ∉ flush_keys (map_to_list bars') (10 * nanos_per_min))
  ∧ current (agg_observe bars' (ex_at 10 60 99)).2 ex_btc
    = Some (start_from_sample (ex_at 10 60 99)).
Proof.
  destruct (early_sample_discards_minute
              (map_to_list (agg_observe (agg_observe aggregator_new (ex_at 10 1 100)).2
                              (ex_at 11 1 101)).2)
              (agg_observe aggregator_new (ex_at 10 1 100)).2
              (start_from_sample (ex_at 10 1 100)) (ex_at 11 1 101) (ex_at 10 60 99)
              (10 * nanos_per_min)) as (H1 & _ & H2);
    [first [reflexivity|apply Permutation_refl]..|]. split; [exact H1|exact H2].
Defined.
