(* ===== verification/SharedBars.v ===== *)
(** The running bars under concurrent tasks.  [oi-collector/src/runner.rs]
    gives one [OiAggregator] to an exchange's minute loop and to its live
    stream tasks, so a stream's [observe] can fall anywhere inside the minute
    loop's [flush_through].  Each operation on one key of the concurrent map is
    atomic; the two walks of a flush (read the keys, then remove them) are not,
    and here they are sequences of steps between which samples may arrive. *)

From Stdlib Require Import ZArith Lia String.
From stdpp Require Import base option list sorting strings gmap.
From S2P Require Import Prelude Externals Concrete Domain Aggregator.
Open Scope Z_scope.
Open Scope oi_scope.

Section shared.
Context {DL : DecimalLib} {TL : TimeLib}.

(** Where the minute loop's flush stands: [flush_through] has a bound,
    [flush_all] has none. *)
Inductive Flush :=
  | Idle
  | Collecting (up_to : option OffsetDateTime) (to_flush : list InstrumentId)
  | Removing (up_to : option OffsetDateTime) (to_flush : list InstrumentId)
      (out : list OiSnapshot).

(** The map and the flush in progress. *)
Record Shared := mkShared { bars : OiAggregator; flush : Flush }.

(** One atomic step of some task. *)
Inductive Action :=
  | Observe (sample : OiSample)
  | Begin (up_to : option OffsetDateTime)
  | Visit (k : InstrumentId)
  | Collected
  | Remove
  | Return.

(** The filter of [flush_through]; [flush_all] takes every key. *)
Definition due (up_to : option OffsetDateTime) (b : OiSnapshot) : bool :=
  match up_to with Some t => odt_leb (bucket_ts b) t | None => true end.

(** One step; [None] when it does not apply in the flush's phase. *)
Definition shared_step (a : Action) (st : Shared) : option Shared :=
  match a, flush st with
  | Observe s, f => Some (mkShared (agg_observe (bars st) s).2 f)
  | Begin up_to, Idle => Some (mkShared (bars st) (Collecting up_to []))
  | Visit k, Collecting up_to to_flush =>
      Some (mkShared (bars st)
        (Collecting up_to
           match bars st !! k with
           | Some b => if due up_to b then to_flush ++ [k] else to_flush
           | None => to_flush
           end))
  | Collected, Collecting up_to to_flush =>
      Some (mkShared (bars st) (Removing up_to to_flush []))
  | Remove, Removing up_to (k :: to_flush) out =>
      Some match bars st !! k with
           | Some bar => mkShared (delete k (bars st)) (Removing up_to to_flush (out ++ [bar]))
           | None => mkShared (bars st) (Removing up_to to_flush out)
           end
  | Return, Removing _ [] _ => Some (mkShared (bars st) Idle)
  | _, _ => None
  end.

(** A schedule of steps. *)
Fixpoint shared_run (acts : list Action) (st : Shared) : option Shared :=
  match acts with
  | [] => Some st
  | a :: acts => st' ← shared_step a st; shared_run acts st'
  end.

(** The steps of a flush with nothing in between, in the map's order. *)
Definition alone (up_to : option OffsetDateTime) (order : list (InstrumentId * OiSnapshot))
  : list Action :=
  Begin up_to :: (Visit <$> order.*1) ++ Collected
  :: replicate (length (filter (λ r, due up_to r.2 = true) order)) Remove.

(** * What happened to each sample *)

(** The samples behind each running bar, those behind each bar taken out of
    the map, those an [observe] discarded, every sample observed, and those
    observed since the flush in progress began. *)
Record History := mkHistory {
  h_log : SampleLog;
  h_taken : list (list OiSample * OiSnapshot);
  h_lost : list OiSample;
  h_seen : list OiSample;
  h_since : list OiSample }.

(** What one [observe] discards: the samples of a replaced bar, or the sample
    itself when it repeats the receive time of a lone first one. *)
Definition lost (log : SampleLog) (s : OiSample) : list OiSample :=
  match log !! s_instrument s with
  | Some (s0 :: rest) =>
      if odt_eqb (s_bucket_ts s0) (s_bucket_ts s) then
        match rest with
        | [] => if odt_eqb (s_recv_ts s0) (s_recv_ts s) then [s] else []
        | _ => []
        end
      else s0 :: rest
  | _ => []
  end.

Definition history_step (a : Action) (st : Shared) (h : History) : History :=
  match a with
  | Observe s =>
      mkHistory (log_observe (h_log h) s) (h_taken h) (h_lost h ++ lost (h_log h) s)
        (h_seen h ++ [s]) (h_since h ++ [s])
  | Begin _ => mkHistory (h_log h) (h_taken h) (h_lost h) (h_seen h) []
  | Remove =>
      match flush st with
      | Removing _ (k :: _) _ =>
          match bars st !! k, h_log h !! k with
          | Some b, Some ss =>
              mkHistory (delete k (h_log h)) (h_taken h ++ [(ss, b)]) (h_lost h)
                (h_seen h) (h_since h)
          | _, _ => h
          end
      | _ => h
      end
  | _ => h
  end.

Fixpoint history_run (acts : list Action) (st : Shared) (h : History) : option (Shared * History) :=
  match acts with
  | [] => Some (st, h)
  | a :: acts => st' ← shared_step a st; history_run acts st' (history_step a st h)
  end.

(** The samples of a schedule. *)
Definition observed (acts : list Action) : list OiSample :=
  omap (λ a, match a with Observe s => Some s | _ => None end) acts.

Definition shared_init : Shared := mkShared aggregator_new Idle.
Definition history_init : History := mkHistory ∅ [] [] [] [].

(** The samples behind the running bars. *)
Definition running (log : SampleLog) : list OiSample := concat (map_to_list log).*2.
Definition taken_samples (h : History) : list OiSample := concat (h_taken h).*1.

(** The samples of one instrument. *)
Definition of_key (k : InstrumentId) (l : list OiSample) : list OiSample :=
  filter (λ s, s_instrument s = k) l.

(** Ticks of one minute, told apart by their receive times. *)
Definition one_minute (l : list OiSample) : Prop :=
  (∀ s s', s ∈ l → s' ∈ l → s_bucket_ts s ≡ s_bucket_ts s')
  ∧ StronglySorted (λ s s', ¬ s_recv_ts s ≡ s_recv_ts s') l.

(** A sample of the bar's instrument and minute among [since]. *)
Definition arrived (since : list OiSample) (b : OiSnapshot) : Prop :=
  ∃ s, s ∈ since ∧ same_bar b s.

Context {DLaws : DecimalLaws DL} {TLaws : TimeLaws TL}.

(** * The log *)

Lemma running_insert k ss log :
  running (<[k := ss]> log) ≡ₚ ss ++ running (delete k log).
Proof.
  unfold running. rewrite <- (insert_delete_eq log k ss).
  rewrite map_to_list_insert by apply lookup_delete_eq. done.
Qed.

Lemma running_split k log :
  running log ≡ₚ default [] (log !! k) ++ running (delete k log).
Proof.
  destruct (log !! k) as [ss|] eqn:E; simpl.
  - rewrite <- (insert_id log k ss E) at 1. apply running_insert.
  - by rewrite delete_id.
Qed.

Lemma running_elem x log : x ∈ running log ↔ ∃ k ss, log !! k = Some ss ∧ x ∈ ss.
Proof.
  unfold running. rewrite list_elem_of_In, in_concat. split.
  - intros (ss & Hss & Hx). apply list_elem_of_In, list_elem_of_fmap in Hss as ([k ss'] & -> & H).
    exists k, ss'. split; [by apply elem_of_map_to_list|by apply list_elem_of_In].
  - intros (k & ss & Hk & Hx). exists ss. split; [|by apply list_elem_of_In].
    apply list_elem_of_In, list_elem_of_fmap. exists (k, ss). split; [done|].
    by apply elem_of_map_to_list.
Qed.

(** No sample disappears: it runs on, or is among the lost. *)
Lemma log_observe_conserves log s :
  running (log_observe log s) ++ lost log s ≡ₚ running log ++ [s].
Proof.
  unfold log_observe, lost. rewrite (running_split (s_instrument s) log).
  destruct (log !! s_instrument s) as [[|s0 rest]|] eqn:E; simpl.
  - rewrite running_insert. solve_Permutation.
  - destruct (odt_eqb (s_bucket_ts s0) (s_bucket_ts s)).
    + destruct rest as [|s1 rest].
      * destruct (odt_eqb (s_recv_ts s0) (s_recv_ts s)).
        -- rewrite (running_split (s_instrument s) log), E. done.
        -- rewrite running_insert. solve_Permutation.
      * rewrite running_insert. solve_Permutation.
    + rewrite running_insert. solve_Permutation.
  - rewrite running_insert. solve_Permutation.
Qed.

Lemma represented_key bs log k ss x :
  represents bs log → log !! k = Some ss → x ∈ ss → s_instrument x = k.
Proof.
  intros Hr Hk Hx. pose proof (Hr k) as H. rewrite Hk in H.
  inversion H as [b ss' (Hi & _ & _ & Hall) Hb Hss|]; subst.
  rewrite Forall_forall in Hall. by destruct (Hall x Hx).
Qed.

(** A sample is lost to a sample of another minute, or as a repetition. *)
Lemma lost_elem bs log s x :
  represents bs log → x ∈ lost log s →
  s_instrument x = s_instrument s
  ∧ ((x ∈ running log ∧ ¬ s_bucket_ts x ≡ s_bucket_ts s)
     ∨ ∃ s0, s0 ∈ running log ∧ s_instrument s0 = s_instrument s ∧ s_recv_ts s0 ≡ s_recv_ts s).
Proof.
  intros Hr. unfold lost. destruct (log !! s_instrument s) as [[|s0 rest]|] eqn:E;
    [by intros ?%not_elem_of_nil| |by intros ?%not_elem_of_nil].
  assert (Hrun : ∀ y, y ∈ s0 :: rest → y ∈ running log ∧ s_instrument y = s_instrument s).
  { intros y Hy. split; [apply running_elem; eauto|by eapply represented_key]. }
  destruct (odt_eqb (s_bucket_ts s0) (s_bucket_ts s)) eqn:Eb.
  - destruct rest; [|by intros ?%not_elem_of_nil].
    destruct (odt_eqb (s_recv_ts s0) _) eqn:Er; [|by intros ?%not_elem_of_nil].
    intros ->%list_elem_of_singleton. split; [done|]. right. exists s0.
    destruct (Hrun s0) as [H1 H2]; [left|]. by apply odt_eqb_spec in Er.
  - intros Hx. destruct (Hrun x Hx) as [H1 H2]. split; [done|]. left. split; [done|].
    pose proof (Hr (s_instrument s)) as H. rewrite E in H.
    inversion H as [b ss' (_ & _ & _ & Hall) Hb Hss|]; subst.
    rewrite Forall_forall in Hall.
    destruct (Hall x Hx) as [_ ->], (Hall s0 ltac:(left)) as [_ H0].
    apply odt_eqb_false in Eb. by rewrite <- H0.
Qed.

(** An [observe] leaves each bar's minute alone or starts the sample's. *)
Lemma agg_observe_bucket bs s k b' :
  (agg_observe bs s).2 !! k = Some b' →
  (∃ b, bs !! k = Some b ∧ bucket_ts b = bucket_ts b')
  ∨ (k = s_instrument s ∧ s_bucket_ts s ≡ bucket_ts b').
Proof.
  unfold agg_observe. intros H. destruct (decide (k = s_instrument s)) as [-> | Hk].
  - destruct (bs !! s_instrument s) as [b|] eqn:E; simpl in H.
    + destruct (odt_eqb _ _) eqn:Eb.
      * apply odt_eqb_spec in Eb. destruct (_ && _); [left; simpl in H; naive_solver|].
        destruct (observe b s) as [b1|] eqn:Eo; simpl in H.
        -- rewrite lookup_insert_eq in H. injection H as <-.
           left. exists b. split; [done|]. by destruct (observe_keys _ _ _ Eo) as (_ & _ & -> & _).
        -- left. naive_solver.
      * simpl in H. rewrite lookup_insert_eq in H. injection H as <-. by right.
    + rewrite !odt_eqb_refl in H. simpl in H. rewrite lookup_insert_eq in H.
      injection H as <-. by right.
  - left. exists b'. split; [|done]. revert H.
    destruct (bs !! s_instrument s) as [b|] eqn:E; simpl.
    + destruct (odt_eqb _ _); [destruct (_ && _); [done|]; destruct (observe b s)|];
        simpl; by rewrite ?lookup_insert_ne by done.
    + rewrite !odt_eqb_refl. simpl. by rewrite lookup_insert_ne by done.
Qed.

(** * The invariant of every schedule *)

Definition flush_ok (st : Shared) (h : History) : Prop :=
  match flush st with
  | Idle => True
  | Collecting up_to q =>
      ∀ k b, k ∈ q → bars st !! k = Some b → due up_to b = true ∨ arrived (h_since h) b
  | Removing up_to q out =>
      (∀ k b, k ∈ q → bars st !! k = Some b → due up_to b = true ∨ arrived (h_since h) b)
      ∧ Forall (λ b, due up_to b = true ∨ arrived (h_since h) b) out
      ∧ ∃ before, (h_taken h).*2 = before ++ out
  end.

Record shared_ok (st : Shared) (h : History) : Prop := {
  ok_running : represents (bars st) (h_log h);
  ok_taken : Forall (λ t, bar_for (instrument t.2) t.1 t.2) (h_taken h);
  ok_samples : h_seen h ≡ₚ running (h_log h) ++ taken_samples h ++ h_lost h;
  ok_lost k : one_minute (of_key k (h_seen h)) → of_key k (h_lost h) = [];
  ok_flush : flush_ok st h;
}.

Lemma due_bucket up_to b b' : bucket_ts b = bucket_ts b' → due up_to b = due up_to b'.
Proof. intros H. destruct up_to; simpl; by rewrite ?H. Qed.

Lemma represented bs log k b :
  represents bs log → bs !! k = Some b → ∃ ss, log !! k = Some ss ∧ bar_for k ss b.
Proof.
  intros Hr Hb. pose proof (Hr k) as H. rewrite Hb in H.
  inversion H as [b0 ss Hf Hb0 Hss|]; subst. eauto.
Qed.

Lemma represents_delete bs log k :
  represents bs log → represents (delete k bs) (delete k log).
Proof.
  intros Hr k'. destruct (decide (k' = k)) as [-> | ].
  - rewrite !lookup_delete_eq. constructor.
  - rewrite !lookup_delete_ne by done. apply Hr.
Qed.

Lemma one_minute_app l l' :
  one_minute (l ++ l') →
  one_minute l ∧ (∀ s s', s ∈ l → s' ∈ l' → s_bucket_ts s ≡ s_bucket_ts s'
                                            ∧ ¬ s_recv_ts s ≡ s_recv_ts s').
Proof.
  intros [H1 (H2 & H3 & _)%StronglySorted_app]. split.
  - split; [|done]. intros s s' ??. apply H1; set_solver.
  - intros s s' Hs Hs'. split; [apply H1; set_solver|by apply H2].
Qed.

Lemma of_key_elem k l x : x ∈ of_key k l ↔ x ∈ l ∧ s_instrument x = k.
Proof. unfold of_key. rewrite list_elem_of_filter. tauto. Qed.

Lemma of_key_app k l l' : of_key k (l ++ l') = of_key k l ++ of_key k l'.
Proof. apply filter_app. Qed.

(** The bars a flush has yet to remove, across a sample. *)
Lemma queue_observe bs log since up_to s k b' :
  represents bs log → represents (agg_observe bs s).2 (log_observe log s) →
  (∀ b, bs !! k = Some b → due up_to b = true ∨ arrived since b) →
  (agg_observe bs s).2 !! k = Some b' →
  due up_to b' = true ∨ arrived (since ++ [s]) b'.
Proof.
  intros Hr Hr' Hq Hb'. destruct (represented _ _ _ _ Hr' Hb') as (ss' & _ & Hi' & _).
  destruct (agg_observe_bucket _ _ _ _ Hb') as [(b & Hb & E) | [Hk E]].
  - destruct (represented _ _ _ _ Hr Hb) as (ss & _ & Hi & _).
    destruct (Hq b Hb) as [Hd | (x & Hx & H1 & H2)].
    + left. by rewrite <- (due_bucket _ _ _ E).
    + right. exists x. split; [set_solver|]. split; congruence.
  - right. exists s. split; [set_solver|]. split; [congruence|done].
Qed.

Lemma arrived_snoc since b s : arrived since b → arrived (since ++ [s]) b.
Proof. intros (x & Hx & H). exists x. split; [set_solver|done]. Qed.

Lemma observe_keeps st h s st' :
  shared_step (Observe s) st = Some st' → shared_ok st h →
  shared_ok st' (history_step (Observe s) st h).
Proof.
  intros Hs [Hr Ht Hp Hl Hf]. simpl in Hs. injection Hs as <-.
  destruct (agg_observe_simulates _ _ s Hr) as [Hr' _].
  split; simpl; [done|done|..].
  - unfold taken_samples. simpl. rewrite Hp. fold (taken_samples h).
    pose proof (log_observe_conserves (h_log h) s) as Hc.
    transitivity ((running (h_log h) ++ [s]) ++ taken_samples h ++ h_lost h);
      [solve_Permutation|]. rewrite <- Hc. solve_Permutation.
  - intros k. rewrite !of_key_app. intros [H1 H2]%one_minute_app. rewrite Hl by done. simpl. apply elem_of_nil_inv. intros x Hx.
    apply of_key_elem in Hx as [Hx Hk].
    destruct (lost_elem _ _ _ _ Hr Hx) as [Hi Hcase].
    assert (Hin : ∀ y, y ∈ running (h_log h) → s_instrument y = k →
                  y ∈ of_key k (h_seen h)).
    { intros y Hy ?. apply of_key_elem. rewrite Hp. set_solver. }
    assert (Hs : s ∈ of_key k [s]).
    { apply of_key_elem. split; [left|congruence]. }
    destruct Hcase as [[Hx' Hn] | (s0 & Hs0 & Hi0 & Hn)].
    + by destruct (H2 x s (Hin x Hx' Hk) Hs).
    + by destruct (H2 s0 s (Hin s0 Hs0 ltac:(congruence)) Hs).
  - unfold flush_ok in *. simpl. destruct (flush st) as [|up_to q|up_to q out]; [done|..].
    + intros k b' Hk. eapply queue_observe; eauto.
    + destruct Hf as (Hq & Ho & Hb). split; [|split; [|done]].
      * intros k b' Hk. eapply queue_observe; eauto.
      * eapply Forall_impl; [exact Ho|]. intros b []; [by left|right; by apply arrived_snoc].
Qed.

Lemma remove_keeps st h st' :
  shared_step Remove st = Some st' → shared_ok st h →
  shared_ok st' (history_step Remove st h).
Proof.
  intros Hs [Hr Ht Hp Hl Hf]. unfold flush_ok in Hf. simpl in *.
  destruct (flush st) as [| |up_to [|k q] out] eqn:Ef; [done..|].
  destruct Hf as (Hq & Ho & before & Hb).
  destruct (bars st !! k) as [b|] eqn:Ek; injection Hs as <-.
  2:{ split; simpl; [done..|]. unfold flush_ok. simpl.
      split; [intros k' b' Hk'; apply Hq; by right|by eauto]. }
  destruct (represented _ _ _ _ Hr Ek) as (ss & Hss & Hbar).
  rewrite Hss. split; simpl.
  - by apply represents_delete.
  - apply Forall_app. split; [done|]. constructor; [|done]. simpl.
    assert (instrument b = k) as -> by apply Hbar. done.
  - unfold taken_samples. simpl. rewrite Hp, fmap_app, concat_app, (running_split k), Hss.
    simpl. rewrite app_nil_r. unfold taken_samples. solve_Permutation.
  - done.
  - unfold flush_ok. simpl. split; [|split].
    + intros k' b' Hk' Hb'. apply lookup_delete_Some in Hb' as [_ Hb'].
      eapply Hq; [by right|done].
    + apply Forall_app. split; [done|]. constructor; [|done]. by eapply Hq; [left|].
    + exists before. by rewrite fmap_app, Hb, app_assoc.
Qed.

Lemma shared_step_keeps a st h st' :
  shared_step a st = Some st' → shared_ok st h → shared_ok st' (history_step a st h).
Proof.
  destruct a; [apply observe_keeps| | | |apply remove_keeps|];
    intros Hs [Hr Ht Hp Hl Hf]; simpl in Hs; unfold flush_ok in Hf;
    destruct (flush st) as [|up q|up [|] out]; try done; injection Hs as <-;
    (split; simpl; [done..|]); unfold flush_ok; simpl; try done.
  - set_solver.
  - intros k' b Hk' Hb. destruct (bars st !! k) as [b0|] eqn:Eb; [|by eapply Hf].
    destruct (due up b0) eqn:Ed; [|by eapply Hf].
    apply elem_of_app in Hk' as [Hk' | ->%list_elem_of_singleton]; [by eapply Hf|].
    left. congruence.
  - split; [done|]. split; [done|]. exists (h_taken h).*2. by rewrite app_nil_r.
Qed.

Lemma history_run_ok acts st h st' h' :
  shared_ok st h → history_run acts st h = Some (st', h') → shared_ok st' h'.
Proof.
  revert st h. induction acts as [|a acts IH]; intros st h Hok Hrun; simpl in Hrun.
  { by injection Hrun as <- <-. }
  destruct (shared_step a st) as [st1|] eqn:E; [|done]. simpl in Hrun.
  eapply IH; [|done]. by eapply shared_step_keeps.
Qed.

Lemma shared_init_ok : shared_ok shared_init history_init.
Proof.
  split; simpl; [intros k; rewrite !lookup_empty; constructor|done..].
Qed.

Lemma history_run_shared acts st h st' h' :
  history_run acts st h = Some (st', h') →
  shared_run acts st = Some st' ∧ h_seen h' = h_seen h ++ observed acts.
Proof.
  revert st h. induction acts as [|a acts IH]; intros st h H; simpl in *.
  { injection H as -> ->. by rewrite app_nil_r. }
  destruct (shared_step a st) as [st1|] eqn:E; [|done]. simpl in *.
  destruct (IH _ _ H) as [H1 H2]. split; [done|]. rewrite H2.
  destruct a; simpl; [by rewrite <- app_assoc|done..| |done].
  destruct (flush st) as [| |? [|k ?] ?]; try done.
  by destruct (bars st !! k), (h_log h !! k).
Qed.

(** * A flush with nothing in between *)

Lemma visits_run bs up_to l q rest :
  (∀ k b, (k, b) ∈ l → bs !! k = Some b) →
  shared_run ((Visit <$> l.*1) ++ rest) (mkShared bs (Collecting up_to q))
  = shared_run rest
      (mkShared bs (Collecting up_to (q ++ (filter (λ r, due up_to r.2 = true) l).*1))).
Proof.
  revert q. induction l as [|[k b] l IH]; intros q Hl; [by rewrite app_nil_r|].
  cbn [fmap list_fmap fst app shared_run shared_step flush bars].
  rewrite (Hl k b) by left. cbn [mbind option_bind].
  rewrite IH by (intros; apply Hl; by right). rewrite filter_cons. cbn [snd].
  destruct (due up_to b); [|by rewrite decide_False].
  rewrite decide_True by done. cbn [fmap list_fmap fst]. by rewrite <- app_assoc.
Qed.

Lemma removes_run bs up_to q out :
  shared_run (replicate (length q) Remove) (mkShared bs (Removing up_to q out))
  = Some (mkShared (remove_keys bs q).2 (Removing up_to [] (out ++ (remove_keys bs q).1))).
Proof.
  revert bs out. induction q as [|k q IH]; intros bs out; [by rewrite app_nil_r|].
  cbn [length replicate shared_run shared_step flush bars mbind option_bind remove_keys].
  destruct (bs !! k) as [b|]; rewrite IH; [|done].
  destruct (remove_keys (delete k bs) q); cbn [fst snd]. by rewrite <- app_assoc.
Qed.

Lemma alone_run order bs up_to :
  iteration_of order bs →
  let keys := (filter (λ r, due up_to r.2 = true) order).*1 in
  shared_run (alone up_to order) (mkShared bs Idle)
  = Some (mkShared (remove_keys bs keys).2 (Removing up_to [] (remove_keys bs keys).1)).
Proof.
  intros Ho keys. unfold alone. cbn [shared_run shared_step flush mbind option_bind bars].
  rewrite visits_run by (intros k b; apply iteration_lookup; done).
  cbn [shared_run shared_step flush mbind option_bind bars app]. fold keys.
  replace (length _) with (length keys) by apply length_fmap. apply removes_run.
Qed.

(** C7. Whatever order samples of the live streams and steps of the minute
    loop's flushes fall in, nothing is double counted and nothing vanishes:
    every running bar, and every bar a flush took out, is the OHLC bar of the
    samples listed for it, and the samples of the schedule are exactly those of
    the running bars, those of the bars taken out and the ones [observe]
    discarded; and an instrument whose ticks are of one minute, with
    different receive times, has every tick in a running or a taken bar. *)
Theorem no_tick_lost acts st h :
  history_run acts shared_init history_init = Some (st, h) →
  shared_run acts shared_init = Some st
  ∧ represents (bars st) (h_log h)
  ∧ Forall (λ t, bar_for (instrument t.2) t.1 t.2) (h_taken h)
  ∧ observed acts ≡ₚ running (h_log h) ++ taken_samples h ++ h_lost h
  ∧ ∀ k, one_minute (of_key k (observed acts)) →
      of_key k (observed acts)
      ≡ₚ of_key k (running (h_log h)) ++ of_key k (taken_samples h).
Proof.
  intros H. destruct (history_run_shared _ _ _ _ _ H) as [H1 H2]. simpl in H2.
  destruct (history_run_ok _ _ _ _ _ shared_init_ok H) as [Hr Ht Hp Hl _].
  rewrite <- H2. do 4 (split; [done|]). intros k Hk. specialize (Hl k Hk).
  unfold of_key at 1. rewrite Hp. rewrite !filter_app.
  change (filter _ (h_lost h)) with (of_key k (h_lost h)). by rewrite Hl, app_nil_r.
Qed.

(** C16. What a flush hands to the writer: the bars it took out of the map,
    each at or before its bound unless a sample of that bar's own instrument and
    minute came between the walk over the keys and the removals; so with no
    sample in between every bar is at or before the bound, but a sample of a
    newer minute that falls between the two walks has its open minute's bar, of
    one sample, flushed in place of the closed one. *)
Theorem flush_returns_due acts st h up_to q out :
  history_run acts shared_init history_init = Some (st, h) →
  flush st = Removing up_to q out →
  (∃ before, (h_taken h).*2 = before ++ out)
  ∧ Forall (λ b, due up_to b = true ∨ arrived (h_since h) b) out
  ∧ (h_since h = [] → Forall (λ b, due up_to b = true) out)
  ∧ ∀ k q' b s, q = k :: q' → bars st !! k = Some b → s_instrument s = k →
      ¬ s_bucket_ts s ≡ bucket_ts b →
      shared_run [Observe s; Remove] st
      = Some (mkShared (delete k (bars st)) (Removing up_to q' (out ++ [start_from_sample s]))).
Proof.
  intros H Hf. destruct (history_run_ok _ _ _ _ _ shared_init_ok H) as [_ _ _ _ Hok].
  unfold flush_ok in Hok. rewrite Hf in Hok. destruct Hok as (_ & Ho & Hb).
  split; [done|]. split; [done|]. split.
  - intros E. eapply Forall_impl; [exact Ho|].
    intros b [| (s & Hs & _)]; [done|]. rewrite E in Hs. by apply not_elem_of_nil in Hs.
  - intros k q' b s -> Hk Hs Hne. simpl. rewrite Hf. simpl.
    assert (E : (agg_observe (bars st) s).2 = <[k := start_from_sample s]> (bars st)).
    { unfold agg_observe. rewrite Hs, Hk.
      replace (odt_eqb (bucket_ts b) (s_bucket_ts s)) with false; [done|].
      symmetry. apply odt_eqb_false. intros E. by apply Hne. }
    by rewrite E, lookup_insert_eq, delete_insert_eq.
Qed.

(** The steps of one flush, run with nothing in between in any iteration
    order of the map, are the sequential [flush_through] and [flush_all]. *)
Theorem flush_alone order bs up_to :
  iteration_of order bs →
  shared_run (alone (Some up_to) order) (mkShared bs Idle)
  = Some (mkShared (flush_through order bs up_to).2
            (Removing (Some up_to) [] (flush_through order bs up_to).1))
  ∧ shared_run (alone None order) (mkShared bs Idle)
    = Some (mkShared (flush_all order bs).2 (Removing None [] (flush_all order bs).1)).
Proof.
  intros Ho. split; [exact (alone_run order bs (Some up_to) Ho)|].
  pose proof (alone_run order bs None Ho) as H. cbv zeta in H.
  replace (filter (λ r : InstrumentId * OiSnapshot, due None r.2 = true) order)
    with order in H; [exact H|].
  symmetry. clear. induction order as [|x l IH]; [done|].
  by rewrite filter_cons_True, IH by done.
Qed.
End shared.

(** * Concrete schedules *)

(** A tick of the same minute after the key was read, and a newer minute's tick
    just before the removal. *)
Definition ex_race (late_tick : OiSample) : list Action :=
  [Observe (ex_at 10 1 100); Begin (Some (10 * nanos_per_min)); Visit ex_btc;
   Observe (ex_at 10 2 80); Collected; Observe late_tick; Remove].

Definition ex_run (acts : list Action) : Shared * History :=
  default (shared_init, history_init) (history_run acts shared_init history_init).

Lemma ex_run_ok acts :
  bool_decide (is_Some (history_run acts shared_init history_init)) = true →
  history_run acts shared_init history_init = Some (ex_run acts).
Proof. intros [x Hx]%bool_decide_eq_true. unfold ex_run. by rewrite Hx. Qed.

Lemma no_tick_lost_witness :
  let '(st, h) := ex_run (ex_race (ex_at 10 3 90)) in
  samples <$> (h_taken h).*2 = [3] ∧ agg_is_empty (bars st) = true
  ∧ observed (ex_race (ex_at 10 3 90)) ≡ₚ running (h_log h) ++ taken_samples h ++ h_lost h.
Proof.
  pose proof (ex_run_ok (ex_race (ex_at 10 3 90)) ltac:(vm_compute; reflexivity)) as E.
  assert (Ht : samples <$> (h_taken (ex_run (ex_race (ex_at 10 3 90))).2).*2 = [3]
               ∧ agg_is_empty (bars (ex_run (ex_race (ex_at 10 3 90))).1) = true)
    by (split; vm_compute; reflexivity).
  destruct (ex_run (ex_race (ex_at 10 3 90))) as [st h].
  destruct (no_tick_lost _ _ _ E) as (_ & _ & _ & H & _). cbn [fst snd] in Ht.
  split; [exact (proj1 Ht)|]. split; [exact (proj2 Ht)|exact H].
Defined.

(** The newer minute's only sample so far is what the flush of minute 10 gets. *)
Lemma flush_returns_due_witness :
  let '(st, h) := ex_run (ex_race (ex_at 11 1 70)) in
  flush st = Removing (Some (10 * nanos_per_min)) [] [start_from_sample (ex_at 11 1 70)]
  ∧ due (Some (10 * nanos_per_min)) (start_from_sample (ex_at 11 1 70)) = false
  ∧ arrived (h_since h) (start_from_sample (ex_at 11 1 70)).
Proof.
  pose proof (ex_run_ok (ex_race (ex_at 11 1 70)) ltac:(vm_compute; reflexivity)) as E.
  assert (Hf : flush (ex_run (ex_race (ex_at 11 1 70))).1
               = Removing (Some (10 * nanos_per_min)) [] [start_from_sample (ex_at 11 1 70)])
    by reflexivity.
  destruct (ex_run (ex_race (ex_at 11 1 70))) as [st h]. cbn [fst] in Hf.
  split; [exact Hf|]. split; [reflexivity|].
  destruct (flush_returns_due _ _ _ _ _ _ E Hf) as (_ & Ha & _).
  apply Forall_cons in Ha as [[Hd|Ha] _]; [by vm_compute in Hd|exact Ha].
Defined.

Lemma flush_alone_witness :
  ∃ st, shared_run (alone (Some (10 * nanos_per_min)) (map_to_list ex_bars))
          (mkShared ex_bars Idle) = Some st
  ∧ agg_len (bars st) = 1%nat.
Proof.
  destruct (flush_alone (map_to_list ex_bars) ex_bars (10 * nanos_per_min)
              (reflexivity _)) as [H _].
  eexists. split; [exact H|reflexivity].
Defined.
