(* ===== verification/Pricing.v ===== *)
(** The price cache of [oi-collector/src/price_provider.rs]: last quote per
    instrument, an index by base asset, and the cross-exchange fallback. *)

From Stdlib Require Import ZArith Lia String.
From stdpp Require Import base option list strings gmap.
From S2P Require Import Prelude Externals Concrete Domain.
Open Scope Z_scope.
Open Scope oi_scope.

Inductive Provenance :=
| Native
| Fallback (from : Exchange) (quote_match : bool).

Record IndexEntry := mkEntry { e_id : InstrumentId; quote_canonical : string }.

Definition canonical_base (asset : string) : string :=
  if String.eqb (to_ascii_uppercase asset) "XBT" then "BTC" else asset.

Definition usd_family : list string :=
  ["USDT"; "USDC"; "BUSD"; "FDUSD"; "USD"; "TUSD"; "DAI"]%string.

Definition canonical_quote (quote : string) : string :=
  if bool_decide (to_ascii_uppercase quote ∈ usd_family) then "USD-PEG" else quote.

Section pricing.
Context {DL : DecimalLib} {TL : TimeLib}.

Record InMemoryPriceProvider := mkPrices {
  prices : gmap InstrumentId (Dec * OffsetDateTime);
  by_base : gmap string (list IndexEntry);
  tolerance : Z;
}.

Definition with_tolerance (tol : Z) : InMemoryPriceProvider :=
  {| prices := ∅; by_base := ∅; tolerance := tol |}.

Definition ingest (p : InMemoryPriceProvider) (quotes : list PriceQuote)
  : InMemoryPriceProvider :=
  {| prices := foldl (λ m q, <[q_instrument q := (q_price q, q_ts q)]> m) (prices p) quotes;
     by_base := by_base p; tolerance := tolerance p |}.

Definition register_instrument (p : InMemoryPriceProvider) (i : InstrumentId)
    (base_asset quote_asset : string) : InMemoryPriceProvider :=
  let base := canonical_base base_asset in
  let quote := canonical_quote quote_asset in
  let bucket := default [] (by_base p !! base) in
  let bucket := if existsb (λ e, bool_decide (e_id e = i)) bucket then bucket
                else bucket ++ [{| e_id := i; quote_canonical := quote |}] in
  {| prices := prices p; by_base := <[base := bucket]> (by_base p);
     tolerance := tolerance p |}.

Definition fresh (p : InMemoryPriceProvider) (i : InstrumentId) (near : OffsetDateTime)
  : option Dec :=
  match prices p !! i with
  | None => None
  | Some (price, ts) => if Z.abs (odt_diff near ts) <=? tolerance p then Some price else None
  end.

(** The inner loop of [scan_pass], over the entries of one exchange. *)
Fixpoint scan_entries (p : InMemoryPriceProvider) (ex : Exchange) (entries : list IndexEntry)
    (target : InstrumentId) (near : OffsetDateTime) (require_quote : option string)
  : option (Dec * Provenance) :=
  match entries with
  | [] => None
  | e :: rest =>
      let next := scan_entries p ex rest target near require_quote in
      if bool_decide (e_id e = target) then next
      else if match require_quote with
              | Some q => negb (String.eqb (quote_canonical e) q)
              | None => false
              end then next
      else match fresh p (e_id e) near with
           | Some price => Some (price, Fallback ex (bool_decide (is_Some require_quote)))
           | None => next
           end
  end.

Fixpoint scan_exchanges (p : InMemoryPriceProvider) (exs : list Exchange)
    (entries : list IndexEntry) (target : InstrumentId) (near : OffsetDateTime)
    (require_quote : option string) : option (Dec * Provenance) :=
  match exs with
  | [] => None
  | ex :: rest =>
      match scan_entries p ex (filter (λ e, exchange (e_id e) = ex) entries)
              target near require_quote with
      | Some found => Some found
      | None => scan_exchanges p rest entries target near require_quote
      end
  end.

Definition scan_pass (p : InMemoryPriceProvider) (entries : list IndexEntry)
    (target : InstrumentId) (near : OffsetDateTime) (require_quote : option string)
  : option (Dec * Provenance) :=
  scan_exchanges p exchange_all entries target near require_quote.

Definition price_usd_with_fallback (p : InMemoryPriceProvider) (i : InstrumentId)
    (base_asset quote_asset : string) (near : OffsetDateTime)
  : option (Dec * Provenance) :=
  match fresh p i near with
  | Some price => Some (price, Native)
  | None =>
      let canonical := canonical_base base_asset in
      let target_quote := canonical_quote quote_asset in
      match by_base p !! canonical with
      | None => None
      | Some entries =>
          match scan_pass p entries i near (Some target_quote) with
          | Some found => Some found
          | None => scan_pass p entries i near None
          end
      end
  end.

(** [impl PriceProvider for InMemoryPriceProvider] *)
Definition price_usd (p : InMemoryPriceProvider) (i : InstrumentId) (near : OffsetDateTime)
  : option Dec := fresh p i near.

(** * Specification *)

(** The position in [Exchange::all()]. *)
Definition rank (e : Exchange) : nat :=
  match e with
  | Binance => 0 | Bybit => 1 | Okx => 2 | BingX => 3 | KuCoin => 4
  | Mexc => 5 | Bitget => 6 | Hyperliquid => 7 | Aster => 8
  end.

(** A fresh price of another instrument in the list, of the required family. *)
Definition donor (p : InMemoryPriceProvider) (entries : list IndexEntry)
    (target : InstrumentId) (near : OffsetDateTime) (require_quote : option string)
    (e : IndexEntry) (price : Dec) : Prop :=
  e ∈ entries ∧ e_id e ≠ target
  ∧ (∀ q, require_quote = Some q → quote_canonical e = q)
  ∧ fresh p (e_id e) near = Some price.

Definition no_donor p entries target near require_quote : Prop :=
  ∀ e price, ¬ donor p entries target near require_quote e price.

(** The donor's exchange comes first among all donors. *)
Definition best_donor p entries target near require_quote (from : Exchange) (price : Dec) : Prop :=
  (∃ e, donor p entries target near require_quote e price ∧ exchange (e_id e) = from)
  ∧ ∀ e' price', donor p entries target near require_quote e' price' →
      (rank from ≤ rank (exchange (e_id e')))%nat.

Lemma rank_all exs1 ex exs2 e :
  exchange_all = exs1 ++ ex :: exs2 → e ∉ exs1 → (rank ex ≤ rank e)%nat.
Proof.
  unfold exchange_all. intros H Hin.
  do 9 (destruct exs1 as [|? exs1];
    [simplify_list_eq; destruct e; simpl; first [lia|exfalso; apply Hin; set_solver]|]).
  apply (f_equal length) in H. cbn [length app] in H. rewrite length_app in H.
  simpl in H. lia.
Qed.

Lemma scan_entries_none p ex entries target near rq :
  scan_entries p ex entries target near rq = None ↔ no_donor p entries target near rq.
Proof.
  unfold no_donor, donor. induction entries as [|e rest IH]; simpl.
  - split; [intros _ e price ([]%not_elem_of_nil & _)|done].
  - assert (Hskip : (∀ price, ¬ (e_id e ≠ target ∧ (∀ q, rq = Some q → quote_canonical e = q)
                               ∧ fresh p (e_id e) near = Some price)) →
      scan_entries p ex rest target near rq = None ↔
      ∀ e0 price, ¬ (e0 ∈ e :: rest ∧ e_id e0 ≠ target
        ∧ (∀ q, rq = Some q → quote_canonical e0 = q)
        ∧ fresh p (e_id e0) near = Some price)).
    { intros Hno. rewrite IH. setoid_rewrite elem_of_cons. split.
      - intros H e0 price ([->|Hin] & Hr); [by apply (Hno price)|]. by apply (H e0 price).
      - intros H e0 price (Hin & Hr). apply (H e0 price). split; [by right|done]. }
    case_bool_decide as Hid; [apply Hskip; naive_solver|].
    destruct (match rq with Some q => _ | None => false end) eqn:Hq.
    { apply Hskip. intros price (_ & Hm & _). destruct rq as [q|]; [|done].
      rewrite (Hm q eq_refl), String.eqb_refl in Hq. done. }
    destruct (fresh p (e_id e) near) as [price|] eqn:Hf; [|apply Hskip; naive_solver].
    split; [done|]. intros H. exfalso. apply (H e price). split; [left|]. split; [done|].
    split; [|done]. intros q ->. by apply negb_false_iff, String.eqb_eq in Hq.
Qed.

Lemma scan_entries_some p ex entries target near rq price pr :
  scan_entries p ex entries target near rq = Some (price, pr) →
  pr = Fallback ex (bool_decide (is_Some rq))
  ∧ ∃ e, donor p entries target near rq e price.
Proof.
  unfold donor. induction entries as [|e rest IH]; simpl; [done|].
  assert (Hskip : scan_entries p ex rest target near rq = Some (price, pr) →
    pr = Fallback ex (bool_decide (is_Some rq)) ∧
    ∃ e0, e0 ∈ e :: rest ∧ e_id e0 ≠ target ∧
      (∀ q, rq = Some q → quote_canonical e0 = q) ∧ fresh p (e_id e0) near = Some price).
  { intros (-> & e0 & Hin & Hr)%IH. split; [done|]. exists e0. split; [by right|done]. }
  destruct (bool_decide (e_id e = target)) eqn:Hid; [exact Hskip|].
  apply bool_decide_eq_false in Hid.
  destruct (match rq with Some q => _ | None => false end) eqn:Hq; [exact Hskip|].
  destruct (fresh p (e_id e) near) as [price'|] eqn:Hf; [|exact Hskip].
  intros [= <- <-]. split; [done|]. exists e. split; [left|]. split; [done|]. split; [|done].
  intros q ->. by apply negb_false_iff, String.eqb_eq in Hq.
Qed.

Lemma donor_filter p ex entries target near rq e price :
  donor p (filter (λ e, exchange (e_id e) = ex) entries) target near rq e price
  ↔ donor p entries target near rq e price ∧ exchange (e_id e) = ex.
Proof. unfold donor. rewrite list_elem_of_filter. naive_solver. Qed.

Lemma scan_exchanges_spec p done_exs exs entries target near rq :
  exchange_all = done_exs ++ exs →
  (∀ e price, donor p entries target near rq e price → exchange (e_id e) ∉ done_exs) →
  match scan_exchanges p exs entries target near rq with
  | Some (price, pr) => ∃ from, pr = Fallback from (bool_decide (is_Some rq))
                          ∧ best_donor p entries target near rq from price
  | None => no_donor p entries target near rq
  end.
Proof.
  revert done_exs. induction exs as [|ex exs IH]; intros done_exs Hall Hdone; simpl.
  - rewrite app_nil_r in Hall. intros e price Hd. apply (Hdone _ _ Hd).
    rewrite <- Hall. apply exchange_all_complete.
  - destruct (scan_entries _ _ _ _ _ _) as [[price pr]|] eqn:E.
    + apply scan_entries_some in E as (-> & e & [Hd He]%donor_filter).
      exists ex. split; [done|]. split; [eauto|].
      intros e' price' Hd'. eapply rank_all; [exact Hall|by eapply Hdone].
    + apply (IH (done_exs ++ [ex])); [by rewrite <- (assoc_L (++))|].
      intros e price Hd. rewrite not_elem_of_app. split; [by eapply Hdone|].
      intros Hex%list_elem_of_singleton.
      apply (proj1 (scan_entries_none _ _ _ _ _ _) E e price). by apply donor_filter.
Qed.

Lemma scan_pass_spec p entries target near rq :
  match scan_pass p entries target near rq with
  | Some (price, pr) => ∃ from, pr = Fallback from (bool_decide (is_Some rq))
                          ∧ best_donor p entries target near rq from price
  | None => no_donor p entries target near rq
  end.
Proof. apply (scan_exchanges_spec p []); [done|]. intros. apply not_elem_of_nil. Qed.

(** * Properties *)

(** C24. The price of an instrument, in order of preference: its own fresh
    quote; else the fresh quote of another instrument of the same canonical
    base and the same canonical quote family, from the first exchange in
    [Exchange::all()] order that has one; else the same among all quote
    families, flagged as a mismatch; and no price at all only when none of
    these exists. *)
Theorem price_fallback_priority p i base quote near :
  let entries := default [] (by_base p !! canonical_base base) in
  let strict := Some (canonical_quote quote) in
  match price_usd_with_fallback p i base quote near with
  | Some (price, Native) => price_usd p i near = Some price
  | Some (price, Fallback from true) =>
      price_usd p i near = None ∧ best_donor p entries i near strict from price
  | Some (price, Fallback from false) =>
      price_usd p i near = None ∧ no_donor p entries i near strict
      ∧ best_donor p entries i near None from price
  | None => price_usd p i near = None ∧ no_donor p entries i near None
  end.
Proof.
  unfold price_usd_with_fallback, price_usd. simpl.
  destruct (fresh p i near) as [price|]; [done|].
  destruct (by_base p !! canonical_base base) as [entries|]; simpl.
  2:{ split; [done|]. intros e price (Hin & _). by apply not_elem_of_nil in Hin. }
  pose proof (scan_pass_spec p entries i near (Some (canonical_quote quote))) as H1.
  destruct (scan_pass _ _ _ _ (Some _)) as [[price pr]|]; [by destruct H1 as (from & -> & H)|].
  pose proof (scan_pass_spec p entries i near None) as H2.
  destruct (scan_pass _ _ _ _ None) as [[price pr]|]; [|done].
  by destruct H2 as (from & -> & H).
Qed.

(** Instrument ids are registered once per base. *)
Definition index_wf (p : InMemoryPriceProvider) : Prop :=
  ∀ base entries, by_base p !! base = Some entries → NoDup (e_id <$> entries).

Lemma existsb_id i (l : list IndexEntry) :
  existsb (λ e, bool_decide (e_id e = i)) l = true ↔ i ∈ e_id <$> l.
Proof.
  rewrite existsb_exists, list_elem_of_fmap. setoid_rewrite <- list_elem_of_In.
  setoid_rewrite bool_decide_eq_true. naive_solver.
Qed.

(** Registration is idempotent and keeps the index free of duplicates:
    afterwards the instrument is listed under its canonical base, exactly once,
    no other base changes, and registering it again under that base, with
    whatever quote, changes nothing. *)
Theorem register_idempotent p i base quote quote' :
  index_wf p →
  let p' := register_instrument p i base quote in
  index_wf p'
  ∧ i ∈ e_id <$> default [] (by_base p' !! canonical_base base)
  ∧ (∀ b, b ≠ canonical_base base → by_base p' !! b = by_base p !! b)
  ∧ register_instrument p' i base quote' = p'
  ∧ (∀ j near, price_usd p' j near = price_usd p j near).
Proof.
  intros Hwf. cbv zeta.
  set (bucket := default [] (by_base p !! canonical_base base)).
  assert (Hnd : NoDup (e_id <$> bucket)).
  { subst bucket. destruct (by_base p !! _) eqn:E; simpl; [by eapply Hwf|constructor]. }
  set (bucket' := if existsb (λ e, bool_decide (e_id e = i)) bucket then bucket
                  else bucket ++ [mkEntry i (canonical_quote quote)]).
  assert (Hin : i ∈ e_id <$> bucket').
  { subst bucket'. destruct (existsb _ _) eqn:E; [by apply existsb_id|].
    rewrite fmap_app. apply elem_of_app. right. by left. }
  assert (Hnd' : NoDup (e_id <$> bucket')).
  { subst bucket'. destruct (existsb _ _) eqn:E; [done|].
    rewrite fmap_app. apply NoDup_app. split; [done|]. split; [|apply NoDup_singleton].
    intros x Hx Hx'%list_elem_of_singleton. subst x.
    simpl in Hx. apply existsb_id in Hx. congruence. }
  assert (Hp' : register_instrument p i base quote
                = mkPrices (prices p) (<[canonical_base base := bucket']> (by_base p)) (tolerance p))
    by done.
  rewrite Hp'. split; [|split; [|split; [|split; [|done]]]].
  - intros b entries. simpl. destruct (decide (b = canonical_base base)) as [->|].
    + rewrite lookup_insert_eq. by intros [= <-].
    + rewrite lookup_insert_ne by done. apply Hwf.
  - simpl. by rewrite lookup_insert_eq.
  - intros b Hb. simpl. by rewrite lookup_insert_ne.
  - unfold register_instrument. simpl. rewrite lookup_insert_eq. simpl.
    rewrite (proj2 (existsb_id i bucket') Hin). by rewrite insert_insert_eq.
Qed.

(** After a batch of quotes the cache holds, for each instrument, the last
    quote of the batch if there is one and otherwise what it held; the lookup
    serves it exactly while its age, in either direction, is within the
    tolerance. *)
Theorem ingest_last_wins p quotes i near :
  price_usd (ingest p quotes) i near =
    match last (filter (λ q, q_instrument q = i) quotes) with
    | Some q => if Z.abs (odt_diff near (q_ts q)) <=? tolerance p
                then Some (q_price q) else None
    | None => price_usd p i near
    end.
Proof.
  unfold price_usd, fresh, ingest. simpl.
  induction quotes as [|q quotes IH] using rev_ind; [done|].
  rewrite foldl_app, filter_app. simpl.
  destruct (decide (q_instrument q = i)) as [<-|Hne].
  - rewrite lookup_insert_eq, filter_cons_True by done.
    by rewrite filter_nil, last_snoc.
  - rewrite lookup_insert_ne, filter_cons_False by done. by rewrite filter_nil, app_nil_r.
Qed.
End pricing.

(** * Concrete runs *)

Definition ex_eth (e : Exchange) : InstrumentId := mkId e "ETHUSDT".
Definition ex_prices : InMemoryPriceProvider :=
  let p := with_tolerance (dur_seconds 90) in
  let p := register_instrument p (ex_eth Mexc) "ETH" "USDT" in
  let p := register_instrument p (ex_eth Bybit) "ETH" "USDC" in
  let p := register_instrument p (ex_eth Binance) "ETH" "EUR" in
  ingest p [mkQuote (ex_eth Mexc) 2001 Mark 0; mkQuote (ex_eth Bybit) 2002 Mark 0;
            mkQuote (ex_eth Binance) 1900 Mark 0].

(** Bybit's USDC quote is preferred to Mexc's USDT one and to Binance's euro. *)
Example price_fallback_run :
  price_usd_with_fallback ex_prices (ex_eth KuCoin) "ETH" "USDT" (dur_seconds 60)
  = Some (2002, Fallback Bybit true).
Proof. reflexivity. Qed.

Lemma register_idempotent_witness :
  index_wf (with_tolerance (dur_seconds 90))
  ∧ ex_eth Okx ∈ e_id <$> default []
      (by_base (register_instrument (with_tolerance (dur_seconds 90)) (ex_eth Okx) "XBT" "USDT")
         !! "BTC"%string).
Proof.
  assert (H : index_wf (with_tolerance (dur_seconds 90))) by (intros b es; done).
  split; [exact H|].
  destruct (register_idempotent _ (ex_eth Okx) "XBT" "USDT" "USD" H) as (_ & Hin & _).
  exact Hin.
Defined.
