(* ===== verification/Repository.v ===== *)
(** The storage contract and its decorators: the trait [OiRepository] of
    [oi-core/src/traits.rs] as a record of calls on a world [W], the leader gate
    ([leader_gated.rs]), the Redis cache and the pub/sub publisher ([redis.rs],
    [pubsub.rs]) over an abstract connection, and the composite repository
    ([composite.rs]). *)

From Stdlib Require Import ZArith Lia String.
From stdpp Require Import base option list strings gmap.
From S2P Require Import Prelude Externals Concrete Domain.
Open Scope Z_scope.
Open Scope oi_scope.

(** [rmp_serde] on the two types the storage layer encodes, and [crc32fast]. *)
Class SnapCodec `{DL : DecimalLib, TL : TimeLib} := {
  mp_encode : OiSnapshot → result string (list Z);
  mp_decode : list Z → result string OiSnapshot;
  mp_encode_batch : list OiSnapshot → result string (list Z);
  mp_decode_batch : list Z → result string (list OiSnapshot);
  crc32 : list Z → Z;
}.

Class CodecLaws `(SC : SnapCodec) : Prop := {
  mp_round_trip s b : mp_encode s = Ok b → mp_decode b = Ok s;
  mp_batch_round_trip l b : mp_encode_batch l = Ok b → mp_decode_batch b = Ok l;
  crc32_range b : 0 ≤ crc32 b < 2 ^ 32;
}.

Section repository.
Context {DL : DecimalLib} {TL : TimeLib}.

(** * The trait (traits.rs) *)

Record OiRepository (W : Type) := mkRepo {
  upsert_snapshots : list OiSnapshot → SE W CoreError unit;
  upsert_instruments : list InstrumentMeta → SE W CoreError unit;
  range : InstrumentId → OffsetDateTime → OffsetDateTime → SE W CoreError (list OiSnapshot);
  latest : InstrumentId → SE W CoreError (option OiSnapshot);
  upsert_funding : list FundingBar → SE W CoreError unit;
  funding_range : InstrumentId → OffsetDateTime → OffsetDateTime → SE W CoreError (list FundingBar);
  latest_funding : InstrumentId → SE W CoreError (option FundingBar);
  upsert_funding_events : list FundingEvent → SE W CoreError unit;
  funding_events_range : InstrumentId → OffsetDateTime → OffsetDateTime →
                         SE W CoreError (list FundingEvent);
  latest_funding_event : InstrumentId → SE W CoreError (option FundingEvent);
}.
Arguments mkRepo {W}.
Arguments upsert_snapshots {W}.
Arguments upsert_instruments {W}.
Arguments range {W}.
Arguments latest {W}.
Arguments upsert_funding {W}.
Arguments funding_range {W}.
Arguments latest_funding {W}.
Arguments upsert_funding_events {W}.
Arguments funding_events_range {W}.
Arguments latest_funding_event {W}.

(** The trait's default funding methods: writes are accepted and dropped. *)
Definition with_default_funding {W}
    (up : list OiSnapshot → SE W CoreError unit)
    (ui : list InstrumentMeta → SE W CoreError unit)
    (rg : InstrumentId → OffsetDateTime → OffsetDateTime → SE W CoreError (list OiSnapshot))
    (lt : InstrumentId → SE W CoreError (option OiSnapshot)) : OiRepository W :=
  {| upsert_snapshots := up; upsert_instruments := ui; range := rg; latest := lt;
     upsert_funding _ := mret tt;
     funding_range _ _ _ := mret [];
     latest_funding _ := mret None;
     upsert_funding_events _ := mret tt;
     funding_events_range _ _ _ := mret [];
     latest_funding_event _ := mret None |}.

(** * Leader gate (leader_gated.rs) *)

Definition not_leader : CoreError := CStorage "not leader".

Definition gated {W A} (is_leader : W → bool) (call : SE W CoreError A) : SE W CoreError A :=
  λ w, if is_leader w then call w else (Err not_leader, w).

Definition leader_gated {W} (inner : OiRepository W) (is_leader : W → bool) : OiRepository W :=
  {| upsert_snapshots snaps := gated is_leader (upsert_snapshots inner snaps);
     upsert_instruments metas := upsert_instruments inner metas;
     range i from to := range inner i from to;
     latest i := latest inner i;
     upsert_funding bars := gated is_leader (upsert_funding inner bars);
     funding_range i from to := funding_range inner i from to;
     latest_funding i := latest_funding inner i;
     upsert_funding_events events := gated is_leader (upsert_funding_events inner events);
     funding_events_range i from to := funding_events_range inner i from to;
     latest_funding_event i := latest_funding_event inner i |}.

(** * Redis (redis.rs, pubsub.rs) *)

Inductive RedisCmd :=
| SetEx (key : string) (value : list Z) (ttl : Z)
| Publish (channel : string) (payload : list Z).

(** A connection: a pipeline of commands, and a read. Both report the error's
    text. *)
Record RedisConn (W : Type) := mkConn {
  redis_pipe : list RedisCmd → SE W string unit;
  redis_get : string → SE W string (option (list Z));
}.
Arguments mkConn {W}.
Arguments redis_pipe {W}.
Arguments redis_get {W}.

Definition LATEST_TTL_SECS : Z := 15 * 60.
Definition latest_key (i : InstrumentId) : string := "oi:latest:" +:+ id_key i.
Definition redis_err (e : string) : CoreError := CStorage ("redis: " +:+ e).
Definition msgpack_err (e : string) : CoreError := CStorage ("msgpack: " +:+ e).
(** [RedisCache::probe]; [ping] is the reply to PING. *)
Definition redis_probe {W} (ping : SE W string string) : SE W CoreError unit :=
  pong ← se_map_err redis_err ping;
  if String.eqb pong "PONG" then mret tt
  else se_fail (CStorage ("unexpected PING reply: " +:+ pong)).
Definition FIREHOSE_CHANNEL : string := "oi:stream".
Definition exchange_channel (e : Exchange) : string := FIREHOSE_CHANNEL +:+ ":" +:+ code e.

Context {SC : SnapCodec}.

Definition set_latest {W} (c : RedisConn W) (s : OiSnapshot) : SE W CoreError unit :=
  bytes ← se_lift (map_err msgpack_err (mp_encode s));
  se_map_err redis_err
    (redis_pipe c [SetEx (latest_key (instrument s)) bytes LATEST_TTL_SECS]).

Definition get_latest {W} (c : RedisConn W) (i : InstrumentId)
  : SE W CoreError (option OiSnapshot) :=
  bytes ← se_map_err redis_err (redis_get c (latest_key i));
  match bytes with
  | None => mret None
  | Some b => se_lift (map_err (λ e, CStorage ("msgpack decode: " +:+ e)) (Some <$> mp_decode b))
  end.

Definition set_cmd (s : OiSnapshot) : result CoreError RedisCmd :=
  let? bytes := map_err msgpack_err (mp_encode s) in
  Ok (SetEx (latest_key (instrument s)) bytes LATEST_TTL_SECS).

Definition bulk_set_latest {W} (c : RedisConn W) (snaps : list OiSnapshot)
  : SE W CoreError unit :=
  match snaps with
  | [] => mret tt
  | _ => pipe ← se_lift (list_traverse set_cmd snaps);
         se_map_err redis_err (redis_pipe c pipe)
  end.

Definition publish_cmds (s : OiSnapshot) : result CoreError (list RedisCmd) :=
  let? bytes := map_err msgpack_err (mp_encode s) in
  Ok [Publish FIREHOSE_CHANNEL bytes;
      Publish (exchange_channel (exchange (instrument s))) bytes].

Definition publish {W} (c : RedisConn W) (snaps : list OiSnapshot) : SE W CoreError unit :=
  match snaps with
  | [] => mret tt
  | _ => pipe ← se_lift (list_traverse publish_cmds snaps);
         se_map_err redis_err (redis_pipe c (concat pipe))
  end.

(** The stream [subscribe] returns: payloads that do not decode are dropped. *)
Definition subscribe_stream (payloads : list (list Z)) : list OiSnapshot :=
  omap (λ b, result_ok (mp_decode b)) payloads.

(** * Composite (composite.rs) *)

Record CompositeRepository (W : Type) := mkComposite {
  primary : OiRepository W;
  cache : RedisConn W;
  leader_gate : option (W → bool);
}.
Arguments mkComposite {W}.
Arguments primary {W}.
Arguments cache {W}.
Arguments leader_gate {W}.

(** Pub/sub reuses the cache's connection. *)
Definition with_primary {W} (p : OiRepository W) (c : RedisConn W) : CompositeRepository W :=
  {| primary := p; cache := c; leader_gate := None |}.
Definition with_leader_gate {W} (r : CompositeRepository W) (g : W → bool)
  : CompositeRepository W :=
  {| primary := primary r; cache := cache r; leader_gate := Some g |}.

Definition composite_leads {W} (r : CompositeRepository W) (w : W) : bool :=
  match leader_gate r with Some g => g w | None => true end.

Definition composite_upsert {W} (r : CompositeRepository W) (snaps : list OiSnapshot)
  : SE W CoreError unit := λ w,
  let '(primary_result, w) := upsert_snapshots (primary r) snaps w in
  let w :=
    if composite_leads r w then
      let '(_, w) := bulk_set_latest (cache r) snaps w in
      let '(_, w) := publish (cache r) snaps w in w
    else w in
  (primary_result, w).

Definition composite_latest {W} (r : CompositeRepository W) (i : InstrumentId)
  : SE W CoreError (option OiSnapshot) := λ w,
  match get_latest (cache r) i w with
  | (Ok (Some s), w) => (Ok (Some s), w)
  | (Ok None, w) => latest (primary r) i w
  | (Err e, w) => latest (primary r) i w
  end.

Definition composite {W} (r : CompositeRepository W) : OiRepository W :=
  {| upsert_snapshots snaps := composite_upsert r snaps;
     upsert_instruments metas := upsert_instruments (primary r) metas;
     range i from to := range (primary r) i from to;
     latest i := composite_latest r i;
     upsert_funding bars := upsert_funding (primary r) bars;
     funding_range i from to := funding_range (primary r) i from to;
     latest_funding i := latest_funding (primary r) i;
     upsert_funding_events events := upsert_funding_events (primary r) events;
     funding_events_range i from to := funding_events_range (primary r) i from to;
     latest_funding_event i := latest_funding_event (primary r) i |}.
End repository.

Arguments mkRepo {DL TL W}.
Arguments upsert_snapshots {DL TL W}.
Arguments upsert_instruments {DL TL W}.
Arguments range {DL TL W}.
Arguments latest {DL TL W}.
Arguments upsert_funding {DL TL W}.
Arguments funding_range {DL TL W}.
Arguments latest_funding {DL TL W}.
Arguments upsert_funding_events {DL TL W}.
Arguments funding_events_range {DL TL W}.
Arguments latest_funding_event {DL TL W}.
Arguments mkConn {W}.
Arguments redis_pipe {W}.
Arguments redis_get {W}.
Arguments mkComposite {DL TL W}.
Arguments primary {DL TL W}.
Arguments cache {DL TL W}.
Arguments leader_gate {DL TL W}.

(** * What the code relies on from Redis *)

Fixpoint apply_sets (m : gmap string (list Z)) (cmds : list RedisCmd) : gmap string (list Z) :=
  match cmds with
  | [] => m
  | SetEx k v _ :: cmds' => apply_sets (<[k := v]> m) cmds'
  | Publish _ _ :: cmds' => apply_sets m cmds'
  end.
Definition published (cmds : list RedisCmd) : list (string * list Z) :=
  omap (λ c, match c with Publish ch b => Some (ch, b) | SetEx _ _ _ => None end) cmds.

(** [view] is the unexpired content of the server and [sent] the messages it
    has delivered; a pipeline that succeeds has executed its commands in order. *)
Class RedisLaws {W} (c : RedisConn W) (view : W → gmap string (list Z))
    (sent : W → list (string * list Z)) : Prop := {
  pipe_ok cmds w w' : redis_pipe c cmds w = (Ok tt, w') →
    view w' = apply_sets (view w) cmds ∧ sent w' = sent w ++ published cmds;
  get_ok k w b w' : redis_get c k w = (Ok b, w') → b = view w !! k ∧ view w' = view w;
}.

(** The payloads a subscriber of [channel] sees. *)
Definition on_channel (channel : string) (msgs : list (string * list Z)) : list (list Z) :=
  (filter (λ m, m.1 = channel) msgs).*2.

Section repository_lemmas.
Context {DL : DecimalLib} {TL : TimeLib} {SC : SnapCodec} {CL : CodecLaws SC}.
Context {W : Type} (c : RedisConn W) (view : W → gmap string (list Z))
        (sent : W → list (string * list Z)) {RL : RedisLaws c view sent}.

Lemma latest_key_inj i j : latest_key i = latest_key j → i = j.
Proof.
  unfold latest_key. intros H%(inj (String.append _)). destruct i, j.
  unfold id_key in H. simpl in H. by apply id_key_inj_helper in H as [-> ->].
Qed.

Lemma exchange_channel_inj e1 e2 : exchange_channel e1 = exchange_channel e2 → e1 = e2.
Proof.
  unfold exchange_channel. intros H%(inj (String.append _)). by destruct e1, e2.
Qed.

Lemma list_traverse_Forall2 {E A B} (f : A → result E B) l bs :
  list_traverse f l = Ok bs ↔ Forall2 (λ a b, f a = Ok b) l bs.
Proof.
  split.
  - revert bs. induction l as [|a l IH]; simpl; intros bs; [by intros [= <-]|].
    destruct (f a) as [b|] eqn:E1; [|done].
    destruct (list_traverse f l) as [bs'|]; [|done]. intros [= <-]. auto.
  - induction 1 as [|a b l bs Hab _ IH]; [done|]. simpl. by rewrite Hab, IH.
Qed.

Lemma set_cmd_ok s cmd :
  set_cmd s = Ok cmd →
  ∃ b, mp_decode b = Ok s ∧ cmd = SetEx (latest_key (instrument s)) b LATEST_TTL_SECS.
Proof.
  unfold set_cmd. destruct (mp_encode s) as [b|] eqn:E; simpl; [|done].
  intros [= <-]. exists b. split; [by apply mp_round_trip|done].
Qed.

(** The cached entry of an instrument after a batch of [SETEX]: the last
    snapshot of the batch for it. *)
Lemma apply_set_cmds m snaps cmds i :
  Forall2 (λ s cmd, set_cmd s = Ok cmd) snaps cmds →
  ∀ s, last (filter (λ s, instrument s = i) snaps) = Some s →
  ∃ b, apply_sets m cmds !! latest_key i = Some b ∧ mp_decode b = Ok s.
Proof.
  assert (Happ : ∀ m l k v ttl, apply_sets m (l ++ [SetEx k v ttl]) = <[k := v]> (apply_sets m l)).
  { intros m' l k v t. revert m'. induction l as [|[] l IH]; intros m'; simpl; auto. }
  intros H s. revert cmds H. induction snaps as [|x snaps IH] using rev_ind; intros cmds H; [done|].
  apply Forall2_app_inv_l in H as (cmds1 & cmds2 & H1 & H2 & ->).
  apply Forall2_cons_inv_l in H2 as (cmd & ? & Hc & ->%Forall2_nil_inv_l & ->).
  apply set_cmd_ok in Hc as (b & Hb & ->). rewrite Happ, filter_app.
  destruct (decide (instrument x = i)) as [<-|Hne].
  - rewrite filter_cons_True, filter_nil, last_snoc by done. intros [= <-].
    exists b. by rewrite lookup_insert_eq.
  - rewrite filter_cons_False, filter_nil, app_nil_r by done. intros Hl.
    rewrite lookup_insert_ne by (by intros ?%latest_key_inj). by apply IH.
Qed.

Lemma bulk_set_latest_view snaps w w' :
  bulk_set_latest c snaps w = (Ok tt, w') →
  ∀ i s, last (filter (λ s, instrument s = i) snaps) = Some s →
  ∃ b, view w' !! latest_key i = Some b ∧ mp_decode b = Ok s.
Proof.
  intros H i s Hl. destruct snaps as [|s0 snaps]; [done|]. unfold bulk_set_latest in H.
  unfold mbind, se_bind, se_lift in H.
  destruct (list_traverse set_cmd (s0 :: snaps)) as [cmds|] eqn:E; [|done].
  apply list_traverse_Forall2 in E. unfold se_map_err in H.
  destruct (redis_pipe c cmds w) as [[[]|] w1] eqn:Ep; [|done]. injection H as <-.
  destruct (pipe_ok _ _ _ Ep) as [-> _]. by eapply apply_set_cmds.
Qed.

Lemma published_app a b : published (a ++ b) = published a ++ published b.
Proof. apply omap_app. Qed.

Lemma on_channel_app ch a b : on_channel ch (a ++ b) = on_channel ch a ++ on_channel ch b.
Proof. unfold on_channel. by rewrite filter_app, fmap_app. Qed.

Lemma publish_cmds_channel snaps cmds ch (P : Exchange → Prop) {HP : ∀ e, Decision (P e)} :
  Forall2 (λ s l, publish_cmds s = Ok l) snaps cmds →
  (∀ e b, subscribe_stream (on_channel ch [(FIREHOSE_CHANNEL, b); (exchange_channel e, b)])
          = if decide (P e) then option_list (result_ok (mp_decode b)) else []) →
  subscribe_stream (on_channel ch (published (concat cmds)))
  = filter (λ s, P (exchange (instrument s))) snaps.
Proof.
  intros H Hch. induction H as [|s l snaps cmds Hs _ IH]; [done|]. simpl.
  rewrite published_app, on_channel_app. unfold subscribe_stream in *. rewrite omap_app, IH.
  unfold publish_cmds in Hs. destruct (mp_encode s) as [b|] eqn:E; simpl in Hs; [|done].
  injection Hs as <-. simpl. rewrite Hch, (mp_round_trip _ _ E).
  destruct (decide (P _)); [by rewrite filter_cons_True|by rewrite filter_cons_False].
Qed.

Lemma publish_cmds_sets m snaps cmds :
  Forall2 (λ s l, publish_cmds s = Ok l) snaps cmds → apply_sets m (concat cmds) = m.
Proof.
  induction 1 as [|s l snaps cmds Hs _ IH]; [done|]. unfold publish_cmds in Hs.
  destruct (mp_encode s); simpl in Hs; [|done]. by injection Hs as <-.
Qed.

Lemma publish_sent snaps w w' :
  publish c snaps w = (Ok tt, w') →
  view w' = view w ∧
  ∃ new, sent w' = sent w ++ new
    ∧ subscribe_stream (on_channel FIREHOSE_CHANNEL new) = snaps
    ∧ ∀ e, subscribe_stream (on_channel (exchange_channel e) new)
           = filter (λ s, exchange (instrument s) = e) snaps.
Proof.
  intros H. destruct snaps as [|s0 snaps].
  { injection H as <-. split; [done|]. exists []. rewrite app_nil_r. done. }
  unfold publish, mbind, se_bind, se_lift in H.
  destruct (list_traverse publish_cmds (s0 :: snaps)) as [cmds|] eqn:E; [|done].
  apply list_traverse_Forall2 in E. unfold se_map_err in H.
  destruct (redis_pipe c (concat cmds) w) as [[[]|] w1] eqn:Ep; [|done]. injection H as <-.
  destruct (pipe_ok _ _ _ Ep) as [-> ->].
  split; [by eapply publish_cmds_sets|]. eexists. split; [done|]. split.
  - rewrite (publish_cmds_channel _ _ _ (λ _, True) E).
    + clear. induction (s0 :: snaps) as [|x l IH]; [done|]. rewrite filter_cons_True by done. by rewrite IH.
    + intros e b. rewrite decide_True by done. unfold on_channel.
      rewrite filter_cons_True, filter_cons_False by (done || by destruct e). simpl.
      by destruct (mp_decode b).
  - intros e. rewrite (publish_cmds_channel _ _ _ (λ e', e' = e) E); [done|].
    intros e' b. unfold on_channel. rewrite filter_cons_False by (by destruct e).
    case_decide as He.
    + subst. rewrite filter_cons_True by done. simpl. by destruct (mp_decode b).
    + by rewrite filter_cons_False by (by intros ?%exchange_channel_inj).
Qed.

(** C29. Redis is an enhancement, never part of the durable contract: whatever
    Redis does, the composite's write returns the primary's outcome, and on a
    node that is not the leader it touches nothing but the primary.  On a
    leader whose two pipelines succeed, the next read of each written
    instrument is answered from the cache with the batch's last snapshot of it,
    and the subscribers of the firehose, and of each exchange channel, receive
    exactly the batch's snapshots (of that exchange), in order. *)
Theorem composite_write_effects (p : OiRepository W) gate snaps w :
  let r := with_leader_gate (with_primary p c) gate in
  let '(res, w1) := upsert_snapshots p snaps w in
  (upsert_snapshots (composite r) snaps w).1 = res
  ∧ (gate w1 = false → upsert_snapshots (composite r) snaps w = (res, w1))
  ∧ (∀ w2 w3, gate w1 = true →
       bulk_set_latest c snaps w1 = (Ok tt, w2) → publish c snaps w2 = (Ok tt, w3) →
       upsert_snapshots (composite r) snaps w = (res, w3)
       ∧ (∀ i s b w4, last (filter (λ s, instrument s = i) snaps) = Some s →
            redis_get c (latest_key i) w3 = (Ok b, w4) →
            latest (composite r) i w3 = (Ok (Some s), w4))
       ∧ ∃ new, sent w3 = sent w2 ++ new
           ∧ subscribe_stream (on_channel FIREHOSE_CHANNEL new) = snaps
           ∧ ∀ e, subscribe_stream (on_channel (exchange_channel e) new)
                  = filter (λ s, exchange (instrument s) = e) snaps).
Proof.
  cbv zeta. destruct (upsert_snapshots p snaps w) as [res w1] eqn:Ep.
  simpl. unfold composite_upsert. simpl. rewrite Ep.
  unfold composite_leads. simpl. destruct (gate w1) eqn:Eg.
  2:{ split; [done|]. split; [done|]. by intros. }
  split; [by destruct (bulk_set_latest c snaps w1) as [? w2], (publish c snaps w2)|].
  split; [done|].
  intros w2 w3 _ Hb Hp. rewrite Hb, Hp. split; [done|].
  destruct (publish_sent _ _ _ Hp) as [Hv3 Hnew]. split; [|exact Hnew].
  intros i s b w4 Hl Hg.
  destruct (bulk_set_latest_view _ _ _ Hb i s Hl) as (b' & Hv & Hd).
  destruct (get_ok _ _ _ _ Hg) as [Hbv _]. rewrite Hv3, Hv in Hbv. subst b.
  unfold composite_latest, get_latest, mbind, se_bind, se_map_err. simpl. rewrite Hg.
  simpl. unfold se_lift. by rewrite Hd.
Qed.

(** A cached value that is missing, unreadable or cannot be fetched never
    fails a read: the composite then answers with the primary. *)
Theorem composite_read_falls_back (p : OiRepository W) i w r w' :
  redis_get c (latest_key i) w = (r, w') →
  (∀ b s, r = Ok (Some b) → mp_decode b ≠ Ok s) →
  latest (composite (with_primary p c)) i w = latest p i w'.
Proof.
  intros Hg Hr. simpl. unfold composite_latest, get_latest, mbind, se_bind, se_map_err. simpl.
  rewrite Hg. destruct r as [[b|]|e]; simpl; [|done|done].
  unfold se_lift. destruct (mp_decode b) as [s|e] eqn:E; [by destruct (Hr b s)|done].
Qed.
End repository_lemmas.

(** * Concrete runs *)

#[export] Instance z_dec_eq : EqDecision (Dec (DecimalLib := z_decimal)) := Z.eq_dec.
#[export] Instance z_odt_eq : EqDecision (OffsetDateTime (TimeLib := z_time)) := Z.eq_dec.
#[export] Instance z_snap_eq :
  EqDecision (OiSnapshot (DL := z_decimal) (TL := z_time)).
Proof. solve_decision. Defined.

(** A codec that knows the batches of a table and encodes each as its index. *)
Definition table_encode (table : list (list OiSnapshot)) (l : list OiSnapshot)
  : result string (list Z) :=
  match list_find (λ x, x = l) table with
  | Some (i, _) => Ok [Z.of_nat i]
  | None => Err "unknown batch"%string
  end.
Definition table_decode (table : list (list OiSnapshot)) (b : list Z)
  : result string (list OiSnapshot) :=
  match b with
  | [i] => match table !! Z.to_nat i with Some l => Ok l | None => Err "bad index"%string end
  | _ => Err "bad length"%string
  end.
Definition table_codec (table : list (list OiSnapshot)) : SnapCodec := {|
  mp_encode s := table_encode table [s];
  mp_decode b := match table_decode table b with
                 | Ok [s] => Ok s | Ok _ => Err "not one"%string | Err e => Err e end;
  mp_encode_batch := table_encode table;
  mp_decode_batch := table_decode table;
  crc32 b := foldr Z.add 7 b mod 2 ^ 32;
|}.

Lemma table_round_trip table l b :
  table_encode table l = Ok b → table_decode table b = Ok l.
Proof.
  unfold table_encode, table_decode.
  destruct (list_find _ table) as [[i x]|] eqn:E; [|done]. intros [= <-].
  apply list_find_Some in E as (Hi & -> & _). by rewrite Nat2Z.id, Hi.
Qed.
#[export] Instance table_codec_laws table : CodecLaws (table_codec table).
Proof.
  split; simpl; intros.
  - by rewrite (table_round_trip _ _ _ H).
  - by apply table_round_trip.
  - by apply Z.mod_pos_bound.
Qed.

(** A server that never fails, and a primary that keeps what it is given. *)
Record ExStore := mkStore {
  st_view : gmap string (list Z); st_sent : list (string * list Z);
  st_rows : list (OiSnapshot (DL := z_decimal) (TL := z_time)); st_lead : bool }.
Definition ex_conn : RedisConn ExStore := {|
  redis_pipe cmds w := (Ok tt, mkStore (apply_sets (st_view w) cmds)
                                 (st_sent w ++ published cmds) (st_rows w) (st_lead w));
  redis_get k w := (Ok (st_view w !! k), w);
|}.
#[export] Instance ex_conn_laws : RedisLaws ex_conn st_view st_sent.
Proof. split; simpl; intros; by simplify_eq/=. Qed.

Definition ex_primary : OiRepository (DL := z_decimal) (TL := z_time) ExStore :=
  with_default_funding
    (λ l w, (Ok tt, mkStore (st_view w) (st_sent w) (st_rows w ++ l) (st_lead w)))
    (λ _, mret tt) (λ _ _ _, mret []) (λ i w, (Ok (last (filter (λ s, instrument s = i) (st_rows w))), w)).

Definition ex_bar (v : Z) : OiSnapshot := start_from_sample (ex_sample v 1 None).
Definition ex_codec : SnapCodec := table_codec [[ex_bar 1]; [ex_bar 2]; [ex_bar 1; ex_bar 2]].
Definition ex_world (lead : bool) : ExStore := mkStore ∅ [] [] lead.

Lemma composite_write_effects_witness :
  let r := with_leader_gate (with_primary ex_primary ex_conn) st_lead in
  let out := upsert_snapshots (composite (SC := ex_codec) r) [ex_bar 1; ex_bar 2] (ex_world true) in
  out.1 = Ok tt
  ∧ latest (composite (SC := ex_codec) r) ex_btc out.2 = (Ok (Some (ex_bar 2)), out.2).
Proof.
  pose proof (composite_write_effects (SC := ex_codec) ex_conn st_view st_sent
    ex_primary st_lead [ex_bar 1; ex_bar 2] (ex_world true)) as H.
  cbv zeta in H. simpl upsert_snapshots in H at 1.
  destruct H as (H1 & _ & H3). split; [exact H1|].
  destruct (H3 _ _ eq_refl eq_refl eq_refl) as (H4 & H5 & _).
  simpl in H4. etransitivity; [|eapply (H5 ex_btc (ex_bar 2)); reflexivity]. reflexivity.
Defined.

Lemma composite_read_falls_back_witness :
  let w := mkStore {[ latest_key ex_btc := [255] ]} [] [ex_bar 1] true in
  latest (composite (SC := ex_codec) (with_primary ex_primary ex_conn)) ex_btc w
  = (Ok (Some (ex_bar 1)), w).
Proof.
  etransitivity.
  - eapply (composite_read_falls_back (SC := ex_codec) ex_conn ex_primary ex_btc).
    + reflexivity.
    + intros b s. vm_compute lookup. intros [= <-]. discriminate.
  - reflexivity.
Defined.
