(* ===== verification/Exact.v ===== *)
(** A second instance of the third-party interfaces, close enough to the real
    libraries to run the repository's own tests on the model: decimals with a
    scale, whose equality is coarser than their representation ([10.20] and
    [10.2] are one number with two texts), calendar date-times and the CRC-32 of
    the log's frames.  It shows that the laws of [Externals.v] hold of such
    decimals too.  A product that would have to be rounded to fit in 96 bits or
    28 decimals is a panic here; none of the tests needs one. *)

From Stdlib Require Import ZArith Lia String Ascii.
From stdpp Require Import base option list strings.
From S2P Require Import Prelude Externals Concrete Domain Repository.
Open Scope Z_scope.
Open Scope oi_scope.

(** * Decimals *)

Record xdec := XDec { x_num : Z; x_scale : nat }.
#[export] Instance xdec_eq_dec : EqDecision xdec.
Proof. solve_decision. Defined.

Definition pow10 (n : nat) : Z := 10 ^ Z.of_nat n.
(** Numeric order, over the common denominator. *)
Definition x_cmp (a b : xdec) : comparison :=
  Z.compare (x_num a * pow10 (x_scale b)) (x_num b * pow10 (x_scale a)).
Definition x_mul (a b : xdec) : run xdec :=
  let n := x_num a * x_num b in
  let s := (x_scale a + x_scale b)%nat in
  if (Z.abs n <? 2 ^ 96) && (s <=? 28)%nat then Ret (XDec n s) else Panic.

(** ** Text *)

Definition point : ascii := ".".
Definition digit_char (d : Z) : ascii := ascii_of_nat (48 + Z.to_nat d).
Definition digit_of (c : ascii) : option Z :=
  let n := nat_of_ascii c in
  if (48 <=? n)%nat && (n <=? 57)%nat then Some (Z.of_nat n - 48) else None.

(** The last [k] digits of [m], and all digits of [q] ([fuel + 1] at most). *)
Fixpoint fixed_digits (k : nat) (m : Z) : string :=
  match k with
  | O => EmptyString
  | S k' => fixed_digits k' (m / 10) +:+ String (digit_char (m mod 10)) EmptyString
  end.
Fixpoint all_digits (fuel : nat) (q : Z) : string :=
  if q <? 10 then String (digit_char q) EmptyString
  else match fuel with
       | O => EmptyString
       | S f => all_digits f (q / 10) +:+ String (digit_char (q mod 10)) EmptyString
       end.
Definition x_to_string (d : xdec) : string :=
  let n := Z.abs (x_num d) in
  let q := n / pow10 (x_scale d) in
  (if x_num d <? 0 then "-" else EmptyString)
  +:+ all_digits (Z.to_nat (Z.log2 q)) q
  +:+ match x_scale d with
      | O => EmptyString
      | _ => String point (fixed_digits (x_scale d) (n mod pow10 (x_scale d)))
      end.

(** Digits with at most one point between them. *)
Fixpoint scan (s : string) (acc : Z) (seen : bool) (scale : nat) (any : bool) : option xdec :=
  match s with
  | EmptyString => if any then Some (XDec acc scale) else None
  | String c s' =>
      match digit_of c with
      | Some d => scan s' (acc * 10 + d) seen (if seen then S scale else scale) true
      | None => if Ascii.eqb c point && negb seen then scan s' acc true scale any else None
      end
  end.
Definition x_neg (d : xdec) : xdec := XDec (- x_num d) (x_scale d).
Definition x_parse (s : string) : option xdec :=
  match s with
  | String "-" s' => x_neg <$> scan s' 0 false 0 false
  | String "+" s' => scan s' 0 false 0 false
  | _ => scan s 0 false 0 false
  end.
Definition x_from_str (s : string) : result string xdec :=
  match x_parse s with Some d => Ok d | None => Err "Invalid decimal"%string end.

Definition x_decimal : DecimalLib := {|
  Dec := xdec; dec_cmp := x_cmp; dec_mul := x_mul; dec_from_str := x_from_str;
  dec_to_string := x_to_string; dec_one := XDec 1 0;
|}.

(** ** The laws *)

Lemma pow10_pos n : 0 < pow10 n.
Proof. unfold pow10. apply Z.pow_pos_nonneg; lia. Qed.
Lemma pow10_S n : pow10 (S n) = 10 * pow10 n.
Proof. unfold pow10. rewrite Nat2Z.inj_succ. by rewrite Z.pow_succ_r by lia. Qed.
#[local] Hint Resolve pow10_pos : oi.

Lemma digit_of_char d : 0 ≤ d < 10 → digit_of (digit_char d) = Some d.
Proof.
  intros H. unfold digit_of, digit_char. rewrite nat_ascii_embedding by lia.
  rewrite (proj2 (Nat.leb_le _ _)), (proj2 (Nat.leb_le _ _)) by lia. simpl. f_equal. lia.
Qed.

Lemma scan_digit d t acc seen scale any :
  0 ≤ d < 10 →
  scan (String (digit_char d) t) acc seen scale any
  = scan t (acc * 10 + d) seen (if seen then S scale else scale) true.
Proof. intros H. cbn [scan]. by rewrite digit_of_char. Qed.

Lemma scan_fixed k m t acc scale any :
  0 ≤ m < pow10 k →
  scan (fixed_digits k m +:+ t) acc true scale any
  = scan t (acc * pow10 k + m) true (scale + k) (match k with O => any | _ => true end).
Proof.
  revert m t. induction k as [|k IH]; intros m t Hm.
  - change (pow10 0) with 1 in *. assert (m = 0) as -> by lia. cbn [fixed_digits].
    change (EmptyString +:+ t) with t. by rewrite Nat.add_0_r, Z.mul_1_r, Z.add_0_r.
  - rewrite pow10_S in *. cbn [fixed_digits]. rewrite <- string_app_assoc, string_app_cons.
    pose proof (Z.div_mod m 10 ltac:(lia)). pose proof (Z.mod_pos_bound m 10 ltac:(lia)).
    rewrite IH by (split; [apply Z.div_pos; lia|apply Z.div_lt_upper_bound; lia]).
    rewrite scan_digit by lia. change (EmptyString +:+ t) with t.
    f_equal; [lia|lia].
Qed.

Lemma scan_all fuel q t any :
  0 ≤ q < pow10 (S fuel) →
  scan (all_digits fuel q +:+ t) 0 false 0 any = scan t q false 0 true.
Proof.
  revert q t. induction fuel as [|f IH]; intros q t Hq; cbn [all_digits];
    destruct (Z.ltb_spec q 10) as [H10|H10].
  - rewrite string_app_cons, scan_digit by lia. by rewrite Z.mul_0_l.
  - change (pow10 1) with 10 in Hq. lia.
  - rewrite string_app_cons, scan_digit by lia. by rewrite Z.mul_0_l.
  - rewrite <- string_app_assoc, string_app_cons. rewrite pow10_S in Hq.
    pose proof (Z.div_mod q 10 ltac:(lia)). pose proof (Z.mod_pos_bound q 10 ltac:(lia)).
    rewrite IH by (split; [apply Z.div_pos; lia|apply Z.div_lt_upper_bound; lia]).
    rewrite scan_digit by lia. change (EmptyString +:+ t) with t. f_equal. lia.
Qed.

Lemma log2_fuel q : 0 ≤ q → q < pow10 (S (Z.to_nat (Z.log2 q))).
Proof.
  intros Hq. unfold pow10. rewrite Nat2Z.inj_succ, Z2Nat.id by apply Z.log2_nonneg.
  destruct (Z.eq_dec q 0) as [->|Hne]; [done|].
  destruct (Z.log2_spec q) as [_ H]; [lia|].
  eapply Z.lt_le_trans; [exact H|]. apply Z.pow_le_mono_l. pose proof (Z.log2_nonneg q). lia.
Qed.

(** The text of a number without its sign. *)
Lemma scan_text n k :
  0 ≤ n →
  scan (all_digits (Z.to_nat (Z.log2 (n / pow10 k))) (n / pow10 k)
        +:+ match k with
            | O => EmptyString
            | _ => String point (fixed_digits k (n mod pow10 k))
            end) 0 false 0 false = Some (XDec n k).
Proof.
  intros Hn. pose proof (pow10_pos k) as Hk.
  assert (0 ≤ n / pow10 k) as Hq by (apply Z.div_pos; lia).
  rewrite scan_all by (split; [done|by apply log2_fuel]).
  destruct k as [|k].
  - change (pow10 0) with 1. cbn [scan]. by rewrite Z.div_1_r.
  - cbn [scan]. change (digit_of point) with (@None Z).
    change (Ascii.eqb point point && negb false) with true. cbv iota.
    pose proof (scan_fixed (S k) (n mod pow10 (S k)) EmptyString (n / pow10 (S k)) 0 true
      (Z.mod_pos_bound _ _ Hk)) as H.
    assert (∀ s, s +:+ EmptyString = s) as Happ.
    { induction s as [|c s IH]; [done|]. rewrite string_app_cons. by rewrite IH. }
    rewrite Happ in H. rewrite H. cbn [scan]. f_equal. f_equal.
    pose proof (Z.div_mod n (pow10 (S k)) ltac:(lia)). lia.
Qed.

Lemma all_digits_head fuel q t :
  0 ≤ q < pow10 (S fuel) →
  ∃ d s, 0 ≤ d < 10 ∧ all_digits fuel q +:+ t = String (digit_char d) s.
Proof.
  revert q t. induction fuel as [|f IH]; intros q t Hq; cbn [all_digits];
    destruct (Z.ltb_spec q 10) as [H10|H10].
  - exists q. eexists. split; [lia|done].
  - change (pow10 1) with 10 in Hq. lia.
  - exists q. eexists. split; [lia|done].
  - rewrite pow10_S in Hq. rewrite <- string_app_assoc. apply IH.
    split; [apply Z.div_pos; lia|apply Z.div_lt_upper_bound; lia].
Qed.

Lemma x_parse_unsigned d s :
  0 ≤ d < 10 →
  x_parse (String (digit_char d) s) = scan (String (digit_char d) s) 0 false 0 false.
Proof.
  intros H. unfold x_parse.
  assert (d = 0 ∨ d = 1 ∨ d = 2 ∨ d = 3 ∨ d = 4 ∨ d = 5 ∨ d = 6 ∨ d = 7 ∨ d = 8 ∨ d = 9)
    as Hd by lia.
  by destruct Hd as [->|[->|[->|[->|[->|[->|[->|[->|[->| ->]]]]]]]]].
Qed.

(** Reading the text of a decimal gives it back, digit for digit. *)
Lemma x_text_round_trip d : x_from_str (x_to_string d) = Ok d.
Proof.
  destruct d as [n k]. unfold x_from_str, x_to_string. cbn [x_num x_scale].
  pose proof (pow10_pos k) as Hk.
  assert (0 ≤ Z.abs n / pow10 k) as Hq by (apply Z.div_pos; lia).
  pose proof (scan_text (Z.abs n) k ltac:(lia)) as H.
  destruct (Z.ltb_spec n 0) as [Hn|Hn].
  - rewrite string_app_cons. change (EmptyString +:+ ?s) with s. cbn [x_parse].
    rewrite H. cbn. unfold x_neg. simpl. f_equal. f_equal. lia.
  - change (EmptyString +:+ ?s) with s.
    match goal with |- context [x_parse ?s] => assert (x_parse s = scan s 0 false 0 false) as -> end.
    { match goal with |- context [?a +:+ ?b] =>
        destruct (all_digits_head (Z.to_nat (Z.log2 (Z.abs n / pow10 k))) (Z.abs n / pow10 k) b)
          as (d & s & Hd & E) end.
      { split; [done|by apply log2_fuel]. }
      rewrite E. by apply x_parse_unsigned. }
    rewrite H. f_equal. f_equal. lia.
Qed.

Lemma x_leq_spec a b :
  x_cmp a b ≠ Gt ↔ x_num a * pow10 (x_scale b) ≤ x_num b * pow10 (x_scale a).
Proof. unfold x_cmp. rewrite Z.compare_gt_iff. lia. Qed.

#[export] Instance x_decimal_laws : DecimalLaws x_decimal.
Proof.
  split; unfold dec_leq, equiv, dec_equiv; simpl.
  - intros a. apply Z.compare_refl.
  - intros a b. apply Z.compare_antisym.
  - intros [a i] [b j] [c k] H1 H2. rewrite x_leq_spec in *. cbn [x_num x_scale] in *.
    pose proof (pow10_pos i). pose proof (pow10_pos j). pose proof (pow10_pos k).
    apply (Z.mul_le_mono_pos_r _ _ (pow10 j)); [done|]. nia.
  - intros d. exists d. split; [apply x_text_round_trip|apply Z.compare_refl].
Qed.

(** * Literals *)

(** [dec!(...)]. *)
Definition dec (s : string) : xdec := default (XDec 0 0) (x_parse s).

(** Days from 1970-01-01 to a date of the Gregorian calendar. *)
Definition days_from_civil (y m d : Z) : Z :=
  let y := if m <=? 2 then y - 1 else y in
  let era := y / 400 in
  let yoe := y - era * 400 in
  let doy := (153 * (if 2 <? m then m - 3 else m + 9) + 2) / 5 + d - 1 in
  era * 146097 + (yoe * 365 + yoe / 4 - yoe / 100 + doy) - 719468.
(** [datetime!(y-m-d h:mi:s.nanos UTC)]. *)
Definition datetime (y m d h mi s nanos : Z) : Z :=
  (((days_from_civil y m d * 24 + h) * 60 + mi) * 60 + s) * nanos_per_sec + nanos.

Example datetime_epoch : datetime 1970 1 1 0 0 0 0 = 0.
Proof. reflexivity. Qed.
Example datetime_2024 : datetime 2024 4 25 0 26 40 0 = 1714004800 * nanos_per_sec.
Proof. reflexivity. Qed.

(** * The checksum *)

(** CRC-32 (IEEE 802.3), bit by bit. *)
Definition crc_bit (c : Z) : Z :=
  if Z.odd c then Z.lxor (Z.shiftr c 1) 0xEDB88320 else Z.shiftr c 1.
Definition crc_byte (c b : Z) : Z := Nat.iter 8 crc_bit (Z.lxor c (Z.land b 255)).
Definition crc32_ieee (bytes : list Z) : Z :=
  Z.lxor (foldl crc_byte 0xFFFFFFFF bytes) 0xFFFFFFFF mod 2 ^ 32.

(** The check value of the standard: the CRC of the text 123456789. *)
Example crc32_check : crc32_ieee [49; 50; 51; 52; 53; 54; 55; 56; 57] = 0xCBF43926.
Proof. reflexivity. Qed.

(** * Bars over these decimals *)

#[export] Instance x_dec_eq : EqDecision (Dec (DecimalLib := x_decimal)) := xdec_eq_dec.
Abbreviation XSample := (OiSample (DL := x_decimal) (TL := z_time)).
Abbreviation XSnapshot := (OiSnapshot (DL := x_decimal) (TL := z_time)).
#[export] Instance x_snap_eq : EqDecision XSnapshot.
Proof. solve_decision. Defined.
