(* ===== verification/Wal.v ===== *)
(** The write-ahead log of [oi-storage/src/wal.rs].

    The directory is a finite map from file names to contents; every file-system
    call may fail according to a fault plan indexed by the number of calls made,
    and a failed write leaves an arbitrary prefix behind.  Because a failing call
    makes the operation return at once, a failure after a call leaves the same
    directory as a crash of the process there.

    Beside the directory as the processes of the machine see it stands what the
    medium holds: each file records whether it has been fsynced, and the changes
    of directory entries (creations, renames, removals) are kept in a journal
    until the kernel writes them back, which nothing in [wal.rs] waits for.  A
    process that dies leaves the directory as it was; a machine that loses power
    may lose any of the journalled changes, whichever they are ([power_loss]). *)

From Stdlib Require Import ZArith Lia String Ascii.
From stdpp Require Import base option list strings gmap sorting.
From S2P Require Import Prelude TextOrder Externals Concrete Domain Repository.
Open Scope Z_scope.
Open Scope oi_scope.

(** * The directory *)

Record File := mkFile { data : list Z; synced : bool }.

(** A change of the directory's entries. *)
Inductive DirOp :=
| Link (name : string)
| Move (from to : string) (f : File)
| Unlink (name : string).
Definition apply_op (m : gmap string File) (o : DirOp) : gmap string File :=
  match o with
  | Link n => <[n := mkFile [] false]> m
  | Move from to f => <[to := f]> (delete from m)
  | Unlink n => delete n m
  end.

Definition op_names (o : DirOp) : list string :=
  match o with Link n | Unlink n => [n] | Move from to _ => [from; to] end.

(** What the medium holds: [durable], the entries of the last write-back;
    [journal], the changes since, oldest first; [dirty], the names whose contents
    were written to since. *)
Record Back := mkBack {
  durable : gmap string File;
  journal : list DirOp;
  dirty : list string;
}.

(** [clock] is [SystemTime::now()] in milliseconds since the epoch, [None] when
    the clock is set before it; [counter] is the process-wide atomic counter. *)
Record Disk := mkDisk {
  files : gmap string File;
  clock : option Z;
  pid : Z;
  counter : Z;
  faults : nat → option nat;
  ops : nat;
  back : Back;
}.

Inductive IoError := IoNotFound | IoOther (message : string).
Definition io_message (e : IoError) : string :=
  match e with
  | IoNotFound => "No such file or directory (os error 2)"
  | IoOther m => m
  end.
Definition io_failed : IoError := IoOther "I/O error".

Definition set_files (f : gmap string File → gmap string File) (d : Disk) : Disk :=
  mkDisk (f (files d)) (clock d) (pid d) (counter d) (faults d) (ops d) (back d).
Definition set_back (f : Back → Back) (d : Disk) : Disk :=
  mkDisk (files d) (clock d) (pid d) (counter d) (faults d) (ops d) (f (back d)).
Definition bump (d : Disk) : Disk :=
  mkDisk (files d) (clock d) (pid d) (counter d) (faults d) (S (ops d)) (back d).
Definition dir_op (o : DirOp) (d : Disk) : Disk :=
  set_back (λ b, mkBack (durable b) (journal b ++ [o]) (dirty b))
    (set_files (λ m, apply_op m o) d).
(** New contents of a file. *)
Definition put_data (name : string) (f : File → File) (d : Disk) : Disk :=
  set_back (λ b, mkBack (durable b) (journal b) (name :: dirty b)) (set_files (alter f name) d).

(** One call: [good] if the plan lets it succeed, else the partial effect. *)
Definition fs_call {A} (good : SE Disk IoError A) (partial : nat → Disk → Disk)
  : SE Disk IoError A := λ d,
  match faults d (ops d) with
  | None => good (bump d)
  | Some n => (Err io_failed, partial n (bump d))
  end.

(** An open tokio file.  Its writes are carried out behind the caller's back: a
    write that fails is reported by the next call on the handle. *)
Record Handle := mkHandle { h_name : string; h_failed : option IoError }.

(** [fs::File::create] also empties a file that is there. *)
Definition created (name : string) (d : Disk) : Disk :=
  put_data name (λ _, mkFile [] false) (dir_op (Link name) d).
Definition fs_create (name : string) : SE Disk IoError Handle :=
  fs_call (λ d, (Ok (mkHandle name None), created name d))
    (λ n d, match n with O => d | _ => created name d end).
(** Appends to the open file; after a failed write nothing more is written. *)
Definition fs_write_all (h : Handle) (bytes : list Z) : SE Disk IoError Handle := λ d,
  match h_failed h with
  | Some e => (Err e, d)
  | None =>
      let wrote (l : list Z) := put_data (h_name h) (λ f, mkFile (data f ++ l) false) (bump d) in
      match faults d (ops d) with
      | None => (Ok h, wrote bytes)
      | Some n => (Ok (mkHandle (h_name h) (Some io_failed)), wrote (take n bytes))
      end
  end.
(** Waits for the writes, then fsyncs; the file's entry in the directory is not
    part of it. *)
Definition fs_sync_all (h : Handle) : SE Disk IoError unit := λ d,
  match h_failed h with
  | Some e => (Err e, d)
  | None => fs_call (λ d, (Ok tt, set_files (alter (λ f, mkFile (data f) true) (h_name h)) d))
              (λ _ d, d) d
  end.
Definition fs_rename (from to : string) : SE Disk IoError unit :=
  fs_call (λ d, match files d !! from with
                | Some f => (Ok tt, dir_op (Move from to f) d)
                | None => (Err IoNotFound, d)
                end) (λ _ d, d).
Definition fs_remove_file (name : string) : SE Disk IoError unit :=
  fs_call (λ d, match files d !! name with
                | Some _ => (Ok tt, dir_op (Unlink name) d)
                | None => (Err IoNotFound, d)
                end) (λ _ d, d).
Definition fs_read (name : string) : SE Disk IoError (list Z) :=
  fs_call (λ d, match files d !! name with
                | Some f => (Ok (data f), d)
                | None => (Err IoNotFound, d)
                end) (λ _ d, d).
Definition fs_read_dir : SE Disk IoError (list string) :=
  fs_call (λ d, (Ok (map_to_list (files d)).*1, d)) (λ _ d, d).
Definition fs_create_dir_all : SE Disk IoError unit :=
  fs_call (λ d, (Ok tt, d)) (λ _ d, d).

(** The kernel writes the directory back, at some time of its own. *)
Definition write_back (d : Disk) : Disk := set_back (λ _, mkBack (files d) [] []) d.
(** A directory the medium can come up with: the last one written back, with some
    of the changes made since. *)
Definition image (b : Back) (m : gmap string File) : Prop :=
  ∃ kept, kept `sublist_of` journal b ∧ m = foldl apply_op (durable b) kept.
(** What is found after a loss of power: one of these directories, in which the
    files that were fsynced are whole and the others have any contents. *)
Definition power_loss (d : Disk) (m' : gmap string File) : Prop :=
  ∃ m, image (back d) m ∧
    ∀ n, match m !! n with
         | None => m' !! n = None
         | Some f => if synced f && bool_decide (n ∉ dirty (back d))
                     then m' !! n = Some f else is_Some (m' !! n)
         end.
(** The machine is up again: what was found is what the medium holds. *)
Definition rebooted (m : gmap string File) (d : Disk) : Disk :=
  mkDisk m (clock d) (pid d) (counter d) (faults d) (ops d) (mkBack m [] []).

(** * FileWal *)

Definition PENDING_SUFFIX : string := ".mpk".
(** The bytes of [OIW1]. *)
Definition FRAME_MAGIC : list Z := [79; 73; 87; 49].
Definition FRAME_HEADER_LEN : nat := 8.

Record FileWal := mkWal { dir : string; soft_max_files : Z }.

Definition quote_char : string := String (ascii_of_nat 34) EmptyString.
(** [{path:?}] for a file of the directory. *)
Definition dbg_path (w : FileWal) (name : string) : string :=
  quote_char +:+ dir w +:+ "/" +:+ name +:+ quote_char.

Definition storage_err (context : string) (e : IoError) : CoreError :=
  CStorage (context +:+ ": " +:+ io_message e).

Definition wal_open (dir : string) (soft_max_files : Z) : SE Disk CoreError FileWal :=
  _ ← se_map_err (storage_err ("wal mkdir " +:+ quote_char +:+ dir +:+ quote_char))
        fs_create_dir_all;
  mret (mkWal dir soft_max_files).

(** [uuid_v4]: process id and a relaxed fetch-and-add of a 64-bit counter. *)
Definition uuid_v4 {E} : SE Disk E string := λ d,
  (Ok (hex_string (pid d) +:+ "-" +:+ hex_string (counter d)),
   mkDisk (files d) (clock d) (pid d) ((counter d + 1) mod 2 ^ 64) (faults d) (ops d) (back d)).

Definition now_ms : SE Disk CoreError Z := λ d,
  match clock d with
  | Some t => (Ok t, d)
  | None => (Err (CStorage "wal clock: second time provided was later than self"), d)
  end.

Definition is_pending (name : string) : bool :=
  negb (starts_with "." name) && ends_with PENDING_SUFFIX name.

Definition wal_pending (w : FileWal) : SE Disk CoreError (list string) :=
  names ← se_map_err (storage_err "wal read_dir") fs_read_dir;
  mret (merge_sort String.le (filter (λ n, is_pending n = true) names)).

Definition count_pending (w : FileWal) : SE Disk CoreError Z :=
  p ← wal_pending w; mret (Z.of_nat (length p)).

(** The directory listing; the gauges it sets are in [WalMetrics]. *)
Definition refresh_metrics (w : FileWal) : SE Disk CoreError unit :=
  _ ← se_try (wal_pending w); mret tt.

Definition parse_ts_ms (name : string) : option Z :=
  match split_dash name with
  | Some (prefix, _) => parse_unsigned u128_max prefix
  | None => None
  end.

Definition oldest_pending_age (w : FileWal) : SE Disk CoreError (option Z) := λ d,
  match wal_pending w d with
  | (Ok pending, d) =>
      (Ok (match head pending with
           | Some name =>
               match parse_ts_ms name with
               | Some ts_ms =>
                   let now := default ts_ms (clock d) in
                   Some (as_u64 (saturating_sub now ts_ms))
               | None => None
               end
           | None => None
           end), d)
  | (Err e, d) => (Err e, d)
  end.

Section wal.
Context {DL : DecimalLib} {TL : TimeLib} {SC : SnapCodec}.

Definition frame (payload : list Z) : list Z :=
  FRAME_MAGIC ++ be_bytes32 (crc32 payload) ++ payload.

Definition final_name (ts_ms : Z) (id : string) : string :=
  int_to_string ts_ms +:+ "-" +:+ id +:+ PENDING_SUFFIX.
Definition tmp_name (final : string) : string := "." +:+ final +:+ ".tmp".

Definition wal_append (w : FileWal) (snaps : list OiSnapshot) : SE Disk CoreError string :=
  payload ← se_lift (map_err (λ e, CStorage ("wal msgpack: " +:+ e)) (mp_encode_batch snaps));
  ts_ms ← now_ms;
  id ← uuid_v4;
  let final_path := final_name ts_ms id in
  let tmp_path := tmp_name final_path in
  let crc := crc32 payload in
  f ← se_map_err (storage_err ("wal create " +:+ dbg_path w tmp_path)) (fs_create tmp_path);
  f ← se_map_err (storage_err "wal write magic") (fs_write_all f FRAME_MAGIC);
  f ← se_map_err (storage_err "wal write crc") (fs_write_all f (be_bytes32 crc));
  f ← se_map_err (storage_err "wal write payload") (fs_write_all f payload);
  _ ← se_map_err (storage_err "wal fsync") (fs_sync_all f);
  _ ← se_map_err (storage_err "wal rename") (fs_rename tmp_path final_path);
  _ ← refresh_metrics w;
  _ ← se_try (count_pending w);
  mret final_path.

Definition wal_ack (w : FileWal) (path : string) : SE Disk CoreError unit := λ d,
  match fs_remove_file path d with
  | (Ok _, d') => (Ok tt, d')
  | (Err IoNotFound, d') => (Ok tt, d')
  | (Err e, d') => (Err (storage_err ("wal ack " +:+ dbg_path w path) e), d')
  end.

(** The loop of [reap_older_than]. *)
Fixpoint reap_loop (w : FileWal) (now_ms cutoff_ms : Z) (pending : list string) (reaped : Z)
  : SE Disk CoreError Z := λ d,
  match pending with
  | [] => (Ok reaped, d)
  | path :: rest =>
      match parse_ts_ms path with
      | None => reap_loop w now_ms cutoff_ms rest reaped d
      | Some ts_ms =>
          if saturating_sub now_ms ts_ms <=? cutoff_ms then (Ok reaped, d)
          else match fs_remove_file path d with
               | (Ok _, d') => reap_loop w now_ms cutoff_ms rest (reaped + 1) d'
               | (Err IoNotFound, d') => reap_loop w now_ms cutoff_ms rest reaped d'
               | (Err e, d') => (Err (storage_err ("wal reap " +:+ dbg_path w path) e), d')
               end
      end
  end.

Definition reap_older_than (w : FileWal) (max_age_ms : Z) : SE Disk CoreError Z := λ d,
  match wal_pending w d with
  | (Ok pending, d) => reap_loop w (default 0 (clock d)) max_age_ms pending 0 d
  | (Err e, d) => (Err e, d)
  end.

(** The validation part of [read]: magic, CRC, decoding; unframed contents are
    decoded as they are. *)
Definition decode_frame (w : FileWal) (path : string) (bytes : list Z)
  : result CoreError (list OiSnapshot) :=
  let decode_err e := CStorage ("wal decode " +:+ dbg_path w path +:+ ": " +:+ e) in
  if (FRAME_HEADER_LEN <=? length bytes)%nat && bool_decide (take 4 bytes = FRAME_MAGIC) then
    let stored_crc := be_value32 (take 4 (drop 4 bytes)) in
    let payload := drop FRAME_HEADER_LEN bytes in
    let actual_crc := crc32 payload in
    if negb (stored_crc =? actual_crc)
    then Err (CStorage ("wal crc mismatch " +:+ dbg_path w path +:+ ": stored=0x"
                        +:+ hex_string stored_crc +:+ " actual=0x" +:+ hex_string actual_crc))
    else map_err decode_err (mp_decode_batch payload)
  else map_err decode_err (mp_decode_batch bytes).

Definition wal_read (w : FileWal) (path : string) : SE Disk CoreError (list OiSnapshot) :=
  bytes ← se_map_err (storage_err ("wal read " +:+ dbg_path w path)) (fs_read path);
  se_lift (decode_frame w path bytes).

(** [path.with_extension("corrupt")] for a name ending in [.mpk]. *)
Definition corrupt_name (name : string) : string :=
  match strip_suffix PENDING_SUFFIX name with
  | Some stem => stem +:+ ".corrupt"
  | None => name +:+ ".corrupt"
  end.

Definition quarantine (path : string) : SE Disk CoreError unit :=
  _ ← se_try (fs_rename path (corrupt_name path)); mret tt.

Section drainer.
Context {W : Type}.

(** The loop of [drain_once] over the pending names. *)
Fixpoint drain_loop (w : FileWal) (target : OiRepository W) (pending : list string)
  : SE (Disk * W) CoreError unit :=
  match pending with
  | [] => mret tt
  | path :: rest =>
      read ← se_try (se_fst (wal_read w path));
      match read with
      | Err e => _ ← se_fst (quarantine path); drain_loop w target rest
      | Ok snaps =>
          wrote ← se_try (se_snd (upsert_snapshots target snaps));
          match wrote with
          | Ok _ => _ ← se_fst (wal_ack w path); drain_loop w target rest
          | Err e => se_fail e
          end
      end
  end.

Definition drain_once (w : FileWal) (target : OiRepository W) : SE (Disk * W) CoreError unit :=
  pending ← se_fst (wal_pending w);
  match pending with
  | [] => mret tt
  | _ => drain_loop w target pending
  end.

(** One turn of the drainer task, after its sleep. *)
Definition drainer_tick (w : FileWal) (target : OiRepository W) (gate : option (W → bool))
    (follower_max_age : option Z) : SE (Disk * W) CoreError unit := λ dw,
  let '(_, dw) := se_fst (refresh_metrics w) dw in
  let may_drain := match gate with Some g => g dw.2 | None => true end in
  if may_drain then
    let '(_, dw) := drain_once w target dw in
    se_fst (refresh_metrics w) dw
  else match follower_max_age with
       | Some max_age => let '(_, dw) := se_fst (reap_older_than w max_age) dw in (Ok tt, dw)
       | None => (Ok tt, dw)
       end.

(** * WalBacked *)

Definition walbacked_upsert (inner : OiRepository W) (w : FileWal) (snaps : list OiSnapshot)
  : SE (Disk * W) CoreError unit :=
  match snaps with
  | [] => mret tt
  | _ =>
      path ← se_fst (wal_append w snaps);
      r ← se_try (se_snd (upsert_snapshots inner snaps));
      match r with
      | Ok _ => se_fst (wal_ack w path)
      | Err e => se_fail e
      end
  end.

Definition wal_backed (inner : OiRepository W) (w : FileWal) : OiRepository (Disk * W) :=
  {| upsert_snapshots snaps := walbacked_upsert inner w snaps;
     upsert_instruments metas := se_snd (upsert_instruments inner metas);
     range i from to := se_snd (range inner i from to);
     latest i := se_snd (latest inner i);
     upsert_funding bars := se_snd (upsert_funding inner bars);
     funding_range i from to := se_snd (funding_range inner i from to);
     latest_funding i := se_snd (latest_funding inner i);
     upsert_funding_events events := se_snd (upsert_funding_events inner events);
     funding_events_range i from to := se_snd (funding_events_range inner i from to);
     latest_funding_event i := se_snd (latest_funding_event inner i) |}.
End drainer.
End wal.

(** * File names *)

Lemma is_pending_suffix n : is_pending n = true → ∃ stem, n = stem +:+ PENDING_SUFFIX.
Proof.
  unfold is_pending, ends_with. intros [_ H]%andb_true_iff.
  apply bool_decide_eq_true in H as [stem H]. exists stem. by apply strip_suffix_some.
Qed.

Lemma not_pending_last n :
  string_last n ≠ Some "k"%char → is_pending n = false.
Proof.
  intros H. destruct (is_pending n) eqn:E; [|done].
  destruct (is_pending_suffix n E) as [stem ->]. exfalso. apply H.
  unfold PENDING_SUFFIX. by rewrite string_last_app.
Qed.

Lemma tmp_not_pending n : is_pending (tmp_name n) = false.
Proof. apply not_pending_last. unfold tmp_name. by rewrite string_app_assoc, string_last_app. Qed.

Lemma corrupt_of_pending stem : corrupt_name (stem +:+ PENDING_SUFFIX) = stem +:+ ".corrupt".
Proof. unfold corrupt_name. by rewrite strip_suffix_app. Qed.

Lemma corrupt_not_pending n : is_pending (corrupt_name n) = false.
Proof.
  apply not_pending_last. unfold corrupt_name.
  destruct (strip_suffix _ _); by rewrite string_last_app.
Qed.

Lemma corrupt_inj n1 n2 :
  is_pending n1 = true → is_pending n2 = true → corrupt_name n1 = corrupt_name n2 → n1 = n2.
Proof.
  intros [s1 ->]%is_pending_suffix [s2 ->]%is_pending_suffix.
  rewrite !corrupt_of_pending. intros H.
  assert (strip_suffix ".corrupt" (s1 +:+ ".corrupt") = strip_suffix ".corrupt" (s2 +:+ ".corrupt"))
    as H' by (by rewrite H).
  rewrite !strip_suffix_app in H'. by injection H' as ->.
Qed.

(** The names [append] makes: pending, and distinct for distinct counters. *)
Lemma int_to_string_head z : 0 ≤ z → starts_with "." (int_to_string z) = false
  ∧ int_to_string z ≠ EmptyString.
Proof.
  destruct z as [|p|p]; [done| |lia]. intros _. rewrite int_to_string_pos.
  destruct (to_uint_leading p) as (k & d & Hk & ->).
  destruct (dcons_facts k d ltac:(lia)) as (_ & _ & ->). split; [|done].
  do 10 (destruct k as [|k]; [done|]). lia.
Qed.

Lemma final_name_pending ts id : 0 ≤ ts → is_pending (final_name ts id) = true.
Proof.
  intros Hts. unfold is_pending, final_name.
  destruct (int_to_string_head ts Hts) as [Hd Hne]. apply andb_true_iff. split.
  - apply negb_true_iff. destruct (int_to_string ts) as [|c s]; [done|].
    rewrite string_app_cons. unfold starts_with in *. cbn [String.prefix] in *.
    by destruct (ascii_dec "." c); [destruct s|].
  - rewrite !string_app_assoc. apply ends_with_app.
Qed.

Lemma final_name_split ts id :
  0 ≤ ts → split_dash (final_name ts id) = Some (int_to_string ts, id +:+ PENDING_SUFFIX).
Proof. intros. unfold final_name. by apply split_dash_app, int_to_string_no_dash. Qed.

Lemma final_name_inj ts ts' p p' c c' :
  0 ≤ ts → 0 ≤ ts' → 0 ≤ p → 0 ≤ p' → 0 ≤ c → 0 ≤ c' →
  final_name ts (hex_string p +:+ "-" +:+ hex_string c)
  = final_name ts' (hex_string p' +:+ "-" +:+ hex_string c') → ts = ts' ∧ p = p' ∧ c = c'.
Proof.
  intros H1 H2 H3 H4 H5 H6 H. apply (f_equal split_dash) in H.
  rewrite !final_name_split in H by done. injection H as Ht H.
  apply (f_equal z_of_string) in Ht. rewrite !z_to_of_string in Ht. injection Ht as ->.
  apply (f_equal (strip_suffix PENDING_SUFFIX)) in H. rewrite !strip_suffix_app in H.
  injection H as H. apply (f_equal split_dash) in H.
  rewrite !split_dash_join in H by apply hex_string_no_dash. injection H as Hp Hc.
  apply hex_string_inj in Hp, Hc; auto.
Qed.

Lemma parse_final_name ts id :
  0 ≤ ts ≤ u128_max → parse_ts_ms (final_name ts id) = Some ts.
Proof.
  intros Hts. unfold parse_ts_ms. rewrite final_name_split by lia.
  by apply parse_nat_to_string.
Qed.

(** * File-system calls *)

(** Everything but the files and the counters is as before. *)
Definition env_eq (d d' : Disk) : Prop :=
  clock d' = clock d ∧ pid d' = pid d ∧ faults d' = faults d.
(** On the medium: nothing is written back, and nothing is journalled but new
    files of that name. *)
Definition only_back (name : string) (b b' : Back) : Prop :=
  durable b' = durable b
  ∧ (∃ l, journal b' = journal b ++ l ∧ ∀ o, o ∈ l → o = Link name)
  ∧ ∃ y, dirty b' = y ++ dirty b ∧ ∀ n, n ∈ y → n = name.
(** Only the file [name] may differ. *)
Definition only (name : string) (d d' : Disk) : Prop :=
  env_eq d d' ∧ (∀ n, n ≠ name → files d' !! n = files d !! n)
  ∧ only_back name (back d) (back d').
Definition no_faults (d : Disk) : Prop := ∀ n, faults d n = None.

Lemma env_eq_refl d : env_eq d d.
Proof. done. Qed.
Lemma env_eq_trans d1 d2 d3 : env_eq d1 d2 → env_eq d2 d3 → env_eq d1 d3.
Proof. unfold env_eq. naive_solver congruence. Qed.
Lemma only_back_refl n b : only_back n b b.
Proof.
  split; [done|]. split; exists []; (split; [by rewrite ?app_nil_r|by intros o ?%not_elem_of_nil]).
Qed.
Lemma only_back_trans n b1 b2 b3 : only_back n b1 b2 → only_back n b2 b3 → only_back n b1 b3.
Proof.
  intros (D1 & (l1 & J1 & O1) & (y1 & Y1 & N1)) (D2 & (l2 & J2 & O2) & (y2 & Y2 & N2)).
  split; [congruence|]. split.
  - exists (l1 ++ l2). split; [by rewrite J2, J1, app_assoc|].
    intros o [?|?]%elem_of_app; [by apply O1|by apply O2].
  - exists (y2 ++ y1). split; [by rewrite Y2, Y1, app_assoc|].
    intros m [?|?]%elem_of_app; [by apply N2|by apply N1].
Qed.
Lemma only_refl n d : only n d d.
Proof. split; [done|]. split; [done|]. apply only_back_refl. Qed.
Lemma only_trans n d1 d2 d3 : only n d1 d2 → only n d2 d3 → only n d1 d3.
Proof.
  intros (H1 & H2 & H3) (H4 & H5 & H6). split; [by eapply env_eq_trans|]. split.
  - intros m Hm. by rewrite H5, H2.
  - by eapply only_back_trans.
Qed.
Lemma no_faults_env d d' : no_faults d → env_eq d d' → no_faults d'.
Proof. intros H (_ & _ & E) n. by rewrite E. Qed.

Lemma fs_call_inv {A} (good : SE Disk IoError A) partial d r d' :
  fs_call good partial d = (r, d') →
  (good (bump d) = (r, d')) ∨
  (¬ no_faults d ∧ ∃ n, r = Err io_failed ∧ d' = partial n (bump d)).
Proof.
  unfold fs_call, no_faults. destruct (faults d (ops d)) as [n|] eqn:E; [|by left].
  intros [= <- <-]. right. split; [|eauto]. intros H. by rewrite H in E.
Qed.

Lemma only_bump n d : only n d (bump d).
Proof. split; [done|]. split; [done|]. apply only_back_refl. Qed.
Lemma only_put name f d : only name d (put_data name f d).
Proof.
  split; [done|]. split; [intros n Hn; simpl; by rewrite lookup_alter_ne|].
  split; [done|]. split; [exists []; split; [by rewrite app_nil_r|by intros o ?%not_elem_of_nil]|].
  exists [name]. split; [done|]. by intros n ->%list_elem_of_singleton.
Qed.
Lemma only_link name d : only name d (dir_op (Link name) d).
Proof.
  split; [done|]. split; [intros n Hn; simpl; by rewrite lookup_insert_ne|].
  split; [done|]. split; [exists [Link name]|exists []; split; [done|by intros n ?%not_elem_of_nil]].
  split; [done|]. by intros o ->%list_elem_of_singleton.
Qed.

Lemma fs_create_inv name d r d' :
  fs_create name d = (r, d') →
  only name d d' ∧ ∀ h, r = Ok h →
    h = mkHandle name None ∧ files d' !! name = Some (mkFile [] false).
Proof.
  assert (Hc : only name d (created name (bump d))).
  { eapply only_trans; [apply only_bump|]. eapply only_trans; [apply only_link|apply only_put]. }
  intros [H|(_ & n & -> & ->)]%fs_call_inv.
  - injection H as <- <-. split; [done|]. intros h [= <-]. split; [done|].
    simpl. by rewrite lookup_alter_eq, lookup_insert_eq.
  - split; [|done]. destruct n; [apply only_bump|done].
Qed.

Lemma fs_write_all_inv h bytes d r d' :
  fs_write_all h bytes d = (r, d') →
  only (h_name h) d d' ∧ ∀ h', r = Ok h' → h_name h' = h_name h
    ∧ (h_failed h' = None → h_failed h = None
       ∧ ∀ f, files d !! h_name h = Some f →
              files d' !! h_name h = Some (mkFile (data f ++ bytes) false)).
Proof.
  unfold fs_write_all. destruct (h_failed h) as [e|] eqn:Eh.
  { intros [= <- <-]. split; [apply only_refl|done]. }
  destruct (faults d (ops d)) as [n|]; intros [= <- <-];
    (split; [eapply only_trans; [apply only_bump|apply only_put]|]); intros h' [= <-];
    (split; [done|]); [done|]. intros _. split; [done|].
  intros f Hf. simpl. by rewrite lookup_alter_eq, Hf.
Qed.

Lemma fs_sync_all_inv h d r d' :
  fs_sync_all h d = (r, d') →
  only (h_name h) d d' ∧ (r = Ok tt → h_failed h = None
    ∧ ∀ f, files d !! h_name h = Some f → files d' !! h_name h = Some (mkFile (data f) true)).
Proof.
  unfold fs_sync_all. destruct (h_failed h) as [e|] eqn:Eh.
  { intros [= <- <-]. split; [apply only_refl|done]. }
  intros [H|(_ & n & -> & ->)]%fs_call_inv; [|split; [apply only_bump|done]].
  injection H as <- <-. split.
  - split; [done|]. split; [intros n Hn; simpl; by rewrite lookup_alter_ne|apply only_back_refl].
  - intros _. split; [done|]. intros f Hf. simpl. by rewrite lookup_alter_eq, Hf.
Qed.

Lemma fs_rename_inv from to d r d' :
  fs_rename from to d = (r, d') →
  env_eq d d' ∧
  ((∃ f, r = Ok tt ∧ files d !! from = Some f
         ∧ files d' = <[to := f]> (delete from (files d)))
   ∨ (∃ e, r = Err e ∧ files d' = files d
         ∧ (no_faults d → e = IoNotFound ∧ files d !! from = None))).
Proof.
  intros [H|(Hnf & n & -> & ->)]%fs_call_inv.
  - simpl in H. destruct (files d !! from) as [f|] eqn:E; injection H as <- <-.
    + split; [done|]. left. eauto.
    + split; [done|]. right. eauto 10.
  - split; [done|]. right. eexists. split; [done|]. split; [done|]. intros ?; done.
Qed.

Lemma fs_remove_inv name d r d' :
  fs_remove_file name d = (r, d') →
  env_eq d d' ∧
  ((r = Ok tt ∧ is_Some (files d !! name) ∧ files d' = delete name (files d))
   ∨ (r = Err IoNotFound ∧ files d !! name = None ∧ files d' = files d)
   ∨ (¬ no_faults d ∧ ∃ m, r = Err (IoOther m) ∧ files d' = files d)).
Proof.
  intros [H|(Hnf & n & -> & ->)]%fs_call_inv.
  - simpl in H. destruct (files d !! name) as [f|] eqn:E; injection H as <- <-;
      (split; [done|]); eauto 10.
  - split; [done|]. right. right. split; [done|]. by eexists.
Qed.

(** What the calls that change an entry journal. *)
Definition journalled (o : DirOp) (d d' : Disk) : Prop :=
  files d' = apply_op (files d) o
  ∧ back d' = mkBack (durable (back d)) (journal (back d) ++ [o]) (dirty (back d)).
Definition untouched (d d' : Disk) : Prop := files d' = files d ∧ back d' = back d.
Lemma untouched_trans d1 d2 d3 : untouched d1 d2 → untouched d2 d3 → untouched d1 d3.
Proof. unfold untouched. naive_solver congruence. Qed.
Lemma fs_rename_back from to d r d' :
  fs_rename from to d = (r, d') →
  (∃ f, r = Ok tt ∧ files d !! from = Some f ∧ journalled (Move from to f) d d')
  ∨ ((∃ e, r = Err e) ∧ untouched d d').
Proof.
  intros [H|(_ & n & -> & ->)]%fs_call_inv; [|right; split; [by eexists|done]]. simpl in H.
  destruct (files d !! from) as [f|] eqn:E; injection H as <- <-; [left; by exists f|].
  right. split; [by eexists|done].
Qed.
Lemma fs_remove_back name d r d' :
  fs_remove_file name d = (r, d') →
  (r = Ok tt ∧ is_Some (files d !! name) ∧ journalled (Unlink name) d d')
  ∨ ((∃ e, r = Err e) ∧ untouched d d').
Proof.
  intros [H|(_ & n & -> & ->)]%fs_call_inv; [|right; split; [by eexists|done]]. simpl in H.
  destruct (files d !! name) as [f|] eqn:E; injection H as <- <-; [left; by repeat split|].
  right. split; [by eexists|done].
Qed.

Lemma fs_read_inv name d r d' :
  fs_read name d = (r, d') →
  env_eq d d' ∧ files d' = files d ∧
  ((∃ f, files d !! name = Some f ∧ r = Ok (data f))
   ∨ (∃ e, r = Err e ∧ (no_faults d → files d !! name = None))).
Proof.
  intros [H|(Hnf & n & -> & ->)]%fs_call_inv.
  - simpl in H. destruct (files d !! name) as [f|] eqn:E; injection H as <- <-;
      (split; [done|]); split; try done; [left|right]; eauto.
  - split; [done|]. split; [done|]. right. eexists. split; [done|]. intros ?; done.
Qed.

(** A file-system call followed by the rest of an operation. *)
Lemma io_step {A B} (f : IoError → CoreError) (m : SE Disk IoError A)
    (k : A → SE Disk CoreError B) d r d' :
  (se_map_err f m ≫= k) d = (r, d') →
  (∃ e, m d = (Err e, d') ∧ r = Err (f e))
  ∨ (∃ a d1, m d = (Ok a, d1) ∧ k a d1 = (r, d')).
Proof.
  intros [(e & H & ->)|(a & d1 & H & Hr)]%se_bind_inv;
    apply se_map_err_inv in H as ([a'|e'] & H & E); try done.
  - injection E as ->. left. eauto.
  - injection E as ->. right. eauto.
Qed.

(** The pending names of a directory, in sorted order. *)
Definition pending_names (m : gmap string File) : list string :=
  merge_sort String.le (filter (λ n, is_pending n = true) (map_to_list m).*1).

Lemma pending_names_elem m n :
  n ∈ pending_names m ↔ is_pending n = true ∧ is_Some (m !! n).
Proof.
  unfold pending_names. rewrite merge_sort_Permutation, list_elem_of_filter, list_elem_of_fmap.
  split.
  - intros (Hp & [k f] & -> & Hin%elem_of_map_to_list). simpl. eauto.
  - intros (Hp & f & Hf). split; [done|]. exists (n, f). by rewrite elem_of_map_to_list.
Qed.

Lemma pending_names_nodup m : NoDup (pending_names m).
Proof.
  unfold pending_names. rewrite merge_sort_Permutation.
  apply NoDup_filter, NoDup_fst_map_to_list.
Qed.

Lemma wal_pending_inv w d r d' :
  wal_pending w d = (r, d') →
  env_eq d d' ∧ files d' = files d
  ∧ (r = Ok (pending_names (files d)) ∨ (¬ no_faults d ∧ ∃ e, r = Err e)).
Proof.
  intros [(e & H & ->)|(names & d1 & H & Hr)]%se_bind_inv;
    apply se_map_err_inv in H as (r0 & H & E);
    apply fs_call_inv in H as [H|(Hnf & n & -> & ->)].
  - injection H as <- <-. done.
  - split; [done|]. split; [done|]. eauto.
  - injection H as <- <-. injection E as ->. injection Hr as <- <-.
    split; [done|]. split; [done|]. by left.
  - done.
Qed.

Lemma wal_pending_back w d r d' : wal_pending w d = (r, d') → back d' = back d.
Proof.
  intros [(e & H & ->)|(names & d1 & H & Hr)]%se_bind_inv;
    apply se_map_err_inv in H as (r0 & H & E);
    apply fs_call_inv in H as [H|(Hnf & n & -> & ->)]; try done.
  - by injection H as <- <-.
  - injection H as <- <-. by injection Hr as _ <-.
Qed.

Lemma refresh_metrics_inv w d r d' :
  refresh_metrics w d = (r, d') → env_eq d d' ∧ files d' = files d ∧ r = Ok tt.
Proof.
  intros [(e & H & ->)|(a & d1 & H & Hr)]%se_bind_inv;
    apply se_try_inv in H as (r0 & H & E); [done|].
  apply wal_pending_inv in H as (He & Hf & _). by injection Hr as <- <-.
Qed.
Lemma refresh_metrics_back w d r d' : refresh_metrics w d = (r, d') → back d' = back d.
Proof.
  intros [(e & H & ->)|(a & d1 & H & Hr)]%se_bind_inv;
    apply se_try_inv in H as (r0 & H & E); [done|].
  apply wal_pending_back in H. by injection Hr as _ <-.
Qed.

(** * Append *)

Section append.
Context {DL : DecimalLib} {TL : TimeLib} {SC : SnapCodec}.

(** The name the next append uses at time [ts]. *)
Definition next_name (d : Disk) (ts : Z) : string :=
  final_name ts (hex_string (pid d) +:+ "-" +:+ hex_string (counter d)).

(** What [append] leaves behind, whether it succeeds or stops at any call:
    apart from the temporary file only the new name changes, by one rename. *)
Lemma append_steps w snaps d r d' :
  wal_append w snaps d = (r, d') →
  match r with
  | Ok p => ∃ ts payload d1, clock d = Some ts ∧ mp_encode_batch snaps = Ok payload
      ∧ p = next_name d ts ∧ only (tmp_name p) d d1
      ∧ env_eq d1 d' ∧ journalled (Move (tmp_name p) p (mkFile (frame payload) true)) d1 d'
  | Err _ => (env_eq d d' ∧ untouched d d')
      ∨ ∃ ts, clock d = Some ts ∧ only (tmp_name (next_name d ts)) d d'
  end.
Proof.
  unfold wal_append.
  intros [(e & H & ->)|(payload & d1 & H & Hr)]%se_bind_inv;
    [by injection H as _ <-; left|].
  unfold se_lift in H. destruct (mp_encode_batch snaps) as [pl|] eqn:Ep; [|done].
  injection H as <- <-.
  apply se_bind_inv in Hr as [(e & H & ->)|(ts & d1 & H & Hr)];
    unfold now_ms in H; destruct (clock d) as [t|] eqn:Ec; try done.
  { by injection H as _ <-; left. }
  injection H as <- <-.
  apply se_bind_inv in Hr as [(e & H & ->)|(id & d1 & H & Hr)]; [done|].
  injection H as <- <-. set (d1 := mkDisk _ _ _ _ _ _ _) in Hr.
  fold (next_name d t) in Hr. set (p := next_name d t) in *.
  assert (Hbase : only (tmp_name p) d d1).
  { split; [done|]. split; [done|]. apply only_back_refl. }
  apply io_step in Hr as [(e & H & ->)|(h & d2 & H & Hr)];
    apply fs_create_inv in H as [O F]; pose proof (only_trans _ _ _ _ Hbase O) as P;
    [right; eauto|]. destruct (F _ eq_refl) as [-> F1]. clear F O Hbase.
  apply io_step in Hr as [(e & H & ->)|(h & d3 & H & Hr)];
    apply fs_write_all_inv in H as [O F]; apply (only_trans _ _ _ _ P) in O;
    [right; eauto|]. destruct (F _ eq_refl) as [N2 F2]. clear F P. cbn [h_name] in *.
  apply io_step in Hr as [(e & H & ->)|(h' & d4 & H & Hr)];
    apply fs_write_all_inv in H as [P F]; rewrite N2 in P; apply (only_trans _ _ _ _ O) in P;
    [right; eauto|]. destruct (F _ eq_refl) as [N3 F3]. clear F O. rewrite N2 in *.
  apply io_step in Hr as [(e & H & ->)|(h'' & d5 & H & Hr)];
    apply fs_write_all_inv in H as [O F]; rewrite N3 in O; apply (only_trans _ _ _ _ P) in O;
    [right; eauto|]. destruct (F _ eq_refl) as [N4 F4]. clear F P. rewrite N3 in *.
  apply io_step in Hr as [(e & H & ->)|([] & d6 & H & Hr)];
    apply fs_sync_all_inv in H as [P F]; rewrite N4 in P; apply (only_trans _ _ _ _ O) in P;
    [right; eauto|]. destruct (F eq_refl) as [K4 F5]. clear F O. rewrite N4 in *.
  destruct (F4 K4) as [K3 G4]. destruct (F3 K3) as [K2 G3]. destruct (F2 K2) as [_ G2].
  specialize (F5 _ (G4 _ (G3 _ (G2 _ F1)))). cbn [data] in F5.
  apply io_step in Hr as [(e & H & ->)|([] & d7 & H & Hr)];
    pose proof H as Henv; apply fs_rename_inv in Henv as [Henv _];
    apply fs_rename_back in H as [(f & Er & Hf & J)|[[e' Er] [U1 U2]]]; try done; clear Er.
  { right. exists t. split; [done|]. destruct P as (P1 & P2 & P3).
    split; [by eapply env_eq_trans|]. split; [intros n Hn; rewrite U1; by apply P2|by rewrite U2]. }
  rewrite F5 in Hf. injection Hf as <-.
  apply se_bind_inv in Hr as [(e & H & ->)|(u & d8 & H & Hr)];
    pose proof (refresh_metrics_back _ _ _ _ H) as B7;
    apply refresh_metrics_inv in H as (E7 & F7 & Hu); [done|].
  apply se_bind_inv in Hr as [(e & H & ->)|(u2 & d9 & H & Hr)];
    apply se_try_inv in H as (r0 & H & Hr0); [done|].
  assert (env_eq d8 d9 ∧ untouched d8 d9) as [E8 [F8 B8]].
  { apply se_bind_inv in H as [(e & H & ->)|(names & d10 & H & Hn)];
      pose proof (wal_pending_back _ _ _ _ H);
      apply wal_pending_inv in H as (? & ? & _); [done|]. by injection Hn as _ <-. }
  injection Hr as <- <-. exists t, pl, d6. do 4 (split; [done|]).
  split; [by repeat (eapply env_eq_trans; [eassumption|])|].
  destruct J as [J1 J2]. split; [by rewrite F8, F7, J1|by rewrite B8, B7, J2].
Qed.

Lemma append_frame w snaps d r d' :
  wal_append w snaps d = (r, d') →
  env_eq d d' ∧
  match r with
  | Ok p => ∃ ts payload, clock d = Some ts ∧ mp_encode_batch snaps = Ok payload
      ∧ p = next_name d ts
      ∧ ∀ n, n ≠ tmp_name p →
          files d' !! n = if decide (n = p) then Some (mkFile (frame payload) true)
                          else files d !! n
  | Err _ => ∀ n, (∀ ts, clock d = Some ts → n ≠ tmp_name (next_name d ts)) →
      files d' !! n = files d !! n
  end.
Proof.
  intros H%append_steps. destruct r as [p|e].
  - destruct H as (ts & pl & d1 & Hc & Henc & Hp & (O1 & O2 & _) & E & J & _).
    split; [by eapply env_eq_trans|]. exists ts, pl. do 3 (split; [done|]).
    intros n Hn. rewrite J. simpl. destruct (decide (n = p)) as [->|Hne].
    + by rewrite lookup_insert_eq.
    + rewrite lookup_insert_ne, lookup_delete_ne by auto. by apply O2.
  - destruct H as [[E [-> _]]|(ts & Hc & O1 & O2 & _)]; (split; [done|]); [done|].
    intros n Hn. apply O2. by apply Hn.
Qed.

(** The changes an append leaves to be written back: its temporary file, and the
    rename when it succeeded. *)
Lemma append_back w snaps d r d' :
  wal_append w snaps d = (r, d') →
  durable (back d') = durable (back d)
  ∧ (∃ y, dirty (back d') = y ++ dirty (back d)
       ∧ ∀ n, n ∈ y → ∃ ts, clock d = Some ts ∧ n = tmp_name (next_name d ts))
  ∧ ∃ l, (∀ o, o ∈ l → ∃ ts, clock d = Some ts ∧ o = Link (tmp_name (next_name d ts)))
    ∧ match r with
      | Ok p => ∃ payload, mp_encode_batch snaps = Ok payload
          ∧ journal (back d') = journal (back d) ++ l
                                ++ [Move (tmp_name p) p (mkFile (frame payload) true)]
      | Err _ => journal (back d') = journal (back d) ++ l
      end.
Proof.
  intros H%append_steps. destruct r as [p|e].
  - destruct H as (ts & pl & d1 & Hc & Henc & -> & (_ & _ & D & (l & Jl & Hl) & (y & Y & Hy)) & _ & _ & J).
    rewrite J. cbn [durable journal dirty]. split; [done|]. split.
    + exists y. split; [done|]. intros n ->%Hy. eauto.
    + exists l. split; [intros o ->%Hl; eauto|]. exists pl. split; [done|].
      by rewrite Jl, <- app_assoc.
  - destruct H as [[_ [_ ->]]|(ts & Hc & _ & _ & D & (l & Jl & Hl) & (y & Y & Hy))].
    + split; [done|]. split; exists []; [by split; [|intros n ?%not_elem_of_nil]|].
      by split; [intros o ?%not_elem_of_nil|rewrite app_nil_r].
    + split; [done|]. split; [exists y; split; [done|]; intros n ->%Hy; eauto|].
      exists l. split; [intros o ->%Hl; eauto|done].
Qed.

(** On the pending files. *)
Lemma append_spec w snaps d r d' :
  wal_append w snaps d = (r, d') →
  env_eq d d' ∧
  match r with
  | Ok p => ∃ ts payload, clock d = Some ts ∧ mp_encode_batch snaps = Ok payload
      ∧ p = next_name d ts
      ∧ ∀ n, is_pending n = true →
          files d' !! n = if decide (n = p) then Some (mkFile (frame payload) true)
                          else files d !! n
  | Err _ => ∀ n, is_pending n = true → files d' !! n = files d !! n
  end.
Proof.
  assert (Ht : ∀ n m, is_pending n = true → n ≠ tmp_name m)
    by (intros n m Hn ->; by rewrite tmp_not_pending in Hn).
  intros [He Hr]%append_frame. split; [done|]. destruct r as [p|e].
  - destruct Hr as (ts & pl & ? & ? & ? & Hf). exists ts, pl. eauto 10.
  - intros n Hn. apply Hr. eauto.
Qed.
End append.

(** * Frames *)

Section frames.
Context {DL : DecimalLib} {TL : TimeLib} {SC : SnapCodec} {CL : CodecLaws SC}.

Lemma decode_framed w n c payload :
  0 ≤ c < 2 ^ 32 →
  decode_frame w n (FRAME_MAGIC ++ be_bytes32 c ++ payload)
  = if c =? crc32 payload
    then map_err (λ e, CStorage ("wal decode " +:+ dbg_path w n +:+ ": " +:+ e))
           (mp_decode_batch payload)
    else Err (CStorage ("wal crc mismatch " +:+ dbg_path w n +:+ ": stored=0x"
                +:+ hex_string c +:+ " actual=0x" +:+ hex_string (crc32 payload))).
Proof.
  intros Hc. unfold decode_frame.
  replace (take 4 (drop 4 (FRAME_MAGIC ++ be_bytes32 c ++ payload)))
    with (be_bytes32 c) by done.
  rewrite be_value_bytes32 by done.
  change (drop FRAME_HEADER_LEN (FRAME_MAGIC ++ be_bytes32 c ++ payload)) with payload.
  rewrite bool_decide_true by done.
  assert ((FRAME_HEADER_LEN <=? length (FRAME_MAGIC ++ be_bytes32 c ++ payload))%nat = true) as ->
    by (apply Nat.leb_le; rewrite !length_app; simpl; unfold FRAME_HEADER_LEN; lia).
  simpl. by destruct (c =? crc32 payload).
Qed.

Lemma decode_own_frame w n snaps payload :
  mp_encode_batch snaps = Ok payload → decode_frame w n (frame payload) = Ok snaps.
Proof.
  intros H. unfold frame. rewrite decode_framed by apply crc32_range.
  rewrite Z.eqb_refl. by rewrite (mp_batch_round_trip _ _ H).
Qed.

(** The batch a pending file holds, when it is readable. *)
Definition stored (w : FileWal) (m : gmap string File) (n : string) : option (list OiSnapshot) :=
  match m !! n with
  | Some f => result_ok (decode_frame w n (data f))
  | None => None
  end.

(** * Crashes *)

Lemma apply_op_other m o n : n ∉ op_names o → apply_op m o !! n = m !! n.
Proof.
  destruct o as [x|from to f|x]; simpl; rewrite ?not_elem_of_cons; intros H.
  - rewrite lookup_insert_ne; naive_solver.
  - rewrite lookup_insert_ne, lookup_delete_ne; naive_solver.
  - rewrite lookup_delete_ne; naive_solver.
Qed.
Lemma foldl_op_other l m n :
  (∀ o, o ∈ l → n ∉ op_names o) → foldl apply_op m l !! n = m !! n.
Proof.
  revert m. induction l as [|o l IH]; intros m H; [done|]. simpl.
  rewrite IH by (intros; apply H; by right). apply apply_op_other, H. left.
Qed.

(** A property of entries that the last write-back and every change since keep
    holds of all the directories the medium can come up with. *)
Lemma image_entries (P : string → File → Prop) b m :
  (∀ n f, durable b !! n = Some f → P n f) →
  (∀ n, Link n ∈ journal b → P n (mkFile [] false)) →
  (∀ from to f, Move from to f ∈ journal b → P to f) →
  image b m → ∀ n f, m !! n = Some f → P n f.
Proof.
  intros Hd Hl Hm (kept & Hk & ->).
  assert (∀ o, o ∈ kept → o ∈ journal b) as Hin by (intros o Ho; by eapply elem_of_sublist).
  clear Hk. revert Hd Hin. generalize (durable b). induction kept as [|o kept IH]; intros m0 Hd Hin.
  { exact Hd. }
  apply IH; [|intros; apply Hin; by right]. intros n f. specialize (Hin o ltac:(left)).
  destruct o as [x|from to g|x]; simpl.
  - intros [[<- <-]|[_ ?]]%lookup_insert_Some; [by apply Hl|by apply Hd].
  - intros [[<- <-]|[_ [_ ?]%lookup_delete_Some]]%lookup_insert_Some; [by eapply Hm|by apply Hd].
  - intros [_ ?]%lookup_delete_Some. by apply Hd.
Qed.

(** Every pending file of a directory has been fsynced. *)
Definition fsynced (m : gmap string File) : Prop :=
  ∀ n f, is_pending n = true → m !! n = Some f → synced f = true.
(** The same of every directory a loss of power can bring up. *)
Definition medium_wf (b : Back) : Prop :=
  fsynced (durable b)
  ∧ (∀ n, Link n ∈ journal b → is_pending n = false)
  ∧ (∀ from to f, Move from to f ∈ journal b → is_pending to = true → synced f = true)
  ∧ ∀ n, n ∈ dirty b → is_pending n = false.
(** The clock is within its width beside that. *)
Definition wal_wf (d : Disk) : Prop :=
  fsynced (files d) ∧ (∀ t, clock d = Some t → 0 ≤ t ≤ u128_max) ∧ medium_wf (back d).

Lemma image_fsynced b m : medium_wf b → image b m → fsynced m.
Proof.
  intros (Hd & Hl & Hm & _) Hi n f Hn Hf. revert Hf Hn.
  apply (image_entries (λ n f, is_pending n = true → synced f = true) b m); [|..|done].
  - intros x g Hx Hp. by apply (Hd x).
  - intros x Hx Hp. by rewrite (Hl x Hx) in Hp.
  - exact Hm.
Qed.
Lemma power_loss_pending d after :
  medium_wf (back d) → power_loss d after →
  ∃ m, image (back d) m ∧ ∀ n, is_pending n = true → after !! n = m !! n.
Proof.
  intros Hwf (m & Hi & H). exists m. split; [done|]. intros n Hn. specialize (H n).
  destruct (m !! n) as [f|] eqn:E; [|done].
  rewrite (image_fsynced _ _ Hwf Hi n f Hn E), bool_decide_true in H; [done|].
  intros Hd. destruct Hwf as (_ & _ & _ & Hw). by rewrite Hw in Hn.
Qed.
Lemma image_power_loss d m : image (back d) m → power_loss d m.
Proof. intros H. exists m. split; [done|]. intros n. destruct (m !! n); [|done]. by case_match. Qed.
Lemma write_back_wf d : wal_wf d → wal_wf (write_back d).
Proof.
  intros (H1 & H2 & _). split; [done|]. split; [done|]. split; [done|].
  split; [|split]; intros *; by intros ?%not_elem_of_nil.
Qed.

Lemma append_wf w snaps d r d' : wal_wf d → wal_append w snaps d = (r, d') → wal_wf d'.
Proof.
  intros (Hf & Hc & Hm & Hl & Hv & Hy) Ha. destruct (append_back _ _ _ _ _ Ha) as (D & Y & l & L & J).
  apply append_spec in Ha as [(Ec & _) Hr].
  assert (Hlinks : ∀ o, o ∈ l → ∃ n, o = Link (tmp_name n)) by (intros o (ts & _ & ->)%L; eauto).
  split; [|split; [by rewrite Ec|split; [by unfold fsynced; rewrite D|split; [|split]]]].
  - intros n f Hn. destruct r as [p|e]; [|rewrite Hr by done; by apply Hf].
    destruct Hr as (ts & pl & _ & _ & _ & Hd). rewrite Hd by done.
    case_decide; [by intros [= <-]|by apply Hf].
  - intros n Hin. destruct r as [p|e]; [destruct J as (pl & _ & J)|]; rewrite J, ?elem_of_app in Hin.
    + destruct Hin as [?|[(x & [= ->])%Hlinks|[?|[]%not_elem_of_nil]%elem_of_cons]]; [by apply Hl|
        by apply tmp_not_pending|done].
    + destruct Hin as [?|(x & [= ->])%Hlinks]; [by apply Hl|apply tmp_not_pending].
  - intros from to f Hin. destruct r as [p|e]; [destruct J as (pl & _ & J)|]; rewrite J, ?elem_of_app in Hin.
    + destruct Hin as [?|[(x & ?)%Hlinks|[[= -> -> ->]|[]%not_elem_of_nil]%elem_of_cons]]; [by eapply Hv|done..].
    + destruct Hin as [?|(x & ?)%Hlinks]; [by eapply Hv|done].
  - destruct Y as (y & -> & Y). intros n [(ts & _ & ->)%Y|?]%elem_of_app; [apply tmp_not_pending|by apply Hy].
Qed.

(** What a loss of power right after an append can bring up, set against what
    one right before could. *)
Lemma append_power_loss w snaps d r d' after :
  wal_wf d → wal_append w snaps d = (r, d') → power_loss d' after →
  ∃ before, power_loss d before
    ∧ (∀ n, is_pending n = true → r ≠ Ok n → after !! n = before !! n)
    ∧ ∀ p, r = Ok p → is_pending p = true →
        after !! p = before !! p
        ∨ ∃ payload, mp_encode_batch snaps = Ok payload ∧ after !! p = Some (mkFile (frame payload) true).
Proof.
  intros Hwf Ha Hp. pose proof (append_wf _ _ _ _ _ Hwf Ha) as (_ & _ & Hwf').
  apply (power_loss_pending _ _ Hwf') in Hp as (m & (kept & Hk & ->) & Hsame).
  destruct (append_back _ _ _ _ _ Ha) as (D & _ & l & L & J). rewrite D in Hsame.
  assert (Hother : ∀ k n, is_pending n = true → k `sublist_of` l →
    ∀ m, foldl apply_op m k !! n = m !! n).
  { intros k n Hn Hs m. apply foldl_op_other. intros o Ho.
    destruct (L o) as (ts & _ & ->); [by eapply elem_of_sublist|]. simpl. intros ->%list_elem_of_singleton.
    by rewrite tmp_not_pending in Hn. }
  destruct r as [p|e].
  - destruct J as (pl & Henc & J). rewrite J in Hk.
    apply sublist_app_r in Hk as (k1 & k2 & -> & Hk1 & (k3 & k4 & -> & Hk3 & Hk4)%sublist_app_r).
    exists (foldl apply_op (durable (back d)) k1). split.
    { apply image_power_loss. by exists k1. }
    assert (k4 = [] ∨ k4 = [Move (tmp_name p) p (mkFile (frame pl) true)]) as H4.
    { apply sublist_cons_r in Hk4 as [->%sublist_nil_r|(k & -> & ->%sublist_nil_r)]; auto. }
    split.
    + intros n Hn Hne. rewrite Hsame, !foldl_app by done.
      destruct H4 as [->| ->]; simpl; [by apply Hother|].
      rewrite lookup_insert_ne by congruence. rewrite lookup_delete_ne; [by apply Hother|].
      intros <-. by rewrite tmp_not_pending in Hn.
    + intros ? [= <-] Hn. rewrite Hsame, !foldl_app by done. destruct H4 as [->| ->]; simpl.
      * left. by apply Hother.
      * right. exists pl. split; [done|]. apply lookup_insert_eq.
  - rewrite J in Hk. apply sublist_app_r in Hk as (k1 & k2 & -> & Hk1 & Hk2).
    exists (foldl apply_op (durable (back d)) k1). split.
    { apply image_power_loss. by exists k1. }
    split; [|done]. intros n Hn _. rewrite Hsame, foldl_app by done. by apply Hother.
Qed.


(** A framed file is readable exactly when its checksum is that of its
    payload and the payload decodes: any other stored checksum, or a payload
    changed to one of another checksum, is reported as an error. *)
Theorem framed_read_iff w n c payload snaps :
  0 ≤ c < 2 ^ 32 →
  decode_frame w n (FRAME_MAGIC ++ be_bytes32 c ++ payload) = Ok snaps
  ↔ c = crc32 payload ∧ mp_decode_batch payload = Ok snaps.
Proof.
  intros Hc. rewrite decode_framed by done. split.
  - destruct (Z.eqb_spec c (crc32 payload)); [|done].
    by destruct (mp_decode_batch payload); simpl; intros; simplify_eq.
  - intros [-> H]. by rewrite Z.eqb_refl, H.
Qed.
End frames.

(** * The drainer *)

Section drain.
Context {DL : DecimalLib} {TL : TimeLib} {SC : SnapCodec} {CL : CodecLaws SC}.
Context {W : Type} (t : OiRepository W) (wal : FileWal).

(** [w'] is reached from [w] by upserting the batches one after the other, all
    accepted. *)
Inductive upserted : W → list (list OiSnapshot) → W → Prop :=
| upserted_nil w : upserted w [] w
| upserted_cons w b w1 bs w2 :
    upsert_snapshots t b w = (Ok tt, w1) → upserted w1 bs w2 → upserted w (b :: bs) w2.

(** A file waits at its name, or its batch was accepted, or it was set aside. *)
Definition accounted (bs : list (list OiSnapshot)) (m : gmap string File)
    (n : string) (f : File) : Prop :=
  m !! n = Some f
  ∨ (∃ b, b ∈ bs ∧ decode_frame wal n (data f) = Ok b)
  ∨ m !! corrupt_name n = Some f.

Lemma wal_read_inv path d r d' :
  wal_read wal path d = (r, d') →
  env_eq d d' ∧ files d' = files d ∧
  ((∃ f, files d !! path = Some f ∧ r = decode_frame wal path (data f))
   ∨ (∃ e, r = Err e ∧ (no_faults d → files d !! path = None))).
Proof.
  intros [(e & H & ->)|(b & d1 & H & Hr)]%io_step;
    apply fs_read_inv in H as (He & Hf & [(f & Hl & E)|(e' & E & Hn)]); try done.
  - split; [done|]. split; [done|]. right. eauto.
  - injection E as ->. injection Hr as <- <-. split; [done|]. split; [done|]. left. eauto.
Qed.

Lemma wal_ack_inv path d r d' :
  wal_ack wal path d = (r, d') →
  env_eq d d' ∧
  ((r = Ok tt ∧ files d' = delete path (files d))
   ∨ (¬ no_faults d ∧ (∃ e, r = Err e) ∧ files d' = files d)).
Proof.
  unfold wal_ack. destruct (fs_remove_file path d) as [r0 d0] eqn:E.
  apply fs_remove_inv in E as (He & [(-> & _ & Hf)|[(-> & Hn & Hf)|(Hnf & m & -> & Hf)]]);
    intros [= <- <-]; (split; [done|]).
  - by left.
  - left. split; [done|]. by rewrite Hf, delete_id.
  - right. eauto.
Qed.

Lemma quarantine_inv path d r d' :
  quarantine path d = (r, d') →
  env_eq d d' ∧ r = Ok tt ∧
  ((∃ f, files d !! path = Some f
         ∧ files d' = <[corrupt_name path := f]> (delete path (files d)))
   ∨ (files d' = files d ∧ (no_faults d → files d !! path = None))).
Proof.
  intros [(e & H & ->)|(a & d1 & H & Hr)]%se_bind_inv;
    apply se_try_inv in H as (r0 & H & E); [done|]. injection Hr as <- <-.
  apply fs_rename_inv in H as (He & [(f & -> & Hl & Hf)|(e & -> & Hf & Hn)]);
    (split; [done|]); (split; [done|]); [left; eauto|right].
  split; [done|]. intros H. by destruct (Hn H).
Qed.

(** What these operations journal. *)
Lemma wal_read_back path d r d' : wal_read wal path d = (r, d') → back d' = back d.
Proof.
  assert (H0 : ∀ r0 d0, fs_read path d = (r0, d0) → back d0 = back d).
  { intros r0 d0 [H|(_ & n & _ & ->)]%fs_call_inv; [|done].
    simpl in H. by destruct (files d !! path); injection H as _ <-. }
  intros [(e & H & _)|(b & d1 & H & Hr)]%io_step; apply H0 in H; [done|].
  by injection Hr as _ <-.
Qed.
Lemma wal_ack_back path d r d' :
  wal_ack wal path d = (r, d') → journalled (Unlink path) d d' ∨ untouched d d'.
Proof.
  unfold wal_ack. destruct (fs_remove_file path d) as [r0 d0] eqn:E.
  apply fs_remove_back in E as [(-> & _ & J)|[[e ->] U]]; [intros [= _ <-]; by left|].
  destruct e; intros [= _ <-]; by right.
Qed.
Lemma quarantine_back path d r d' :
  quarantine path d = (r, d') →
  (∃ f, files d !! path = Some f ∧ journalled (Move path (corrupt_name path) f) d d')
  ∨ untouched d d'.
Proof.
  intros [(e & H & ->)|(a & d1 & H & Hr)]%se_bind_inv;
    apply se_try_inv in H as (r0 & H & E); [done|]. injection Hr as _ <-.
  apply fs_rename_back in H as [(f & _ & Hl & J)|[_ U]]; [left; eauto|by right].
Qed.

(** One turn of the loop. *)
Lemma drain_loop_cons path rest d w r dw' :
  drain_loop wal t (path :: rest) (d, w) = (r, dw') →
  (∃ f b d1 w1, files d !! path = Some f ∧ decode_frame wal path (data f) = Ok b
     ∧ upsert_snapshots t b w = (Ok tt, w1) ∧ env_eq d d1
     ∧ ((files d1 = delete path (files d) ∧ drain_loop wal t rest (d1, w1) = (r, dw'))
        ∨ (¬ no_faults d ∧ (∃ e, r = Err e) ∧ dw' = (d1, w1) ∧ files d1 = files d)))
  ∨ (∃ f b d1 w1 e, files d !! path = Some f ∧ decode_frame wal path (data f) = Ok b
     ∧ upsert_snapshots t b w = (Err e, w1) ∧ env_eq d d1 ∧ files d1 = files d
     ∧ r = Err e ∧ dw' = (d1, w1))
  ∨ (∃ d1, env_eq d d1 ∧ drain_loop wal t rest (d1, w) = (r, dw')
     ∧ (no_faults d → stored wal (files d) path = None)
     ∧ ((∃ f, files d !! path = Some f
              ∧ files d1 = <[corrupt_name path := f]> (delete path (files d)))
        ∨ (files d1 = files d ∧ (no_faults d → files d !! path = None)))).
Proof.
  cbn [drain_loop].
  intros [(e & H & ->)|(read & [d1 w1] & H & Hr)]%se_bind_inv;
    apply se_try_inv in H as (r0 & H & E); [done|]. injection E as ->.
  apply se_fst_inv in H as (d1' & H & [= -> ->]).
  apply wal_read_inv in H as (He1 & Hf1 & Hread).
  destruct r0 as [b|e].
  - destruct Hread as [(f & Hl & Hd)|(e & ? & _)]; [|done].
    apply se_bind_inv in Hr as [(e & H & ->)|(wrote & [d2 w2] & H & Hr)];
      apply se_try_inv in H as (r1 & H & E); [done|]. injection E as ->.
    apply se_snd_inv in H as (w2' & H & [= -> ->]).
    destruct r1 as [[]|e]; [left|right; left].
    + apply se_bind_inv in Hr as [(e & Ha & ->)|([] & [d3 w3] & Ha & Hr)];
        apply se_fst_inv in Ha as (d3' & Ha & E);
        apply wal_ack_inv in Ha as (He2 & [(Hok & Hf2)|(Hnf & (e' & Her) & Hf2)]); try done.
      * exists f, b, d3', w2'. do 3 (split; [done|]). split; [by eapply env_eq_trans|].
        right. split; [|split; [eauto|split; [done|congruence]]].
        intros Hn. apply Hnf. by eapply no_faults_env.
      * injection E as -> ->. exists f, b, d3', w2'. do 3 (split; [done|]).
        split; [by eapply env_eq_trans|]. left. split; [congruence|done].
    + injection Hr as <- <-. exists f, b, d1', w2', e. auto 10.
  - right. right.
    apply se_bind_inv in Hr as [(e' & H & ->)|([] & [d2 w2] & H & Hr)];
      apply se_fst_inv in H as (d2' & H & E);
      apply quarantine_inv in H as (He2 & Hok & Hq); [done|].
    injection E as -> ->. exists d2'. split; [by eapply env_eq_trans|]. split; [done|].
    split.
    { intros Hn. unfold stored.
      destruct Hread as [(f & -> & Hd)|(e' & _ & Hnone)]; [by rewrite <- Hd|].
      by rewrite (Hnone Hn). }
    rewrite <- Hf1. destruct Hq as [Hq|[Hq Hn2]]; [by left|right].
    split; [done|]. intros Hn. apply Hn2. by eapply no_faults_env.
Qed.

(** What the loop never touches. *)
Lemma drain_loop_frame names d w r d' w' :
  drain_loop wal t names (d, w) = (r, (d', w')) →
  env_eq d d' ∧
  ∀ n, (n ∉ names) → (∀ m, m ∈ names → corrupt_name m ≠ n) → files d' !! n = files d !! n.
Proof.
  revert d w. induction names as [|path rest IH]; intros d w.
  { by intros [= <- <- <-]. }
  assert (Hsub : ∀ n, (n ∉ path :: rest) → (∀ m, m ∈ path :: rest → corrupt_name m ≠ n) →
    n ≠ path ∧ corrupt_name path ≠ n ∧ (n ∉ rest) ∧ ∀ m, m ∈ rest → corrupt_name m ≠ n).
  { intros n [H1 H2]%not_elem_of_cons H3. split; [done|].
    split; [apply H3; left|]. split; [done|]. intros m Hm. apply H3. by right. }
  intros [(f & b & d1 & w1 & Hl & _ & _ & He & [[Hf Hr]|(_ & _ & [= -> ->] & Hf)])
         |[(f & b & d1 & w1 & e & Hl & _ & _ & He & Hf & _ & [= -> ->])
          |(d1 & He & Hr & _ & Hq)]]%drain_loop_cons.
  - destruct (IH _ _ Hr) as [He' IH']. split; [by eapply env_eq_trans|].
    intros n H1 H2. destruct (Hsub n H1 H2) as (? & ? & ? & ?).
    rewrite IH', Hf by done. by rewrite lookup_delete_ne.
  - split; [done|]. intros. by rewrite Hf.
  - split; [done|]. intros. by rewrite Hf.
  - destruct (IH _ _ Hr) as [He' IH']. split; [by eapply env_eq_trans|].
    intros n H1 H2. destruct (Hsub n H1 H2) as (? & ? & ? & ?).
    rewrite IH' by done. destruct Hq as [(f & Hl & ->)|[-> _]]; [|done].
    by rewrite lookup_insert_ne, lookup_delete_ne.
Qed.

Lemma drain_loop_accounted names d w r d' w' :
  drain_loop wal t names (d, w) = (r, (d', w')) →
  NoDup names → (∀ n, n ∈ names → is_pending n = true) →
  ∃ bs w1, upserted w bs w1
    ∧ (w' = w1 ∨ ∃ b e, r = Err e ∧ upsert_snapshots t b w1 = (Err e, w'))
    ∧ ∀ n f, is_pending n = true → files d !! n = Some f → accounted bs (files d') n f.
Proof.
  revert d w. induction names as [|path rest IH]; intros d w.
  { intros [= <- <- <-] _ _. exists [], w. split; [constructor|]. split; [by left|]. by left. }
  intros Hr [Hp Hnd]%NoDup_cons Hpend.
  assert (Hpend' : ∀ n, n ∈ rest → is_pending n = true) by (intros; apply Hpend; by right).
  assert (Hpath : is_pending path = true) by (apply Hpend; left).
  apply drain_loop_cons in Hr
    as [(f & b & d1 & w1 & Hl & Hb & Hu & He & [[Hf Hr]|(_ & (e & ->) & [= -> ->] & Hf)])
       |[(f & b & d1 & w1 & e & Hl & _ & Hu & He & Hf & -> & [= -> ->])
        |(d1 & He & Hr & _ & Hq)]].
  - destruct (IH _ _ Hr Hnd Hpend') as (bs & w2 & Hus & Hw & Hacc).
    exists (b :: bs), w2. split; [by econstructor|]. split; [done|]. intros n g Hn Hg.
    destruct (decide (n = path)) as [->|Hne].
    + right. left. exists b. split; [left|]. congruence.
    + destruct (Hacc n g) as [H|[(b' & Hb' & Hd)|H]]; [done|by rewrite Hf, lookup_delete_ne|..].
      * by left.
      * right. left. exists b'. split; [by right|done].
      * by right; right.
  - exists [b], w1. split; [by repeat econstructor|]. split; [by left|].
    intros n g Hn Hg. left. by rewrite Hf.
  - exists [], w. split; [constructor|]. split; [right; eauto|].
    intros n g Hn Hg. left. by rewrite Hf.
  - destruct (IH _ _ Hr Hnd Hpend') as (bs & w2 & Hus & Hw & Hacc).
    exists bs, w2. split; [done|]. split; [done|]. intros n g Hn Hg.
    destruct Hq as [(f & Hl & Hf)|[Hf _]]; [|apply Hacc; by rewrite ?Hf].
    destruct (decide (n = path)) as [->|Hne].
    + right. right. destruct (drain_loop_frame _ _ _ _ _ _ Hr) as [_ Hfr].
      rewrite Hfr, Hf, lookup_insert_eq; [congruence| |].
      * intros Hin%Hpend'. by rewrite corrupt_not_pending in Hin.
      * intros m Hm E. apply corrupt_inj in E; [by subst|by apply Hpend'|done].
    + apply Hacc; [done|]. rewrite Hf, lookup_insert_ne, lookup_delete_ne; try done.
      intros <-. by rewrite corrupt_not_pending in Hn.
Qed.

Lemma upserted_app w bs1 w1 bs2 w2 :
  upserted w bs1 w1 → upserted w1 bs2 w2 → upserted w (bs1 ++ bs2) w2.
Proof. induction 1; [done|]. intros. econstructor; [done|]. by apply IHupserted. Qed.

(** Without file-system faults the loop is exactly a replay. *)
Lemma drain_loop_exact names d w r d' w' :
  drain_loop wal t names (d, w) = (r, (d', w')) →
  no_faults d → NoDup names →
  (∀ n, n ∈ names → is_pending n = true ∧ is_Some (files d !! n)) →
  ∃ done rest w1, names = done ++ rest
    ∧ upserted w (omap (stored wal (files d)) done) w1
    ∧ (∀ n, n ∈ names → files d' !! n = if decide (n ∈ rest) then files d !! n else None)
    ∧ match r with
      | Ok _ => rest = [] ∧ w' = w1
      | Err e => ∃ n b, head rest = Some n ∧ stored wal (files d) n = Some b
                        ∧ upsert_snapshots t b w1 = (Err e, w')
      end.
Proof.
  revert d w. induction names as [|path rest IH]; intros d w.
  { intros [= <- <- <-] _ _ _. exists [], [], w. split; [done|]. split; [constructor|].
    split; [|done]. by intros n ?%not_elem_of_nil. }
  intros Hr Hnf [Hp Hnd]%NoDup_cons Hin.
  destruct (Hin path) as [Hpath [f0 Hf0]]; [left|].
  (* The rest of the loop, from a directory that lacks [path] only. *)
  assert (Hrest : ∀ d1 wa, env_eq d d1 → drain_loop wal t rest (d1, wa) = (r, (d', w')) →
    files d1 !! path = None → (∀ n, n ∈ rest → files d1 !! n = files d !! n) →
    ∃ dn rs w1, rest = dn ++ rs
      ∧ upserted wa (omap (stored wal (files d)) dn) w1
      ∧ (∀ n, n ∈ path :: rest → files d' !! n = if decide (n ∈ rs) then files d !! n else None)
      ∧ match r with
        | Ok _ => rs = [] ∧ w' = w1
        | Err e => ∃ n b, head rs = Some n ∧ stored wal (files d) n = Some b
                          ∧ upsert_snapshots t b w1 = (Err e, w')
        end).
  { intros d1 wa He Hl Hnone Hsame.
    destruct (IH d1 wa Hl) as (dn & rs & w1 & -> & Hus & Hfiles & Hres); [by eapply no_faults_env|done| |].
    { intros n Hn. rewrite Hsame by done. apply Hin. by right. }
    assert (Hst : ∀ n, n ∈ dn ++ rs → stored wal (files d1) n = stored wal (files d) n).
    { intros n Hn. unfold stored. by rewrite Hsame. }
    exists dn, rs, w1. split; [done|]. split.
    - erewrite list_omap_ext; [exact Hus|]. apply Forall_Forall2_diag, Forall_forall.
      intros n Hn. symmetry. apply Hst, elem_of_app. by left.
    - split.
      + intros n [->|Hn]%elem_of_cons.
        * destruct (drain_loop_frame _ _ _ _ _ _ Hl) as [_ Hfr].
          rewrite Hfr, Hnone; [|done|].
          -- rewrite decide_False; [done|]. intros ?. apply Hp, elem_of_app. by right.
          -- intros m Hm E. rewrite <- E in Hpath. by rewrite corrupt_not_pending in Hpath.
        * rewrite Hfiles by done. destruct (decide _); [by apply Hsame|done].
      + destruct r as [u|e]; [done|]. destruct Hres as (n & b & Hh & Hs & Hu).
        exists n, b. split; [done|]. split; [|done]. rewrite <- Hst; [done|].
        apply elem_of_app. right. by apply head_Some_elem_of. }
  apply drain_loop_cons in Hr
    as [(f & b & d1 & w1 & Hl & Hb & Hu & He & [[Hf Hr]|(Hbad & _)])
       |[(f & b & d1 & w1 & e & Hl & Hb & Hu & He & Hf & -> & [= -> ->])
        |(d1 & He & Hr & Hst & Hq)]]; [|done|..].
  - destruct (Hrest d1 w1 He Hr) as (dn & rs & w2 & -> & Hus & Hrs).
    { rewrite Hf. apply lookup_delete_eq. }
    { intros n Hn. rewrite Hf, lookup_delete_ne; [done|]. by intros ->. }
    exists (path :: dn), rs, w2. split; [done|]. split; [|done].
    cbn [omap list_omap]. unfold stored at 1. rewrite Hl, Hb. simpl.
    by econstructor.
  - exists [], (path :: rest), w. split; [done|]. split; [constructor|]. split.
    + intros n Hn. by rewrite decide_True, Hf.
    + exists path, b. split; [done|]. split; [|done]. unfold stored. by rewrite Hl, Hb.
  - destruct Hq as [(f & Hl & Hf)|[_ Hnone]]; [|by rewrite Hnone in Hf0].
    destruct (Hrest d1 w He Hr) as (dn & rs & w2 & -> & Hus & Hrs).
    { rewrite Hf, lookup_insert_ne, lookup_delete_eq; [done|].
      intros E. rewrite <- E in Hpath. by rewrite corrupt_not_pending in Hpath. }
    { intros n Hn. assert (is_pending n = true) by (apply Hin; by right).
      rewrite Hf, lookup_insert_ne, lookup_delete_ne; [done|by intros ->|].
      intros <-. by rewrite corrupt_not_pending in *. }
    exists (path :: dn), rs, w2. split; [done|]. split; [|done].
    cbn [omap list_omap]. by rewrite (Hst Hnf).
Qed.

Lemma drain_once_unfold d w r dw' :
  drain_once wal t (d, w) = (r, dw') →
  ∃ d1, env_eq d d1 ∧ files d1 = files d
    ∧ (drain_loop wal t (pending_names (files d)) (d1, w) = (r, dw')
       ∨ (¬ no_faults d ∧ (∃ e, r = Err e) ∧ dw' = (d1, w))).
Proof.
  intros [(e & H & ->)|(names & [d1 w1] & H & Hr)]%se_bind_inv;
    apply se_fst_inv in H as (d1' & H & E);
    apply wal_pending_inv in H as (He & Hf & [Hp|(Hnf & e' & Hp)]); try done.
  - exists d1'. subst. split; [done|]. split; [done|]. right. eauto.
  - injection E as -> ->. injection Hp as ->. exists d1'. split; [done|]. split; [done|].
    left. by destruct (pending_names (files d)).
Qed.

(** A drain cycle loses nothing, whatever file-system calls fail in it: the
    batches the target accepted are upserted one after the other, at most one
    more is attempted and refused (which ends the cycle with that error), and
    afterwards every file that was pending still waits unchanged, or holds a
    batch the target accepted, or has been set aside under its quarantine name
    with its contents intact. *)
Theorem drain_no_loss d w r d' w' :
  drain_once wal t (d, w) = (r, (d', w')) →
  ∃ bs w1, upserted w bs w1
    ∧ (w' = w1 ∨ ∃ b e, r = Err e ∧ upsert_snapshots t b w1 = (Err e, w'))
    ∧ ∀ n f, is_pending n = true → files d !! n = Some f → accounted bs (files d') n f.
Proof.
  intros (d1 & He & Hf & [Hr|(_ & (e & ->) & [= -> ->])])%drain_once_unfold.
  - rewrite <- Hf in Hr |- *. eapply drain_loop_accounted; [exact Hr|apply pending_names_nodup|].
    intros n Hn. by apply pending_names_elem in Hn as [? _].
  - exists [], w. split; [constructor|]. split; [by left|]. intros n f _ Hn. left. by rewrite Hf.
Qed.

Lemma drain_once_exact d w r d' w' :
  no_faults d → drain_once wal t (d, w) = (r, (d', w')) →
  ∃ done rest w1, pending_names (files d) = done ++ rest
    ∧ upserted w (omap (stored wal (files d)) done) w1
    ∧ (∀ n, is_pending n = true →
         files d' !! n = if decide (n ∈ rest) then files d !! n else None)
    ∧ match r with
      | Ok _ => rest = [] ∧ w' = w1
      | Err e => ∃ n b, head rest = Some n ∧ stored wal (files d) n = Some b
                        ∧ upsert_snapshots t b w1 = (Err e, w')
      end.
Proof.
  intros Hnf (d1 & He & Hf & [Hr|(? & _)])%drain_once_unfold; [|done].
  destruct (drain_loop_exact _ _ _ _ _ _ Hr) as (dn & rs & w1 & Hn & Hus & Hfiles & Hres).
  - by eapply no_faults_env.
  - apply pending_names_nodup.
  - intros n. rewrite Hf. apply pending_names_elem.
  - rewrite Hf in *. exists dn, rs, w1. split; [done|]. split; [done|]. split; [|done].
    intros n Hp. destruct (decide (n ∈ pending_names (files d))) as [Hin|Hout].
    + by apply Hfiles.
    + destruct (drain_loop_frame _ _ _ _ _ _ Hr) as [_ Hfr]. rewrite Hfr, Hf; [|done|].
      * rewrite decide_False by (intros ?; apply Hout; rewrite Hn; apply elem_of_app; by right).
        destruct (files d !! n) eqn:E; [|done]. exfalso. apply Hout, pending_names_elem. eauto.
      * intros m Hm E. rewrite <- E in Hp. by rewrite corrupt_not_pending in Hp.
Qed.

(** Without file-system faults a drain cycle is an exact replay, oldest
    name first: it upserts, in the sorted order of the pending names, the batch
    of every readable file of a prefix of them (unreadable ones are skipped),
    removes that prefix from the queue and leaves the rest of it untouched; it
    reports success exactly when the rest is empty, and otherwise the error the
    target gave for the first file of the rest. *)
Theorem drain_replays_in_order d w r d' w' :
  no_faults d → drain_once wal t (d, w) = (r, (d', w')) →
  ∃ done rest w1, pending_names (files d) = done ++ rest
    ∧ upserted w (omap (stored wal (files d)) done) w1
    ∧ (∀ n, is_pending n = true →
         files d' !! n = if decide (n ∈ rest) then files d !! n else None)
    ∧ match r with
      | Ok _ => rest = [] ∧ w' = w1
      | Err e => ∃ n b, head rest = Some n ∧ stored wal (files d) n = Some b
                        ∧ upsert_snapshots t b w1 = (Err e, w')
      end.
Proof. apply drain_once_exact. Qed.
End drain.

(** * The durable write path *)

Section durable.
Context {DL : DecimalLib} {TL : TimeLib} {SC : SnapCodec} {CL : CodecLaws SC}.
Context {W : Type} (inner : OiRepository W) (wal : FileWal).

(** The name the next append takes is not in use. *)
Definition fresh_name (d : Disk) : Prop :=
  ∀ ts, clock d = Some ts → files d !! next_name d ts = None.

Lemma next_name_pending d ts : wal_wf d → clock d = Some ts → is_pending (next_name d ts) = true.
Proof. intros [_ Hc] Ht. apply final_name_pending. by apply Hc. Qed.

(** Durability of the write path.  Whatever fails, after a write of a
    non-empty batch one of three things holds: the inner repository accepted
    it; or the inner repository refused it, its error is reported, and the
    whole batch is queued in the log; or the log itself could not be written,
    an error is reported and the inner repository was never asked.  Success is
    reported only in the first case, and no batch queued before is touched. *)
Theorem walbacked_durable snaps d w r d' w' :
  wal_wf d → fresh_name d → snaps ≠ [] →
  upsert_snapshots (wal_backed inner wal) snaps (d, w) = (r, (d', w')) →
  (upsert_snapshots inner snaps w = (Ok tt, w')
   ∨ (∃ e p, r = Err e ∧ upsert_snapshots inner snaps w = (Err e, w')
        ∧ is_pending p = true ∧ stored wal (files d') p = Some snaps)
   ∨ (∃ e, r = Err e ∧ w' = w ∧ is_ok (wal_append wal snaps d).1 = false ∧
        ∀ n, is_pending n = true → files d' !! n = files d !! n))
  ∧ (r = Ok tt → upsert_snapshots inner snaps w = (Ok tt, w')
       ∧ ∀ n, is_pending n = true → files d' !! n = files d !! n)
  ∧ ∀ n f, is_pending n = true → files d !! n = Some f → files d' !! n = Some f.
Proof.
  intros Hwf Hfresh Hne. simpl. unfold walbacked_upsert. destruct snaps as [|s snaps]; [done|].
  set (l := s :: snaps) in *.
  intros [(e & H & ->)|(p & [d1 w1] & H & Hr)]%se_bind_inv;
    apply se_fst_inv in H as (d1' & H & E); pose proof H as Ha; apply append_spec in H as [Henv Hspec].
  { injection E as -> ->. split; [right; right; exists e; by rewrite Ha|]. split; [done|].
    intros n f Hn Hf. by rewrite Hspec. }
  injection E as -> ->. destruct Hspec as (ts & payload & Hts & Henc & -> & Hf).
  pose proof (next_name_pending d ts Hwf Hts) as Hp. pose proof (Hfresh ts Hts) as Hnone.
  set (p := next_name d ts) in *.
  assert (Hold : ∀ n f, is_pending n = true → files d !! n = Some f → files d1' !! n = Some f).
  { intros n f Hn Hl. rewrite Hf by done. rewrite decide_False; [done|]. intros ->. congruence. }
  apply se_bind_inv in Hr as [(e & H & ->)|(res & [d2 w2] & H & Hr)];
    apply se_try_inv in H as (r0 & H & E); [done|]. injection E as ->.
  apply se_snd_inv in H as (w2' & H & [= -> ->]). destruct r0 as [[]|e].
  - apply se_fst_inv in Hr as (d3 & Hk & [= -> ->]).
    apply wal_ack_inv in Hk as (_ & [(-> & Hd)|(_ & (e & ->) & Hd)]).
    + assert (Hsame : ∀ n, is_pending n = true → files d3 !! n = files d !! n).
      { intros n Hn. rewrite Hd. destruct (decide (n = p)) as [->|Hnp].
        - by rewrite lookup_delete_eq.
        - rewrite lookup_delete_ne, Hf by done. by rewrite decide_False. }
      split; [by left|]. split; [done|]. intros n f Hn Hl. by rewrite Hsame.
    + split; [by left|]. split; [done|]. intros n f Hn Hl. rewrite Hd. by apply Hold.
  - injection Hr as <- <- <-. split; [right; left|by split].
    exists e, p. do 3 (split; [done|]). unfold stored. rewrite Hf by done.
    rewrite decide_True by done. cbn [data]. by rewrite (decode_own_frame _ _ _ _ Henc).
Qed.

Lemma fs_call_ok {A} (good : SE Disk IoError A) partial d :
  no_faults d → fs_call good partial d = good (bump d).
Proof. intros H. unfold fs_call. by rewrite H. Qed.

Lemma fs_write_all_ok h bytes d :
  no_faults d → h_failed h = None →
  fs_write_all h bytes d
  = (Ok h, put_data (h_name h) (λ f, mkFile (data f ++ bytes) false) (bump d)).
Proof. intros H Hh. unfold fs_write_all. by rewrite Hh, H. Qed.

Lemma append_total snaps d ts payload :
  no_faults d → clock d = Some ts → mp_encode_batch snaps = Ok payload →
  ∃ d', wal_append wal snaps d = (Ok (next_name d ts), d').
Proof.
  intros Hnf Hts Henc. destruct (wal_append wal snaps d) as [[p|e] d'] eqn:E.
  { pose proof (append_spec _ _ _ _ _ E) as (_ & ts' & ? & Hts' & _ & -> & _).
    rewrite Hts in Hts'. injection Hts' as <-. eauto. }
  exfalso. revert E. unfold wal_append, mbind, se_bind, se_lift, now_ms, se_map_err, uuid_v4.
  rewrite Henc. cbn [map_err]. rewrite Hts. cbv beta iota zeta.
  set (d0 := mkDisk _ _ _ _ _ _ _). assert (H0 : no_faults d0) by done.
  unfold fs_create. rewrite fs_call_ok by done. cbn [map_err].
  do 3 (rewrite fs_write_all_ok by done; cbn [map_err]).
  unfold fs_sync_all. cbn [h_failed h_name]. rewrite fs_call_ok by done. cbn [map_err].
  unfold fs_rename. rewrite fs_call_ok by done. unfold created, put_data, dir_op.
  cbn [files bump set_files set_back apply_op].
  rewrite !lookup_alter_eq, lookup_insert_eq. cbn [fmap option_fmap option_map map_err].
  set (d1 := set_back _ _). destruct (refresh_metrics wal d1) as [r2 d2] eqn:E2.
  apply refresh_metrics_inv in E2 as (_ & _ & ->). unfold se_try.
  by destruct (count_pending wal d2).
Qed.

(** An append fails only for a reason. *)
Lemma append_refused snaps d :
  is_ok (wal_append wal snaps d).1 = false →
  ¬ (no_faults d ∧ is_Some (clock d) ∧ is_ok (mp_encode_batch snaps) = true).
Proof.
  intros H (Hnf & [ts Hts] & Henc). destruct (mp_encode_batch snaps) as [pl|] eqn:E; [|done].
  destruct (append_total _ _ _ _ Hnf Hts E) as [d' Ha]. by rewrite Ha in H.
Qed.

(** Failover without loss.  A batch written on a standby is refused by the
    gate, leaves the inner repository alone and is queued; as long as the node
    stays a standby the drainer leaves the queue as it is; and once the node
    leads, the next drain cycle delivers that very batch to the inner
    repository and empties the queue. *)
Theorem standby_queue_delivered lead snaps payload d w ts :
  wal_wf d → no_faults d → fresh_name d → pending_names (files d) = [] →
  clock d = Some ts → mp_encode_batch snaps = Ok payload → snaps ≠ [] → lead w = false →
  let gate := leader_gated inner lead in
  ∃ d1, upsert_snapshots (wal_backed gate wal) snaps (d, w) = (Err not_leader, (d1, w))
    ∧ pending_names (files d1) = [next_name d ts]
    ∧ (∀ w2, lead w2 = false →
         ∃ d2, drainer_tick wal gate (Some lead) None (d1, w2) = (Ok tt, (d2, w2))
               ∧ files d2 = files d1)
    ∧ (∀ w2 w3, lead w2 = true → upsert_snapshots inner snaps w2 = (Ok tt, w3) →
         ∃ d2, drain_once wal gate (d1, w2) = (Ok tt, (d2, w3))
               ∧ pending_names (files d2) = []).
Proof.
  intros Hwf Hnf Hfresh Hempty Hts Henc Hne Hlead. cbv zeta.
  destruct (append_total snaps d ts payload Hnf Hts Henc) as [d1 Ha].
  destruct (append_spec _ _ _ _ _ Ha) as (Henv & ts' & pl & Hts' & Henc' & _ & Hf).
  rewrite Hts in Hts'. injection Hts' as <-. rewrite Henc in Henc'. injection Henc' as <-.
  set (p := next_name d ts) in *. pose proof (next_name_pending d ts Hwf Hts) as Hp. fold p in Hp.
  assert (Hnone : ∀ n, is_pending n = true → files d !! n = None).
  { intros n Hn. destruct (files d !! n) eqn:E; [|done].
    assert (n ∈ pending_names (files d)) as Hin by (apply pending_names_elem; eauto).
    by rewrite Hempty in Hin; apply not_elem_of_nil in Hin. }
  assert (Hp1 : pending_names (files d1) = [p]).
  { apply Permutation_singleton_r, NoDup_Permutation;
      [apply pending_names_nodup|apply NoDup_singleton|].
    intros n. rewrite pending_names_elem, list_elem_of_singleton. split.
    - intros [Hn Hs]. rewrite Hf in Hs by done. destruct (decide (n = p)); [done|].
      rewrite Hnone in Hs by done. by destruct Hs.
    - intros ->. split; [done|]. rewrite Hf by done. rewrite decide_True by done. eauto. }
  assert (Hst : stored wal (files d1) p = Some snaps).
  { unfold stored. rewrite Hf, decide_True by done. cbn [data].
    by rewrite (decode_own_frame _ _ _ _ Henc). }
  exists d1. split; [|split; [done|split]].
  - simpl. unfold walbacked_upsert. destruct snaps as [|s snaps]; [done|].
    unfold mbind, se_bind, se_fst, se_try, se_snd. simpl. rewrite Ha. simpl.
    unfold gated. by rewrite Hlead.
  - intros w2 Hl. unfold drainer_tick, se_fst. simpl.
    destruct (refresh_metrics wal d1) as [r2 d2] eqn:E2.
    apply refresh_metrics_inv in E2 as (_ & Hf2 & ->). simpl. rewrite Hl. eauto.
  - intros w2 w3 Hl Hu. destruct (drain_once wal (leader_gated inner lead) (d1, w2)) as [r [d2 w4]] eqn:E.
    apply drain_once_exact in E as (dn & rs & w1 & Hn & Hus & Hfiles & Hres);
      [|by eapply no_faults_env].
    rewrite Hp1 in Hn. destruct dn as [|p0 [|]]; simplify_list_eq.
    + destruct r as [u|e]; [by destruct Hres|]. destruct Hres as (n & b & [= <-] & Hb & Hbad).
      rewrite Hst in Hb. injection Hb as <-. inversion Hus; subst. simpl in Hbad. unfold gated in Hbad.
      rewrite Hl, Hu in Hbad. done.
    + destruct r as [[]|e]; [|by destruct Hres as (n & b & ? & _)].
      destruct Hres as [_ ->]. cbn [omap list_omap] in Hus. rewrite Hst in Hus.
      inversion Hus as [|? ? ? ? ? Hu1 Hus1]; subst. inversion Hus1; subst.
      simpl in Hu1. unfold gated in Hu1. rewrite Hl, Hu in Hu1. injection Hu1 as <-.
      exists d2. split; [done|]. apply elem_of_nil_inv.
      intros n [Hn [f Hs]]%pending_names_elem. rewrite Hfiles in Hs by done.
      done.
Qed.
End durable.

(** * The follower's reaper *)

Section reaper.
Context {DL : DecimalLib} {TL : TimeLib} (wal : FileWal).

Definition aged (now max_age : Z) (n : string) : bool :=
  match parse_ts_ms n with
  | Some ts => max_age <? saturating_sub now ts
  | None => false
  end.

(** Names as [append] makes them between 2001 and 2286, when the milliseconds
    since the epoch have 13 digits. *)
Definition dated_name (n : string) : Prop :=
  ∃ ts id, n = final_name ts id ∧ has_digits 13 ts.

Lemma dated_parse n : dated_name n → ∃ ts id, n = final_name ts id ∧ has_digits 13 ts
  ∧ parse_ts_ms n = Some ts.
Proof.
  intros (ts & id & -> & Hd). exists ts, id. split; [done|]. split; [done|].
  apply parse_final_name. destruct Hd as [H1 H2]. revert H1 H2. unfold u128_max.
  change (10 ^ (Z.of_nat 13 - 1)) with (10 ^ 12). change (10 ^ Z.of_nat 13) with (10 ^ 13). lia.
Qed.

(** A name that sorts after a young one is young. *)
Lemma aged_mono now max_age n m :
  dated_name n → dated_name m → String.le n m → aged now max_age m = true →
  aged now max_age n = true.
Proof.
  intros (ts & id & -> & Hd & Hp)%dated_parse (ts' & id' & -> & Hd' & Hp')%dated_parse Hle.
  unfold aged. rewrite Hp, Hp', !Z.ltb_lt. unfold saturating_sub. intros H.
  destruct (Z.le_gt_cases ts ts'); [lia|].
  destruct (name_order 13 ts' ts ("-" +:+ id' +:+ PENDING_SUFFIX)
              ("-" +:+ id +:+ PENDING_SUFFIX)) as [_ Hn]; [lia|done|done|lia|].
  by destruct Hn.
Qed.

Lemma reap_loop_exact now max_age names count d r d' :
  reap_loop wal now max_age names count d = (r, d') →
  no_faults d → StronglySorted String.le names → NoDup names →
  (∀ n, n ∈ names → dated_name n ∧ is_Some (files d !! n)) →
  r = Ok (count + Z.of_nat (length (filter (λ n, aged now max_age n = true) names)))
  ∧ ∀ n, files d' !! n =
      if decide (n ∈ names ∧ aged now max_age n = true) then None else files d !! n.
Proof.
  revert count d. induction names as [|n names IH]; intros count d.
  { intros [= <- <-] _ _ _ _. split; [by rewrite Z.add_0_r|]. intros n.
    rewrite decide_False; [done|]. by intros [?%not_elem_of_nil _]. }
  intros Hr Hnf Hs [Hn Hnd]%NoDup_cons Hin.
  apply StronglySorted_inv in Hs as [Hs Hle]. rewrite Forall_forall in Hle.
  assert (Hin' : ∀ m, m ∈ names → dated_name m ∧ is_Some (files d !! m))
    by (intros; apply Hin; by right).
  destruct (Hin n) as [Hdn [f Hf]]; [left|].
  destruct (dated_parse n Hdn) as (ts & id & _ & _ & Hp).
  cbn [reap_loop] in Hr. rewrite Hp in Hr.
  destruct (Z.leb_spec (saturating_sub now ts) max_age) as [Hy|Ho].
  - assert (Hyoung : aged now max_age n = false)
      by (unfold aged; rewrite Hp; apply Z.ltb_ge; lia).
    assert (Hall : ∀ m, m ∈ n :: names → aged now max_age m = false).
    { intros m [->|Hm]%elem_of_cons; [done|].
      destruct (aged now max_age m) eqn:E; [|done].
      rewrite (aged_mono now max_age n m) in Hyoung; try done; [by apply Hin'|by apply Hle]. }
    injection Hr as <- <-. split.
    + f_equal. assert (filter (λ m, aged now max_age m = true) (n :: names) = []) as ->; [|simpl; lia].
      apply elem_of_nil_inv. intros m [H1 H2]%list_elem_of_filter. by rewrite Hall in H1.
    + intros m. rewrite decide_False; [done|]. intros [H1 H2]. by rewrite Hall in H2.
  - assert (Hold : aged now max_age n = true)
      by (unfold aged; rewrite Hp; apply Z.ltb_lt; lia).
    unfold fs_remove_file in Hr. rewrite fs_call_ok in Hr by done.
    cbn [files bump] in Hr. rewrite Hf in Hr.
    destruct (IH _ _ Hr) as [-> Hfiles]; [done|done|done| |].
    { intros m Hm. split; [by apply Hin'|]. simpl.
      rewrite lookup_delete_ne by (by intros ->). by apply Hin'. }
    split.
    + rewrite filter_cons_True by done. f_equal. cbn [length]. lia.
    + intros m. rewrite Hfiles. simpl. destruct (decide (m = n)) as [->|Hmn].
      * rewrite lookup_delete_eq. rewrite (decide_True (P := n ∈ n :: names ∧ _))
          by (split; [left|done]). by destruct (decide _).
      * rewrite lookup_delete_ne by done. apply decide_ext. rewrite elem_of_cons. naive_solver.
Qed.

(** The standby's reaper deletes exactly the pending files older than the
    limit and reports their number: stopping at the first young name misses
    none, because names of equally long timestamps sort by age. *)
Theorem reap_deletes_exactly_aged max_age d r d' now :
  no_faults d → clock d = Some now →
  (∀ n, n ∈ pending_names (files d) → dated_name n) →
  reap_older_than wal max_age d = (r, d') →
  r = Ok (Z.of_nat (length (filter (λ n, aged now max_age n = true) (pending_names (files d)))))
  ∧ ∀ n, files d' !! n =
      if is_pending n && aged now max_age n then None else files d !! n.
Proof.
  intros Hnf Hc Hd. unfold reap_older_than.
  destruct (wal_pending wal d) as [r0 d0] eqn:E.
  apply wal_pending_inv in E as (He & Hf & [->|(? & _)]); [|done].
  pose proof He as (Hc' & _ & _). rewrite Hc', Hc.
  change (default 0 (Some now)) with now. intros Hr.
  destruct (reap_loop_exact _ _ _ _ _ _ _ Hr) as [-> Hfiles].
  - by eapply no_faults_env.
  - apply StronglySorted_merge_sort; apply _.
  - apply pending_names_nodup.
  - intros n Hn. split; [by apply Hd|]. rewrite Hf. by apply pending_names_elem in Hn as [_ ?].
  - split; [done|]. intros n. rewrite Hfiles, Hf.
    destruct (is_pending n && aged now max_age n) eqn:E.
    + apply andb_true_iff in E as [E1 E2]. destruct (files d !! n) eqn:El; [|by case_decide].
      rewrite decide_True; [done|]. split; [apply pending_names_elem; eauto|done].
    + rewrite decide_False; [done|]. intros [[H1 _]%pending_names_elem H2].
      by rewrite H1, H2 in E.
Qed.
End reaper.

(** * The storage stack of a node *)

Section stack.
Context {DL : DecimalLib} {TL : TimeLib} {SC : SnapCodec}.
Context {W : Type} (inner : OiRepository W) (lead : W → bool) (wal : FileWal)
        (conn : RedisConn (Disk * W)).

(** The repository the collector assembles in a high-availability deployment:
    the gate around the database, the log around the gate, Redis beside it. *)
Definition node_stack : OiRepository (Disk * W) :=
  composite (with_leader_gate
    (with_primary (wal_backed (leader_gated inner lead) wal) conn) (λ dw, lead dw.2)).

(** Funding data reaches the database through the whole stack, neither
    queued nor silently dropped by the trait's default methods: on a leader
    every funding write is the database's, on a standby it is an error that
    changes nothing, and funding reads are the database's on every node. *)
Theorem funding_through_stack bars events i from to d w :
  (lead w = true →
     upsert_funding node_stack bars (d, w)
       = (let '(r, w') := upsert_funding inner bars w in (r, (d, w')))
     ∧ upsert_funding_events node_stack events (d, w)
       = (let '(r, w') := upsert_funding_events inner events w in (r, (d, w'))))
  ∧ (lead w = false →
     upsert_funding node_stack bars (d, w) = (Err not_leader, (d, w))
     ∧ upsert_funding_events node_stack events (d, w) = (Err not_leader, (d, w)))
  ∧ latest_funding node_stack i (d, w)
    = (let '(r, w') := latest_funding inner i w in (r, (d, w')))
  ∧ funding_range node_stack i from to (d, w)
    = (let '(r, w') := funding_range inner i from to w in (r, (d, w')))
  ∧ latest_funding_event node_stack i (d, w)
    = (let '(r, w') := latest_funding_event inner i w in (r, (d, w')))
  ∧ funding_events_range node_stack i from to (d, w)
    = (let '(r, w') := funding_events_range inner i from to w in (r, (d, w'))).
Proof.
  simpl. unfold se_snd, gated. simpl.
  split; [by intros ->|]. split; [by intros ->|]. done.
Qed.
End stack.

(** * Concrete runs *)

Definition ex_wal : FileWal := mkWal "/var/lib/oi/wal" 1000.
Definition ex_disk (fl : nat → option nat) : Disk :=
  mkDisk ∅ (Some 1767225600000) 7 0 fl 0 (mkBack ∅ [] []).
Definition ex_batch : list OiSnapshot := [ex_bar 1; ex_bar 2].
(** A database that keeps rows and can be down. *)
Definition ex_db (up : bool) : OiRepository (DL := z_decimal) (TL := z_time) ExStore :=
  with_default_funding
    (λ l w, if up then upsert_snapshots ex_primary l w else (Err (CStorage "down"), w))
    (λ _, mret tt) (λ _ _ _, mret []) (λ _, mret None).

Lemma ex_disk_wf fl : wal_wf (ex_disk fl) ∧ fresh_name (ex_disk fl).
Proof.
  assert (H0 : fsynced ∅) by (intros n f _ H; by rewrite lookup_empty in H).
  split; [split; [exact H0|split; [|split; [exact H0|]]]|].
  - intros t [= <-]. by split.
  - split; [|split]; intros *; by intros ?%not_elem_of_nil.
  - intros ts _. apply lookup_empty.
Defined.

(** The payload write fails after two bytes. *)
Definition ex_fault : nat → option nat := λ n, if (n =? 3)%nat then Some 2%nat else None.


Lemma framed_read_iff_witness :
  decode_frame (SC := ex_codec) ex_wal "a.mpk" (FRAME_MAGIC ++ be_bytes32 9 ++ [2]) = Ok ex_batch
  ∧ decode_frame (SC := ex_codec) ex_wal "a.mpk" (FRAME_MAGIC ++ be_bytes32 9 ++ [1])
    ≠ Ok ex_batch.
Proof.
  split.
  - apply (framed_read_iff (SC := ex_codec) ex_wal "a.mpk" 9 [2] ex_batch); [lia|].
    split; reflexivity.
  - intros H. apply (framed_read_iff (SC := ex_codec) ex_wal "a.mpk" 9 [1] ex_batch) in H; [|lia].
    destruct H as [H _]. vm_compute in H. discriminate.
Defined.

Lemma walbacked_durable_witness :
  let '(r, (d', w')) := upsert_snapshots (wal_backed (SC := ex_codec) (ex_db false) ex_wal)
                          ex_batch (ex_disk (λ _, None), ex_world true) in
  r = Err (CStorage "down") ∧ st_rows w' = []
  ∧ ∃ p, is_pending p = true ∧ stored (SC := ex_codec) ex_wal (files d') p = Some ex_batch.
Proof.
  destruct (upsert_snapshots (wal_backed (SC := ex_codec) (ex_db false) ex_wal)
              ex_batch (ex_disk (λ _, None), ex_world true)) as [r [d' w']] eqn:E.
  assert (Hr : r = Err (CStorage "down") ∧ w' = ex_world true).
  { destruct (pair_parts _ _ _ E) as [-> [_ ->]%eq_sym%pair_parts]. split; reflexivity. }
  destruct Hr as [-> ->]. split; [reflexivity|]. split; [reflexivity|].
  destruct (walbacked_durable (SC := ex_codec) (ex_db false) ex_wal ex_batch
              (ex_disk (λ _, None)) (ex_world true) (Err (CStorage "down")) d' (ex_world true)
              (proj1 (ex_disk_wf _)) (proj2 (ex_disk_wf _)) ltac:(discriminate) E) as (H & _).
  destruct H as [H|[(e & p & _ & _ & Hp & Hs)|(e & _ & _ & _ & Hsame)]];
    [discriminate|exists p; split; [exact Hp|exact Hs]|].
  exfalso. assert (Hbad : bool_decide (pending_names (files d') = []) = false).
  { destruct (pair_parts _ _ _ E) as [_ [-> _]%eq_sym%pair_parts]. reflexivity. }
  apply bool_decide_eq_false in Hbad. apply Hbad. apply elem_of_nil_inv.
  intros n Hn. apply pending_names_elem in Hn as [Hp [f Hf]].
  rewrite Hsame in Hf by exact Hp. simpl in Hf. by rewrite lookup_empty in Hf.
Defined.

Definition ex_queue : Disk :=
  (wal_append (SC := ex_codec) ex_wal [ex_bar 2]
    (wal_append (SC := ex_codec) ex_wal [ex_bar 1] (ex_disk (λ _, None))).2).2.

Lemma drain_replays_in_order_witness :
  let '(r, (d', w')) := drain_once (SC := ex_codec) ex_wal (ex_db true) (ex_queue, ex_world true) in
  r = Ok tt ∧ st_rows w' = [ex_bar 1; ex_bar 2]
  ∧ ∀ n, is_pending n = true → files d' !! n = None.
Proof.
  destruct (drain_once (SC := ex_codec) ex_wal (ex_db true) (ex_queue, ex_world true))
    as [r [d' w']] eqn:E.
  assert (Hr : r = Ok tt ∧ st_rows w' = [ex_bar 1; ex_bar 2]).
  { destruct (pair_parts _ _ _ E) as [-> [_ ->]%eq_sym%pair_parts]. split; reflexivity. }
  split; [exact (proj1 Hr)|]. split; [exact (proj2 Hr)|].
  destruct (drain_replays_in_order (SC := ex_codec) (ex_db true) ex_wal ex_queue (ex_world true)
              r d' w' ltac:(intros n; reflexivity) E) as (dn & rs & w1 & _ & _ & Hf & Hres).
  destruct Hr as [-> _]. destruct Hres as [-> _]. intros n Hn.
  rewrite (Hf n Hn). destruct (decide (n ∈ [])) as [Hin|]; [|reflexivity].
  destruct (not_elem_of_nil n Hin).
Defined.

(** The second batch's read fails: it is set aside, the first is delivered. *)
Definition ex_queue_fault : Disk :=
  mkDisk (files ex_queue) (Some 0) 7 2 (λ n, if (n =? 3)%nat then Some 0%nat else None) 0
    (back ex_queue).

Lemma drain_no_loss_witness :
  let '(r, (d', w')) := drain_once (SC := ex_codec) ex_wal (ex_db true)
                          (ex_queue_fault, ex_world true) in
  r = Ok tt ∧ st_rows w' = [ex_bar 1]
  ∧ ∃ bs, ∀ n f, is_pending n = true → files ex_queue_fault !! n = Some f →
      accounted (SC := ex_codec) ex_wal bs (files d') n f.
Proof.
  destruct (drain_once (SC := ex_codec) ex_wal (ex_db true) (ex_queue_fault, ex_world true))
    as [r [d' w']] eqn:E.
  assert (Hr : r = Ok tt ∧ st_rows w' = [ex_bar 1]).
  { destruct (pair_parts _ _ _ E) as [-> [_ ->]%eq_sym%pair_parts]. split; reflexivity. }
  split; [exact (proj1 Hr)|]. split; [exact (proj2 Hr)|].
  destruct (drain_no_loss (SC := ex_codec) (ex_db true) ex_wal ex_queue_fault (ex_world true) r d' w' E)
    as (bs & w1 & _ & _ & H). exists bs. exact H.
Defined.

Lemma standby_queue_delivered_witness :
  ∃ d1, upsert_snapshots (wal_backed (SC := ex_codec) (leader_gated (ex_db true) st_lead) ex_wal)
          ex_batch (ex_disk (λ _, None), ex_world false) = (Err not_leader, (d1, ex_world false))
    ∧ ∃ d2, drain_once (SC := ex_codec) ex_wal (leader_gated (ex_db true) st_lead)
              (d1, ex_world true) = (Ok tt, (d2, mkStore ∅ [] ex_batch true))
            ∧ pending_names (files d2) = [].
Proof.
  destruct (standby_queue_delivered (SC := ex_codec) (ex_db true) ex_wal st_lead ex_batch [2]
              (ex_disk (λ _, None)) (ex_world false) 1767225600000) as (d1 & H1 & _ & _ & H2);
    [apply ex_disk_wf|intros n; reflexivity|apply ex_disk_wf|reflexivity|reflexivity
    |reflexivity|discriminate|reflexivity|].
  exists d1. split; [exact H1|].
  apply (H2 (ex_world true) (mkStore ∅ [] ex_batch true)); reflexivity.
Defined.

Definition ex_aged : Disk :=
  mkDisk {[ final_name 1767225600000 "7-0" := mkFile [] true;
            final_name 1767225609000 "7-1" := mkFile [] true ]}
         (Some 1767225609500) 7 2 (λ _, None) 0 (mkBack ∅ [] []).

Lemma reap_deletes_exactly_aged_witness :
  let '(r, d') := reap_older_than ex_wal 1000 ex_aged in
  r = Ok 1 ∧ files d' !! final_name 1767225600000 "7-0" = None.
Proof.
  destruct (reap_older_than ex_wal 1000 ex_aged) as [r d'] eqn:E.
  assert (Hp : pending_names (files ex_aged) =
    [final_name 1767225600000 "7-0"; final_name 1767225609000 "7-1"]) by reflexivity.
  destruct (reap_deletes_exactly_aged ex_wal 1000 ex_aged r d' 1767225609500) as [Hr Hf];
    [intros n; reflexivity|reflexivity| |exact E|].
  - rewrite Hp. intros n Hn. apply elem_of_cons in Hn as [->|Hn].
    + exists 1767225600000, "7-0"%string. split; [reflexivity|]. vm_compute. split; [discriminate|reflexivity].
    + apply list_elem_of_singleton in Hn as ->.
      exists 1767225609000, "7-1"%string. split; [reflexivity|]. vm_compute. split; [discriminate|reflexivity].
  - split; [rewrite Hr, Hp; reflexivity|]. rewrite Hf. reflexivity.
Defined.

Lemma funding_through_stack_witness :
  latest_funding (node_stack (SC := ex_codec) (ex_db true) st_lead ex_wal
    {| redis_pipe _ := mret tt; redis_get _ := mret None |}) ex_btc
    (ex_disk (λ _, None), ex_world true) = (Ok None, (ex_disk (λ _, None), ex_world true)).
Proof.
  destruct (funding_through_stack (SC := ex_codec) (ex_db true) st_lead ex_wal
    {| redis_pipe _ := mret tt; redis_get _ := mret None |} [] [] ex_btc 0 0
    (ex_disk (λ _, None)) (ex_world true)) as (_ & _ & H & _). exact H.
Defined.
