(* ===== verification/Lease.v ===== *)
(** The leader lease of [oi-replication/src/failover.rs].

    Redis is its documented behaviour on one key: a value with an expiry time,
    [SET NX PX], [GET] and [PEXPIRE]; the refresh script is the repository's.
    The world is that key, the server's clock in milliseconds and the flag of
    each node; a request may be lost before it reaches the server or its reply
    may be lost after it took effect, and time may pass by any amount between
    two steps, so a node's loop can be arbitrarily late. *)

From Stdlib Require Import ZArith Lia String.
From stdpp Require Import base option list strings gmap relations.
From S2P Require Import Prelude.
Open Scope Z_scope.

Definition DEFAULT_LEASE_KEY : string := "oi:lease:writer".

Record LeaseConfig := mkLease {
  redis_url : string; node_id : string; key : string;
  ttl_ms : Z; refresh_interval_ms : Z }.

(** [uuid] is the generated node id. *)
Definition lease_config_new (url uuid : string) : LeaseConfig :=
  {| redis_url := url; node_id := uuid; key := DEFAULT_LEASE_KEY;
     ttl_ms := 15000; refresh_interval_ms := 5000 |}.
Definition with_node_id (c : LeaseConfig) (id : string) : LeaseConfig :=
  {| redis_url := redis_url c; node_id := id; key := key c;
     ttl_ms := ttl_ms c; refresh_interval_ms := refresh_interval_ms c |}.

(** * Redis on the lease key *)

(** The stored value and the time it expires. *)
Definition Slot : Type := option (string * Z).

Definition slot_get (now : Z) (s : Slot) : option string :=
  match s with Some (v, exp) => if now <? exp then Some v else None | None => None end.
(** [PEXPIRE] on an existing key: a non-positive time deletes it. *)
Definition slot_pexpire (now ttl : Z) (s : Slot) : Z * Slot :=
  match slot_get now s with
  | Some v => (1, if 0 <? ttl then Some (v, now + ttl) else None)
  | None => (0, s)
  end.
(** [SET key value NX PX ttl]. *)
Definition slot_set_nx_px (now ttl : Z) (value : string) (s : Slot) : option string * Slot :=
  match slot_get now s with
  | Some _ => (None, s)
  | None => (Some "OK"%string, Some (value, now + ttl))
  end.

(** The script [REFRESH_IF_OWNED]. *)
Definition refresh_if_owned (now ttl : Z) (node : string) (s : Slot) : Z * Slot :=
  if bool_decide (slot_get now s = Some node) then slot_pexpire now ttl s else (0, s).

(** What happens to a request. *)
Inductive Net := Delivered | RequestLost | ReplyLost.

(** [tick]: the new leadership state, or the Redis error. *)
Definition lease_tick (node : string) (ttl_ms : Z) (net : Net) (now : Z)
    (currently_leader : bool) (s : Slot) : result string bool * Slot :=
  match net with
  | RequestLost => (Err "connection lost"%string, s)
  | _ =>
      let '(reply, s') :=
        if currently_leader then
          let '(refreshed, s') := refresh_if_owned now ttl_ms node s in (refreshed =? 1, s')
        else
          let '(acquired, s') := slot_set_nx_px now ttl_ms node s in
          (bool_decide (is_Some acquired), s') in
      match net with
      | ReplyLost => (Err "connection lost"%string, s')
      | _ => (Ok reply, s')
      end
  end.

(** One iteration of [run_loop]: the flag after it. *)
Definition lease_loop_step (node : string) (ttl_ms : Z) (net : Net) (now : Z)
    (held : bool) (s : Slot) : bool * Slot :=
  match lease_tick node ttl_ms net now held s with
  | (Ok new_state, s') => (if Bool.eqb new_state held then held else new_state, s')
  | (Err _, s') => (if held then false else held, s')
  end.

(** * The cluster *)

(** [granted] is a ghost: the expiry time a node was last granted by a reply it
    saw.  The code keeps only the flag. *)
Record Cluster := mkCluster {
  c_now : Z;
  c_slot : Slot;
  c_held : string → bool;
  c_granted : string → Z;
}.

Definition upd {A} (n : string) (a : A) (f : string → A) : string → A :=
  λ m, if decide (m = n) then a else f m.

(** [is_leader()] of a node's manager. *)
Definition is_leader (c : Cluster) (n : string) : bool := c_held c n.

Section cluster.
Context (ttl : Z).

Inductive lstep : Cluster → Cluster → Prop :=
| step_time c dt : 0 ≤ dt →
    lstep c (mkCluster (c_now c + dt) (c_slot c) (c_held c) (c_granted c))
| step_tick c n net held' s' :
    lease_loop_step n ttl net (c_now c) (c_held c n) (c_slot c) = (held', s') →
    lstep c (mkCluster (c_now c) s' (upd n held' (c_held c))
              (if held' then upd n (c_now c + ttl) (c_granted c) else c_granted c))
| step_restart c n :
    lstep c (mkCluster (c_now c) (c_slot c) (upd n false (c_held c)) (c_granted c)).

(** All nodes start as followers ([AtomicBool::new(false)]). *)
Definition c_init (now : Z) (s : Slot) : Cluster := mkCluster now s (λ _, false) (λ _, 0).

Definition reachable (c : Cluster) : Prop := ∃ now s, rtc lstep (c_init now s) c.

(** A leader whose grant has not run out owns the key until then. *)
Definition lease_inv (c : Cluster) : Prop :=
  ∀ n, c_held c n = true → c_now c < c_granted c n → c_slot c = Some (n, c_granted c n).

Lemma refresh_cases now node s :
  0 < ttl →
  refresh_if_owned now ttl node s =
    if bool_decide (slot_get now s = Some node) then (1, Some (node, now + ttl)) else (0, s).
Proof.
  intros Ht. unfold refresh_if_owned, slot_pexpire. case_bool_decide as H; [|done].
  rewrite H. by rewrite (proj2 (Z.ltb_lt 0 ttl) Ht).
Qed.

(** The iteration ends as a leader exactly when its request was answered and
    the slot is now its own until [now + ttl]. *)
Lemma loop_step_cases node net now held s held' s' :
  0 < ttl → lease_loop_step node ttl net now held s = (held', s') →
  (held' = true ∧ net = Delivered ∧ s' = Some (node, now + ttl)
   ∧ (slot_get now s = None ∨ slot_get now s = Some node))
  ∨ (held' = false ∧ (s' = s ∨ s' = Some (node, now + ttl)
       ∧ (slot_get now s = None ∨ slot_get now s = Some node))).
Proof.
  intros Ht. unfold lease_loop_step, lease_tick. rewrite refresh_cases by done.
  unfold slot_set_nx_px.
  destruct net, held; try case_bool_decide; try destruct (slot_get now s) eqn:E; simpl;
    intros [= <- <-]; naive_solver.
Qed.

Lemma slot_get_live now n exp : now < exp → slot_get now (Some (n, exp)) = Some n.
Proof. intros H. unfold slot_get. by rewrite (proj2 (Z.ltb_lt _ _) H). Qed.

Lemma lease_inv_step c c' : 0 < ttl → lstep c c' → lease_inv c → lease_inv c'.
Proof.
  intros Ht [c0 dt Hdt|c0 n net held' s' Hs|c0 n] Hinv m; simpl.
  - intros Hh Hg. apply Hinv; [done|lia].
  - unfold upd. pose proof (loop_step_cases _ _ _ _ _ _ _ Ht Hs) as Hc.
    destruct (decide (m = n)) as [->|Hne].
    + intros -> _. destruct Hc as [(_ & _ & -> & _)|(? & _)]; [|done].
      by rewrite decide_True.
    + intros Hh Hg.
      assert (Hg' : c_now c0 < c_granted c0 m)
        by (destruct held'; [by rewrite decide_False in Hg|done]).
      pose proof (Hinv m Hh Hg') as Hslot.
      assert (Hlive : slot_get (c_now c0) (c_slot c0) = Some m)
        by (rewrite Hslot; by apply slot_get_live).
      rewrite Hlive in Hc.
      assert ((if held' then upd n (c_now c0 + ttl) (c_granted c0) else c_granted c0) m
              = c_granted c0 m) as Hgm.
      { unfold upd. destruct held'; [by rewrite decide_False|done]. }
      unfold upd in Hgm. rewrite Hgm. destruct Hc as [(_ & _ & _ & [?|?])|(_ & [->|(_ & [?|?])])];
        by simplify_eq.
  - unfold upd. destruct (decide (m = n)); [done|]. apply Hinv.
Qed.

Lemma lease_inv_reachable c : 0 < ttl → reachable c → lease_inv c.
Proof.
  intros Ht (now & s & Hr).
  assert (H0 : lease_inv (c_init now s)) by done.
  revert H0. induction Hr as [c|c1 c2 c3 Hstep _ IH]; [done|].
  intros H. apply IH. by eapply lease_inv_step.
Qed.

(** C11. Mutual exclusion of the lease.  In every reachable state, whatever
    requests and replies were lost and however late the loops run, two nodes
    whose last grant has not expired are never both leaders, and such a leader's
    id is what the key holds; so if every leader's loop refreshes within the
    lease's lifetime, at most one node answers [is_leader()]. *)
Theorem lease_mutual_exclusion c n m :
  0 < ttl → reachable c →
  (is_leader c n = true → c_now c < c_granted c n →
     slot_get (c_now c) (c_slot c) = Some n)
  ∧ (is_leader c n = true → c_now c < c_granted c n →
     is_leader c m = true → c_now c < c_granted c m → n = m)
  ∧ ((∀ k, is_leader c k = true → c_now c < c_granted c k) →
     is_leader c n = true → is_leader c m = true → n = m).
Proof.
  intros Ht Hr. pose proof (lease_inv_reachable c Ht Hr) as Hinv.
  assert (Huniq : ∀ n m, is_leader c n = true → c_now c < c_granted c n →
     is_leader c m = true → c_now c < c_granted c m → n = m).
  { intros a b Ha Hga Hb Hgb. pose proof (Hinv a Ha Hga). pose proof (Hinv b Hb Hgb).
    congruence. }
  split; [|split; [by apply Huniq|]].
  - intros Hn Hg. rewrite (Hinv n Hn Hg). by apply slot_get_live.
  - intros Hall Hn Hm. apply Huniq; auto.
Qed.

(** Takeover.  A follower's answered request makes it the leader exactly
    when the key has expired or was never set, so it succeeds at the first one
    after the holder's lease ran out and never before; in particular a node
    that demoted itself on a Redis error cannot regain the lead while its own
    key is still live; and a leader whose key was taken or expired is demoted
    by its next answered request, leaving the key as it is. *)
Theorem lease_takeover node now s held :
  0 < ttl →
  (held = false →
     (slot_get now s = None →
        lease_loop_step node ttl Delivered now held s = (true, Some (node, now + ttl)))
     ∧ (∀ owner, slot_get now s = Some owner →
        lease_loop_step node ttl Delivered now held s = (false, s)))
  ∧ (held = true →
     (slot_get now s = Some node →
        lease_loop_step node ttl Delivered now held s = (true, Some (node, now + ttl)))
     ∧ (slot_get now s ≠ Some node →
        lease_loop_step node ttl Delivered now held s = (false, s)))
  ∧ (∀ net, net ≠ Delivered → (lease_loop_step node ttl net now held s).1 = false).
Proof.
  intros Ht. unfold lease_loop_step, lease_tick. rewrite refresh_cases by done.
  unfold slot_set_nx_px. split; [|split].
  - intros ->. split; [by intros ->|]. by intros owner ->.
  - intros ->. split; intros H; [by rewrite bool_decide_true|by rewrite bool_decide_false].
  - intros [] H; [done|by destruct held|]. destruct held.
    + by destruct (bool_decide _).
    + by destruct (slot_get now s).
Qed.

(** The bound on mutual exclusion is real: a leader that is not scheduled
    for longer than the lease's lifetime still answers [is_leader()] after
    another node has taken over, until its next request. *)
Theorem stale_leader_window :
  0 < ttl →
  ∃ c, reachable c ∧ is_leader c "a" = true ∧ is_leader c "b" = true
       ∧ slot_get (c_now c) (c_slot c) = Some "b"%string.
Proof.
  intros Ht.
  set (c0 := c_init 0 None).
  assert (Ha : lease_loop_step "a" ttl Delivered 0 false None = (true, Some ("a"%string, 0 + ttl)))
    by done.
  set (c1 := mkCluster 0 (Some ("a"%string, 0 + ttl)) (upd "a" true (c_held c0))
                (upd "a" (0 + ttl) (c_granted c0))).
  set (c2 := mkCluster (0 + ttl) (c_slot c1) (c_held c1) (c_granted c1)).
  assert (Hb : lease_loop_step "b" ttl Delivered (c_now c2) (c_held c2 "b") (c_slot c2)
               = (true, Some ("b"%string, 0 + ttl + ttl))).
  { unfold lease_loop_step, lease_tick, slot_set_nx_px. simpl.
    by rewrite Z.ltb_irrefl. }
  eexists (mkCluster (c_now c2) (Some ("b"%string, 0 + ttl + ttl)) (upd "b" true (c_held c2)) _).
  split; [|split; [done|split; [done|]]].
  - exists 0, None. eapply rtc_l; [exact (step_tick c0 "a" Delivered true _ Ha)|].
    eapply rtc_l; [exact (step_time c1 ttl ltac:(lia))|].
    eapply rtc_l; [exact (step_tick c2 "b" Delivered true _ Hb)|]. apply rtc_refl.
  - simpl. apply slot_get_live. lia.
Qed.
End cluster.

(** * Concrete runs *)

Lemma lease_mutual_exclusion_witness :
  let c := mkCluster 0 (Some ("a"%string, 15000)) (upd "a" true (λ _, false))
             (upd "a" 15000 (λ _, 0)) in
  reachable 15000 c ∧ slot_get 0 (c_slot c) = Some "a"%string.
Proof.
  assert (Hr : reachable 15000 (mkCluster 0 (Some ("a"%string, 15000))
                 (upd "a" true (λ _, false)) (upd "a" 15000 (λ _, 0)))).
  { exists 0, None. eapply rtc_l; [|apply rtc_refl].
    exact (step_tick 15000 (c_init 0 None) "a" Delivered true _ eq_refl). }
  split; [exact Hr|].
  apply (lease_mutual_exclusion 15000 _ "a" "a" ltac:(lia) Hr); reflexivity.
Defined.

Lemma lease_takeover_witness :
  lease_loop_step "b" 15000 Delivered 20000 false (Some ("a"%string, 15000))
    = (true, Some ("b"%string, 35000))
  ∧ lease_loop_step "a" 15000 Delivered 10000 false (Some ("a"%string, 15000))
    = (false, Some ("a"%string, 15000)).
Proof.
  split.
  - destruct (lease_takeover 15000 "b" 20000 (Some ("a"%string, 15000)) false ltac:(lia)) as (H & _).
    apply H; reflexivity.
  - destruct (lease_takeover 15000 "a" 10000 (Some ("a"%string, 15000)) false ltac:(lia)) as (H & _).
    eapply H; reflexivity.
Defined.

Lemma stale_leader_window_witness :
  ∃ c, reachable 15000 c ∧ is_leader c "a" = true ∧ is_leader c "b" = true.
Proof.
  destruct (stale_leader_window 15000 ltac:(lia)) as (c & H1 & H2 & H3 & _).
  exists c. split; [exact H1|]. split; [exact H2|exact H3].
Defined.
