(* ===== verification/Cluster.v ===== *)
(** The high-availability cluster that [run_async] of
    [oi-collector/src/runner.rs] deploys: several nodes, each with the lease
    flag of [failover.rs], a local write-ahead log and drainer ([wal.rs]) and the
    leader gate ([leader_gated.rs]), over one database.

    The tasks of a node interleave at every point where they await: a write
    appends to the log, asks the gate, inserts, acknowledges; the drainer lists
    the queue and reads, sets aside, inserts or acknowledges one file at a time.
    Any number of writes may be in flight beside the drainer, requests to the
    lease may be lost.  Between any two steps the process of a node may die and be
    started again, which leaves its directory as it was; or the machine may lose
    power, which can undo every change of the directory the kernel has not written
    back yet, since [wal.rs] waits for no write-back; and the kernel may write the
    directory back.  [write_alone] and [drain_alone] tie these small steps to the
    definitions of [Wal]. *)

From Stdlib Require Import ZArith Lia String.
From stdpp Require Import base option list strings gmap relations.
From S2P Require Import Prelude Externals Concrete Domain Repository Wal Lease.
Open Scope Z_scope.
Open Scope oi_scope.

(** * The database as a log of rows *)

(** What the cluster relies on: inserts only ever add rows, and an accepted
    insert has added the batch; a refused one may have added some of it.
    [img] is the row of a bar. *)
Class InsertLaws `{DL : DecimalLib, TL : TimeLib} {DB R : Type} (inner : OiRepository DB)
    (img : OiSnapshot → R) (rows : DB → list R) : Prop := {
  insert_appends l w r w' :
    upsert_snapshots inner l w = (r, w') →
    ∃ new, rows w' = rows w ++ new ∧ ∀ x, x ∈ new → x ∈ img <$> l;
  insert_accepted l w w' :
    upsert_snapshots inner l w = (Ok tt, w') → rows w' = rows w ++ (img <$> l);
}.

(** A repository on the second half of a pair of worlds. *)
Definition snd_repo `{DL : DecimalLib, TL : TimeLib} {V W} (r : OiRepository W)
  : OiRepository (V * W) :=
  {| upsert_snapshots l := se_snd (upsert_snapshots r l);
     upsert_instruments l := se_snd (upsert_instruments r l);
     range i from to := se_snd (range r i from to);
     latest i := se_snd (latest r i);
     upsert_funding l := se_snd (upsert_funding r l);
     funding_range i from to := se_snd (funding_range r i from to);
     latest_funding i := se_snd (latest_funding r i);
     upsert_funding_events l := se_snd (upsert_funding_events r l);
     funding_events_range i from to := se_snd (funding_events_range r i from to);
     latest_funding_event i := se_snd (latest_funding_event r i) |}.

(** The batch called [p] is in the directory, queued or set aside. *)
Definition present (m : gmap string File) (p : string) : Prop :=
  is_Some (m !! p) ∨ is_Some (m !! corrupt_name p).
#[export] Instance present_dec m p : Decision (present m p).
Proof. unfold present. apply _. Defined.
Definition vanished (m m' : gmap string File) (names : list string) : list string :=
  filter (λ p, present m p ∧ ¬ present m' p) names.

Section cluster.
Context {DL : DecimalLib} {TL : TimeLib} {SC : SnapCodec}.
Context {DB R : Type} (inner : OiRepository DB) (img : OiSnapshot → R) (rows : DB → list R).
Context (wal : FileWal) (follower_max_age : option Z) (ttl : Z).

(** The repository behind a node's log: the gate reads the node's flag. *)
Definition gated_db : OiRepository (bool * DB) := leader_gated (snd_repo inner) fst.

(** * One node *)

(** A write in flight, after its append.  [until] records when the lease that
    admitted it runs out; the code does not keep it. *)
Inductive Task :=
| Queued (path : string) (b : list OiSnapshot)
| Cleared (path : string) (b : list OiSnapshot) (until : Z)
| Accepted (path : string).

Inductive Drainer :=
| DIdle
| DNext (rest : list string)
| DBad (path : string) (rest : list string)
| DRead (path : string) (b : list OiSnapshot) (rest : list string)
| DCleared (path : string) (b : list OiSnapshot) (until : Z) (rest : list string)
| DAccepted (path : string) (rest : list string).

(** The last four fields are history: every batch appended, with its file name;
    the names the reaper deleted; those of which a write-back has covered the
    file; and those whose file a loss of power has taken. *)
Record Node := mkNode {
  nd_disk : Disk;
  nd_tasks : gmap nat Task;
  nd_drainer : Drainer;
  nd_log : list (string * list OiSnapshot);
  nd_reaped : list string;
  nd_written : list string;
  nd_lost : list string;
}.

Definition set_disk (d : Disk) (nd : Node) : Node :=
  mkNode d (nd_tasks nd) (nd_drainer nd) (nd_log nd) (nd_reaped nd) (nd_written nd) (nd_lost nd).
Definition set_tasks (f : gmap nat Task → gmap nat Task) (nd : Node) : Node :=
  mkNode (nd_disk nd) (f (nd_tasks nd)) (nd_drainer nd) (nd_log nd) (nd_reaped nd)
    (nd_written nd) (nd_lost nd).
Definition set_drainer (s : Drainer) (nd : Node) : Node :=
  mkNode (nd_disk nd) (nd_tasks nd) s (nd_log nd) (nd_reaped nd) (nd_written nd) (nd_lost nd).
Definition set_reaped (l : list string) (nd : Node) : Node :=
  mkNode (nd_disk nd) (nd_tasks nd) (nd_drainer nd) (nd_log nd) l (nd_written nd) (nd_lost nd).
Definition set_fate (written lost : list string) (nd : Node) : Node :=
  mkNode (nd_disk nd) (nd_tasks nd) (nd_drainer nd) (nd_log nd) (nd_reaped nd) written lost.

(** [WalBacked::upsert_snapshots] up to the append. *)
Definition node_begin (id : nat) (b : list OiSnapshot) (nd : Node) : Node :=
  match b with
  | [] => nd
  | _ =>
      match wal_append wal b (nd_disk nd) with
      | (Ok p, d) => mkNode d (<[id := Queued p b]> (nd_tasks nd)) (nd_drainer nd)
                       ((p, b) :: nd_log nd) (nd_reaped nd) (nd_written nd) (nd_lost nd)
      | (Err _, d) => set_disk d nd
      end
  end.

(** The next step of write [id]: the gate, the insert, the acknowledgement. *)
Definition node_task (id : nat) (lead : bool) (until : Z) (nw : Node * DB) : Node * DB :=
  let '(nd, db) := nw in
  match nd_tasks nd !! id with
  | Some (Queued p b) =>
      (set_tasks (if lead then <[id := Cleared p b until]> else delete id) nd, db)
  | Some (Cleared p b _) =>
      match upsert_snapshots inner b db with
      | (Ok _, db') => (set_tasks <[id := Accepted p]> nd, db')
      | (Err _, db') => (set_tasks (delete id) nd, db')
      end
  | Some (Accepted p) =>
      let '(_, d) := wal_ack wal p (nd_disk nd) in
      (set_tasks (delete id) (set_disk d nd), db)
  | None => (nd, db)
  end.

(** The next step of the drainer task.  A cycle that ends early goes on with
    nothing left to do, which refreshes the gauges and sleeps. *)
Definition node_drain (lead : bool) (until : Z) (nw : Node * DB) : Node * DB :=
  let '(nd, db) := nw in
  match nd_drainer nd with
  | DIdle =>
      let '(_, d) := refresh_metrics wal (nd_disk nd) in
      if lead then
        match wal_pending wal d with
        | (Ok names, d) => (set_drainer (DNext names) (set_disk d nd), db)
        | (Err _, d) => (set_drainer (DNext []) (set_disk d nd), db)
        end
      else match follower_max_age with
           | Some max_age =>
               let '(_, d') := reap_older_than wal max_age d in
               let gone := filter (λ n, files d' !! n = None) (pending_names (files d)) in
               (set_reaped (gone ++ nd_reaped nd) (set_disk d' nd), db)
           | None => (set_disk d nd, db)
           end
  | DNext [] =>
      let '(_, d) := refresh_metrics wal (nd_disk nd) in
      (set_drainer DIdle (set_disk d nd), db)
  | DNext (p :: rest) =>
      match wal_read wal p (nd_disk nd) with
      | (Ok b, d) => (set_drainer (DRead p b rest) (set_disk d nd), db)
      | (Err _, d) => (set_drainer (DBad p rest) (set_disk d nd), db)
      end
  | DBad p rest =>
      let '(_, d) := quarantine p (nd_disk nd) in
      (set_drainer (DNext rest) (set_disk d nd), db)
  | DRead p b rest =>
      (set_drainer (if lead then DCleared p b until rest else DNext []) nd, db)
  | DCleared p b _ rest =>
      match upsert_snapshots inner b db with
      | (Ok _, db') => (set_drainer (DAccepted p rest) nd, db')
      | (Err _, db') => (set_drainer (DNext []) nd, db')
      end
  | DAccepted p rest =>
      match wal_ack wal p (nd_disk nd) with
      | (Ok _, d) => (set_drainer (DNext rest) (set_disk d nd), db)
      | (Err _, d) => (set_drainer (DNext []) (set_disk d nd), db)
      end
  end.

(** The process dies and is started again: its tasks and its counter are gone,
    the directory is as it was. *)
Definition reborn (new_pid : Z) (d : Disk) : Disk :=
  mkDisk (files d) (clock d) new_pid 0 (faults d) (ops d) (back d).
Definition node_crash (new_pid : Z) (nd : Node) : Node :=
  mkNode (reborn new_pid (nd_disk nd)) ∅ DIdle (nd_log nd) (nd_reaped nd)
    (nd_written nd) (nd_lost nd).
(** The machine loses power and comes up with the directory [m]. *)
Definition node_power (m : gmap string File) (new_pid : Z) (nd : Node) : Node :=
  mkNode (rebooted m (reborn new_pid (nd_disk nd))) ∅ DIdle (nd_log nd) (nd_reaped nd)
    (nd_written nd) (vanished (files (nd_disk nd)) m (nd_log nd).*1 ++ nd_lost nd).
(** The kernel writes the directory back. *)
Definition node_write_back (nd : Node) : Node :=
  set_fate (filter (λ p, p ∉ nd_lost nd) (nd_log nd).*1 ++ nd_written nd) (nd_lost nd)
    (set_disk (write_back (nd_disk nd)) nd).
Definition node_clock (t : option Z) (nd : Node) : Node :=
  let d := nd_disk nd in
  set_disk (mkDisk (files d) t (pid d) (counter d) (faults d) (ops d) (back d)) nd.
Definition clock_ok (t : option Z) : Prop := ∀ z, t = Some z → 0 ≤ z ≤ u128_max.

(** * The cluster *)

Record World := mkWorld {
  cw_lease : Cluster;
  cw_node : string → Node;
  cw_db : DB;
}.

Definition leads (w : World) (n : string) : bool := is_leader (cw_lease w) n.
Definition granted (w : World) (n : string) : Z := c_granted (cw_lease w) n.
(** Node [n] and the database after a step of that node. *)
Definition with_node (w : World) (n : string) (nw : Node * DB) : World :=
  mkWorld (cw_lease w) (upd n nw.1 (cw_node w)) nw.2.

(** The lease after node [n] went down. *)
Definition down (n : string) (c : Cluster) : Cluster :=
  mkCluster (c_now c) (c_slot c) (upd n false (c_held c)) (c_granted c).
(** The next append is not given a name the node has used: the names carry the
    millisecond, the process id and the process's counter, and this asks that the
    three do not come again together ([Wal.append_crash_safe]). *)
Definition unused_name (nd : Node) : Prop :=
  ∀ ts, clock (nd_disk nd) = Some ts → next_name (nd_disk nd) ts ∉ (nd_log nd).*1.

Inductive cstep : World → World → Prop :=
| cs_lease w l : lstep ttl (cw_lease w) l → cstep w (mkWorld l (cw_node w) (cw_db w))
| cs_begin w n id b :
    nd_tasks (cw_node w n) !! id = None → unused_name (cw_node w n) →
    cstep w (with_node w n (node_begin id b (cw_node w n), cw_db w))
| cs_task w n id :
    cstep w (with_node w n (node_task id (leads w n) (granted w n) (cw_node w n, cw_db w)))
| cs_drain w n :
    cstep w (with_node w n (node_drain (leads w n) (granted w n) (cw_node w n, cw_db w)))
| cs_clock w n t : clock_ok t →
    cstep w (with_node w n (node_clock t (cw_node w n), cw_db w))
| cs_crash w n new_pid :
    cstep w (with_node (mkWorld (down n (cw_lease w)) (cw_node w) (cw_db w)) n
               (node_crash new_pid (cw_node w n), cw_db w))
| cs_power w n m new_pid :
    power_loss (nd_disk (cw_node w n)) m →
    cstep w (with_node (mkWorld (down n (cw_lease w)) (cw_node w) (cw_db w)) n
               (node_power m new_pid (cw_node w n), cw_db w))
| cs_write_back w n :
    cstep w (with_node w n (node_write_back (cw_node w n), cw_db w))
| cs_db w db : rows db = rows (cw_db w) → cstep w (mkWorld (cw_lease w) (cw_node w) db).

(** Nothing is queued or set aside, on the medium as little as in the directory,
    and nobody leads. *)
Definition no_batch (m : gmap string File) : Prop :=
  ∀ n, is_pending n = true → m !! n = None ∧ m !! corrupt_name n = None.
Definition node_fresh (nd : Node) : Prop :=
  clock_ok (clock (nd_disk nd))
  ∧ (no_batch (files (nd_disk nd)) ∧ no_batch (durable (back (nd_disk nd)))
     ∧ journal (back (nd_disk nd)) = [] ∧ dirty (back (nd_disk nd)) = [])
  ∧ nd_tasks nd = ∅ ∧ nd_drainer nd = DIdle
  ∧ nd_log nd = [] ∧ nd_reaped nd = [] ∧ nd_written nd = [] ∧ nd_lost nd = [].
Definition cw_init (w : World) : Prop :=
  (∃ now s, 0 ≤ now ∧ cw_lease w = c_init now s) ∧ ∀ n, node_fresh (cw_node w n).
Definition cw_reachable (w : World) : Prop := ∃ w0, cw_init w0 ∧ rtc cstep w0 w.
End cluster.

(** * What a node never loses *)

Section invariant.
Context {DL : DecimalLib} {TL : TimeLib} {SC : SnapCodec} {CL : CodecLaws SC}.
Context {DB R : Type} (inner : OiRepository DB) (img : OiSnapshot → R) (rows : DB → list R).
Context {IL : InsertLaws inner img rows}.
Context (wal : FileWal) (follower_max_age : option Z) (ttl : Z).
Implicit Types (Rs : list R) (nd : Node).

(** The rows of a batch are in the database. *)
Definition landed Rs (b : list OiSnapshot) : Prop := ∀ s, s ∈ b → img s ∈ Rs.
(** An fsynced file that reads back as the batch. *)
Definition holds (p : string) (b : list OiSnapshot) (f : File) : Prop :=
  synced f = true ∧ decode_frame wal p (data f) = Ok b.
Definition waits (m : gmap string File) (at_ p : string) (b : list OiSnapshot) : Prop :=
  ∃ f, m !! at_ = Some f ∧ holds p b f.

(** Landed, queued, set aside, or deleted by the standby's reaper. *)
Definition safe Rs nd (p : string) (b : list OiSnapshot) : Prop :=
  landed Rs b ∨ waits (files (nd_disk nd)) p p b
  ∨ waits (files (nd_disk nd)) (corrupt_name p) p b ∨ p ∈ nd_reaped nd.
(** The same after any loss of power now. *)
Definition anchored Rs nd (p : string) (b : list OiSnapshot) : Prop :=
  landed Rs b ∨ p ∈ nd_reaped nd ∨ ∀ m, image (back (nd_disk nd)) m → present m p.

(** A file under a pending or a quarantine name is a batch of the log. *)
Definition entry_ok (log : list (string * list OiSnapshot)) (n : string) (f : File) : Prop :=
  (is_pending n = true → ∃ b, (n, b) ∈ log ∧ holds n b f)
  ∧ ∀ p, is_pending p = true → n = corrupt_name p → ∃ b, (p, b) ∈ log ∧ holds p b f.
Definition entries_ok log (m : gmap string File) : Prop :=
  ∀ n f, m !! n = Some f → entry_ok log n f.
(** A name that is neither. *)
Definition inert (n : string) : Prop :=
  is_pending n = false ∧ ∀ p, is_pending p = true → n ≠ corrupt_name p.
Definition op_ok log (o : DirOp) : Prop :=
  match o with
  | Link n => inert n
  | Move _ to f => entry_ok log to f
  | Unlink _ => True
  end.
Record back_ok log (b : Back) : Prop := mkBackOk {
  bk_durable : entries_ok log (durable b);
  bk_journal o : o ∈ journal b → op_ok log o;
  bk_dirty n : n ∈ dirty b → inert n;
}.

Definition task_ok Rs (log : list (string * list OiSnapshot)) (t : Task) : Prop :=
  match t with
  | Queued p b | Cleared p b _ => (p, b) ∈ log
  | Accepted p => ∃ b, (p, b) ∈ log ∧ landed Rs b
  end.
Definition all_pending (l : list string) : Prop := ∀ n, n ∈ l → is_pending n = true.
Definition drainer_ok Rs (log : list (string * list OiSnapshot)) (s : Drainer) : Prop :=
  match s with
  | DIdle => True
  | DNext rest => all_pending rest
  | DBad p rest => is_pending p = true ∧ all_pending rest
  | DRead p b rest | DCleared p b _ rest => (p, b) ∈ log ∧ all_pending rest
  | DAccepted p rest => (∃ b, (p, b) ∈ log ∧ landed Rs b) ∧ all_pending rest
  end.

Record node_ok Rs nd : Prop := mkNodeOk {
  ok_clock : clock_ok (clock (nd_disk nd));
  ok_names p b : (p, b) ∈ nd_log nd → is_pending p = true;
  ok_unique p b b' : (p, b) ∈ nd_log nd → (p, b') ∈ nd_log nd → b = b';
  ok_entries : entries_ok (nd_log nd) (files (nd_disk nd));
  ok_back : back_ok (nd_log nd) (back (nd_disk nd));
  ok_safe p b : (p, b) ∈ nd_log nd → safe Rs nd p b ∨ (p ∈ nd_lost nd ∧ p ∉ nd_written nd);
  ok_written p b : (p, b) ∈ nd_log nd → p ∈ nd_written nd → anchored Rs nd p b;
  ok_past p : p ∈ nd_written nd → p ∈ (nd_log nd).*1;
  ok_tasks id t : nd_tasks nd !! id = Some t → task_ok Rs (nd_log nd) t;
  ok_drainer : drainer_ok Rs (nd_log nd) (nd_drainer nd);
}.

Lemma ok_files Rs nd p f :
  node_ok Rs nd → is_pending p = true → files (nd_disk nd) !! p = Some f →
  ∃ b, (p, b) ∈ nd_log nd ∧ holds p b f.
Proof. intros Hok Hp Hf. destruct (ok_entries _ _ Hok p f Hf) as [H _]. by apply H. Qed.

Lemma landed_mono Rs new b : landed Rs b → landed (Rs ++ new) b.
Proof. intros H s Hs. apply elem_of_app. left. by apply H. Qed.
Lemma task_ok_mono Rs new log t : task_ok Rs log t → task_ok (Rs ++ new) log t.
Proof. destruct t; simpl; [done..|]. intros (b & ? & ?). eauto using landed_mono. Qed.
Lemma drainer_ok_mono Rs new log s : drainer_ok Rs log s → drainer_ok (Rs ++ new) log s.
Proof.
  destruct s; simpl; try done. intros [(b & ? & ?) ?]. eauto 10 using landed_mono.
Qed.
Lemma node_ok_mono Rs new nd : node_ok Rs nd → node_ok (Rs ++ new) nd.
Proof.
  intros []. constructor; eauto using task_ok_mono, drainer_ok_mono.
  - intros p b Hin. destruct (ok_safe0 p b Hin) as [[H|H]|H]; [|by left; right|by right].
    left. left. by apply landed_mono.
  - intros p b Hin Hw. destruct (ok_written0 p b Hin Hw) as [H|H]; [left; by apply landed_mono|by right].
Qed.

(** A step that only moves a task or the drainer along. *)
Lemma node_ok_task Rs nd id t :
  node_ok Rs nd → task_ok Rs (nd_log nd) t → node_ok Rs (set_tasks <[id := t]> nd).
Proof.
  intros [] Ht. constructor; try done. intros i t'. simpl.
  destruct (decide (i = id)) as [->|]; [rewrite lookup_insert_eq; by intros [= <-]|].
  rewrite lookup_insert_ne by done. eauto.
Qed.
Lemma node_ok_untask Rs nd id : node_ok Rs nd → node_ok Rs (set_tasks (delete id) nd).
Proof.
  intros []. constructor; try done. intros i t. simpl. intros [_ ?]%lookup_delete_Some. eauto.
Qed.
Lemma node_ok_drainer Rs nd s :
  node_ok Rs nd → drainer_ok Rs (nd_log nd) s → node_ok Rs (set_drainer s nd).
Proof. intros [] ?. by constructor. Qed.

(** ** The directory and the medium *)

Lemma inert_ok log n f : inert n → entry_ok log n f.
Proof. intros [H1 H2]. split; [by rewrite H1|]. intros p Hp ->. by destruct (H2 p Hp). Qed.
Lemma entry_ok_log log log' n f :
  (∀ x, x ∈ log → x ∈ log') → entry_ok log n f → entry_ok log' n f.
Proof.
  intros Hl [H1 H2]. split; [intros Hn; destruct (H1 Hn) as (b & ? & ?); eauto|].
  intros p Hp E. destruct (H2 p Hp E) as (b & ? & ?). eauto.
Qed.
Lemma back_ok_log log log' b : (∀ x, x ∈ log → x ∈ log') → back_ok log b → back_ok log' b.
Proof.
  intros Hl []. constructor; [|..|done].
  - intros n f Hf. eauto using entry_ok_log.
  - intros o Ho. specialize (bk_journal0 o Ho). destruct o; simpl in *; eauto using entry_ok_log.
Qed.
Lemma entries_ok_op log m o : entries_ok log m → op_ok log o → entries_ok log (apply_op m o).
Proof.
  intros Hm Ho n f. destruct o as [x|from to g|x]; simpl in *.
  - intros [[<- <-]|[_ ?]]%lookup_insert_Some; [by apply inert_ok|by apply Hm].
  - intros [[<- <-]|[_ [_ ?]%lookup_delete_Some]]%lookup_insert_Some; [done|by apply Hm].
  - intros [_ ?]%lookup_delete_Some. by apply Hm.
Qed.
Lemma back_ok_ops log b b' l :
  back_ok log b → durable b' = durable b → journal b' = journal b ++ l →
  (∀ o, o ∈ l → op_ok log o) → (∀ n, n ∈ dirty b' → n ∈ dirty b ∨ inert n) → back_ok log b'.
Proof.
  intros [] D J Hl Y. constructor.
  - by rewrite D.
  - intros o. rewrite J. intros [?|?]%elem_of_app; auto.
  - intros n [?|?]%Y; auto.
Qed.
Lemma image_ok log b m : back_ok log b → image b m → entries_ok log m.
Proof.
  intros [Hd Hj _] Hi n f. apply (image_entries (entry_ok log) b m); [exact Hd|..|done].
  - intros x Hx. apply inert_ok. exact (Hj _ Hx).
  - intros from to g Hg. exact (Hj _ Hg).
Qed.
(** What a loss of power brings up. *)
Lemma power_loss_ok log d m :
  back_ok log (back d) → power_loss d m →
  entries_ok log m ∧ ∃ m0, image (back d) m0 ∧ ∀ p, present m0 p → present m p.
Proof.
  intros Hb (m0 & Hi & Hm). pose proof (image_ok _ _ _ Hb Hi) as H0.
  assert (Hsome : ∀ n, is_Some (m0 !! n) → is_Some (m !! n)).
  { intros n [f Hf]. specialize (Hm n). rewrite Hf in Hm. destruct (_ && _); [by rewrite Hm|done]. }
  split; [|exists m0; split; [done|]; intros p [?|?]; [left|right]; auto].
  intros n f Hf. specialize (Hm n). destruct (m0 !! n) as [g|] eqn:E; [|congruence].
  destruct (decide (n ∈ dirty (back d))) as [Hd|Hd]; [by apply inert_ok, (bk_dirty _ _ Hb)|].
  rewrite bool_decide_true, andb_true_r in Hm by done. pose proof (H0 n g E) as [H1 H2].
  destruct (synced g) eqn:Es; [assert (f = g) as -> by congruence; by split|].
  split; [intros Hn; destruct (H1 Hn) as (b & _ & H & _); congruence|].
  intros p Hp En. destruct (H2 p Hp En) as (b & _ & H & _). congruence.
Qed.

(** A change that takes the batch [p] from no directory. *)
Definition op_keeps (p : string) (o : DirOp) : Prop :=
  match o with
  | Link _ => True
  | Move from to _ => (from ≠ p ∨ to = corrupt_name p) ∧ from ≠ corrupt_name p
  | Unlink n => n ≠ p ∧ n ≠ corrupt_name p
  end.
Lemma present_op m p o : present m p → op_keeps p o → present (apply_op m o) p.
Proof.
  unfold present. destruct o as [n|from to f|n]; simpl.
  - intros [H|H] _; [left|right]; apply lookup_insert_is_Some'; auto.
  - intros H [H1 H2].
    destruct (decide (to = corrupt_name p)) as [->|Hc]; [right; by rewrite lookup_insert_eq|].
    destruct (decide (to = p)) as [->|Hp]; [left; by rewrite lookup_insert_eq|].
    destruct H1 as [H1|H1]; [|done].
    destruct H; [left|right]; by rewrite lookup_insert_ne, lookup_delete_ne by done.
  - intros [H|H] [H1 H2]; [left|right]; by rewrite lookup_delete_ne by done.
Qed.
Lemma anchored_ops Rs nd nd' l p b :
  anchored Rs nd p b →
  durable (back (nd_disk nd')) = durable (back (nd_disk nd)) →
  journal (back (nd_disk nd')) = journal (back (nd_disk nd)) ++ l →
  (∀ q, q ∈ nd_reaped nd → q ∈ nd_reaped nd') →
  (landed Rs b ∨ p ∈ nd_reaped nd' ∨ ∀ o, o ∈ l → op_keeps p o) → anchored Rs nd' p b.
Proof.
  intros Ha D J Hr [?|[?|Hl]]; [by left|by right; left|].
  destruct Ha as [?|[?|Ha]]; [by left|right; left; auto|]. right. right.
  intros m (kept & Hk & ->). rewrite D. rewrite J in Hk.
  apply sublist_app_r in Hk as (k1 & k2 & -> & H1 & H2). rewrite foldl_app.
  assert (H0 : present (foldl apply_op (durable (back (nd_disk nd))) k1) p)
    by (apply Ha; by exists k1).
  revert H0. generalize (foldl apply_op (durable (back (nd_disk nd))) k1).
  assert (Hin : ∀ o, o ∈ k2 → op_keeps p o) by (intros o Ho; apply Hl; by eapply elem_of_sublist).
  clear H2. induction k2 as [|o k2 IH]; intros m0 H0; [done|]. simpl. apply IH.
  - intros; apply Hin; by right.
  - apply present_op; [done|]. apply Hin. left.
Qed.

(** A step that changes the directory by [l]. *)
Lemma node_ok_disk Rs nd d reaped l :
  node_ok Rs nd → clock_ok (clock d) → entries_ok (nd_log nd) (files d) →
  durable (back d) = durable (back (nd_disk nd)) →
  journal (back d) = journal (back (nd_disk nd)) ++ l →
  (∀ n, n ∈ dirty (back d) → n ∈ dirty (back (nd_disk nd)) ∨ inert n) →
  (∀ o, o ∈ l → op_ok (nd_log nd) o) →
  (∀ p, p ∈ nd_reaped nd → p ∈ reaped) →
  (∀ p b, (p, b) ∈ nd_log nd → landed Rs b ∨ p ∈ reaped ∨ ∀ o, o ∈ l → op_keeps p o) →
  (∀ p b, (p, b) ∈ nd_log nd → safe Rs nd p b →
     safe Rs (set_reaped reaped (set_disk d nd)) p b) →
  node_ok Rs (set_reaped reaped (set_disk d nd)).
Proof.
  intros [] ? He D J Y Hl Hr Hk Hs. constructor; eauto.
  - by eapply back_ok_ops.
  - intros p b Hin. destruct (ok_safe0 p b Hin) as [?|?]; [left; by apply Hs|by right].
  - intros p b Hin Hw. eapply anchored_ops; [by apply ok_written0|done..|by apply Hk].
Qed.

Lemma set_reaped_id nd : set_reaped (nd_reaped nd) nd = nd.
Proof. by destruct nd. Qed.
Lemma env_clock d d' : env_eq d d' → clock_ok (clock d) → clock_ok (clock d').
Proof. by intros (-> & _). Qed.

(** By one change of an entry. *)
Lemma node_ok_op Rs nd d o :
  node_ok Rs nd → env_eq (nd_disk nd) d → journalled o (nd_disk nd) d → op_ok (nd_log nd) o →
  (∀ p b, (p, b) ∈ nd_log nd → landed Rs b ∨ op_keeps p o) →
  (∀ p b, (p, b) ∈ nd_log nd → safe Rs nd p b → safe Rs (set_disk d nd) p b) →
  node_ok Rs (set_disk d nd).
Proof.
  intros Hok He [Hf Hb] Ho Hk Hs. rewrite <- (set_reaped_id (set_disk d nd)).
  apply node_ok_disk with [o]; rewrite ?Hb; try done.
  - eapply env_clock; [done|apply Hok].
  - rewrite Hf. apply entries_ok_op; [apply Hok|done].
  - by left.
  - by intros o' ->%list_elem_of_singleton.
  - intros p b Hin. destruct (Hk p b Hin) as [?|?]; [by left|right; right].
    by intros o' ->%list_elem_of_singleton.
Qed.

(** A step that only moves the clock, or a fault's number. *)
Lemma node_ok_same Rs nd d :
  node_ok Rs nd → env_eq (nd_disk nd) d → untouched (nd_disk nd) d → node_ok Rs (set_disk d nd).
Proof.
  intros [] He [Hf Hb]. constructor; simpl; rewrite ?Hf, ?Hb; try done.
  - by eapply env_clock.
  - intros p b Hin. destruct (ok_safe0 p b Hin) as [?|?]; [left|by right].
    unfold safe. simpl. by rewrite Hf.
  - intros p b Hin Hw. unfold anchored. simpl. rewrite Hb. by apply ok_written0.
Qed.

(** Deleting the file of a batch that has landed. *)
Lemma node_ok_ack Rs nd p b r d :
  node_ok Rs nd → (p, b) ∈ nd_log nd → landed Rs b →
  wal_ack wal p (nd_disk nd) = (r, d) → node_ok Rs (set_disk d nd).
Proof.
  intros Hok Hin Hl Ha. pose proof Ha as [He _]%wal_ack_inv.
  apply wal_ack_back in Ha as [J|U]; [|by apply node_ok_same].
  pose proof (ok_names _ _ Hok p b Hin) as Hp.
  assert (Hc : ∀ q, p ≠ corrupt_name q) by (intros q E; by rewrite E, corrupt_not_pending in Hp).
  apply (node_ok_op _ _ _ (Unlink p)); try done.
  - intros q b' Hq. destruct (decide (p = q)) as [<-|Hne]; [|by right].
    left. by rewrite (ok_unique _ _ Hok p b' b).
  - intros q b' Hq. destruct (decide (q = p)) as [->|Hne].
    + rewrite (ok_unique _ _ Hok p b' b) by done. intros _. by left.
    + destruct J as [Hf _]. unfold safe, waits. simpl. rewrite Hf. simpl. by rewrite !lookup_delete_ne by auto.
Qed.

(** Setting a file aside. *)
Lemma node_ok_quarantine Rs nd p r d :
  node_ok Rs nd → is_pending p = true → quarantine p (nd_disk nd) = (r, d) →
  node_ok Rs (set_disk d nd).
Proof.
  intros Hok Hp Hq. pose proof Hq as [He _]%quarantine_inv.
  apply quarantine_back in Hq as [(f & Hl & J)|U]; [|by apply node_ok_same].
  assert (Hc : ∀ q q', is_pending q = true → corrupt_name q' ≠ q)
    by (intros q q' Hq <-; by rewrite corrupt_not_pending in Hq).
  destruct (ok_files _ _ p f Hok Hp Hl) as (bp & Hbp & Hh).
  apply (node_ok_op _ _ _ (Move p (corrupt_name p) f)); try done.
  - split; [by rewrite corrupt_not_pending|]. intros q Hq Ec. apply corrupt_inj in Ec; [|done..].
    subst q. eauto.
  - intros q b Hq. right. simpl. split; [|intros E; by apply (Hc p q)].
    destruct (decide (p = q)) as [->|]; [by right|by left].
  - intros q b Hq. pose proof (ok_names _ _ Hok q b Hq) as Hqp. destruct J as [Hf _].
    unfold safe. simpl. rewrite Hf. simpl.
    destruct (decide (q = p)) as [->|Hne].
    + rewrite (ok_unique _ _ Hok p b bp) by done. intros _. right. right. left.
      exists f. by rewrite lookup_insert_eq.
    + intros [H|[(g & Hg & Hh')|[(g & Hg & Hh')|H]]]; [by left|right..].
      * left. exists g. rewrite lookup_insert_ne, lookup_delete_ne; auto.
      * right. left. exists g. rewrite lookup_insert_ne, lookup_delete_ne; auto.
        -- intros E. rewrite E in Hp. by rewrite corrupt_not_pending in Hp.
        -- by intros ?%corrupt_inj.
      * right. by right.
Qed.

Lemma corrupt_not_tmp p q : corrupt_name p ≠ tmp_name q.
Proof.
  intros E%(f_equal string_last). unfold tmp_name in E. rewrite string_app_assoc in E.
  unfold corrupt_name in E. by destruct (strip_suffix _ _); rewrite !string_last_app in E.
Qed.

Lemma inert_tmp n : inert (tmp_name n).
Proof.
  split; [apply tmp_not_pending|]. intros p _ E. by apply (corrupt_not_tmp p n).
Qed.
(** What an append does to the directory and the medium, for a node's log. *)
Lemma append_entries nd b r d :
  wal_append wal b (nd_disk nd) = (r, d) →
  env_eq (nd_disk nd) d
  ∧ (∀ n, ¬ inert n → (∀ p, r = Ok p → n ≠ p) → files d !! n = files (nd_disk nd) !! n)
  ∧ durable (back d) = durable (back (nd_disk nd))
  ∧ (∀ n, n ∈ dirty (back d) → n ∈ dirty (back (nd_disk nd)) ∨ inert n)
  ∧ ∃ l, journal (back d) = journal (back (nd_disk nd)) ++ l
    ∧ ∀ o, o ∈ l → (∃ n, o = Link (tmp_name n))
        ∨ ∃ p payload, r = Ok p ∧ mp_encode_batch b = Ok payload
            ∧ o = Move (tmp_name p) p (mkFile (frame payload) true).
Proof.
  intros Ha. destruct (append_frame _ _ _ _ _ Ha) as [He Hf].
  destruct (append_back _ _ _ _ _ Ha) as (D & (y & Y & Hy) & l & L & J).
  split; [done|]. split; [|split; [done|split]].
  - intros n Hn Hp. destruct r as [p|e].
    + destruct Hf as (ts & pl & _ & _ & _ & Hf). rewrite Hf, decide_False; [done|by apply Hp|].
      intros ->. apply Hn, inert_tmp.
    + apply Hf. intros ts _ ->. apply Hn, inert_tmp.
  - intros n. rewrite Y. intros [(ts & _ & ->)%Hy|?]%elem_of_app; [right; apply inert_tmp|by left].
  - destruct r as [p|e]; [destruct J as (pl & Henc & J)|].
    + eexists. split; [exact J|]. intros o [(ts & _ & ->)%L|[->|[]%not_elem_of_nil]%elem_of_cons]%elem_of_app;
        [left; eauto|right; eauto].
    + exists l. split; [exact J|]. intros o (ts & _ & ->)%L. eauto.
Qed.

Lemma pending_not_inert n : is_pending n = true → ¬ inert n.
Proof. intros H [H' _]. congruence. Qed.
Lemma corrupt_not_inert n : is_pending n = true → ¬ inert (corrupt_name n).
Proof. intros H [_ H']. by apply (H' n). Qed.

(** An append that failed leaves at most its temporary file. *)
Lemma node_ok_begin_err Rs nd b e d :
  node_ok Rs nd → wal_append wal b (nd_disk nd) = (Err e, d) → node_ok Rs (set_disk d nd).
Proof.
  intros Hok Ha. destruct (append_frame _ _ _ _ _ Ha) as [_ Hf].
  apply append_entries in Ha as (He & Hsame & D & Y & l & J & Hl).
  assert (Hlink : ∀ o, o ∈ l → ∃ n, o = Link (tmp_name n)).
  { intros o [?|(p & pl & ? & _)]%Hl; [done|done]. }
  assert (Hcase : ∀ n f, files d !! n = Some f → inert n ∨ files (nd_disk nd) !! n = Some f).
  { intros n f Hn. destruct (clock (nd_disk nd)) as [ts|] eqn:Ec.
    - destruct (decide (n = tmp_name (next_name (nd_disk nd) ts))) as [->|Hne]; [left; apply inert_tmp|].
      right. rewrite <- (Hf n); [done|]. by intros ? [= <-].
    - right. by rewrite <- (Hf n). }
  rewrite <- (set_reaped_id (set_disk d nd)). apply node_ok_disk with l; try done.
  - eapply env_clock; [done|apply Hok].
  - intros n f [Hn|Hn]%Hcase; [by apply inert_ok|by apply (ok_entries _ _ Hok)].
  - intros o (n & ->)%Hlink. apply inert_tmp.
  - intros p b' _. right. right. by intros o (n & ->)%Hlink.
  - intros p b' Hin. pose proof (ok_names _ _ Hok p b' Hin) as Hp. unfold safe, waits. simpl.
    rewrite !Hsame; auto using pending_not_inert, corrupt_not_inert; done.
Qed.

Lemma node_ok_begin_ok Rs nd id b p d :
  node_ok Rs nd → unused_name nd → wal_append wal b (nd_disk nd) = (Ok p, d) →
  node_ok Rs (mkNode d (<[id := Queued p b]> (nd_tasks nd)) (nd_drainer nd)
    ((p, b) :: nd_log nd) (nd_reaped nd) (nd_written nd) (nd_lost nd)).
Proof.
  intros Hok Hnew Ha. destruct (append_frame _ _ _ _ _ Ha) as [_ (ts & payload & Hts & Henc & Hp & Hf)].
  apply append_entries in Ha as (He & Hsame & D & Y & l & J & Hl).
  assert (Hpp : is_pending p = true)
    by (subst p; apply final_name_pending; by apply (ok_clock _ _ Hok)).
  assert (Hfresh : ∀ b0, (p, b0) ∉ nd_log nd).
  { intros b0 Hin. apply (Hnew ts Hts), list_elem_of_fmap. exists (p, b0). by rewrite <- Hp. }
  assert (Hholds : ∀ pl, mp_encode_batch b = Ok pl → holds p b (mkFile (frame pl) true))
    by (intros pl ?; split; [done|by apply decode_own_frame]).
  set (log := (p, b) :: nd_log nd).
  assert (Hsub : ∀ x, x ∈ nd_log nd → x ∈ log) by (intros; by right).
  assert (Hnewok : ∀ pl, mp_encode_batch b = Ok pl → entry_ok log p (mkFile (frame pl) true)).
  { intros pl Hpl. split; [intros _; exists b; split; [left|by apply Hholds]|].
    intros q _ E. rewrite E in Hpp. by rewrite corrupt_not_pending in Hpp. }
  assert (Hother : ∀ q b0, (q, b0) ∈ nd_log nd → ∀ o, o ∈ l → op_keeps q o).
  { intros q b0 Hq. pose proof (ok_names _ _ Hok q b0 Hq) as Hqp.
    intros o [(n & ->)|(p' & pl & [= <-] & _ & ->)]%Hl; [done|]. simpl. split.
    - left. intros <-. by rewrite tmp_not_pending in Hqp.
    - intros E. by apply (corrupt_not_tmp q p). }
  destruct Hok. constructor; simpl.
  - by eapply env_clock.
  - intros q b0 [[= -> ->]|?]%elem_of_cons; eauto.
  - intros q b1 b2 [E1|H1]%elem_of_cons [E2|H2]%elem_of_cons; simplify_eq;
      [done|by destruct (Hfresh b2)|by destruct (Hfresh b1)|eauto].
  - intros n f. destruct (decide (n = tmp_name p)) as [->|Hnt]; [intros _; apply inert_ok, inert_tmp|].
    rewrite Hf by done. case_decide as Hn; [subst n; intros [= <-]; by apply Hnewok|].
    intros Hl'. eapply entry_ok_log; [exact Hsub|by apply ok_entries0].
  - eapply back_ok_ops; [by eapply back_ok_log|done|exact J| |exact Y].
    intros o [(n & ->)|(p' & pl & [= <-] & Hpl & ->)]%Hl; [apply inert_tmp|by apply Hnewok].
  - intros q b0 [[= -> ->]|Hin]%elem_of_cons.
    + left. right. left. eexists. simpl. split; [|by apply Hholds].
      rewrite Hf by (intros E; by rewrite E, tmp_not_pending in Hpp). by rewrite decide_True.
    + assert (Hne : q ≠ p) by (intros ->; by destruct (Hfresh b0)).
      pose proof (ok_names0 _ _ Hin) as Hq.
      destruct (ok_safe0 _ _ Hin) as [Hs|?]; [left|by right]. unfold safe, waits in *. simpl.
      rewrite !Hsame; [done|by apply corrupt_not_inert| |by apply pending_not_inert|by intros ? [= <-]].
      intros ? [= <-] E. rewrite <- E in Hpp. by rewrite corrupt_not_pending in Hpp.
  - intros q b0 Hin Hw. pose proof (ok_past0 q Hw) as ([q' b1] & -> & Hq)%list_elem_of_fmap.
    simpl in *. apply elem_of_cons in Hin as [[= -> ->]|Hin]; [by destruct (Hfresh b1)|].
    eapply (anchored_ops _ nd); [by apply ok_written0|done|done|done|]. right. right. by eapply Hother.
  - intros q Hw. right. by apply ok_past0.
  - intros i t. destruct (decide (i = id)) as [->|]; [rewrite lookup_insert_eq; intros [= <-]; left|].
    rewrite lookup_insert_ne by done. intros Ht%ok_tasks0.
    destruct t; simpl in *; try (by right). destruct Ht as (b0 & ? & ?). exists b0. by split; [right|].
  - destruct (nd_drainer nd); simpl in *; try done.
    + destruct ok_drainer0. split; [by right|done].
    + destruct ok_drainer0. split; [by right|done].
    + destruct ok_drainer0 as [(b0 & ? & ?) ?]. split; [|done]. exists b0. by split; [right|].
Qed.

Lemma node_ok_begin Rs nd id b :
  node_ok Rs nd → unused_name nd → node_ok Rs (node_begin wal id b nd).
Proof.
  intros Hok Hnew. unfold node_begin. destruct b as [|s b']; [done|].
  destruct (wal_append wal (s :: b') (nd_disk nd)) as [[p|e] d] eqn:E;
    [by apply node_ok_begin_ok|by eapply node_ok_begin_err].
Qed.

(** The reaper only deletes pending files. *)
Lemma reap_loop_frame now max_age names count d r d' :
  reap_loop wal now max_age names count d = (r, d') →
  all_pending names →
  env_eq d d' ∧ ∀ n, files d' !! n = files d !! n ∨ (files d' !! n = None ∧ is_pending n = true).
Proof.
  revert count d. induction names as [|p names IH]; intros count d.
  { intros [= <- <-] _. split; [done|]. by left. }
  intros Hr Hp. assert (Hp' : all_pending names) by (intros n Hn; apply Hp; by right).
  cbn [reap_loop] in Hr. destruct (parse_ts_ms p) as [ts|]; [|by apply (IH _ _ Hr)].
  destruct (_ <=? _); [injection Hr as <- <-; split; [done|by left]|].
  destruct (fs_remove_file p d) as [[[]|[]] d1] eqn:E;
    apply fs_remove_inv in E as (He & [(? & _ & Hf)|[(? & _ & Hf)|(_ & m & ? & Hf)]]); try done.
  - destruct (IH _ _ Hr Hp') as [He' IH']. split; [by eapply env_eq_trans|].
    intros n. destruct (IH' n) as [->|?]; [|by right]. rewrite Hf.
    destruct (decide (n = p)) as [->|]; [right|left; by rewrite lookup_delete_ne].
    rewrite lookup_delete_eq. split; [done|]. apply Hp. left.
  - destruct (IH _ _ Hr Hp') as [He' IH']. split; [by eapply env_eq_trans|].
    intros n. rewrite <- Hf. apply IH'.
  - injection Hr as <- <-. split; [done|]. intros n. left. by rewrite Hf.
Qed.

(** On the medium it journals the removal of files that are then gone. *)
Lemma reap_loop_back now max_age names count d r d' :
  reap_loop wal now max_age names count d = (r, d') → all_pending names →
  ∃ l, durable (back d') = durable (back d) ∧ dirty (back d') = dirty (back d)
    ∧ journal (back d') = journal (back d) ++ (Unlink <$> l)
    ∧ ∀ n, n ∈ l → is_pending n = true ∧ is_Some (files d !! n) ∧ files d' !! n = None.
Proof.
  revert count d. induction names as [|p names IH]; intros count d Hr Hp.
  { injection Hr as <- <-. exists []. rewrite app_nil_r. do 3 (split; [done|]). by intros n ?%not_elem_of_nil. }
  assert (Hp' : all_pending names) by (intros n Hn; apply Hp; by right).
  assert (Hnil : ∀ d1, back d1 = back d → ∃ l, durable (back d1) = durable (back d)
    ∧ dirty (back d1) = dirty (back d) ∧ journal (back d1) = journal (back d) ++ (Unlink <$> l)
    ∧ ∀ n, n ∈ l → is_pending n = true ∧ is_Some (files d !! n) ∧ files d1 !! n = None).
  { intros d1 ->. exists []. rewrite app_nil_r. do 3 (split; [done|]). by intros n ?%not_elem_of_nil. }
  cbn [reap_loop] in Hr. destruct (parse_ts_ms p) as [ts|]; [|by apply (IH _ _ Hr)].
  destruct (_ <=? _); [injection Hr as <- <-; by apply Hnil|].
  destruct (fs_remove_file p d) as [r1 d1] eqn:E.
  apply fs_remove_back in E as [(-> & Hs & Hf & Hb)|[[e ->] [Hf Hb]]].
  - destruct (IH _ _ Hr Hp') as (l & D & Y & J & Hl). rewrite Hb in D, Y, J.
    cbn [durable journal dirty] in *. exists (p :: l). split; [done|]. split; [done|].
    split; [by rewrite J, <- app_assoc|]. rewrite Hf in Hl. simpl in Hl.
    intros n [->|(H1 & H2 & H3)%Hl]%elem_of_cons.
    + split; [apply Hp; left|]. split; [done|].
      destruct (reap_loop_frame _ _ _ _ _ _ _ Hr Hp') as [_ Hfr].
      destruct (Hfr p) as [->|[? _]]; [|done]. rewrite Hf. apply lookup_delete_eq.
    + split; [done|]. split; [|done]. by destruct H2 as [f [_ ?]%lookup_delete_Some].
  - destruct e; [|injection Hr as <- <-; by apply Hnil].
    destruct (IH _ _ Hr Hp') as (l & D & Y & J & Hl). rewrite Hf, Hb in *. by exists l.
Qed.

Lemma node_ok_reap Rs nd max_age d r d' gone :
  node_ok Rs nd → env_eq (nd_disk nd) d → untouched (nd_disk nd) d →
  reap_older_than wal max_age d = (r, d') →
  gone = filter (λ n, files d' !! n = None) (pending_names (files d)) →
  node_ok Rs (set_reaped (gone ++ nd_reaped nd) (set_disk d' nd)).
Proof.
  intros Hok He [Hf Hb] Hr ->. unfold reap_older_than in Hr.
  set (gone := filter _ _).
  assert (Hmono : ∀ p, p ∈ nd_reaped nd → p ∈ gone ++ nd_reaped nd) by (intros; apply elem_of_app; by right).
  destruct (wal_pending wal d) as [[names|e] d0] eqn:E; pose proof (wal_pending_back _ _ _ _ E) as Hb0;
    apply wal_pending_inv in E as (He0 & Hf0 & Hn).
  2:{ injection Hr as _ <-. apply node_ok_disk with []; rewrite ?app_nil_r; try (congruence || done).
      - exact (env_clock _ _ (env_eq_trans _ _ _ He He0) (ok_clock _ _ Hok)).
      - rewrite Hf0, Hf. apply Hok.
      - rewrite Hb0, Hb. by left.
      - by intros o ?%not_elem_of_nil.
      - intros p b _. right. right. by intros o ?%not_elem_of_nil.
      - intros p b _. unfold safe. simpl. rewrite Hf0, Hf.
        intros [?|[?|[?|?]]]; [by left|by right; left|by right; right; left|].
        right. right. right. auto. }
  destruct Hn as [[= ->]|(_ & ? & ?)]; [|done].
  assert (Hpend : all_pending (pending_names (files d))) by (intros n [? _]%pending_names_elem; done).
  destruct (reap_loop_back _ _ _ _ _ _ _ Hr Hpend) as (l & D & Y & J & Hl).
  apply reap_loop_frame in Hr as [He1 Hfr]; [|done].
  rewrite Hb0, Hb in D, Y, J. rewrite Hf0, Hf in *.
  assert (Hgone : ∀ p, is_pending p = true → is_Some (files (nd_disk nd) !! p) → files d' !! p = None →
    p ∈ gone ++ nd_reaped nd).
  { intros p Hp Hs Hn. apply elem_of_app. left. apply list_elem_of_filter. split; [done|].
    apply pending_names_elem. by rewrite Hf. }
  apply node_ok_disk with (Unlink <$> l); try done.
  - exact (env_clock _ _ (env_eq_trans _ _ _ He (env_eq_trans _ _ _ He0 He1)) (ok_clock _ _ Hok)).
  - intros n f Hl'. apply (ok_entries _ _ Hok). destruct (Hfr n) as [<-|[? _]]; congruence.
  - rewrite Y. by left.
  - by intros o (n & -> & _)%list_elem_of_fmap.
  - intros p b Hin. pose proof (ok_names _ _ Hok p b Hin) as Hp. right.
    destruct (decide (p ∈ l)) as [Hpl|Hpl]; [left; destruct (Hl p Hpl) as (? & ? & ?); by apply Hgone|].
    right. intros o (n & -> & Hn)%list_elem_of_fmap. split; [by intros ->|].
    intros ->. destruct (Hl _ Hn) as (Hc & _). by rewrite corrupt_not_pending in Hc.
  - intros p b Hin. unfold safe. simpl. pose proof (ok_names _ _ Hok p b Hin) as Hp.
    intros [H|[(f & Hl' & Hh)|[(f & Hl' & Hh)|H]]]; [by left|right..].
    + destruct (Hfr p) as [E|[E _]]; [left; exists f; by rewrite E|]. right. right. eauto.
    + right. left. exists f. destruct (Hfr (corrupt_name p)) as [->|[_ Ec]]; [done|].
      by rewrite corrupt_not_pending in Ec.
    + right. right. auto.
Qed.

Lemma node_ok_crash Rs nd new_pid : node_ok Rs nd → node_ok Rs (node_crash new_pid nd).
Proof. intros []. constructor; simpl; try done. Qed.

(** The files of a directory that keeps the log's entries. *)
Lemma present_waits log m p b :
  entries_ok log m → (∀ b', (p, b') ∈ log → b' = b) → is_pending p = true → present m p →
  waits m p p b ∨ waits m (corrupt_name p) p b.
Proof.
  intros Hm Hu Hp [[f Hf]|[f Hf]]; destruct (Hm _ _ Hf) as [H1 H2]; [left|right]; exists f;
    (split; [done|]).
  - destruct (H1 Hp) as (b' & Hin & Hh). by rewrite <- (Hu b' Hin).
  - destruct (H2 p Hp eq_refl) as (b' & Hin & Hh). by rewrite <- (Hu b' Hin).
Qed.
Lemma waits_present m p b : waits m p p b ∨ waits m (corrupt_name p) p b → present m p.
Proof. intros [(f & Hf & _)|(f & Hf & _)]; [left|right]; eauto. Qed.

Lemma node_ok_power Rs nd m new_pid :
  node_ok Rs nd → power_loss (nd_disk nd) m → node_ok Rs (node_power m new_pid nd).
Proof.
  intros Hok Hm. destruct (power_loss_ok _ _ _ (ok_back _ _ Hok) Hm) as (Hme & m0 & Hi & Hpres).
  assert (Hin' : ∀ p b, (p, b) ∈ nd_log nd → present m p → waits m p p b ∨ waits m (corrupt_name p) p b).
  { intros p b Hin. apply (present_waits (nd_log nd)); [done| |by eapply ok_names].
    intros b' Hb'. by eapply ok_unique. }
  assert (Hanch : ∀ p b, (p, b) ∈ nd_log nd → p ∈ nd_written nd → landed Rs b ∨ p ∈ nd_reaped nd ∨ present m p).
  { intros p b Hin Hw. destruct (ok_written _ _ Hok p b Hin Hw) as [?|[?|Ha]]; [by left|by right; left|].
    right. right. apply Hpres, Ha, Hi. }
  constructor; simpl; try (by apply Hok); try done.
  - constructor; simpl; [done|by intros o ?%not_elem_of_nil|by intros n ?%not_elem_of_nil].
  - intros p b Hin. destruct (decide (p ∈ nd_written nd)) as [Hw|Hw].
    { left. unfold safe. simpl. destruct (Hanch p b Hin Hw) as [?|[?|Hp]]; [by left|by right; right; right|].
      destruct (Hin' p b Hin Hp); auto. }
    destruct (decide (present m p)) as [Hp|Hp].
    { left. unfold safe. simpl. destruct (Hin' p b Hin Hp); auto. }
    destruct (ok_safe _ _ Hok p b Hin) as [[H|[H|[H|H]]]|[H _]].
    + left. by left.
    + right. split; [|done]. apply elem_of_app. left. apply list_elem_of_filter. split.
      * split; [|done]. apply (waits_present _ _ b). by left.
      * apply list_elem_of_fmap. by exists (p, b).
    + right. split; [|done]. apply elem_of_app. left. apply list_elem_of_filter. split.
      * split; [|done]. apply (waits_present _ _ b). by right.
      * apply list_elem_of_fmap. by exists (p, b).
    + left. by right; right; right.
    + right. split; [|done]. apply elem_of_app. by right.
  - intros p b Hin Hw. destruct (Hanch p b Hin Hw) as [?|[?|Hp]]; [by left|by right; left|].
    right. right. intros m1 (kept & Hk & ->). by apply sublist_nil_r in Hk as ->.
Qed.

Lemma node_ok_write_back Rs nd : node_ok Rs nd → node_ok Rs (node_write_back nd).
Proof.
  intros Hok. constructor; simpl; try (by apply Hok).
  - constructor; simpl; [apply Hok|by intros o ?%not_elem_of_nil|by intros n ?%not_elem_of_nil].
  - intros p b Hin. destruct (ok_safe _ _ Hok p b Hin) as [?|[Hl Hw]]; [by left|right].
    split; [done|]. intros [[? _]%list_elem_of_filter|?]%elem_of_app; done.
  - intros p b Hin Hw.
    assert (Hs : safe Rs nd p b).
    { destruct (ok_safe _ _ Hok p b Hin) as [?|[Hl Hnw]]; [done|].
      by apply elem_of_app in Hw as [[? _]%list_elem_of_filter|?]. }
    destruct Hs as [H|[H|[H|H]]]; [by left|right; right|right; right|by right; left];
      intros m (kept & Hk & ->); apply sublist_nil_r in Hk as ->; simpl;
      apply (waits_present _ _ b); [by left|by right].
  - intros p [[_ ?]%list_elem_of_filter|?]%elem_of_app; [done|]. by eapply ok_past.
Qed.

Lemma node_ok_clock Rs nd t : clock_ok t → node_ok Rs nd → node_ok Rs (node_clock t nd).
Proof. intros ? []. by constructor. Qed.

(** What a step of a node must show. *)
Definition step_ok (db : DB) (nw : Node * DB) : Prop :=
  node_ok (rows nw.2) nw.1 ∧ ∃ new, rows nw.2 = rows db ++ new.
Lemma step_ok_here db nd : node_ok (rows db) nd → step_ok db (nd, db).
Proof. intros. split; [done|]. exists []. by rewrite app_nil_r. Qed.

(** An insert of a logged batch, wherever its outcome leads. *)
Lemma step_ok_insert db nd p b r db' (yes no : Node) :
  upsert_snapshots inner b db = (r, db') →
  (landed (rows db') b → node_ok (rows db') nd → node_ok (rows db') yes) →
  (node_ok (rows db') nd → node_ok (rows db') no) →
  node_ok (rows db) nd → (p, b) ∈ nd_log nd →
  step_ok db (match r with Ok _ => (yes, db') | Err _ => (no, db') end).
Proof.
  intros Hu Hyes Hno Hok Hin. destruct (insert_appends _ _ _ _ Hu) as (new & Hnew & _).
  assert (Hok' : node_ok (rows db') nd) by (rewrite Hnew; by apply node_ok_mono).
  destruct r as [[]|e]; (split; [|by exists new]); [|by apply Hno].
  apply Hyes; [|done]. intros s Hs. simpl. rewrite (insert_accepted _ _ _ Hu).
  apply elem_of_app. right. by apply list_elem_of_fmap_2.
Qed.

Lemma node_task_ok id lead until nd db :
  node_ok (rows db) nd → step_ok db (node_task inner wal id lead until (nd, db)).
Proof.
  intros Hok. cbn [node_task]. destruct (nd_tasks nd !! id) as [t|] eqn:E;
    [|by apply step_ok_here].
  pose proof (ok_tasks _ _ Hok id t E) as Ht. destruct t as [p b|p b u|p]; simpl in Ht.
  - apply step_ok_here. destruct lead; [by apply node_ok_task|by apply node_ok_untask].
  - destruct (upsert_snapshots inner b db) as [r db'] eqn:Eu.
    eapply (step_ok_insert db nd p b r db' _ _ Eu); [| |done|done].
    + intros Hl Hok'. apply node_ok_task; [done|]. by exists b.
    + apply node_ok_untask.
  - destruct (wal_ack wal p (nd_disk nd)) as [r d] eqn:Ea. destruct Ht as (b & Hin & Hl).
    apply step_ok_here, node_ok_untask. by eapply node_ok_ack.
Qed.

Lemma refresh_same d r d' : refresh_metrics wal d = (r, d') → env_eq d d' ∧ untouched d d'.
Proof.
  intros H. pose proof (refresh_metrics_back _ _ _ _ H). by apply refresh_metrics_inv in H as (? & ? & _).
Qed.
Lemma pending_same d r d' : wal_pending wal d = (r, d') → env_eq d d' ∧ untouched d d'.
Proof.
  intros H. pose proof (wal_pending_back _ _ _ _ H). by apply wal_pending_inv in H as (? & ? & _).
Qed.
Lemma refresh_ok Rs nd r d :
  node_ok Rs nd → refresh_metrics wal (nd_disk nd) = (r, d) → node_ok Rs (set_disk d nd).
Proof. intros Hok [He Hf]%refresh_same. by apply node_ok_same. Qed.

Lemma drain_idle_ok lead until nd db :
  node_ok (rows db) nd → nd_drainer nd = DIdle →
  step_ok db (node_drain inner wal follower_max_age lead until (nd, db)).
Proof.
  intros Hok Hi. cbn [node_drain]. rewrite Hi.
  destruct (refresh_metrics wal (nd_disk nd)) as [r d] eqn:E.
  pose proof (refresh_ok _ _ _ _ Hok E) as Hok'.
  apply refresh_same in E as [He Hf].
  destruct lead.
  - destruct (wal_pending wal d) as [[names|e] d1] eqn:Ep; pose proof (pending_same _ _ _ Ep) as [He1 Hf1];
      apply wal_pending_inv in Ep as (_ & _ & Hn); apply step_ok_here, node_ok_drainer;
      try (apply node_ok_same; [done|by eapply env_eq_trans|by eapply untouched_trans]); simpl.
    + destruct Hn as [[= ->]|(_ & ? & ?)]; [|done]. by intros n [? _]%pending_names_elem.
    + by intros n ?%not_elem_of_nil.
  - destruct follower_max_age as [m|]; [|by apply step_ok_here].
    destruct (reap_older_than wal m d) as [r' d'] eqn:Er. apply step_ok_here.
    by eapply node_ok_reap.
Qed.

Lemma node_drain_ok lead until nd db :
  node_ok (rows db) nd →
  step_ok db (node_drain inner wal follower_max_age lead until (nd, db)).
Proof.
  intros Hok. destruct (nd_drainer nd) as [|rest|p rest|p b rest|p b u rest|p rest] eqn:E;
    [by apply drain_idle_ok|cbn [node_drain]; rewrite E; pose proof (ok_drainer _ _ Hok) as Hd;
     rewrite E in Hd; simpl in Hd..].
  - destruct rest as [|p rest].
    { destruct (refresh_metrics wal (nd_disk nd)) as [r d] eqn:Er.
      apply step_ok_here, node_ok_drainer; [by eapply refresh_ok|done]. }
    assert (Hp : is_pending p = true) by (apply Hd; left).
    assert (Hrest : all_pending rest) by (intros n Hn; apply Hd; by right).
    destruct (wal_read wal p (nd_disk nd)) as [[b|e] d] eqn:Er; pose proof (wal_read_back _ _ _ _ _ Er);
      apply wal_read_inv in Er as (He & Hf & Hr); apply step_ok_here, node_ok_drainer;
      try (by apply node_ok_same); [|done].
    destruct Hr as [(f & Hl & Hdec)|(e & ? & _)]; [|done]. split; [|done].
    destruct (ok_files _ _ p f Hok Hp Hl) as (b' & Hin & _ & Hh). simpl. congruence.
  - destruct (quarantine p (nd_disk nd)) as [r d] eqn:Eq. destruct Hd as [Hp Hd].
    apply step_ok_here, node_ok_drainer; [by eapply node_ok_quarantine|done].
  - apply step_ok_here, node_ok_drainer; [done|].
    destruct lead; [done|]. by intros n ?%not_elem_of_nil.
  - destruct (upsert_snapshots inner b db) as [r db'] eqn:Eu. destruct Hd as [Hin Hd].
    eapply (step_ok_insert db nd p b r db' _ _ Eu); [| |done|done].
    + intros Hl Hok'. apply node_ok_drainer; [done|]. split; [by exists b|done].
    + intros Hok'. apply node_ok_drainer; [done|]. by intros n ?%not_elem_of_nil.
  - destruct Hd as [(b & Hin & Hl) Hd].
    destruct (wal_ack wal p (nd_disk nd)) as [[]d] eqn:Ea;
      apply step_ok_here, node_ok_drainer; try (by eapply node_ok_ack); [done|].
    by intros n ?%not_elem_of_nil.
Qed.

(** * What the cluster keeps *)

Definition cluster_ok (w : World) : Prop := ∀ n, node_ok (rows (cw_db w)) (cw_node w n).

Lemma upd_eq {A} n (a : A) f : upd n a f n = a.
Proof. unfold upd. by rewrite decide_True. Qed.
Lemma upd_ne {A} n m (a : A) f : m ≠ n → upd n a f m = f m.
Proof. intros. unfold upd. by rewrite decide_False. Qed.

Lemma cluster_ok_with w n nw :
  cluster_ok w → step_ok (cw_db w) nw → cluster_ok (with_node w n nw).
Proof.
  intros Hok [Hn [new Hnew]] m. unfold with_node. simpl.
  destruct (decide (m = n)) as [->|Hne]; [by rewrite upd_eq|].
  rewrite upd_ne, Hnew by done. apply node_ok_mono, Hok.
Qed.

Lemma cluster_ok_step w w' :
  cstep inner rows wal follower_max_age ttl w w' → cluster_ok w → cluster_ok w'.
Proof.
  intros [w0 l _|w0 n id b _ Hnew|w0 n id|w0 n|w0 n t Ht|w0 n q|w0 n m q Hm|w0 n|w0 db Hdb] Hok.
  - done.
  - apply cluster_ok_with; [done|]. by apply step_ok_here, node_ok_begin.
  - apply cluster_ok_with; [done|]. by apply node_task_ok.
  - apply cluster_ok_with; [done|]. by apply node_drain_ok.
  - apply cluster_ok_with; [done|]. by apply step_ok_here, node_ok_clock.
  - apply (cluster_ok_with (mkWorld _ (cw_node w0) (cw_db w0))); [done|].
    by apply step_ok_here, node_ok_crash.
  - apply (cluster_ok_with (mkWorld _ (cw_node w0) (cw_db w0))); [done|].
    by apply step_ok_here, node_ok_power.
  - apply cluster_ok_with; [done|]. by apply step_ok_here, node_ok_write_back.
  - intros n. simpl. rewrite Hdb. apply Hok.
Qed.

Lemma cluster_ok_init w : cw_init w → cluster_ok w.
Proof.
  intros [_ Hn] n. destruct (Hn n) as (Hc & (Hf & Hm & Hj & Hy) & Ht & Hd & Hl & Hr & Hw & _).
  assert (Hempty : ∀ m log, no_batch m → entries_ok log m).
  { intros m log H0 q f Hq. split.
    - intros Hp. destruct (H0 q Hp). congruence.
    - intros p Hp ->. destruct (H0 p Hp). congruence. }
  constructor; rewrite ?Ht, ?Hd, ?Hl, ?Hw; intros *; try (by intros ?%not_elem_of_nil); try done.
  - by apply Hempty.
  - constructor; rewrite ?Hj, ?Hy; [by apply Hempty|by intros o ?%not_elem_of_nil..].
Qed.

Lemma cluster_ok_reachable w :
  cw_reachable inner rows wal follower_max_age ttl w → cluster_ok w.
Proof.
  intros (w0 & Hi & Hr). apply cluster_ok_init in Hi.
  induction Hr; [done|]. eauto using cluster_ok_step.
Qed.

(** * The small steps are those of [Wal] *)

Section alone.
Context (lead : bool) (until : Z).

(** A write of which nothing else runs in between is [WalBacked]'s. *)
Lemma write_alone id b nd db r d' l' db' :
  b ≠ [] → nd_tasks nd !! id = None →
  upsert_snapshots (wal_backed (gated_db inner) wal) b (nd_disk nd, (lead, db)) = (r, (d', (l', db'))) →
  ∃ nd', Nat.iter 3 (node_task inner wal id lead until) (node_begin wal id b nd, db) = (nd', db')
    ∧ nd_disk nd' = d' ∧ nd_tasks nd' = nd_tasks nd ∧ nd_drainer nd' = nd_drainer nd.
Proof.
  intros Hb Hid. destruct b as [|s b']; [done|]. set (b := s :: b').
  cbn [upsert_snapshots wal_backed]. unfold walbacked_upsert, node_begin. subst b. cbv beta iota.
  set (b := s :: b'). unfold mbind, se_bind, se_fst, se_snd, se_try. cbn [fst snd].
  assert (Hstop : ∀ nd0, nd_tasks nd0 !! id = None →
    node_task inner wal id lead until (nd0, db) = (nd0, db))
    by (intros nd0 E; cbn [node_task]; by rewrite E).
  destruct (wal_append wal b (nd_disk nd)) as [[p|e] d].
  2:{ intros [= <- <- <- <-]. cbn [Nat.iter nat_rect]. rewrite !Hstop by done. eauto. }
  cbn [gated_db upsert_snapshots leader_gated]. unfold gated. cbn [fst snd].
  cbn [Nat.iter nat_rect]. set (f := node_task inner wal id lead until) in *.
  unfold f at 3. cbn [node_task nd_tasks]. rewrite lookup_insert_eq.
  destruct lead.
  - cbn [upsert_snapshots snd_repo]. unfold se_snd. cbn [fst snd].
    unfold f at 2. cbn [node_task nd_tasks set_tasks]. rewrite lookup_insert_eq.
    destruct (upsert_snapshots inner b db) as [[[]|e] db1].
    + cbn [fst snd]. unfold f. cbn [node_task nd_tasks nd_disk set_tasks]. rewrite lookup_insert_eq.
      destruct (wal_ack wal p d) as [r0 d1]. intros [= <- <- <- <-].
      eexists. split; [done|]. cbn. by rewrite !insert_insert_eq, delete_insert_id.
    + intros [= <- <- <- <-]. unfold f. cbn [node_task nd_tasks set_tasks].
      rewrite lookup_delete_eq. eexists. split; [done|]. cbn.
      by rewrite !insert_insert_eq, delete_insert_id.
  - intros [= <- <- <- <-]. rewrite !Hstop by (cbn; apply lookup_delete_eq).
    eexists. split; [done|]. cbn. by rewrite delete_insert_id.
Qed.

Local Abbreviation dstep := (node_drain inner wal follower_max_age lead until).
(** Some number of steps of the drainer. *)
Definition drains (x y : Node * DB) : Prop := ∃ k, Nat.iter k dstep x = y.

Lemma drains_refl x : drains x x.
Proof. by exists 0%nat. Qed.
Lemma drains_step x y : drains (dstep x) y → drains x y.
Proof. intros [k Hk]. exists (S k). by rewrite Nat.iter_succ_r. Qed.

(** The node with another directory and another position of the drainer. *)
Definition at_ (nd : Node) (d : Disk) (s : Drainer) : Node :=
  mkNode d (nd_tasks nd) s (nd_log nd) (nd_reaped nd) (nd_written nd) (nd_lost nd).

Lemma drain_loop_alone names nd d db r d' l' db' :
  drain_loop wal (gated_db inner) names (d, (lead, db)) = (r, (d', (l', db'))) →
  drains (at_ nd d (DNext names), db) (at_ nd d' (DNext []), db').
Proof.
  revert d db. induction names as [|p rest IH]; intros d db.
  { intros [= <- <- <- <-]. apply drains_refl. }
  cbn [drain_loop]. unfold mbind, se_bind, se_try, se_fst, se_snd, se_fail. cbn [fst snd].
  intros H. apply drains_step. cbn [node_drain at_ nd_drainer nd_disk].
  destruct (wal_read wal p d) as [[b|e] d1].
  2:{ cbn [fst snd] in H. apply drains_step.
      cbn [node_drain set_drainer set_disk nd_drainer nd_disk].
      destruct (quarantine p d1) as [[[]|e'] d2] eqn:Eq; [exact (IH _ _ H)|].
      by apply quarantine_inv in Eq as (_ & ? & _). }
  apply drains_step. cbn [node_drain set_drainer set_disk nd_drainer nd_disk].
  cbn [gated_db upsert_snapshots leader_gated snd_repo] in H. unfold gated, se_snd in H.
  cbn [fst snd] in H. destruct lead.
  2:{ injection H as <- <- <- <-. apply drains_refl. }
  apply drains_step. cbn [node_drain set_drainer set_disk nd_drainer nd_disk].
  destruct (upsert_snapshots inner b db) as [[[]|e] db1].
  2:{ injection H as <- <- <- <-. apply drains_refl. }
  apply drains_step. cbn [node_drain set_drainer set_disk nd_drainer nd_disk]. cbn [fst snd] in H.
  destruct (wal_ack wal p d1) as [[[]|e] d2]; [exact (IH _ _ H)|].
  injection H as <- <- <- <-. apply drains_refl.
Qed.

Lemma drain_once_alone nd d db r d' l' db' :
  drain_once wal (gated_db inner) (d, (lead, db)) = (r, (d', (l', db'))) →
  drains (match wal_pending wal d with
          | (Ok names, d1) => (at_ nd d1 (DNext names), db)
          | (Err _, d1) => (at_ nd d1 (DNext []), db)
          end) (at_ nd d' (DNext []), db').
Proof.
  unfold drain_once, mbind, se_bind, se_fst. cbn [fst snd].
  destruct (wal_pending wal d) as [[names|e] d1].
  - intros H. eapply drain_loop_alone. by destruct names.
  - intros [= <- <- <- <-]. apply drains_refl.
Qed.

Lemma drains_trans x y z : drains x y → drains y z → drains x z.
Proof. intros [k <-] [m <-]. exists (m + k)%nat. by rewrite Nat.iter_add. Qed.

(** A turn of the drainer of which nothing else runs in between is
    [drainer_tick]. *)
Lemma drain_alone nd db r d' l' db' :
  nd_drainer nd = DIdle →
  drainer_tick wal (gated_db inner) (Some fst) follower_max_age (nd_disk nd, (lead, db))
    = (r, (d', (l', db'))) →
  ∃ reaped, drains (nd, db) (mkNode d' (nd_tasks nd) DIdle (nd_log nd) reaped (nd_written nd) (nd_lost nd), db').
Proof.
  intros Hi. unfold drainer_tick, se_fst. cbn [fst snd].
  destruct (refresh_metrics wal (nd_disk nd)) as [r0 d0] eqn:E0. cbn [fst snd].
  assert (Hstep : ∀ y, (∀ x, x = dstep (nd, db) → drains x y) → drains (nd, db) y)
    by (intros y Hy; apply drains_step; by apply Hy).
  destruct lead eqn:El.
  - destruct (drain_once wal (gated_db inner) (d0, (true, db))) as [r1 [d1 [l1 db1]]] eqn:E1.
    cbn [fst snd]. destruct (refresh_metrics wal d1) as [r2 d2] eqn:E2. intros [= <- <- <- <-].
    exists (nd_reaped nd). apply Hstep. intros x ->. cbn [node_drain]. rewrite Hi, E0.
    rewrite <- El in E1. apply (drain_once_alone nd) in E1. eapply drains_trans.
    + destruct (wal_pending wal d0) as [[names|e] d0']; exact E1.
    + apply drains_step. cbn [node_drain at_ nd_drainer nd_disk]. rewrite E2. apply drains_refl.
  - destruct follower_max_age as [m|]; cbn [fst snd].
    + destruct (reap_older_than wal m d0) as [r1 d1] eqn:E1. intros [= <- <- <- <-].
      exists (filter (λ n, files d1 !! n = None) (pending_names (files d0)) ++ nd_reaped nd).
      apply Hstep. intros x ->. cbn [node_drain]. rewrite Hi, E0, E1.
      exists 0%nat. unfold set_reaped, set_disk. cbn. by rewrite Hi.
    + intros [= <- <- <- <-]. exists (nd_reaped nd). apply Hstep. intros x ->.
      cbn [node_drain]. rewrite Hi, E0. exists 0%nat. unfold set_reaped, set_disk. cbn. by rewrite Hi.
Qed.
End alone.

(** * The gate and the lease *)

(** The node has an insert under way that a lease until [u] admitted. *)
Definition admitted nd (u : Z) : Prop :=
  (∃ id p b, nd_tasks nd !! id = Some (Cleared p b u))
  ∨ (∃ p b rest, nd_drainer nd = DCleared p b u rest).

(** The lease's side: an unexpired grant is on the key, whatever the flag. *)
Definition lease_fence (c : Cluster) : Prop :=
  ∀ n, c_granted c n ≤ c_now c + ttl
     ∧ (c_now c < c_granted c n → ∃ exp, c_slot c = Some (n, exp) ∧ c_granted c n ≤ exp).

Lemma lease_fence_step c c' :
  0 < ttl → lstep ttl c c' → lease_fence c →
  lease_fence c' ∧ ∀ n, c_granted c n ≤ c_granted c' n.
Proof.
  intros Ht [c0 dt Hdt|c0 n net held' s' Hs|c0 n] Hf; simpl.
  - split; [|done]. intros m. destruct (Hf m) as [H1 H2]. simpl.
    split; [lia|]. intros. apply H2. lia.
  - pose proof (loop_step_cases ttl _ _ _ _ _ _ _ Ht Hs) as Hc.
    assert (Hmono : ∀ m, c_granted c0 m ≤
      (if held' then upd n (c_now c0 + ttl) (c_granted c0) else c_granted c0) m).
    { intros m. destruct held'; [|lia]. unfold upd. destruct (decide (m = n)); [|lia].
      subst. apply Hf. }
    split; [|done]. intros m. simpl. destruct (Hf m) as [H1 H2].
    assert (Hother : c_now c0 < c_granted c0 m → slot_get (c_now c0) (c_slot c0) = Some m).
    { intros Hg. destruct (H2 Hg) as (exp & -> & ?). apply slot_get_live. lia. }
    destruct Hc as [(-> & _ & -> & Hget)|(-> & Hslot)].
    + unfold upd. destruct (decide (m = n)) as [->|Hne].
      * split; [lia|]. intros _. eexists. split; [done|lia].
      * split; [done|]. intros Hg. specialize (Hother Hg). destruct Hget; congruence.
    + split; [done|]. intros Hg. destruct Hslot as [->|[-> Hget]]; [auto|].
      specialize (Hother Hg). destruct Hget; [congruence|].
      assert (m = n) as -> by congruence. eexists. split; [done|]. lia.
  - split; [|done]. intros m. apply Hf.
Qed.

Lemma admitted_drainer nd s u :
  (∀ p b v rest, s ≠ DCleared p b v rest) → admitted (set_drainer s nd) u → admitted nd u.
Proof. intros Hs [H|(p & b & rest & E)]; [by left|by destruct (Hs p b u rest)]. Qed.
Lemma admitted_task nd id t u :
  admitted (set_tasks <[id := t]> nd) u →
  admitted nd u ∨ ∃ p b, t = Cleared p b u.
Proof.
  intros [(i & p & b & E)|H]; [|left; by right]. simpl in E.
  destruct (decide (i = id)) as [->|].
  - rewrite lookup_insert_eq in E. injection E as ->. right. eauto.
  - rewrite lookup_insert_ne in E by done. left. left. eauto.
Qed.
Lemma admitted_untask nd id u : admitted (set_tasks (delete id) nd) u → admitted nd u.
Proof.
  intros [(i & p & b & E)|H]; [|by right]. simpl in E.
  apply lookup_delete_Some in E as [_ E]. left. eauto.
Qed.

(** Only the gate admits, and it asks the flag. *)
Lemma node_task_admits id lead until nd db nd' db' u :
  node_task inner wal id lead until (nd, db) = (nd', db') →
  admitted nd' u → admitted nd u ∨ (u = until ∧ lead = true).
Proof.
  cbn [node_task]. destruct (nd_tasks nd !! id) as [[p b|p b v|p]|] eqn:E; [..|intros [= <- _]; by left].
  - intros [= <- _]. destruct lead.
    + intros [H|(p0 & b0 & [= _ _ ->])]%admitted_task; auto.
    + intros ?%admitted_untask. by left.
  - destruct (upsert_snapshots inner b db) as [[[]|e] db1]; intros [= <- _].
    + intros [H|(p0 & b0 & ?)]%admitted_task; [by left|done].
    + intros ?%admitted_untask. by left.
  - destruct (wal_ack wal p (nd_disk nd)). intros [= <- _] ?%admitted_untask. by left.
Qed.

Lemma node_drain_admits lead until nd db nd' db' u :
  node_drain inner wal follower_max_age lead until (nd, db) = (nd', db') →
  admitted nd' u → admitted nd u ∨ (u = until ∧ lead = true).
Proof.
  cbn [node_drain]. destruct (nd_drainer nd) as [|[|p rest]|p rest|p b rest|p b v rest|p rest] eqn:E.
  - destruct (refresh_metrics wal (nd_disk nd)) as [r d]. destruct lead.
    + destruct (wal_pending wal d) as [[]]; intros [= <- _] ?%admitted_drainer; by auto.
    + destruct follower_max_age as [m|]; [destruct (reap_older_than wal m d)|];
        intros [= <- _]; by left.
  - destruct (refresh_metrics wal (nd_disk nd)). intros [= <- _] ?%admitted_drainer; by auto.
  - destruct (wal_read wal p (nd_disk nd)) as [[]]; intros [= <- _] ?%admitted_drainer; by auto.
  - destruct (quarantine p (nd_disk nd)). intros [= <- _] ?%admitted_drainer; by auto.
  - intros [= <- _]. destruct lead; [|intros ?%admitted_drainer; by auto].
    intros [H|(p0 & b0 & rest0 & [= _ _ -> _])]; [left; by left|by right].
  - destruct (upsert_snapshots inner b db) as [[]]; intros [= <- _] ?%admitted_drainer; by auto.
  - destruct (wal_ack wal p (nd_disk nd)) as [[]]; intros [= <- _] ?%admitted_drainer; by auto.
Qed.

Lemma node_begin_admits id b nd u :
  nd_tasks nd !! id = None → admitted (node_begin wal id b nd) u → admitted nd u.
Proof.
  intros Hid. unfold node_begin. destruct b as [|s b]; [done|].
  destruct (wal_append wal (s :: b) (nd_disk nd)) as [[p|e] d]; [|done].
  intros [(i & p0 & b0 & E)|H]; [|by right]. simpl in E. left.
  destruct (decide (i = id)) as [->|]; [by rewrite lookup_insert_eq in E|].
  rewrite lookup_insert_ne in E by done. eauto.
Qed.
Lemma no_tasks_admit nd u : nd_tasks nd = ∅ → nd_drainer nd = DIdle → ¬ admitted nd u.
Proof.
  intros Ht Hd [(i & p & b & E)|(p & b & rest & E)]; [|congruence]. by rewrite Ht, lookup_empty in E.
Qed.
Lemma node_crash_admits q nd u : ¬ admitted (node_crash q nd) u.
Proof. by apply no_tasks_admit. Qed.
Lemma node_power_admits m q nd u : ¬ admitted (node_power m q nd) u.
Proof. by apply no_tasks_admit. Qed.

Definition fence_ok (w : World (DB := DB)) : Prop :=
  lease_fence (cw_lease w) ∧ ∀ n u, admitted (cw_node w n) u → u ≤ granted w n.

Lemma fence_ok_with w n nw :
  fence_ok w → (∀ u, admitted nw.1 u → admitted (cw_node w n) u ∨ u = granted w n) →
  fence_ok (with_node w n nw).
Proof.
  intros [H1 H2] H. split; [done|]. intros m u. simpl.
  destruct (decide (m = n)) as [->|Hne]; [rewrite upd_eq|rewrite upd_ne by done; apply H2].
  intros [Ha| ->]%H; [by apply H2|]. unfold granted. simpl. lia.
Qed.

Lemma fence_ok_step w w' :
  0 < ttl → cstep inner rows wal follower_max_age ttl w w' → fence_ok w → fence_ok w'.
Proof.
  intros Ht [w0 l Hl|w0 n id b Hid _|w0 n id|w0 n|w0 n t _|w0 n q|w0 n m q Hm|w0 n|w0 db _] [H1 H2].
  - destruct (lease_fence_step _ _ Ht Hl H1) as [H3 H4]. split; [done|].
    intros n u Ha. unfold granted. simpl. etransitivity; [by apply H2|]. apply H4.
  - apply fence_ok_with; [done|]. intros u ?%node_begin_admits; [by left|done].
  - apply fence_ok_with; [done|]. intros u.
    destruct (node_task inner wal id _ _ _) as [nd' db'] eqn:E.
    intros [?|[-> _]]%(node_task_admits _ _ _ _ _ _ _ _ E); auto.
  - apply fence_ok_with; [done|]. intros u.
    destruct (node_drain inner wal follower_max_age _ _ _) as [nd' db'] eqn:E.
    intros [?|[-> _]]%(node_drain_admits _ _ _ _ _ _ _ E); auto.
  - apply fence_ok_with; [done|]. intros u. simpl. by left.
  - apply (fence_ok_with (mkWorld _ (cw_node w0) (cw_db w0))); [by split|].
    by intros u ?%node_crash_admits.
  - apply (fence_ok_with (mkWorld _ (cw_node w0) (cw_db w0))); [by split|].
    by intros u ?%node_power_admits.
  - apply fence_ok_with; [done|]. intros u. simpl. by left.
  - by split.
Qed.

Lemma fence_ok_reachable w :
  0 < ttl → cw_reachable inner rows wal follower_max_age ttl w → fence_ok w.
Proof.
  intros Ht (w0 & [(now & s & Hnow & Hl) Hn] & Hr).
  assert (H0 : fence_ok w0).
  { split.
    - intros n. rewrite Hl. simpl. split; lia.
    - intros n u. destruct (Hn n) as (_ & _ & Htasks & Hd & _). by intros ?%no_tasks_admit. }
  clear Hl Hn. induction Hr; [done|]. eauto using fence_ok_step.
Qed.

Lemma reaped_step w w' n :
  follower_max_age = None → cstep inner rows wal follower_max_age ttl w w' →
  nd_reaped (cw_node w' n) = nd_reaped (cw_node w n).
Proof.
  intros Hm [w0 l _|w0 k id b _ _|w0 k id|w0 k|w0 k t _|w0 k q|w0 k m q _|w0 k|w0 db _];
    try done; simpl; (destruct (decide (n = k)) as [->|]; [rewrite upd_eq|by rewrite upd_ne]);
    try done.
  - unfold node_begin. destruct b as [|s b]; [done|].
    by destruct (wal_append wal (s :: b) _) as [[p|e] d].
  - destruct (nd_tasks (cw_node w0 k) !! id) as [[p b|p b u|p]|]; [done|..|done].
    + by destruct (upsert_snapshots inner b (cw_db w0)) as [[]].
    + by destruct (wal_ack wal p _).
  - rewrite Hm. destruct (nd_drainer (cw_node w0 k)) as [|[|p rest]|p rest|p b rest|p b u rest|p rest].
    + destruct (refresh_metrics wal _) as [r d]. destruct (leads w0 k); [|done].
      by destruct (wal_pending wal d) as [[]].
    + by destruct (refresh_metrics wal _).
    + by destruct (wal_read wal p _) as [[]].
    + by destruct (quarantine p _).
    + done.
    + by destruct (upsert_snapshots inner b (cw_db w0)) as [[]].
    + by destruct (wal_ack wal p _) as [[]].
Qed.

(** Only a loss of power takes batches, and only those whose file it took. *)
Lemma lost_step w w' n p :
  cstep inner rows wal follower_max_age ttl w w' → p ∈ nd_lost (cw_node w' n) →
  p ∈ nd_lost (cw_node w n)
  ∨ ∃ m, power_loss (nd_disk (cw_node w n)) m ∧ files (nd_disk (cw_node w' n)) = m
      ∧ present (files (nd_disk (cw_node w n))) p ∧ ¬ present m p.
Proof.
  intros [w0 l _|w0 k id b _ _|w0 k id|w0 k|w0 k t _|w0 k q|w0 k m q Hm|w0 k|w0 db _];
    try (by left); simpl; (destruct (decide (n = k)) as [->|]; [rewrite upd_eq|rewrite upd_ne by done; by left]);
    try (by left).
  - unfold node_begin. destruct b as [|s b]; [by left|].
    destruct (wal_append wal (s :: b) _) as [[p0|e] d]; by left.
  - destruct (nd_tasks (cw_node w0 k) !! id) as [[p0 b|p0 b u|p0]|]; [by left|..|by left].
    + destruct (upsert_snapshots inner b (cw_db w0)) as [[]]; by left.
    + destruct (wal_ack wal p0 _); by left.
  - destruct (nd_drainer (cw_node w0 k)) as [|[|p0 rest]|p0 rest|p0 b rest|p0 b u rest|p0 rest].
    + destruct (refresh_metrics wal _) as [r d]. destruct (leads w0 k).
      * destruct (wal_pending wal d) as [[]]; by left.
      * destruct follower_max_age; [destruct (reap_older_than wal _ d)|]; by left.
    + destruct (refresh_metrics wal _); by left.
    + destruct (wal_read wal p0 _) as [[]]; by left.
    + destruct (quarantine p0 _); by left.
    + by left.
    + destruct (upsert_snapshots inner b (cw_db w0)) as [[]]; by left.
    + destruct (wal_ack wal p0 _) as [[]]; by left.
  - simpl. intros [[[? ?] _]%list_elem_of_filter|?]%elem_of_app; [right|by left].
    by exists m.
Qed.


Lemma cstep_changes w w' :
  cstep inner rows wal follower_max_age ttl w w' →
  rows (cw_db w') = rows (cw_db w) ∨ ∃ k t, admitted (cw_node w k) t.
Proof.
  intros [w0 l _|w0 k id b _ _|w0 k id|w0 k|w0 k t _|w0 k q|w0 k m q _|w0 k|w0 db Hdb];
    simpl; try (by left).
  - destruct (nd_tasks (cw_node w0 k) !! id) as [[p b|p b u|p]|] eqn:E; [by left|..|by left].
    + right. exists k, u. left. eauto.
    + left. by destruct (wal_ack wal p _).
  - destruct (nd_drainer (cw_node w0 k)) as [|[|p rest]|p rest|p b rest|p b u rest|p rest] eqn:E.
    + left. destruct (refresh_metrics wal _) as [r d]. destruct (leads w0 k).
      * by destruct (wal_pending wal d) as [[]].
      * destruct follower_max_age as [m|]; [|done]. by destruct (reap_older_than wal m d).
    + left. by destruct (refresh_metrics wal _).
    + left. by destruct (wal_read wal p _) as [[]].
    + left. by destruct (quarantine p _).
    + by left.
    + right. exists k, u. right. eauto.
    + left. by destruct (wal_ack wal p _) as [[]].
Qed.

Lemma cstep_admits w w' n u :
  cstep inner rows wal follower_max_age ttl w w' → admitted (cw_node w' n) u →
  admitted (cw_node w n) u ∨ (leads w n = true ∧ u = granted w n).
Proof.
  intros [w0 l _|w0 k id b Hid _|w0 k id|w0 k|w0 k t _|w0 k q|w0 k m q _|w0 k|w0 db Hdb];
    unfold with_node; cbn [cw_node]; try (by left);
    (destruct (decide (n = k)) as [->|]; [rewrite upd_eq|rewrite upd_ne by done; by left]).
  - intros ?%node_begin_admits; [by left|done].
  - destruct (node_task inner wal id _ _ _) as [nd' db'] eqn:E.
    intros [?|[-> ?]]%(node_task_admits _ _ _ _ _ _ _ _ E); auto.
  - destruct (node_drain inner wal follower_max_age _ _ _) as [nd' db'] eqn:E.
    intros [?|[-> ?]]%(node_drain_admits _ _ _ _ _ _ _ E); auto.
  - by left.
  - by intros ?%node_crash_admits.
  - by intros ?%node_power_admits.
  - by left.
Qed.

(** C2. One writer.  An insert can change the database only on a node whose
    gate admitted it while the node held the lead, and as long as the lease it
    was admitted under has not run out the lease key names that node, through
    demotions, crashes and lost replies; so two nodes never have admitted
    inserts within their leases at the same time. *)
Theorem cluster_single_writer w n m u v :
  0 < ttl → cw_reachable inner rows wal follower_max_age ttl w →
  (admitted (cw_node w n) u → c_now (cw_lease w) < u →
     slot_get (c_now (cw_lease w)) (c_slot (cw_lease w)) = Some n)
  ∧ (admitted (cw_node w n) u → admitted (cw_node w m) v →
     c_now (cw_lease w) < u → c_now (cw_lease w) < v → n = m)
  ∧ (∀ w', cstep inner rows wal follower_max_age ttl w w' →
       (rows (cw_db w') = rows (cw_db w) ∨ ∃ k t, admitted (cw_node w k) t)
       ∧ (admitted (cw_node w' n) u →
          admitted (cw_node w n) u ∨ (leads w n = true ∧ u = granted w n))).
Proof.
  intros Ht Hr. pose proof (fence_ok_reachable w Ht Hr) as [Hl Ha].
  assert (Hown : ∀ n u, admitted (cw_node w n) u → c_now (cw_lease w) < u →
    slot_get (c_now (cw_lease w)) (c_slot (cw_lease w)) = Some n).
  { intros k t Hk Hlt. pose proof (Ha k t Hk) as Hg. unfold granted in Hg.
    destruct (Hl k) as [_ H]. destruct H as (exp & -> & ?); [lia|]. apply slot_get_live. lia. }
  split; [apply Hown|]. split.
  { intros H1 H2 H3 H4. pose proof (Hown n u H1 H3). pose proof (Hown m v H2 H4). congruence. }
  intros w' Hs. split; [by apply cstep_changes|by apply cstep_admits].
Qed.

(** * A leader's queue reaches the database *)

(** [k] steps of node [n]'s drainer and nothing else. *)
Definition drain_turns (k : nat) (w : World (DB := DB)) (n : string) : World (DB := DB) :=
  Nat.iter k (λ w, with_node w n
    (node_drain inner wal follower_max_age (leads w n) (granted w n) (cw_node w n, cw_db w))) w.

Lemma drain_turns_spec k w n :
  rtc (cstep inner rows wal follower_max_age ttl) w (drain_turns k w n)
  ∧ cw_lease (drain_turns k w n) = cw_lease w
  ∧ (cw_node (drain_turns k w n) n, cw_db (drain_turns k w n))
    = Nat.iter k (node_drain inner wal follower_max_age (leads w n) (granted w n))
        (cw_node w n, cw_db w).
Proof.
  induction k as [|k (Hr & Hl & Hn)]; [split; [constructor|done]|].
  unfold drain_turns in *. rewrite !Nat.iter_succ. set (w' := Nat.iter k _ w) in *.
  split; [eapply rtc_r; [exact Hr|apply cs_drain]|]. split; [done|].
  rewrite <- Hn. unfold with_node, leads, granted. cbn [cw_node cw_db].
  rewrite upd_eq, Hl. by destruct (node_drain _ _ _ _ _ _).
Qed.

Lemma upserted_landed x bs y :
  upserted (gated_db inner) x bs y →
  (∃ new, rows y.2 = rows x.2 ++ new) ∧ ∀ b, b ∈ bs → landed (rows y.2) b.
Proof.
  induction 1 as [x|[l db] b [l1 db1] bs y Hu _ [[new Hnew] IH]].
  { split; [exists []; by rewrite app_nil_r|]. by intros b ?%not_elem_of_nil. }
  cbn [gated_db upsert_snapshots leader_gated snd_repo] in Hu. unfold gated, se_snd in Hu.
  cbn [fst snd] in *. destruct l; [|done].
  destruct (upsert_snapshots inner b db) as [[[]|e] db2] eqn:E; [|done]. injection Hu as <- <-.
  rewrite (insert_accepted (rows := rows) _ _ _ E) in Hnew. split.
  - exists ((img <$> b) ++ new). by rewrite Hnew, app_assoc.
  - intros b' [->|Hb]%elem_of_cons; [|by apply IH]. intros s Hs. rewrite Hnew.
    apply elem_of_app. left. apply elem_of_app. right. by apply list_elem_of_fmap_2.
Qed.

(** One turn of a leader's drainer over a database that accepts. *)
Lemma leader_tick d db :
  no_faults d → (∀ b db, ∃ db', upsert_snapshots inner b db = (Ok tt, db')) →
  ∃ r d' db', drainer_tick wal (gated_db inner) (Some fst) follower_max_age (d, (true, db))
      = (r, (d', (true, db')))
    ∧ (∀ p, is_pending p = true → files d' !! p = None)
    ∧ ∀ p b, is_pending p = true → stored wal (files d) p = Some b → landed (rows db') b.
Proof.
  intros Hnf Hup. unfold drainer_tick, se_fst. cbn [fst snd].
  destruct (refresh_metrics wal d) as [r0 d0] eqn:E0. cbn [fst snd].
  apply refresh_metrics_inv in E0 as (He0 & Hf0 & _).
  destruct (drain_once wal (gated_db inner) (d0, (true, db))) as [r1 [d1 [l1 db1]]] eqn:E1.
  apply (drain_once_exact (gated_db inner)) in E1 as (dn & rs & [lx dbx] & Hn & Hus & Hfiles & Hres);
    [|by eapply no_faults_env].
  assert (Hlead : ∀ x bs y, upserted (gated_db inner) x bs y → x.1 = true → y.1 = true).
  { induction 1 as [x|[l y] b [l2 y2] bs z Hu _ IH]; [done|]. cbn [fst]. intros ->. apply IH.
    revert Hu. cbn. unfold gated, se_snd. cbn.
    destruct (upsert_snapshots inner b y). by intros [= _ <-]. }
  pose proof (Hlead _ _ _ Hus eq_refl) as Hlx. cbn [fst] in Hlx. subst lx.
  destruct r1 as [u|e].
  2:{ destruct Hres as (p & b & _ & _ & Hbad). exfalso. revert Hbad. cbn. unfold gated, se_snd. cbn.
      destruct (Hup b dbx) as [db2 ->]. done. }
  destruct Hres as [-> [= -> ->]]. cbn [fst snd].
  destruct (refresh_metrics wal d1) as [r2 d2] eqn:E2.
  apply refresh_metrics_inv in E2 as (_ & Hf2 & _).
  exists r2, d2, dbx. split; [done|]. split.
  - intros p Hp. rewrite Hf2, Hfiles by done. rewrite decide_False; [done|].
    by apply not_elem_of_nil.
  - intros p b Hp Hst. apply upserted_landed in Hus as [_ H]. apply H.
    rewrite Hf0, app_nil_r in *. apply list_elem_of_omap. exists p. split; [|done].
    rewrite <- Hn. apply pending_names_elem. split; [done|].
    unfold stored in Hst. destruct (files d !! p); [eauto|done].
Qed.

(** From any state that keeps the invariant, a leader whose disk works, over a
    database that accepts, empties its queue in a bounded number of steps of its
    drainer alone, and every batch that was waiting then has its rows in the
    database. *)
Lemma leader_drains w n :
  cluster_ok w → leads w n = true → nd_drainer (cw_node w n) = DIdle →
  no_faults (nd_disk (cw_node w n)) →
  (∀ b db, ∃ db', upsert_snapshots inner b db = (Ok tt, db')) →
  ∃ k, let w' := drain_turns k w n in
    rtc (cstep inner rows wal follower_max_age ttl) w w'
    ∧ nd_drainer (cw_node w' n) = DIdle
    ∧ pending_names (files (nd_disk (cw_node w' n))) = []
    ∧ ∀ p b, (p, b) ∈ nd_log (cw_node w n) →
        stored wal (files (nd_disk (cw_node w n))) p = Some b → landed (rows (cw_db w')) b.
Proof.
  intros Hok Hlead Hidle Hnf Hup.
  destruct (leader_tick _ (cw_db w) Hnf Hup) as (r & d' & db' & Htick & Hempty & Hland).
  destruct (drain_alone true (granted w n) _ _ _ _ _ _ Hidle Htick) as (reaped & k & Hk).
  exists k. cbv zeta. destruct (drain_turns_spec k w n) as (Hrtc & _ & Hn).
  rewrite Hlead, Hk in Hn. injection Hn as Hnode Hdb. rewrite Hnode, Hdb.
  split; [done|]. split; [done|]. split.
  - apply elem_of_nil_inv. intros p [Hp [f Hf]]%pending_names_elem. cbn [nd_disk] in Hf.
    by rewrite Hempty in Hf.
  - intros p b Hin Hst. eapply Hland; [|exact Hst]. by eapply ok_names; [apply Hok|].
Qed.

End invariant.

(** * Concrete runs *)

#[export] Instance ex_db_inserts up : InsertLaws (ex_db up) id st_rows.
Proof.
  split; intros l w; [intros r w'|intros w']; simpl; destruct up; intros; simplify_eq/=.
  - exists l. split; [done|]. intros x. by rewrite list_fmap_id.
  - exists []. rewrite app_nil_r. split; [done|]. by intros x ?%not_elem_of_nil.
  - by rewrite list_fmap_id.
Qed.

Abbreviation ex_step := (cstep (SC := ex_codec) (ex_db true) st_rows ex_wal None 15000).
Definition ex_node : Node := mkNode (ex_disk (λ _, None)) ∅ DIdle [] [] [] [].
(** Over any database: node a appends a batch, *)
Definition ex_begin {DB} (db : DB) : World :=
  let w := mkWorld (c_init 0 None) (λ _, ex_node) db in
  with_node w "a" (node_begin (SC := ex_codec) ex_wal 0 ex_batch ex_node, db).
(** and becomes the leader. *)
Definition ex_elected {DB} (db : DB) : World :=
  mkWorld (mkCluster 0 (Some ("a"%string, 15000)) (upd "a" true (λ _, false))
             (upd "a" 15000 (λ _, 0)))
    (cw_node (ex_begin db)) db.
Definition ex_cluster0 : World := mkWorld (c_init 0 None) (λ _, ex_node) (ex_world true).
Definition ex_cluster2 : World := ex_elected (ex_world true).
(** There it is admitted by its gate. *)
Definition ex_cluster3 : World :=
  with_node ex_cluster2 "a" (node_task (ex_db true) ex_wal 0 true 15000
    (cw_node ex_cluster2 "a", cw_db ex_cluster2)).

Lemma ex_init {DB} (db : DB) : cw_init (mkWorld (c_init 0 None) (λ _, ex_node) db).
Proof.
  split; [exists 0, None; done|]. intros n. split; [|split; [|done]].
  - intros z [= <-]. by split.
  - by repeat split.
Qed.
Lemma ex_steps {DB R} (inner : OiRepository DB) (rows : DB → list R) db :
  rtc (cstep (SC := ex_codec) inner rows ex_wal None 15000)
    (mkWorld (c_init 0 None) (λ _, ex_node) db) (ex_elected db).
Proof.
  set (w := mkWorld _ _ db). eapply rtc_l; [|eapply rtc_l; [|apply rtc_refl]].
  - apply (cs_begin (SC := ex_codec) inner rows ex_wal None 15000 w "a" 0 ex_batch);
      [done|]. intros ts _. apply not_elem_of_nil.
  - apply (cs_lease (SC := ex_codec) inner rows ex_wal None 15000).
    exact (step_tick 15000 (c_init 0 None) "a" Delivered true _ eq_refl).
Qed.
Lemma ex_cluster_init : cw_init ex_cluster0.
Proof. exact (ex_init (ex_world true)). Qed.
Lemma ex_cluster_steps : rtc ex_step ex_cluster0 ex_cluster2.
Proof. exact (ex_steps (ex_db true) st_rows (ex_world true)). Qed.

Lemma ex_cluster_reachable :
  let reach := cw_reachable (SC := ex_codec) (ex_db true) st_rows ex_wal None 15000 in
  reach ex_cluster2 ∧ reach ex_cluster3.
Proof.
  pose proof ex_cluster_steps as H2.
  pose proof ex_cluster_init as Hi.
  split; [by exists ex_cluster0|]. exists ex_cluster0. split; [done|].
  eapply rtc_r; [exact H2|].
  exact (cs_task (SC := ex_codec) (ex_db true) st_rows ex_wal None 15000 ex_cluster2 "a" 0).
Qed.

Definition ex_name : string := next_name (ex_disk (λ _, None)) 1767225600000.

(** Power fails after the append: the batch may be gone, and is then on record. *)
Definition ex_dark : World :=
  with_node (mkWorld (down "a" (cw_lease ex_cluster2)) (cw_node ex_cluster2) (cw_db ex_cluster2)) "a"
    (node_power ∅ 8 (cw_node ex_cluster2 "a"), cw_db ex_cluster2).
Lemma ex_dark_step : ex_step ex_cluster2 ex_dark.
Proof.
  assert (H : power_loss (nd_disk (cw_node ex_cluster2 "a")) ∅).
  { exists ∅. split; [|intros n; rewrite lookup_empty; reflexivity].
    exists []. split; [apply sublist_nil_l|reflexivity]. }
  exact (cs_power (SC := ex_codec) (ex_db true) st_rows ex_wal None 15000 ex_cluster2 "a" ∅ 8 H).
Qed.


Lemma cluster_single_writer_witness :
  admitted (cw_node ex_cluster3 "a") 15000
  ∧ slot_get 0 (c_slot (cw_lease ex_cluster3)) = Some "a"%string.
Proof.
  assert (Ha : admitted (cw_node ex_cluster3 "a") 15000).
  { left. exists 0%nat, ex_name, ex_batch. reflexivity. }
  split; [exact Ha|].
  apply (cluster_single_writer (SC := ex_codec) (ex_db true) st_rows ex_wal None 15000
           ex_cluster3 "a" "a" 15000 15000 ltac:(lia) (proj2 ex_cluster_reachable)); [exact Ha|].
  reflexivity.
Defined.
