(* ===== verification/Queues.v ===== *)
(** What the storage side of the cluster promises, as an abstract system without
    files, tasks, leases or crashes: every node has a queue of whole batches,
    and the database a growing list of rows.  An outage may take batches from a
    queue that were never marked as written, or bring back ones that had left it.
    [Cluster] is shown to refine it: every step of the cluster, power losses and
    faults included, is one atomic step of the abstract system. *)

From Stdlib Require Import ZArith Lia String.
From stdpp Require Import base option list strings gmap relations.
From S2P Require Import Prelude Externals Concrete Domain Repository Wal Lease Cluster.
Open Scope Z_scope.
Open Scope oi_scope.

(** * The abstract system *)

Section queues.
Context {DL : DecimalLib} {TL : TimeLib} {R : Type} (img : OiSnapshot → R).

Local Abbreviation Batch := (list OiSnapshot).

(** A node's queue and what was set aside for an operator, with its history: what
    it ever accepted, and the names that expired, that are written for good, and
    that an outage took. *)
Record NodeQueue := mkNodeQueue {
  nq_log : list (string * Batch);
  nq_queue : gmap string Batch;
  nq_aside : string → Batch → Prop;
  nq_expired : list string;
  nq_written : list string;
  nq_lost : list string;
}.

(** Nothing is accepted, written or lost, and nothing that was set aside goes. *)
Definition calm (q q' : NodeQueue) : Prop :=
  nq_log q' = nq_log q ∧ (∀ p b, nq_aside q p b → nq_aside q' p b)
  ∧ nq_written q' = nq_written q ∧ nq_lost q' = nq_lost q.

(** One step of a node beside the rows of the database: the queue takes a batch
    under an unused name; some rows of an accepted batch, or all, are inserted; a
    batch leaves the queue once it has landed, or is set aside; batches expire,
    where that is asked for; what is there is written; and an outage leaves a
    queue of accepted batches, from which a batch that was queued or set aside is
    missing only if it has landed, has expired or was not written. *)
Inductive nstep (expiring : bool) (q : NodeQueue) (rs : list R) (q' : NodeQueue) : list R → Prop :=
| n_skip : calm q q' → nq_queue q' = nq_queue q → nq_expired q' = nq_expired q →
    nstep expiring q rs q' rs
| n_enqueue p b :
    (∀ b', (p, b') ∉ nq_log q) → nq_queue q !! p = None →
    nq_log q' = (p, b) :: nq_log q → nq_queue q' = <[p := b]> (nq_queue q) →
    (∀ p b, nq_aside q p b → nq_aside q' p b) → nq_expired q' = nq_expired q →
    nq_written q' = nq_written q → nq_lost q' = nq_lost q → nstep expiring q rs q' rs
| n_insert p b new :
    (p, b) ∈ nq_log q → (∀ x, x ∈ new → x ∈ img <$> b) →
    calm q q' → nq_queue q' = nq_queue q → nq_expired q' = nq_expired q →
    nstep expiring q rs q' (rs ++ new)
| n_dequeue p b :
    nq_queue q !! p = Some b → landed img rs b →
    calm q q' → nq_queue q' = delete p (nq_queue q) → nq_expired q' = nq_expired q →
    nstep expiring q rs q' rs
| n_aside p b :
    nq_queue q !! p = Some b → nq_aside q' p b →
    calm q q' → nq_queue q' = delete p (nq_queue q) → nq_expired q' = nq_expired q →
    nstep expiring q rs q' rs
| n_expire (gone : list string) :
    expiring = true → calm q q' →
    nq_queue q' = filter (λ kv, kv.1 ∉ gone) (nq_queue q) →
    nq_expired q' = gone ++ nq_expired q → nstep expiring q rs q' rs
| n_write :
    nq_log q' = nq_log q → nq_queue q' = nq_queue q → (∀ p b, nq_aside q p b → nq_aside q' p b) →
    nq_expired q' = nq_expired q → nq_lost q' = nq_lost q →
    (∀ p, p ∈ nq_written q' ↔ p ∈ nq_written q ∨ (p ∈ (nq_log q).*1 ∧ p ∉ nq_lost q)) →
    nstep expiring q rs q' rs
| n_outage :
    nq_log q' = nq_log q → nq_expired q' = nq_expired q → nq_written q' = nq_written q →
    (∀ p b, nq_queue q' !! p = Some b → (p, b) ∈ nq_log q) →
    (∀ p, p ∈ nq_lost q → p ∈ nq_lost q') →
    (∀ p b, (p, b) ∈ nq_log q → nq_queue q !! p = Some b ∨ nq_aside q p b →
       landed img rs b ∨ nq_queue q' !! p = Some b ∨ nq_aside q' p b ∨ p ∈ nq_expired q
       ∨ (p ∈ nq_lost q' ∧ p ∉ nq_written q)) →
    nstep expiring q rs q' rs.

Record Queues := mkQueues { qs_node : string → NodeQueue; qs_rows : list R }.

Inductive qstep (expiring : bool) (a a' : Queues) : Prop :=
| qs_step n :
    nstep expiring (qs_node a n) (qs_rows a) (qs_node a' n) (qs_rows a') →
    (∀ m, m ≠ n → qs_node a' m = qs_node a m) → qstep expiring a a'.

Definition qs_empty (a : Queues) : Prop :=
  ∀ n, nq_log (qs_node a n) = [] ∧ nq_queue (qs_node a n) = ∅ ∧ nq_expired (qs_node a n) = [].

(** * What the abstract system guarantees *)

(** Every accepted batch has landed, or is queued, or was set aside, or has
    expired, which takes that it was asked for, or was lost before it was written;
    every row is one from the start or of an accepted batch; what is queued was
    accepted; names are used once. *)
Record queues_ok (expiring : bool) (rs0 : list R) (a : Queues) : Prop := {
  qk_rows x : x ∈ qs_rows a → x ∈ rs0 ∨ ∃ n p b, (p, b) ∈ nq_log (qs_node a n) ∧ x ∈ img <$> b;
  qk_queue n p b : nq_queue (qs_node a n) !! p = Some b → (p, b) ∈ nq_log (qs_node a n);
  qk_unique n p b b' : (p, b) ∈ nq_log (qs_node a n) → (p, b') ∈ nq_log (qs_node a n) → b = b';
  qk_kept n p b : (p, b) ∈ nq_log (qs_node a n) →
    landed img (qs_rows a) b ∨ nq_queue (qs_node a n) !! p = Some b
    ∨ nq_aside (qs_node a n) p b ∨ p ∈ nq_expired (qs_node a n)
    ∨ (p ∈ nq_lost (qs_node a n) ∧ p ∉ nq_written (qs_node a n));
  qk_expired n p : p ∈ nq_expired (qs_node a n) → expiring = true;
}.

Lemma queues_ok_empty expiring a : qs_empty a → queues_ok expiring (qs_rows a) a.
Proof.
  intros H. constructor.
  - by left.
  - intros n p b. destruct (H n) as (_ & -> & _). by rewrite lookup_empty.
  - intros n p b b'. destruct (H n) as [-> _]. by intros ?%not_elem_of_nil.
  - intros n p b. destruct (H n) as [-> _]. by intros ?%not_elem_of_nil.
  - intros n p. destruct (H n) as (_ & _ & ->). by intros ?%not_elem_of_nil.
Qed.

(** What one step does to the node that takes it. *)
Lemma nstep_log expiring q rs q' rs' p b :
  nstep expiring q rs q' rs' → (p, b) ∈ nq_log q → (p, b) ∈ nq_log q'.
Proof.
  intros [[Hl _]|p0 b0 _ _ Hl|p0 b0 new _ _ [Hl _]|p0 b0 _ _ [Hl _]|p0 b0 _ _ [Hl _]|gone _ [Hl _]|Hl|Hl];
    rewrite Hl; [done|by right|done..].
Qed.

Lemma nstep_rows expiring q rs q' rs' :
  nstep expiring q rs q' rs' →
  ∃ new, rs' = rs ++ new ∧ ∀ x, x ∈ new → ∃ p b, (p, b) ∈ nq_log q ∧ x ∈ img <$> b.
Proof.
  intros [| | p b new Hin Hn| | | | |]; try (exists []; rewrite app_nil_r; split; [done|];
    by intros x ?%not_elem_of_nil).
  exists new. split; [done|]. intros x Hx. exists p, b. eauto.
Qed.

Lemma nstep_expired expiring q rs q' rs' p :
  nstep expiring q rs q' rs' → p ∈ nq_expired q' → p ∈ nq_expired q ∨ expiring = true.
Proof.
  intros [? ? He|? ? ? ? ? ? ? He|? ? ? ? ? ? ? He|? ? ? ? ? ? He|? ? ? ? ? ? He|? Hx|? ? ? He|? He];
    try (rewrite He; by left). by right.
Qed.

(** The fate of a batch: where it is after a step, given where it was. *)
Definition fate q rs p b : Prop :=
  landed img rs b ∨ nq_queue q !! p = Some b ∨ nq_aside q p b ∨ p ∈ nq_expired q
  ∨ (p ∈ nq_lost q ∧ p ∉ nq_written q).

Lemma nstep_fate expiring q rs q' rs' p b :
  nstep expiring q rs q' rs' →
  (∀ b', (p, b') ∈ nq_log q → b' = b) → (p, b) ∈ nq_log q → fate q rs p b → fate q' rs' p b.
Proof.
  unfold fate. intros Hs Hu Hin Hf.
  destruct Hs as [(Hl & Ha & Hw & Hlo) Hqq He|p0 b0 Hnew _ Hl Hqq Ha He Hw Hlo
                 |p0 b0 new _ _ (Hl & Ha & Hw & Hlo) Hqq He
                 |p0 b0 H0 Hland (Hl & Ha & Hw & Hlo) Hqq He
                 |p0 b0 H0 Has (Hl & Ha & Hw & Hlo) Hqq He|gone Hx (Hl & Ha & Hw & Hlo) Hqq He
                 |Hl Hqq Ha He Hlo Hw|Hl He Hw Hq Hlo Hk];
    rewrite ?Hqq, ?He, ?Hlo.
  - rewrite Hw. naive_solver.
  - rewrite Hw. destruct Hf as [?|[H|?]]; [auto| |naive_solver]. right. left.
    rewrite lookup_insert_ne; [done|]. intros ->. by destruct (Hnew b).
  - rewrite Hw. destruct Hf as [H|?]; [left|naive_solver].
    intros s Hs. apply elem_of_app. left. by apply H.
  - rewrite Hw. destruct Hf as [?|[H|?]]; [auto| |naive_solver].
    destruct (decide (p = p0)) as [->|Hne]; [left; by simplify_eq|].
    right. left. by rewrite lookup_delete_ne.
  - rewrite Hw. destruct Hf as [?|[H|?]]; [auto| |naive_solver].
    destruct (decide (p = p0)) as [->|Hne]; [right; right; left; by simplify_eq|].
    right. left. by rewrite lookup_delete_ne.
  - rewrite Hw. destruct Hf as [?|[H|?]]; [auto| |].
    + destruct (decide (p ∈ gone)) as [Hg|Hg]; [do 3 right; left; apply elem_of_app; by left|].
      right. left. by apply map_lookup_filter_Some.
    + right. right. rewrite elem_of_app. naive_solver.
  - destruct Hf as [?|[?|[?|[?|[H1 H2]]]]]; auto 10. do 4 right. split; [done|]. rewrite Hw.
    by intros [?|[_ ?]].
  - rewrite Hw. destruct Hf as [?|[H|[H|[?|[? ?]]]]]; auto 10.
Qed.

(** The queue holds accepted batches, each name once. *)
Lemma nstep_accepted expiring q rs q' rs' :
  nstep expiring q rs q' rs' →
  (∀ p b, nq_queue q !! p = Some b → (p, b) ∈ nq_log q) →
  (∀ p b b', (p, b) ∈ nq_log q → (p, b') ∈ nq_log q → b = b') →
  (∀ p b, nq_queue q' !! p = Some b → (p, b) ∈ nq_log q')
  ∧ (∀ p b b', (p, b) ∈ nq_log q' → (p, b') ∈ nq_log q' → b = b')
  ∧ ∀ p b, (p, b) ∈ nq_log q' → (p, b) ∈ nq_log q ∨ nq_queue q' !! p = Some b.
Proof.
  intros Hs Hq Hu.
  destruct Hs as [[Hl _] Hqq _|p0 b0 Hnew _ Hl Hqq|p0 b0 new _ _ [Hl _] Hqq _
                 |p0 b0 _ _ [Hl _] Hqq _|p0 b0 _ _ [Hl _] Hqq _|gone _ [Hl _] Hqq _
                 |Hl Hqq|Hl _ _ Hqq]; rewrite ?Hl, ?Hqq; auto.
  - split; [|split].
    + intros p b [[<- <-]|[_ ?]]%lookup_insert_Some; [left|right; eauto].
    + intros p b b' [E|Hi]%elem_of_cons [E'|Hi']%elem_of_cons; simplify_eq; eauto.
      * by destruct (Hnew b').
      * by destruct (Hnew b).
    + intros p b [[= -> ->]|Hin]%elem_of_cons; [right; apply lookup_insert_eq|by left].
  - split; [by intros p b [_ ?]%lookup_delete_Some; eauto|]. auto.
  - split; [by intros p b [_ ?]%lookup_delete_Some; eauto|]. auto.
  - split; [by intros p b [? _]%map_lookup_filter_Some; eauto|]. auto.
Qed.

Lemma landed_grows rs new b : landed img rs b → landed img (rs ++ new) b.
Proof. intros H s Hs. apply elem_of_app. left. by apply H. Qed.

Lemma queues_ok_step expiring rs0 a a' :
  qstep expiring a a' → queues_ok expiring rs0 a → queues_ok expiring rs0 a'.
Proof.
  intros [n Hs Ho] [Hr Hq Hu Hk He].
  destruct (nstep_rows _ _ _ _ _ Hs) as (new & Hnew & Hnr).
  destruct (nstep_accepted _ _ _ _ _ Hs (Hq n) (Hu n)) as (Hq' & Hu' & Hl').
  assert (Hlog : ∀ m p b, (p, b) ∈ nq_log (qs_node a m) → (p, b) ∈ nq_log (qs_node a' m)).
  { intros m p b. destruct (decide (m = n)) as [->|Hne]; [by eapply nstep_log|by rewrite Ho]. }
  constructor.
  - rewrite Hnew. intros x [[?|(m & p & b & ? & ?)]%Hr|(p & b & ? & ?)%Hnr]%elem_of_app;
      [by left|right; eauto 10..].
  - intros m. destruct (decide (m = n)) as [->|Hne]; [apply Hq'|rewrite Ho by done; apply Hq].
  - intros m. destruct (decide (m = n)) as [->|Hne]; [apply Hu'|rewrite Ho by done; apply Hu].
  - intros m p b. destruct (decide (m = n)) as [->|Hne].
    + intros [Hin|?]%Hl'; [|by right; left]. apply (nstep_fate _ _ _ _ _ _ _ Hs); [|done|by apply Hk].
      intros b' Hb'. by eapply Hu.
    + rewrite Ho by done. intros [H|H]%Hk; [left; rewrite Hnew; by apply landed_grows|by right].
  - intros m p. destruct (decide (m = n)) as [->|Hne]; [|rewrite Ho by done; apply He].
    intros [H|H]%(nstep_expired _ _ _ _ _ _ Hs); [by eapply He|done].
Qed.

Lemma queues_ok_run expiring a0 a :
  qs_empty a0 → rtc (qstep expiring) a0 a → queues_ok expiring (qs_rows a0) a.
Proof.
  intros He Hr. apply (queues_ok_empty expiring) in He. revert He. generalize (qs_rows a0).
  intros rs He. induction Hr; [done|]. eauto using queues_ok_step.
Qed.
End queues.

(** * The cluster implements it *)

Section refines.
Context {DL : DecimalLib} {TL : TimeLib} {SC : SnapCodec} {CL : CodecLaws SC}.
Context {DB R : Type} (inner : OiRepository DB) (img : OiSnapshot → R) (rows : DB → list R).
Context {IL : InsertLaws inner img rows}.
Context (wal : FileWal) (follower_max_age : option Z) (ttl : Z).
Implicit Types (m : gmap string File) (nd : Node).

(** A directory as a queue: its pending files that decode. *)
Definition queue_of m : gmap string (list OiSnapshot) :=
  map_imap (λ p f, if is_pending p then result_ok (decode_frame wal p (data f)) else None) m.
Definition abs_node nd : NodeQueue :=
  mkNodeQueue (nd_log nd) (queue_of (files (nd_disk nd)))
    (λ p b, (p, b) ∈ nd_log nd ∧ waits wal (files (nd_disk nd)) (corrupt_name p) p b)
    (nd_reaped nd) (nd_written nd) (nd_lost nd).
Definition abs (w : World (DB := DB)) : Queues :=
  mkQueues (λ n, abs_node (cw_node w n)) (rows (cw_db w)).

Local Abbreviation nstep := (nstep img (bool_decide (is_Some follower_max_age))).

Lemma queue_of_lookup m p : queue_of m !! p = if is_pending p then stored wal m p else None.
Proof. unfold queue_of, stored. rewrite map_lookup_imap. by destruct (m !! p), (is_pending p). Qed.
Lemma queue_of_frame m m' :
  (∀ p, is_pending p = true → m' !! p = m !! p) → queue_of m' = queue_of m.
Proof.
  intros H. apply map_eq. intros p. rewrite !queue_of_lookup. unfold stored.
  destruct (is_pending p) eqn:E; [|done]. by rewrite H.
Qed.
Lemma queue_of_delete m m' p :
  (∀ q, is_pending q = true → m' !! q = delete p m !! q) →
  queue_of m' = delete p (queue_of m).
Proof.
  intros H. apply map_eq. intros q. rewrite queue_of_lookup. unfold stored.
  destruct (decide (q = p)) as [->|Hne].
  - rewrite lookup_delete_eq. destruct (is_pending p) eqn:E; [|done].
    by rewrite H, lookup_delete_eq.
  - rewrite lookup_delete_ne, queue_of_lookup by done. unfold stored.
    destruct (is_pending q) eqn:E; [|done]. by rewrite H, lookup_delete_ne.
Qed.

(** What is on disk under a pending name is queued. *)
Lemma queued Rs nd p f :
  node_ok img wal Rs nd → is_pending p = true → files (nd_disk nd) !! p = Some f →
  ∃ b, (p, b) ∈ nd_log nd ∧ queue_of (files (nd_disk nd)) !! p = Some b ∧ holds wal p b f.
Proof.
  intros Hok Hp Hl. destruct (ok_files _ _ _ _ p f Hok Hp Hl) as (b & Hin & Hh).
  exists b. split; [done|]. split; [|done]. rewrite queue_of_lookup, Hp.
  unfold stored. rewrite Hl. by destruct Hh as [_ ->].
Qed.

Definition same_past nd nd' : Prop :=
  nd_log nd' = nd_log nd ∧ nd_written nd' = nd_written nd ∧ nd_lost nd' = nd_lost nd.
(** What is set aside stays while no file of that name changes. *)
Lemma calm_frame Rs nd nd' :
  node_ok img wal Rs nd → same_past nd nd' →
  (∀ p f, is_pending p = true → files (nd_disk nd) !! corrupt_name p = Some f → synced f = true →
     files (nd_disk nd') !! corrupt_name p = Some f) →
  calm (abs_node nd) (abs_node nd').
Proof.
  intros Hok (Hl & Hw & Hlo) Hf. split; [done|]. split; [|done].
  intros p b [Hin (f & Hlf & Hh)]. split; [by rewrite Hl|].
  exists f. split; [|done]. apply Hf; [by eapply (ok_names _ _ _ _ Hok)|done|apply Hh].
Qed.
Lemma skip_same Rs nd nd' :
  node_ok img wal Rs nd → same_past nd nd' → nd_reaped nd' = nd_reaped nd →
  files (nd_disk nd') = files (nd_disk nd) → nstep (abs_node nd) Rs (abs_node nd') Rs.
Proof.
  intros Hok Hl Hr Hf. apply n_skip; [|simpl; by rewrite Hf|done].
  apply (calm_frame Rs); [done..|]. by rewrite Hf.
Qed.
Lemma corrupt_ne p q : is_pending q = true → corrupt_name p ≠ q.
Proof. intros Hq <-. by rewrite corrupt_not_pending in Hq. Qed.

Lemma skip_or_dequeue Rs nd nd' p b :
  node_ok img wal Rs nd → (p, b) ∈ nd_log nd → landed img Rs b → same_past nd nd' →
  nd_reaped nd' = nd_reaped nd → files (nd_disk nd') = delete p (files (nd_disk nd)) →
  nstep (abs_node nd) Rs (abs_node nd') Rs.
Proof.
  intros Hok Hin Hland Hl Hr Hf. pose proof (ok_names _ _ _ _ Hok p b Hin) as Hp.
  assert (Hcalm : calm (abs_node nd) (abs_node nd')).
  { apply (calm_frame Rs); [done..|]. intros q f _. rewrite Hf, lookup_delete_ne; [done|].
    intros E. symmetry in E. by apply corrupt_ne in E. }
  assert (Hq : nq_queue (abs_node nd') = delete p (nq_queue (abs_node nd)))
    by (apply queue_of_delete; by rewrite Hf).
  destruct (files (nd_disk nd) !! p) as [f|] eqn:E.
  - destruct (queued _ _ _ _ Hok Hp E) as (b' & Hin' & Hqueue & _).
    rewrite (ok_unique _ _ _ _ Hok p b' b) in Hqueue by done. by eapply n_dequeue.
  - apply n_skip; [done| |done]. rewrite Hq. apply delete_id. simpl.
    rewrite queue_of_lookup, Hp. unfold stored. by rewrite E.
Qed.

(** ** One lemma per file-system operation of a node *)

Lemma q_ack Rs nd nd' p b r :
  node_ok img wal Rs nd → (p, b) ∈ nd_log nd → landed img Rs b → same_past nd nd' →
  nd_reaped nd' = nd_reaped nd → wal_ack wal p (nd_disk nd) = (r, nd_disk nd') →
  nstep (abs_node nd) Rs (abs_node nd') Rs.
Proof.
  intros Hok Hin Hl Hlog Hr [_ [(_ & Hf)|(_ & _ & Hf)]]%wal_ack_inv;
    [by eapply skip_or_dequeue|by eapply skip_same].
Qed.

Lemma q_quarantine Rs nd p r d s :
  node_ok img wal Rs nd → is_pending p = true → quarantine p (nd_disk nd) = (r, d) →
  nstep (abs_node nd) Rs (abs_node (set_drainer s (set_disk d nd))) Rs.
Proof.
  intros Hok Hp (_ & _ & [(f & Hl & Hf)|[Hf _]])%quarantine_inv; [|by eapply skip_same].
  destruct (queued _ _ _ _ Hok Hp Hl) as (b & Hin & Hq & Hh).
  apply n_aside with p b; [done| | | |done].
  - split; [done|]. exists f. split; [|done]. simpl. rewrite Hf. apply lookup_insert_eq.
  - split; [done|]. split; [|done]. intros q b' [Hin' (g & Hg & Hh')]. split; [done|]. simpl in *. rewrite Hf.
    destruct (decide (q = p)) as [->|Hne].
    + exists f. rewrite lookup_insert_eq. split; [done|].
      by rewrite (ok_unique _ _ _ _ Hok p b' b).
    + exists g. split; [|done]. pose proof (ok_names _ _ _ _ Hok q b' Hin') as Hqp.
      rewrite lookup_insert_ne by (by intros ?%corrupt_inj).
      by rewrite lookup_delete_ne by (intros E; symmetry in E; by apply corrupt_ne in E).
  - apply queue_of_delete. intros q Hqp. simpl. rewrite Hf.
    by rewrite lookup_insert_ne by (by apply corrupt_ne).
Qed.

Lemma q_begin Rs nd id b :
  node_ok img wal Rs nd → unused_name nd →
  nstep (abs_node nd) Rs (abs_node (node_begin wal id b nd)) Rs.
Proof.
  intros Hok Hnew. unfold node_begin. destruct b as [|s b']; [by eapply skip_same|].
  set (b := s :: b').
  destruct (wal_append wal b (nd_disk nd)) as [[p|e] d] eqn:E; apply append_frame in E as [_ Hf].
  2:{ apply n_skip.
      - apply (calm_frame Rs); [done..|]. intros q f _ Hl _. simpl.
        rewrite Hf; [done|]. intros ts _. apply corrupt_not_tmp.
      - apply queue_of_frame. intros q Hq. apply Hf. intros ts _ ->. by rewrite tmp_not_pending in Hq.
      - done. }
  destruct Hf as (ts & payload & Hts & Henc & Hp & Hf).
  assert (Hpp : is_pending p = true)
    by (subst p; apply final_name_pending; by apply (ok_clock _ _ _ _ Hok)).
  assert (Hfresh : ∀ b0, (p, b0) ∉ nd_log nd).
  { intros b0 Hin. apply (Hnew ts Hts), list_elem_of_fmap. exists (p, b0). by rewrite <- Hp. }
  apply n_enqueue with p b; [done| |done| | |done..].
  - simpl. rewrite queue_of_lookup, Hpp. unfold stored.
    destruct (files (nd_disk nd) !! p) as [f|] eqn:E; [|done].
    destruct (ok_files _ _ _ _ p f Hok Hpp E) as (b0 & Hin & _). by destruct (Hfresh b0).
  - apply map_eq. intros q. simpl. rewrite queue_of_lookup. unfold stored.
    destruct (is_pending q) eqn:Hq.
    + rewrite Hf by (intros ->; by rewrite tmp_not_pending in Hq).
      destruct (decide (q = p)) as [->|Hne].
      * cbn [data]. by rewrite lookup_insert_eq, (decode_own_frame wal p b payload Henc).
      * by rewrite lookup_insert_ne, queue_of_lookup, Hq.
    + rewrite lookup_insert_ne by congruence. by rewrite queue_of_lookup, Hq.
  - intros q b0 [Hin (f & Hl & Hh)]. split; [by right|]. exists f. split; [|done]. simpl.
    rewrite Hf by apply corrupt_not_tmp. rewrite decide_False; [done|]. by apply corrupt_ne.
Qed.

Lemma q_reap Rs nd max_age d r d' gone :
  node_ok img wal Rs nd → follower_max_age = Some max_age → files d = files (nd_disk nd) →
  reap_older_than wal max_age d = (r, d') →
  gone = filter (λ n, files d' !! n = None) (pending_names (files d)) →
  nstep (abs_node nd) Rs (abs_node (set_reaped (gone ++ nd_reaped nd) (set_disk d' nd))) Rs.
Proof.
  intros Hok Hm Hf Hr ->. unfold reap_older_than in Hr.
  destruct (wal_pending wal d) as [[names|e] d0] eqn:E;
    apply wal_pending_inv in E as (_ & Hf0 & Hn).
  2:{ injection Hr as _ <-. assert (filter (λ n, files d0 !! n = None) (pending_names (files d)) = []) as ->.
      { apply elem_of_nil_inv. intros n [Hnone [_ [f Hs]]%pending_names_elem]%list_elem_of_filter. congruence. }
      eapply skip_same; [done..|]. simpl. congruence. }
  destruct Hn as [[= ->]|(_ & ? & ?)]; [|done].
  apply reap_loop_frame in Hr as [_ Hfr]; [|by intros n [? _]%pending_names_elem].
  rewrite Hf0, Hf in Hfr.
  apply n_expire with (filter (λ n, files d' !! n = None) (pending_names (files d))).
  - apply bool_decide_eq_true. by rewrite Hm.
  - apply (calm_frame Rs); [done..|]. intros p f Hp Hl _. simpl.
    destruct (Hfr (corrupt_name p)) as [->|[_ Ec]]; [done|]. by rewrite corrupt_not_pending in Ec.
  - apply map_eq. intros p. apply option_eq. intros b. simpl.
    rewrite map_lookup_filter_Some, !queue_of_lookup. simpl. unfold stored.
    rewrite list_elem_of_filter, pending_names_elem, Hf.
    destruct (is_pending p) eqn:Hp; [|split; [done|by intros [? _]]].
    destruct (Hfr p) as [->|[-> _]].
    + split; [|by intros [? _]]. intros Hb. split; [done|]. intros (Hnone & _ & [f Hl]).
      by rewrite Hl in Hnone.
    + split; [done|]. intros [Hb Hnot]. destruct Hnot. split; [done|]. split; [done|].
      destruct (files (nd_disk nd) !! p); [by eexists|done].
  - done.
Qed.

Lemma q_power Rs nd m new_pid :
  node_ok img wal Rs nd → power_loss (nd_disk nd) m →
  nstep (abs_node nd) Rs (abs_node (node_power m new_pid nd)) Rs.
Proof.
  intros Hok Hm. pose proof (node_ok_power _ _ _ _ m new_pid Hok Hm) as Hok'.
  apply n_outage; [done..| | |].
  - intros p b. simpl. rewrite queue_of_lookup. destruct (is_pending p) eqn:Hp; [|done].
    unfold stored. destruct (m !! p) as [f|] eqn:E; [|done].
    destruct (ok_files _ _ _ _ p f Hok' Hp E) as (b' & Hin & _ & ->). by intros [= <-].
  - intros p Hp. apply elem_of_app. by right.
  - intros p b Hin _. destruct (ok_safe _ _ _ _ Hok' p b Hin) as [[H|[H|[H|H]]]|H];
      [by left| |by do 2 right; left|by do 3 right; left|by do 4 right].
    right. left. simpl. rewrite queue_of_lookup, (ok_names _ _ _ _ Hok p b Hin).
    unfold stored. destruct H as (f & Hl & _ & Hd). simpl in Hl. by rewrite Hl, Hd.
Qed.
Lemma q_write_back Rs nd :
  nstep (abs_node nd) Rs (abs_node (node_write_back nd)) Rs.
Proof.
  apply n_write; try done. intros p. simpl.
  rewrite elem_of_app, list_elem_of_filter. tauto.
Qed.

Lemma q_insert Rs nd p b db r db' nd' :
  node_ok img wal Rs nd → (p, b) ∈ nd_log nd → upsert_snapshots inner b db = (r, db') →
  same_past nd nd' → nd_reaped nd' = nd_reaped nd →
  files (nd_disk nd') = files (nd_disk nd) →
  nstep (abs_node nd) (rows db) (abs_node nd') (rows db').
Proof.
  intros Hok Hin Hu Hl Hr Hf. destruct (insert_appends _ _ _ _ Hu) as (new & -> & Hnew).
  apply n_insert with p b; [done|done| |simpl; by rewrite Hf|done].
  apply (calm_frame Rs); [done..|]. by rewrite Hf.
Qed.

(** ** The tasks *)

Lemma q_task id lead until nd db nd' db' :
  node_ok img wal (rows db) nd →
  node_task inner wal id lead until (nd, db) = (nd', db') →
  nstep (abs_node nd) (rows db) (abs_node nd') (rows db').
Proof.
  intros Hok. cbn [node_task]. destruct (nd_tasks nd !! id) as [t|] eqn:E.
  2:{ intros [= <- <-]. by eapply skip_same. }
  pose proof (ok_tasks _ _ _ _ Hok id t E) as Ht. destruct t as [p b|p b u|p]; simpl in Ht.
  - intros [= <- <-]. by eapply skip_same.
  - destruct (upsert_snapshots inner b db) as [[] db1] eqn:Eu; intros [= <- <-];
      by eapply q_insert.
  - destruct (wal_ack wal p (nd_disk nd)) as [r d] eqn:Ea. intros [= <- <-].
    destruct Ht as (b & Hin & Hl). by eapply q_ack.
Qed.

Lemma q_drain lead until nd db nd' db' :
  node_ok img wal (rows db) nd →
  node_drain inner wal follower_max_age lead until (nd, db) = (nd', db') →
  nstep (abs_node nd) (rows db) (abs_node nd') (rows db').
Proof.
  intros Hok. pose proof (ok_drainer _ _ _ _ Hok) as Hd. cbn [node_drain].
  destruct (nd_drainer nd) as [|[|p rest]|p rest|p b rest|p b u rest|p rest]; simpl in Hd.
  - destruct (refresh_metrics wal (nd_disk nd)) as [r d] eqn:E.
    apply refresh_metrics_inv in E as (_ & Hf & _). destruct lead.
    + destruct (wal_pending wal d) as [[] d1] eqn:Ep; apply wal_pending_inv in Ep as (_ & Hf1 & _);
        intros [= <- <-]; (eapply skip_same; [done..|simpl; congruence]).
    + destruct follower_max_age as [m|] eqn:Hm.
      * destruct (reap_older_than wal m d) as [r' d'] eqn:Er. intros [= <- <-].
        rewrite <- Hm. by eapply q_reap.
      * intros [= <- <-]. rewrite <- Hm. by eapply skip_same.
  - destruct (refresh_metrics wal (nd_disk nd)) as [r d] eqn:E.
    apply refresh_metrics_inv in E as (_ & Hf & _). intros [= <- <-]. by eapply skip_same.
  - destruct (wal_read wal p (nd_disk nd)) as [[] d] eqn:E; apply wal_read_inv in E as (_ & Hf & _);
      intros [= <- <-]; by eapply skip_same.
  - destruct (quarantine p (nd_disk nd)) as [r d] eqn:E. intros [= <- <-].
    eapply q_quarantine; [done|exact (proj1 Hd)|done..].
  - intros [= <- <-]. by eapply skip_same.
  - destruct (upsert_snapshots inner b db) as [[] db1] eqn:Eu; intros [= <- <-];
      (eapply q_insert; [done|exact (proj1 Hd)|done..]).
  - destruct Hd as [(b & Hin & Hl) _].
    destruct (wal_ack wal p (nd_disk nd)) as [[] d] eqn:Ea; intros [= <- <-]; by eapply q_ack.
Qed.

(** ** The cluster *)

Lemma qstep_node w n nd' db' l :
  nstep (abs_node (cw_node w n)) (rows (cw_db w)) (abs_node nd') (rows db') →
  qstep img (bool_decide (is_Some follower_max_age)) (abs w)
    (abs (with_node (mkWorld l (cw_node w) (cw_db w)) n (nd', db'))).
Proof.
  intros H. exists n; simpl.
  - by rewrite upd_eq.
  - intros m Hm. by rewrite upd_ne.
Qed.
Lemma qstep_skip w l db :
  cluster_ok img rows wal w → rows db = rows (cw_db w) →
  qstep img (bool_decide (is_Some follower_max_age)) (abs w) (abs (mkWorld l (cw_node w) db)).
Proof.
  intros Hok Hdb. exists "n"%string; [|done]. simpl. rewrite Hdb. by eapply skip_same.
Qed.

Lemma abs_step w w' :
  cluster_ok img rows wal w → cstep inner rows wal follower_max_age ttl w w' →
  qstep img (bool_decide (is_Some follower_max_age)) (abs w) (abs w').
Proof.
  intros Hok Hs. revert Hok.
  destruct Hs as [w0 l _|w0 n id b _ Hnew|w0 n id|w0 n|w0 n t _|w0 n q|w0 n m q Hm|w0 n|w0 db Hdb];
    intros Hok; try (by apply qstep_skip); pose proof (Hok n) as Hn.
  - by apply (qstep_node w0 n _ _ (cw_lease w0)), q_begin.
  - destruct (node_task _ _ _ _ _ _) as [nd' db'] eqn:E.
    apply (qstep_node w0 n _ _ (cw_lease w0)). by eapply q_task.
  - destruct (node_drain _ _ _ _ _ _) as [nd' db'] eqn:E.
    apply (qstep_node w0 n _ _ (cw_lease w0)). by eapply q_drain.
  - apply (qstep_node w0 n _ _ (cw_lease w0)). by eapply skip_same.
  - apply (qstep_node w0 n _ _ (down n (cw_lease w0))). by eapply skip_same.
  - apply (qstep_node w0 n _ _ (down n (cw_lease w0))). by apply q_power.
  - apply (qstep_node w0 n _ _ (cw_lease w0)), q_write_back.
Qed.

Lemma queue_of_empty m : (∀ p, is_pending p = true → m !! p = None) → queue_of m = ∅.
Proof.
  intros H. apply map_eq. intros p. rewrite queue_of_lookup, lookup_empty. unfold stored.
  destruct (is_pending p) eqn:E; [by rewrite H|done].
Qed.
Lemma abs_init w : cw_init w → qs_empty (abs w).
Proof.
  intros [_ Hn] n. destruct (Hn n) as (_ & [Hf _] & _ & _ & Hl & Hr & _). simpl.
  split; [done|]. split; [|done]. apply queue_of_empty. intros p Hp. by destruct (Hf p Hp).
Qed.

Lemma abs_run w0 w :
  cluster_ok img rows wal w0 → rtc (cstep inner rows wal follower_max_age ttl) w0 w →
  rtc (qstep img (bool_decide (is_Some follower_max_age))) (abs w0) (abs w).
Proof.
  intros Hi Hr. induction Hr; [constructor|].
  eapply rtc_l; [by apply abs_step|]. apply IHHr. by eapply cluster_ok_step.
Qed.

(** Along a run the table only grows, and by rows of appended batches. *)
Lemma rows_grow w w' :
  cluster_ok img rows wal w → rtc (cstep inner rows wal follower_max_age ttl) w w' →
  ∃ new, rows (cw_db w') = rows (cw_db w) ++ new.
Proof.
  intros Hok Hr%abs_run; [|done]. change (rows (cw_db w)) with (qs_rows (abs w)).
  change (rows (cw_db w')) with (qs_rows (abs w')). induction Hr as [a|a a1 a2 [n Hs _] _ [new2 IH]].
  - exists []. by rewrite app_nil_r.
  - apply nstep_rows in Hs as (new & Hnew & _). exists (new ++ new2).
    by rewrite IH, Hnew, app_assoc.
Qed.
(** The database invents nothing: every row was there at the start or is that of
    a bar of a batch some node appended, whatever partial inserts, replays and
    outages there were. *)
Lemma rows_appended w0 w x :
  cw_init w0 → rtc (cstep inner rows wal follower_max_age ttl) w0 w → x ∈ rows (cw_db w) →
  x ∈ rows (cw_db w0) ∨ ∃ n p b s, (p, b) ∈ nd_log (cw_node w n) ∧ s ∈ b ∧ x = img s.
Proof.
  intros Hi Hr Hx. pose proof (abs_init _ Hi) as He.
  apply abs_run in Hr as Ha; [|by apply cluster_ok_init].
  destruct (qk_rows _ _ _ _ (queues_ok_run _ _ _ _ He Ha) x Hx) as [H|(n & p & b & Hin & Hb)];
    [by left|right].
  apply list_elem_of_fmap in Hb as (s & -> & Hs). by exists n, p, b, s.
Qed.

End refines.

(** * Concrete runs *)

