(* ===== verification/Metrics.v ===== *)
(** Metrics: [oi-collector/src/metrics.rs] and [oi-api/src/metrics.rs].  The code
    talks to a global recorder of the [metrics] crate; what it does is the
    sequence of calls it makes, so an instrumented operation threads the calls
    made so far through its state.  Here are the calls, the helpers that make
    them, the totals a recorder that adds shows, and what it means that an
    instrumented operation does exactly what the bare one does. *)

From Stdlib Require Import ZArith Lia String.
From stdpp Require Import base option list strings.
From S2P Require Import Prelude.
Open Scope Z_scope.
Open Scope oi_scope.

(** * Calls to the recorder *)

(** A metric with its labels. *)
Definition Key : Type := string * list (string * string).

(** The value of a gauge, as the number its [f64] is computed from: [n as f64],
    the constants of a flag, or [ms as f64 / 1000.0]. *)
Inductive Reading := Exactly (n : Z) | Thousandths (ms : Z).

Inductive MetricCall :=
| Increment (k : Key) (n : Z)
| SetGauge (k : Key) (v : Reading)
| AddGauge (k : Key) (delta : Z)
| Observe (k : Key).

#[export] Instance reading_eq_dec : EqDecision Reading.
Proof. solve_decision. Defined.
#[export] Instance metric_call_eq_dec : EqDecision MetricCall.
Proof. solve_decision. Defined.

(** The calls made, oldest first. *)
Abbreviation Calls := (list MetricCall).

(** What a recorder shows for a counter that started at zero. *)
Definition increment_of (k : Key) (c : MetricCall) : Z :=
  match c with Increment k' n => if decide (k' = k) then n else 0 | _ => 0 end.
Definition total (k : Key) (cs : Calls) : Z := foldr (λ c acc, increment_of k c + acc) 0 cs.
(** Summed over the labels of a metric. *)
Definition named_total (name : string) (cs : Calls) : Z :=
  foldr (λ c acc, match c with
                  | Increment k n => if decide (k.1 = name) then n else 0
                  | _ => 0
                  end + acc) 0 cs.
(** And for a gauge: the last value set. *)
Definition gauge (k : Key) (cs : Calls) : option Reading :=
  last (omap (λ c, match c with SetGauge k' v => if decide (k' = k) then Some v else None
                              | _ => None end) cs).
(** And for a gauge that is only moved, from zero. *)
Definition level (k : Key) (cs : Calls) : Z :=
  foldr (λ c acc, match c with AddGauge k' d => if decide (k' = k) then d else 0 | _ => 0 end + acc)
    0 cs.

Lemma total_app k cs1 cs2 : total k (cs1 ++ cs2) = total k cs1 + total k cs2.
Proof. induction cs1 as [|c cs1 IH]; [done|]. simpl. lia. Qed.
Lemma named_total_app name cs1 cs2 :
  named_total name (cs1 ++ cs2) = named_total name cs1 + named_total name cs2.
Proof. induction cs1 as [|c cs1 IH]; [done|]. simpl. lia. Qed.
Lemma total_snoc k cs c : total k (cs ++ [c]) = total k cs + increment_of k c.
Proof. rewrite total_app. simpl. lia. Qed.
Lemma gauge_app k cs1 cs2 :
  gauge k (cs1 ++ cs2) = match gauge k cs2 with Some v => Some v | None => gauge k cs1 end.
Proof.
  unfold gauge. rewrite omap_app, last_app. by destruct (last (omap _ cs2)).
Qed.
Lemma level_snoc k cs c :
  level k (cs ++ [c])
  = level k cs + match c with AddGauge k' d => if decide (k' = k) then d else 0 | _ => 0 end.
Proof. induction cs as [|c' cs IH]; simpl; lia. Qed.
Lemma gauge_snoc k cs c :
  gauge k (cs ++ [c]) = match c with
                        | SetGauge k' v => if decide (k' = k) then Some v else gauge k cs
                        | _ => gauge k cs
                        end.
Proof.
  unfold gauge. rewrite omap_app. destruct c as [|k' v| |]; simpl; rewrite ?app_nil_r; try done.
  destruct (decide (k' = k)); [by rewrite last_snoc|by rewrite app_nil_r].
Qed.

(** Decides which of the keys of single calls are the one asked for. *)
Ltac decide_keys :=
  simpl; repeat (rewrite decide_True by done || rewrite decide_False by done); try done.

(** * The collector's helpers *)

Definition inc_snapshots (exchange : string) (n : Z) : MetricCall :=
  Increment ("oi_snapshots_written_total", [("exchange", exchange)])%string n.
Definition inc_live_publishes (exchange : string) (n : Z) : MetricCall :=
  Increment ("oi_live_publishes_total", [("exchange", exchange)])%string n.
Definition inc_rest_error (exchange kind : string) : MetricCall :=
  Increment ("oi_rest_errors_total", [("exchange", exchange); ("kind", kind)])%string 1.
Definition set_instruments_tracked (exchange : string) (n : Z) : MetricCall :=
  SetGauge ("oi_instruments_tracked", [("exchange", exchange)])%string (Exactly n).
Definition set_leader (is_leader : bool) : MetricCall :=
  SetGauge ("oi_leader", [])%string (Exactly (if is_leader then 1 else 0)).
Definition inc_funding (exchange : string) (n : Z) : MetricCall :=
  Increment ("oi_funding_written_total", [("exchange", exchange)])%string n.
Definition inc_funding_events (exchange : string) (n : Z) : MetricCall :=
  Increment ("oi_funding_events_written_total", [("exchange", exchange)])%string n.
Definition inc_price_fallback (target donor : string) (quote_match : bool) : MetricCall :=
  Increment ("oi_price_fallback_total",
    [("exchange", target); ("donor", donor);
     ("quote_match", if quote_match then "1" else "0")])%string 1.

(** * The API's helpers *)

Definition inc_request (method status : string) : MetricCall :=
  Increment ("oi_api_requests_total", [("method", method); ("status", status)])%string 1.
Definition inc_subscribe_frame : MetricCall :=
  Increment ("oi_api_subscribe_frames_total", [])%string 1.
Definition inc_ws_connections : MetricCall := AddGauge ("oi_api_ws_connections", [])%string 1.
Definition dec_ws_connections : MetricCall := AddGauge ("oi_api_ws_connections", [])%string (-1).
Definition inc_ws_frames_sent (n : Z) : MetricCall :=
  Increment ("oi_api_ws_frames_sent_total", [])%string n.
Definition inc_ws_lagged (skipped : Z) : MetricCall :=
  Increment ("oi_api_ws_lagged_total", [])%string skipped.
(** [Timer]: recorded when the handler's guard is dropped. *)
Definition timer_drop (method : string) : MetricCall :=
  Observe ("oi_api_request_seconds", [("method", method)])%string.

(** * The exporter *)

Inductive MetricKind := CounterKind | GaugeKind | HistogramKind.
#[export] Instance metric_kind_eq_dec : EqDecision MetricKind.
Proof. solve_decision. Defined.

(** [install]: the metrics described once the scrape listener is up; nothing is
    described when binding it fails. *)
Definition install (listening : result string unit) (descriptions : list (string * MetricKind))
  : result string (list (string * MetricKind)) :=
  match listening with Ok _ => Ok descriptions | Err e => Err e end.
Definition collector_descriptions : list (string * MetricKind) :=
  [("oi_snapshots_written_total", CounterKind); ("oi_funding_written_total", CounterKind);
   ("oi_funding_events_written_total", CounterKind); ("oi_rest_errors_total", CounterKind);
   ("oi_live_publishes_total", CounterKind); ("oi_ws_reconnects_total", CounterKind);
   ("oi_instruments_tracked", GaugeKind); ("oi_leader", GaugeKind);
   ("oi_price_fallback_total", CounterKind)]%string.
Definition api_descriptions : list (string * MetricKind) :=
  [("oi_api_requests_total", CounterKind); ("oi_api_ws_connections", GaugeKind);
   ("oi_api_ws_frames_sent_total", CounterKind); ("oi_api_ws_lagged_total", CounterKind);
   ("oi_api_subscribe_frames_total", CounterKind); ("oi_api_request_seconds", HistogramKind)]%string.

Definition call_metric (c : MetricCall) : string * MetricKind :=
  match c with
  | Increment k _ => (k.1, CounterKind)
  | SetGauge k _ | AddGauge k _ => (k.1, GaugeKind)
  | Observe k => (k.1, HistogramKind)
  end.

(** Every helper's metric is described, as what the helper uses it for. *)
Lemma collector_helpers_described ex kind donor n b :
  ∀ c, c ∈ [inc_snapshots ex n; inc_live_publishes ex n; inc_rest_error ex kind;
            set_instruments_tracked ex n; set_leader b; inc_funding ex n; inc_funding_events ex n;
            inc_price_fallback ex donor b] →
  call_metric c ∈ collector_descriptions.
Proof.
  apply Forall_forall. repeat constructor; apply (bool_decide_unpack _); vm_compute; exact I.
Qed.
Lemma api_helpers_described method status n :
  ∀ c, c ∈ [inc_request method status; inc_subscribe_frame; inc_ws_connections; dec_ws_connections;
            inc_ws_frames_sent n; inc_ws_lagged n; timer_drop method] →
  call_metric c ∈ api_descriptions.
Proof.
  apply Forall_forall. repeat constructor; apply (bool_decide_unpack _); vm_compute; exact I.
Qed.

(** * Instrumented operations *)

(** An instrumented world: the calls made so far beside the world. *)
Definition emit {V E} (c : MetricCall) : SE (Calls * V) E unit := λ '(cs, v), (Ok tt, (cs ++ [c], v)).

(** Calls whose values are read off the world. *)
Definition emit_reading {V E} (f : V → Calls) : SE (Calls * V) E unit :=
  λ '(cs, v), (Ok tt, (cs ++ f v, v)).

(** [m] does to the world seen through [π] exactly what [f] does. *)
Definition erases {S T E A} (π : S → T) (m : SE S E A) (f : SE T E A) : Prop :=
  ∀ s, f (π s) = ((m s).1, π (m s).2).

Section erases.
Context {S T : Type} (π : S → T).

Lemma erases_ret {E A} (a : A) : erases π (mret a : SE S E A) (mret a).
Proof. done. Qed.
Lemma erases_lift {E A} (r : result E A) : erases π (se_lift r) (se_lift r).
Proof. done. Qed.
Lemma erases_fail {E A} (e : E) : erases π (se_fail e : SE S E A) (se_fail e).
Proof. done. Qed.
Lemma erases_bind {E A B} (m : SE S E A) f (k : A → SE S E B) g :
  erases π m f → (∀ a, erases π (k a) (g a)) → erases π (m ≫= k) (f ≫= g).
Proof.
  intros Hm Hk s. unfold mbind, se_bind. rewrite (Hm s). destruct (m s) as [[a|e] s']; [apply Hk|done].
Qed.
Lemma erases_try {E F A} (m : SE S E A) f :
  erases π m f → erases π (se_try m : SE S F _) (se_try f).
Proof. intros Hm s. unfold se_try. rewrite (Hm s). by destruct (m s). Qed.
Lemma erases_map_err {E F A} (h : E → F) (m : SE S E A) f :
  erases π m f → erases π (se_map_err h m) (se_map_err h f).
Proof. intros Hm s. unfold se_map_err. rewrite (Hm s). by destruct (m s). Qed.
End erases.

Lemma erases_snd {V S E A} (f : SE S E A) : erases (snd : V * S → S) (se_snd f) f.
Proof. intros [v s]. unfold se_snd. simpl. by destruct (f s). Qed.
(** A call to the recorder does nothing to the world. *)
Lemma erases_emit {V E} c : erases (snd : Calls * V → V) (emit c : SE _ E unit) (mret tt).
Proof. by intros [cs v]. Qed.
Lemma erases_silent {S T E A B} (π : S → T) (m : SE S E A) (a : A) (k : A → SE S E B) g :
  (∀ s, (m s).1 = Ok a ∧ π (m s).2 = π s) → erases π (k a) g → erases π (m ≫= k) g.
Proof.
  intros Hm Hk s. destruct (Hm s) as [H1 H2]. unfold mbind, se_bind.
  destruct (m s) as [r s']. simpl in *. subst r. rewrite <- H2. apply Hk.
Qed.
(** On one half of a pair of worlds. *)
Lemma erases_on_fst {S T W E A} (π : S → T) (m : SE S E A) f :
  erases π m f → erases (λ sw : S * W, (π sw.1, sw.2)) (se_fst m) (se_fst f).
Proof. intros Hm [s w]. unfold se_fst. simpl. rewrite (Hm s). by destruct (m s). Qed.
Lemma erases_on_snd {S T W E A} (π : S → T) (f : SE W E A) :
  erases (λ sw : S * W, (π sw.1, sw.2)) (se_snd f) (se_snd f).
Proof. intros [s w]. unfold se_snd. simpl. by destruct (f w). Qed.

Create HintDb erases.
#[export] Hint Resolve erases_ret erases_lift erases_fail erases_try erases_map_err erases_snd
  erases_emit erases_on_fst erases_on_snd : erases.
(** Goes through an instrumented body, one bind at a time. *)
Ltac erase := repeat (apply erases_bind; [by auto with erases|intros ?]); auto with erases.
