(* ===== verification/WalMetrics.v ===== *)
(** The write-ahead log with its metrics: [oi-storage/src/wal.rs] once more, now
    with every call to the recorder.  The instrumented drainer and store are
    shown to do what those of [Wal] do, and the counters to account for the
    files of the queue. *)

From Stdlib Require Import ZArith Lia String.
From stdpp Require Import base option list strings gmap sorting relations.
From S2P Require Import Prelude Externals Concrete Domain Repository Wal Metrics.
Open Scope Z_scope.
Open Scope oi_scope.

Definition oi_wal_write_bytes_total : Key := ("oi_wal_write_bytes_total"%string, []).
Definition oi_wal_writes_total : Key := ("oi_wal_writes_total"%string, []).
Definition oi_wal_acks_total : Key := ("oi_wal_acks_total"%string, []).
Definition oi_wal_reaped_total : Key := ("oi_wal_reaped_total"%string, []).
Definition oi_wal_crc_mismatch_total : Key := ("oi_wal_crc_mismatch_total"%string, []).
Definition oi_wal_drained_total : Key := ("oi_wal_drained_total"%string, []).
Definition oi_wal_quarantined_total : Key := ("oi_wal_quarantined_total"%string, []).
Definition oi_wal_pending_files : Key := ("oi_wal_pending_files"%string, []).
Definition oi_wal_oldest_pending_age_seconds : Key :=
  ("oi_wal_oldest_pending_age_seconds"%string, []).

(** * The operations *)

Section metered.
Context {DL : DecimalLib} {TL : TimeLib} {SC : SnapCodec}.

(** A node's directory with the calls its process made. *)
Abbreviation Metered := (Calls * Disk)%type.

(** [ts_ms] of the oldest file against the clock, in milliseconds. *)
Definition gauge_age (clk : option Z) (pending : list string) : Z :=
  match head pending with
  | Some name =>
      match parse_ts_ms name with
      | Some ts_ms => saturating_sub (default ts_ms clk) ts_ms
      | None => 0
      end
  | None => 0
  end.

Definition m_refresh_metrics (w : FileWal) : SE Metered CoreError unit :=
  listed ← se_try (se_snd (wal_pending w));
  match listed with
  | Err _ => mret tt
  | Ok pending => emit_reading (λ d,
      [SetGauge oi_wal_pending_files (Exactly (Z.of_nat (length pending)));
       SetGauge oi_wal_oldest_pending_age_seconds
         (Thousandths (gauge_age (clock d) pending))])
  end.

Definition m_append (w : FileWal) (snaps : list OiSnapshot) : SE Metered CoreError string :=
  payload ← se_lift (map_err (λ e, CStorage ("wal msgpack: " +:+ e)) (mp_encode_batch snaps));
  ts_ms ← se_snd now_ms;
  id ← se_snd uuid_v4;
  let final_path := final_name ts_ms id in
  let tmp_path := tmp_name final_path in
  let crc := crc32 payload in
  let total_bytes := Z.of_nat FRAME_HEADER_LEN + Z.of_nat (length payload) in
  f ← se_snd (se_map_err (storage_err ("wal create " +:+ dbg_path w tmp_path)) (fs_create tmp_path));
  f ← se_snd (se_map_err (storage_err "wal write magic") (fs_write_all f FRAME_MAGIC));
  f ← se_snd (se_map_err (storage_err "wal write crc") (fs_write_all f (be_bytes32 crc)));
  f ← se_snd (se_map_err (storage_err "wal write payload") (fs_write_all f payload));
  _ ← se_snd (se_map_err (storage_err "wal fsync") (fs_sync_all f));
  _ ← se_snd (se_map_err (storage_err "wal rename") (fs_rename tmp_path final_path));
  _ ← emit (Increment oi_wal_write_bytes_total total_bytes);
  _ ← emit (Increment oi_wal_writes_total 1);
  _ ← m_refresh_metrics w;
  _ ← se_try (se_snd (count_pending w));
  mret final_path.

Definition m_ack (w : FileWal) (path : string) : SE Metered CoreError unit := λ '(cs, d),
  match fs_remove_file path d with
  | (Ok _, d') => (Ok tt, (cs ++ [Increment oi_wal_acks_total 1], d'))
  | (Err IoNotFound, d') => (Ok tt, (cs, d'))
  | (Err e, d') => (Err (storage_err ("wal ack " +:+ dbg_path w path) e), (cs, d'))
  end.

(** One file of the reaper's loop: whether it was removed, [None] at the first
    young one. *)
Definition m_reap_file (w : FileWal) (now_ms cutoff_ms : Z) (path : string)
  : SE Metered CoreError (option bool) := λ '(cs, d),
  match parse_ts_ms path with
  | None => (Ok (Some false), (cs, d))
  | Some ts_ms =>
      if saturating_sub now_ms ts_ms <=? cutoff_ms then (Ok None, (cs, d))
      else match fs_remove_file path d with
           | (Ok _, d') => (Ok (Some true), (cs ++ [Increment oi_wal_reaped_total 1], d'))
           | (Err IoNotFound, d') => (Ok (Some false), (cs, d'))
           | (Err e, d') => (Err (storage_err ("wal reap " +:+ dbg_path w path) e), (cs, d'))
           end
  end.
Fixpoint m_reap_loop (w : FileWal) (now_ms cutoff_ms : Z) (pending : list string) (reaped : Z)
  : SE Metered CoreError Z :=
  match pending with
  | [] => mret reaped
  | path :: rest =>
      removed ← m_reap_file w now_ms cutoff_ms path;
      match removed with
      | None => mret reaped
      | Some true => m_reap_loop w now_ms cutoff_ms rest (reaped + 1)
      | Some false => m_reap_loop w now_ms cutoff_ms rest reaped
      end
  end.

Definition m_reap_older_than (w : FileWal) (max_age_ms : Z) : SE Metered CoreError Z := λ '(cs, d),
  match wal_pending w d with
  | (Ok pending, d) => m_reap_loop w (default 0 (clock d)) max_age_ms pending 0 (cs, d)
  | (Err e, d) => (Err e, (cs, d))
  end.

(** [read]: the checksum failure is counted. *)
Definition crc_mismatch (bytes : list Z) : bool :=
  (FRAME_HEADER_LEN <=? length bytes)%nat && bool_decide (take 4 bytes = FRAME_MAGIC)
  && negb (be_value32 (take 4 (drop 4 bytes)) =? crc32 (drop FRAME_HEADER_LEN bytes)).
Definition m_read (w : FileWal) (path : string) : SE Metered CoreError (list OiSnapshot) :=
  bytes ← se_snd (se_map_err (storage_err ("wal read " +:+ dbg_path w path)) (fs_read path));
  _ ← (if crc_mismatch bytes then emit (Increment oi_wal_crc_mismatch_total 1) else mret tt);
  se_lift (decode_frame w path bytes).

Definition m_quarantine (path : string) : SE Metered CoreError unit :=
  renamed ← se_try (se_snd (fs_rename path (corrupt_name path)));
  match renamed with
  | Err _ => mret tt
  | Ok _ => emit (Increment oi_wal_quarantined_total 1)
  end.

Section drainer.
Context {W : Type}.

(** The loop of [drain_once]: the number of batches drained, when no batch was
    refused. *)
Fixpoint m_drain_loop (w : FileWal) (target : OiRepository W) (pending : list string) (drained : Z)
  : SE (Metered * W) CoreError Z :=
  match pending with
  | [] => mret drained
  | path :: rest =>
      read ← se_try (se_fst (m_read w path));
      match read with
      | Err e => _ ← se_fst (m_quarantine path); m_drain_loop w target rest drained
      | Ok snaps =>
          wrote ← se_try (se_snd (upsert_snapshots target snaps));
          match wrote with
          | Ok _ => _ ← se_fst (m_ack w path); m_drain_loop w target rest (drained + 1)
          | Err e => se_fail e
          end
      end
  end.

Definition m_drain_once (w : FileWal) (target : OiRepository W) : SE (Metered * W) CoreError unit :=
  pending ← se_fst (se_snd (wal_pending w));
  match pending with
  | [] => mret tt
  | _ => drained ← m_drain_loop w target pending 0;
         if 0 <? drained then se_fst (emit (Increment oi_wal_drained_total drained)) else mret tt
  end.

Definition m_drainer_tick (w : FileWal) (target : OiRepository W) (gate : option (W → bool))
    (follower_max_age : option Z) : SE (Metered * W) CoreError unit := λ mw,
  let '(_, mw) := se_fst (m_refresh_metrics w) mw in
  let may_drain := match gate with Some g => g mw.2 | None => true end in
  if may_drain then
    let '(_, mw) := m_drain_once w target mw in
    se_fst (m_refresh_metrics w) mw
  else match follower_max_age with
       | Some max_age => let '(_, mw) := se_fst (m_reap_older_than w max_age) mw in (Ok tt, mw)
       | None => (Ok tt, mw)
       end.

Definition m_walbacked_upsert (inner : OiRepository W) (w : FileWal) (snaps : list OiSnapshot)
  : SE (Metered * W) CoreError unit :=
  match snaps with
  | [] => mret tt
  | _ =>
      path ← se_fst (m_append w snaps);
      r ← se_try (se_snd (upsert_snapshots inner snaps));
      match r with
      | Ok _ => se_fst (m_ack w path)
      | Err e => se_fail e
      end
  end.
End drainer.

(** * The metrics change nothing *)

Section erasure.
Context (w : FileWal).

Lemma refresh_erases : erases snd (m_refresh_metrics w) (refresh_metrics w).
Proof.
  unfold m_refresh_metrics, refresh_metrics. apply erases_bind; [by auto with erases|].
  intros [pending|e]; [|done]. by intros [cs d].
Qed.

Lemma append_erases snaps : erases snd (m_append w snaps) (wal_append w snaps).
Proof.
  unfold m_append, wal_append. erase.
  apply erases_silent with tt; [by intros []|]. apply erases_silent with tt; [by intros []|].
  apply erases_bind; [apply refresh_erases|intros _]. erase.
Qed.
Lemma ack_erases path : erases snd (m_ack w path) (wal_ack w path).
Proof.
  intros [cs d]. unfold m_ack, wal_ack. simpl. by destruct (fs_remove_file path d) as [[|[]] d'].
Qed.
Lemma reap_loop_erases now cutoff pending reaped :
  erases snd (m_reap_loop w now cutoff pending reaped) (reap_loop w now cutoff pending reaped).
Proof.
  revert reaped. induction pending as [|p rest IH]; intros reaped [cs d]; [done|].
  cbn [m_reap_loop reap_loop snd]. unfold m_reap_file, mbind, se_bind.
  destruct (parse_ts_ms p) as [ts|]; [|exact (IH _ (cs, d))].
  destruct (_ <=? _); [done|].
  destruct (fs_remove_file p d) as [[|[]] d']; [exact (IH _ (_, d'))|exact (IH _ (cs, d'))|done].
Qed.
Lemma reap_erases max_age : erases snd (m_reap_older_than w max_age) (reap_older_than w max_age).
Proof.
  intros [cs d]. unfold m_reap_older_than, reap_older_than. cbn [snd].
  destruct (wal_pending w d) as [[pending|e] d']; [apply (reap_loop_erases _ _ _ _ (cs, d'))|done].
Qed.
Lemma read_erases path : erases snd (m_read w path) (wal_read w path).
Proof.
  unfold m_read, wal_read. apply erases_bind; [by auto with erases|]. intros bytes.
  apply erases_silent with tt; [intros [cs d]; by destruct (crc_mismatch bytes)|]. erase.
Qed.
Lemma quarantine_erases path : erases snd (m_quarantine path) (quarantine path).
Proof.
  unfold m_quarantine, quarantine. apply erases_bind; [by auto with erases|].
  intros [u|e]; by auto with erases.
Qed.

Context {W : Type}.
(** The node without its calls. *)
Definition bare (mw : Metered * W) : Disk * W := (mw.1.2, mw.2).

Lemma on_node {E A} (m : SE Metered E A) f : erases snd m f → erases bare (se_fst m) (se_fst f).
Proof. apply erases_on_fst. Qed.

Lemma drain_loop_erases (target : OiRepository W) pending drained :
  erases bare (m_drain_loop w target pending drained ≫= λ _, mret tt) (drain_loop w target pending).
Proof.
  revert drained. induction pending as [|p rest IH]; intros drained [[cs d] x]; [done|].
  cbn [m_drain_loop drain_loop]. unfold mbind, se_bind, se_try, se_fst, se_snd, bare. cbn [fst snd].
  rewrite (read_erases p (cs, d) : wal_read w p d = _). destruct (m_read w p (cs, d)) as [[b|e] [cs1 d1]]; cbn [fst snd].
  - destruct (upsert_snapshots target b x) as [[u|e] x1]; cbn [fst snd]; [|done].
    rewrite (ack_erases p (cs1, d1) : wal_ack w p d1 = _). destruct (m_ack w p (cs1, d1)) as [[u'|e] [cs2 d2]]; [|done].
    exact (IH _ (cs2, d2, x1)).
  - rewrite (quarantine_erases p (cs1, d1) : quarantine p d1 = _).
    destruct (m_quarantine p (cs1, d1)) as [[u|e'] [cs2 d2]]; [exact (IH _ (cs2, d2, x))|done].
Qed.

Lemma drain_once_erases (target : OiRepository W) :
  erases bare (m_drain_once w target) (drain_once w target).
Proof.
  unfold m_drain_once, drain_once.
  apply erases_bind; [apply on_node, erases_snd|]. intros [|p rest]; [done|].
  intros mw. rewrite (drain_loop_erases target (p :: rest) 0 mw). unfold mbind, se_bind.
  destruct (m_drain_loop w target (p :: rest) 0 mw) as [[n|e] [[cs d] x]]; [|done].
  by destruct (0 <? n).
Qed.

Lemma tick_erases (target : OiRepository W) gate max_age :
  erases bare (m_drainer_tick w target gate max_age) (drainer_tick w target gate max_age).
Proof.
  intros mw. unfold m_drainer_tick, drainer_tick.
  rewrite (on_node _ _ refresh_erases mw).
  destruct (se_fst (m_refresh_metrics w) mw) as [r mw1]. cbn [fst snd].
  destruct (match gate with Some g => g mw1.2 | None => true end) eqn:Eg.
  - destruct gate as [g|]; cbn [bare snd] in *; rewrite ?Eg;
      rewrite (drain_once_erases target mw1); destruct (m_drain_once w target mw1) as [r1 mw2];
      apply (on_node _ _ refresh_erases).
  - destruct gate as [g|]; [|done]. cbn [bare snd] in *. rewrite Eg.
    destruct max_age as [a|]; [|done].
    rewrite (on_node _ _ (reap_erases a) mw1).
    by destruct (se_fst (m_reap_older_than w a) mw1).
Qed.

Lemma upsert_erases (inner : OiRepository W) snaps :
  erases bare (m_walbacked_upsert inner w snaps) (walbacked_upsert inner w snaps).
Proof.
  unfold m_walbacked_upsert, walbacked_upsert. destruct snaps as [|s snaps]; [done|].
  apply erases_bind; [apply on_node, append_erases|]. intros path.
  apply erases_bind; [apply erases_try, (erases_on_snd snd)|]. intros [u|e]; [|done].
  apply on_node, ack_erases.
Qed.
End erasure.

(** * The counters account for the files *)

Section accounting.
Context {CL : CodecLaws SC}.
Context (w : FileWal).

(** What the counters say is in the queue, against what is. *)
Definition booked (cs : Calls) : Z :=
  total oi_wal_writes_total cs - total oi_wal_acks_total cs - total oi_wal_reaped_total cs
  - total oi_wal_quarantined_total cs.
Definition queue_length (d : Disk) : Z := Z.of_nat (length (pending_names (files d))).
Definition same_books (m m' : Metered) : Prop :=
  booked m'.1 - queue_length m'.2 = booked m.1 - queue_length m.2.

#[local] Instance same_books_trans : Transitive same_books.
Proof. unfold same_books. intros ???. lia. Qed.
Lemma booked_app cs new : booked (cs ++ new) = booked cs + booked new.
Proof. unfold booked. rewrite !total_app. lia. Qed.

(** The queue's length follows its files. *)
Lemma queue_same d d' :
  (∀ p, is_pending p = true → is_Some (files d' !! p) ↔ is_Some (files d !! p)) →
  queue_length d' = queue_length d.
Proof.
  intros H. unfold queue_length. f_equal. apply Permutation_length, NoDup_Permutation;
    [apply pending_names_nodup..|]. intros p. rewrite !pending_names_elem. naive_solver.
Qed.
Lemma queue_less d d' p :
  is_pending p = true → is_Some (files d !! p) → files d' !! p = None →
  (∀ q, is_pending q = true → q ≠ p → is_Some (files d' !! q) ↔ is_Some (files d !! q)) →
  queue_length d' = queue_length d - 1.
Proof.
  intros Hp Hin Hout H. unfold queue_length.
  assert (pending_names (files d) ≡ₚ p :: pending_names (files d')) as ->.
  { apply NoDup_Permutation; [apply pending_names_nodup|constructor; [|apply pending_names_nodup]|].
    - rewrite pending_names_elem, Hout. by intros [_ [??]].
    - intros q. rewrite elem_of_cons, !pending_names_elem.
      destruct (decide (q = p)) as [->|Hne]; naive_solver. }
  cbn [length]. lia.
Qed.

Lemma books_delete cs cs' d d' p :
  is_pending p = true → is_Some (files d !! p) → files d' = delete p (files d) →
  booked cs' = booked cs - 1 → same_books (cs, d) (cs', d').
Proof.
  intros Hp Hin Hf Hb. unfold same_books. cbn [fst snd].
  rewrite (queue_less d d' p), Hb; [lia|done..| |]; rewrite Hf; [apply lookup_delete_eq|].
  intros q _ Hne. by rewrite lookup_delete_ne.
Qed.
Lemma books_same cs cs' d d' :
  files d' = files d → booked cs' = booked cs → same_books (cs, d) (cs', d').
Proof.
  intros Hf Hb. unfold same_books. cbn [fst snd]. by rewrite Hb, (queue_same d d') by (by rewrite Hf).
Qed.

(** ** The operations *)

Lemma m_refresh_inv cs d r cs' d' :
  m_refresh_metrics w (cs, d) = (r, (cs', d')) →
  env_eq d d' ∧ files d' = files d ∧ r = Ok tt
  ∧ (cs' = cs ++ [SetGauge oi_wal_pending_files (Exactly (queue_length d));
                  SetGauge oi_wal_oldest_pending_age_seconds
                    (Thousandths (gauge_age (clock d) (pending_names (files d))))]
     ∨ (¬ no_faults d ∧ cs' = cs)).
Proof.
  unfold m_refresh_metrics, mbind, se_bind, se_try, se_snd. cbn [fst snd].
  destruct (wal_pending w d) as [[names|e] d1] eqn:E; apply wal_pending_inv in E as (He & Hf & Hn).
  - destruct Hn as [[= ->]|(_ & ? & ?)]; [|done]. intros [= <- <- <-].
    destruct He as (Hc & He). rewrite Hc. split; [done|]. split; [done|]. split; [done|]. by left.
  - destruct Hn as [?|[Hnf _]]; [done|]. intros [= <- <- <-].
    split; [done|]. split; [done|]. split; [done|]. by right.
Qed.
Lemma m_refresh_books cs d r cs' d' :
  m_refresh_metrics w (cs, d) = (r, (cs', d')) → same_books (cs, d) (cs', d').
Proof.
  intros (_ & Hf & _ & [->|[_ ->]])%m_refresh_inv; (apply books_same; [done|]); [|done].
  rewrite booked_app. change (booked cs + 0 = booked cs). lia.
Qed.

Lemma m_ack_inv p cs d r cs' d' :
  m_ack w p (cs, d) = (r, (cs', d')) →
  (r = Ok tt ∧ is_Some (files d !! p) ∧ cs' = cs ++ [Increment oi_wal_acks_total 1]
     ∧ files d' = delete p (files d))
  ∨ (cs' = cs ∧ files d' = files d ∧ (files d !! p = None ∨ ∃ e, r = Err e)).
Proof.
  unfold m_ack. destruct (fs_remove_file p d) as [[[]|e] d1] eqn:E;
    apply fs_remove_inv in E as (_ & [(E & Hp & Hf)|[(E & Hp & Hf)|(_ & m & E & Hf)]]); try done.
  - intros [= <- <- <-]. by left.
  - injection E as ->. intros [= <- <- <-]. right. auto.
  - injection E as ->. intros [= <- <- <-]. right. eauto.
Qed.
Lemma m_ack_books p cs d r cs' d' :
  is_pending p = true → m_ack w p (cs, d) = (r, (cs', d')) → same_books (cs, d) (cs', d').
Proof.
  intros Hp [(_ & Hin & -> & Hf)|(-> & Hf & _)]%m_ack_inv; [|by apply books_same].
  eapply books_delete; [done..|]. rewrite booked_app. done.
Qed.

Lemma m_reap_file_books now cutoff p cs d r cs' d' :
  is_pending p = true →
  m_reap_file w now cutoff p (cs, d) = (r, (cs', d')) → same_books (cs, d) (cs', d').
Proof.
  intros Hp. unfold m_reap_file. destruct (parse_ts_ms p) as [ts|]; [|intros [= <- <- <-]; by apply books_same].
  destruct (_ <=? _); [intros [= <- <- <-]; by apply books_same|].
  destruct (fs_remove_file p d) as [[[]|e] d1] eqn:E;
    apply fs_remove_inv in E as (_ & [(E & Hin & Hf)|[(E & _ & Hf)|(_ & m & E & Hf)]]); try done.
  - intros [= <- <- <-]. eapply books_delete; [done..|]. by rewrite booked_app.
  - injection E as ->. intros [= <- <- <-]. by apply books_same.
  - injection E as ->. intros [= <- <- <-]. by apply books_same.
Qed.
Lemma m_reap_loop_books now cutoff names reaped cs d r cs' d' :
  (∀ n, n ∈ names → is_pending n = true) →
  m_reap_loop w now cutoff names reaped (cs, d) = (r, (cs', d')) → same_books (cs, d) (cs', d').
Proof.
  revert reaped cs d. induction names as [|p rest IH]; intros reaped cs d Hp.
  { intros [= <- <- <-]. by apply books_same. }
  assert (Hr : ∀ n, n ∈ rest → is_pending n = true) by (intros n Hn; apply Hp; by right).
  cbn [m_reap_loop]. unfold mbind, se_bind.
  destruct (m_reap_file w now cutoff p (cs, d)) as [[[[]|]|e] [cs1 d1]] eqn:E;
    apply m_reap_file_books in E; try (apply Hp; left); intros H;
    try (injection H as <- <- <-; done); (etransitivity; [exact E|by eapply IH]).
Qed.
Lemma m_reap_books max_age cs d r cs' d' :
  m_reap_older_than w max_age (cs, d) = (r, (cs', d')) → same_books (cs, d) (cs', d').
Proof.
  unfold m_reap_older_than. destruct (wal_pending w d) as [[names|e] d1] eqn:E;
    apply wal_pending_inv in E as (_ & Hf & Hn).
  - destruct Hn as [[= ->]|(_ & ? & ?)]; [|done]. intros H.
    etransitivity; [by apply (books_same cs cs d d1)|]. eapply m_reap_loop_books; [|done].
    by intros n [? _]%pending_names_elem.
  - intros [= <- <- <-]. by apply books_same.
Qed.

Lemma m_read_inv p cs d r cs' d' :
  m_read w p (cs, d) = (r, (cs', d')) →
  files d' = files d ∧ (∀ k, k ≠ oi_wal_crc_mismatch_total → total k cs' = total k cs)
  ∧ ∀ b, r = Ok b → is_Some (files d !! p).
Proof.
  unfold m_read, mbind, se_bind, se_snd, se_map_err. cbn [fst snd].
  destruct (fs_read p d) as [[bytes|e] d1] eqn:E;
    apply fs_read_inv in E as (_ & Hf & [(f & Hl & Hr)|(e' & Hr & _)]); try done; cbn [map_err].
  - destruct (crc_mismatch bytes); intros [= <- <- <-]; (split; [done|]); (split; [|eauto]); [|done].
    intros k Hk. rewrite total_snoc. simpl. rewrite decide_False by done. lia.
  - intros [= <- <- <-]. done.
Qed.

Lemma m_quarantine_inv p cs d r cs' d' :
  m_quarantine p (cs, d) = (r, (cs', d')) →
  r = Ok tt ∧ ((∃ f, files d !! p = Some f ∧ cs' = cs ++ [Increment oi_wal_quarantined_total 1]
                 ∧ files d' = <[corrupt_name p := f]> (delete p (files d)))
               ∨ (cs' = cs ∧ files d' = files d)).
Proof.
  unfold m_quarantine, mbind, se_bind, se_try, se_snd. cbn [fst snd].
  destruct (fs_rename p (corrupt_name p) d) as [[[]|e] d1] eqn:E;
    apply fs_rename_inv in E as (_ & [(f & ? & Hl & Hf)|(e' & ? & Hf & _)]); try done;
    intros [= <- <- <-]; eauto 10.
Qed.
Lemma m_quarantine_books p cs d r cs' d' :
  is_pending p = true → m_quarantine p (cs, d) = (r, (cs', d')) → same_books (cs, d) (cs', d').
Proof.
  intros Hp (_ & [(f & Hl & -> & Hf)|[-> Hf]])%m_quarantine_inv; [|by apply books_same].
  assert (Hne : ∀ q, is_pending q = true → corrupt_name p ≠ q)
    by (intros q Hq <-; by rewrite corrupt_not_pending in Hq).
  unfold same_books. cbn [fst snd]. rewrite booked_app.
  rewrite (queue_less d d' p); [|done|eauto|..].
  - change (booked cs + -1 - (queue_length d - 1) = booked cs - queue_length d). lia.
  - rewrite Hf, lookup_insert_ne by auto. apply lookup_delete_eq.
  - intros q Hq Hqp. by rewrite Hf, lookup_insert_ne, lookup_delete_ne by auto.
Qed.

Lemma quiet_bind {E A B} (m : SE Disk E A) (k : A → SE Metered E B) cs d r cs' d' :
  (se_snd m ≫= k) (cs, d) = (r, (cs', d')) →
  (∃ e, r = Err e ∧ cs' = cs) ∨ ∃ a d1, k a (cs, d1) = (r, (cs', d')).
Proof.
  unfold mbind, se_bind, se_snd. cbn [fst snd].
  destruct (m d) as [[a|e] d1]; [right; eauto|]. intros [= <- <- <-]. left. eauto.
Qed.

Lemma m_append_calls snaps cs d r cs' d' :
  m_append w snaps (cs, d) = (r, (cs', d')) →
  booked cs' = booked cs + match r with Ok _ => 1 | Err _ => 0 end.
Proof.
  assert (Hz : booked cs = booked cs + 0) by lia.
  unfold m_append. intros [(e & H & ->)|(payload & [cs1 d1] & H & Hr)]%se_bind_inv;
    unfold se_lift in H; injection H as _ <- <-; [exact Hz|].
  do 8 (cbv zeta in Hr; apply quiet_bind in Hr as [(e & -> & ->)|(? & ? & Hr)]; [exact Hz|]).
  do 2 (apply se_bind_inv in Hr as [(e & H & ->)|(? & [] & H & Hr)]; [discriminate H|];
        injection H as _ <- <-).
  apply se_bind_inv in Hr as [(e & H & ->)|(u & [cs2 d2] & H & Hr)];
    apply m_refresh_inv in H as (_ & _ & ? & Hcs); [done|].
  unfold mbind, se_bind, se_try, se_snd in Hr. cbn [fst snd] in Hr.
  destruct (count_pending w d2) as [n d3]. injection Hr as <- <- _.
  assert (Hbytes : ∀ n, booked [Increment oi_wal_write_bytes_total n] = 0) by done.
  assert (Hset : ∀ v v', booked [SetGauge oi_wal_pending_files v;
                                 SetGauge oi_wal_oldest_pending_age_seconds v'] = 0) by done.
  destruct Hcs as [->|[_ ->]]; rewrite !booked_app, Hbytes, ?Hset;
    change (booked [Increment oi_wal_writes_total 1]) with 1; lia.
Qed.

(** A name no file has, from a clock past the epoch. *)
Definition next_fresh (d : Disk) : Prop :=
  ∀ ts, clock d = Some ts → 0 ≤ ts ∧ files d !! next_name d ts = None.

Lemma m_append_inv snaps cs d r cs' d' :
  next_fresh d → m_append w snaps (cs, d) = (r, (cs', d')) →
  same_books (cs, d) (cs', d') ∧ ∀ p, r = Ok p → is_pending p = true.
Proof.
  intros Hfr H. pose proof (m_append_calls _ _ _ _ _ _ H) as Hb.
  pose proof (append_erases w snaps (cs, d)) as Ha. rewrite H in Ha. cbn [fst snd] in Ha.
  apply append_frame in Ha as [_ Hf]. unfold same_books. cbn [fst snd]. rewrite Hb.
  destruct r as [p|e].
  - destruct Hf as (ts & payload & Hts & _ & -> & Hf). destruct (Hfr ts Hts) as [H0 Hn].
    pose proof (final_name_pending ts _ H0 : is_pending (next_name d ts) = true) as Hp.
    assert (Hpd : ∀ q, is_pending q = true → q ≠ tmp_name (next_name d ts))
      by (intros q Hq ->; by rewrite tmp_not_pending in Hq).
    split; [|by intros q [= <-]].
    rewrite (queue_less d' d (next_name d ts)); [lia|done| |done|].
    + rewrite Hf by auto. rewrite decide_True by done. by eexists.
    + intros q Hq Hne. by rewrite Hf, decide_False by auto.
  - split; [|done]. rewrite (queue_same d d'); [lia|]. intros p Hp.
    rewrite Hf; [done|]. intros ts _ ->. by rewrite tmp_not_pending in Hp.
Qed.

(** ** The drainer and the store *)

Section runs.
Context {W : Type}.

(** A cycle keeps the books, and counts as drained what it acknowledged. *)
Lemma m_drain_loop_books (target : OiRepository W) names n cs d x r cs' d' x' :
  (∀ p, p ∈ names → is_pending p = true) →
  m_drain_loop w target names n ((cs, d), x) = (r, ((cs', d'), x')) →
  same_books (cs, d) (cs', d') ∧ total oi_wal_drained_total cs' = total oi_wal_drained_total cs
  ∧ ∀ n', r = Ok n' →
      n ≤ n' ∧ n' - n = total oi_wal_acks_total cs' - total oi_wal_acks_total cs.
Proof.
  revert n cs d x. induction names as [|p rest IH]; intros n cs d x Hp.
  { intros [= <- <- <- <-]. split; [done|]. split; [done|]. intros n' [= <-]. lia. }
  assert (Hrest : ∀ q, q ∈ rest → is_pending q = true) by (intros q Hq; apply Hp; by right).
  specialize (Hp p ltac:(left)).
  cbn [m_drain_loop]. unfold mbind, se_bind, se_try, se_fst, se_snd. cbn [fst snd].
  destruct (m_read w p (cs, d)) as [rd [cs1 d1]] eqn:Er.
  apply m_read_inv in Er as (Hf1 & Ht1 & Hin). cbn [fst snd].
  assert (Hb1 : same_books (cs, d) (cs1, d1)).
  { apply books_same; [done|]. unfold booked. by rewrite !Ht1. }
  destruct rd as [b|e]; cbn beta iota; cbn [fst snd].
  - destruct (upsert_snapshots target b x) as [[u|e] x1]; cbn [fst snd].
    2:{ unfold se_fail. intros [= <- <- <- <-]. split; [done|]. split; [by apply Ht1|done]. }
    destruct (m_ack w p (cs1, d1)) as [ra [cs2 d2]] eqn:Ea.
    pose proof (m_ack_books _ _ _ _ _ _ Hp Ea) as Hb2.
    apply m_ack_inv in Ea as [(-> & _ & -> & _)|(-> & _ & Hno)].
    + intros H. destruct (IH _ _ _ _ Hrest H) as (Hb & Hd & Hn). split; [|split].
      * by do 2 (etransitivity; [done|]).
      * rewrite Hd, total_snoc, Ht1 by done. simpl. lia.
      * intros n' Hr'. destruct (Hn n' Hr') as [Hle Hn']. rewrite total_snoc, Ht1 in Hn' by done.
        simpl in Hn'. lia.
    + destruct Hno as [Hnone|[e ->]].
      { rewrite Hf1 in Hnone. destruct (Hin b eq_refl) as [f Hf]. congruence. }
      intros [= <- <- <- <-]. split; [by etransitivity|]. split; [by apply Ht1|done].
  - destruct (m_quarantine p (cs1, d1)) as [rq [cs2 d2]] eqn:Eq.
    pose proof (m_quarantine_books _ _ _ _ _ _ Hp Eq) as Hb2.
    apply m_quarantine_inv in Eq as (-> & Hcs). cbn [fst snd].
    assert (Ht2 : ∀ k, k ≠ oi_wal_quarantined_total → total k cs2 = total k cs1).
    { intros k Hk. destruct Hcs as [(f & _ & -> & _)|[-> _]]; [|done].
      rewrite total_snoc. simpl. rewrite decide_False by done. lia. }
    intros H. destruct (IH _ _ _ _ Hrest H) as (Hb & Hd & Hn). split; [|split].
    + by do 2 (etransitivity; [done|]).
    + by rewrite Hd, Ht2, Ht1.
    + intros n' Hr'. destruct (Hn n' Hr') as [Hle Hn']. by rewrite Ht2, Ht1 in Hn'.
Qed.

Lemma m_drain_once_books (target : OiRepository W) cs d x r cs' d' x' :
  m_drain_once w target ((cs, d), x) = (r, ((cs', d'), x')) →
  same_books (cs, d) (cs', d')
  ∧ total oi_wal_drained_total cs' - total oi_wal_drained_total cs
    = match r with
      | Ok _ => total oi_wal_acks_total cs' - total oi_wal_acks_total cs
      | Err _ => 0
      end.
Proof.
  unfold m_drain_once. unfold mbind, se_bind, se_fst at 1, se_snd at 1. cbn [fst snd].
  destruct (wal_pending w d) as [[names|e] d1] eqn:E; apply wal_pending_inv in E as (_ & Hf & Hn).
  2:{ intros [= <- <- <- <-]. split; [by apply books_same|]. lia. }
  destruct Hn as [[= ->]|(_ & ? & ?)]; [|done].
  assert (Hb0 : same_books (cs, d) (cs, d1)) by (by apply books_same).
  assert (Hp : ∀ p, p ∈ pending_names (files d) → is_pending p = true)
    by (by intros p [? _]%pending_names_elem).
  destruct (pending_names (files d)) as [|p rest]; [intros [= <- <- <- <-]; split; [done|lia]|].
  destruct (m_drain_loop w target (p :: rest) 0 (cs, d1, x)) as [r1 [[cs1 d2] x1]] eqn:E.
  apply m_drain_loop_books in E as (Hb & Hd & Hn); [|done].
  assert (Hb1 : same_books (cs, d) (cs1, d2)) by (by etransitivity).
  destruct r1 as [n|e]; [|intros [= <- <- <- <-]; split; [done|lia]].
  destruct (Hn n eq_refl) as [Hle Hn']. destruct (Z.ltb_spec 0 n); intros [= <- <- <- <-].
  - split; [|rewrite !total_snoc, Hd; simpl; lia]. etransitivity; [done|].
    apply books_same; [done|]. rewrite booked_app. change (booked cs1 + 0 = booked cs1). lia.
  - split; [done|lia].
Qed.

Lemma m_tick_books (target : OiRepository W) leads max_age cs d x r cs' d' x' :
  m_drainer_tick w target leads max_age ((cs, d), x) = (r, ((cs', d'), x')) →
  same_books (cs, d) (cs', d').
Proof.
  unfold m_drainer_tick, se_fst. cbn [fst snd].
  destruct (m_refresh_metrics w (cs, d)) as [r0 [cs0 d0]] eqn:E0. apply m_refresh_books in E0.
  cbn [fst snd]. destruct (match leads with Some g => g x | None => true end).
  - destruct (m_drain_once w target ((cs0, d0), x)) as [r1 [[cs1 d1] x1]] eqn:E1.
    apply m_drain_once_books in E1 as [E1 _]. cbn [fst snd].
    destruct (m_refresh_metrics w (cs1, d1)) as [r2 [cs2 d2]] eqn:E2. apply m_refresh_books in E2.
    intros [= <- <- <- <-]. by do 2 (etransitivity; [done|]).
  - destruct max_age as [a|]; cbn [fst snd]; [|by intros [= <- <- <- <-]].
    destruct (m_reap_older_than w a (cs0, d0)) as [r1 [cs1 d1]] eqn:E1. apply m_reap_books in E1.
    intros [= <- <- <- <-]. by etransitivity.
Qed.

Lemma m_upsert_books (inner : OiRepository W) snaps cs d x r cs' d' x' :
  next_fresh d → m_walbacked_upsert inner w snaps ((cs, d), x) = (r, ((cs', d'), x')) →
  same_books (cs, d) (cs', d').
Proof.
  intros Hfr. unfold m_walbacked_upsert. destruct snaps as [|s snaps]; [by intros [= <- <- <- <-]|].
  unfold mbind, se_bind, se_try, se_fst, se_snd. cbn [fst snd].
  destruct (m_append w (s :: snaps) (cs, d)) as [[p|e] [cs1 d1]] eqn:E1;
    apply m_append_inv in E1 as [Hb Hp]; try done; cbn beta iota; cbn [fst snd].
  2:{ by intros [= <- <- <- <-]. }
  destruct (upsert_snapshots inner (s :: snaps) x) as [[u|e] x1]; cbn [fst snd].
  2:{ unfold se_fail. by intros [= <- <- <- <-]. }
  destruct (m_ack w p (cs1, d1)) as [r2 [cs2 d2]] eqn:E2. intros [= <- <- <- <-].
  apply m_ack_books in E2; [|by apply Hp]. by etransitivity.
Qed.

(** ** The tasks of a process, interleaved *)

(** A write after its append, and the drainer task between two of its calls.  The
    repository behind the log is asked in one step. *)
Inductive MWrite := MQueued (path : string) (b : list OiSnapshot) | MAccepted (path : string).
Inductive MDrainer :=
| MIdle
| MNext (rest : list string) (drained : Z)
| MBad (path : string) (rest : list string) (drained : Z)
| MRead (path : string) (b : list OiSnapshot) (rest : list string) (drained : Z)
| MDone (path : string) (rest : list string) (drained : Z)
| MEnd
| MReap (now cutoff : Z) (rest : list string).
Record Process := mkProcess {
  ps_metered : Metered;
  ps_world : W;
  ps_writes : gmap nat MWrite;
  ps_drainer : MDrainer;
}.

Definition begin_write (id : nat) (snaps : list OiSnapshot) (ps : Process) : Process :=
  match snaps with
  | [] => ps
  | _ =>
      match m_append w snaps (ps_metered ps) with
      | (Ok p, m) =>
          mkProcess m (ps_world ps) (<[id := MQueued p snaps]> (ps_writes ps)) (ps_drainer ps)
      | (Err _, m) => mkProcess m (ps_world ps) (ps_writes ps) (ps_drainer ps)
      end
  end.
Definition step_write (inner : OiRepository W) (id : nat) (ps : Process) : Process :=
  match ps_writes ps !! id with
  | Some (MQueued p snaps) =>
      match upsert_snapshots inner snaps (ps_world ps) with
      | (Ok _, x) => mkProcess (ps_metered ps) x (<[id := MAccepted p]> (ps_writes ps)) (ps_drainer ps)
      | (Err _, x) => mkProcess (ps_metered ps) x (delete id (ps_writes ps)) (ps_drainer ps)
      end
  | Some (MAccepted p) =>
      let '(_, m) := m_ack w p (ps_metered ps) in
      mkProcess m (ps_world ps) (delete id (ps_writes ps)) (ps_drainer ps)
  | None => ps
  end.
Definition step_drainer (target : OiRepository W) (gate : option (W → bool))
    (follower_max_age : option Z) (ps : Process) : Process :=
  let go m s := mkProcess m (ps_world ps) (ps_writes ps) s in
  match ps_drainer ps with
  | MIdle =>
      let '(_, m) := m_refresh_metrics w (ps_metered ps) in
      if match gate with Some g => g (ps_world ps) | None => true end then
        match se_snd (wal_pending w) m with
        | (Ok names, m) => go m (MNext names 0)
        | (Err _, m) => go m MEnd
        end
      else match follower_max_age with
           | Some max_age =>
               match wal_pending w m.2 with
               | (Ok names, d) => go (m.1, d) (MReap (default 0 (clock d)) max_age names)
               | (Err _, d) => go (m.1, d) MIdle
               end
           | None => go m MIdle
           end
  | MNext [] drained =>
      go (if 0 <? drained then (emit (E := CoreError) (Increment oi_wal_drained_total drained) (ps_metered ps)).2
          else ps_metered ps) MEnd
  | MNext (p :: rest) drained =>
      match m_read w p (ps_metered ps) with
      | (Ok snaps, m) => go m (MRead p snaps rest drained)
      | (Err _, m) => go m (MBad p rest drained)
      end
  | MBad p rest drained =>
      let '(_, m) := m_quarantine p (ps_metered ps) in go m (MNext rest drained)
  | MRead p snaps rest drained =>
      match upsert_snapshots target snaps (ps_world ps) with
      | (Ok _, x) => mkProcess (ps_metered ps) x (ps_writes ps) (MDone p rest drained)
      | (Err _, x) => mkProcess (ps_metered ps) x (ps_writes ps) MEnd
      end
  | MDone p rest drained =>
      match m_ack w p (ps_metered ps) with
      | (Ok _, m) => go m (MNext rest (drained + 1))
      | (Err _, m) => go m MEnd
      end
  | MEnd => let '(_, m) := m_refresh_metrics w (ps_metered ps) in go m MIdle
  | MReap now cutoff [] => go (ps_metered ps) MIdle
  | MReap now cutoff (p :: rest) =>
      match m_reap_file w now cutoff p (ps_metered ps) with
      | (Ok (Some _), m) => go m (MReap now cutoff rest)
      | (Ok None, m) | (Err _, m) => go m MIdle
      end
  end.

(** The life of a process of the node: writes begin (under names that are not in
    use) and go on beside each other and beside the drainer, while time and the
    database move on by themselves. *)
Inductive life (inner : OiRepository W) (lead : option (W → bool)) (max_age : option Z)
    : Process → Process → Prop :=
| life_begin id snaps ps :
    ps_writes ps !! id = None → next_fresh (ps_metered ps).2 →
    life inner lead max_age ps (begin_write id snaps ps)
| life_write id ps : life inner lead max_age ps (step_write inner id ps)
| life_drainer ps : life inner lead max_age ps (step_drainer inner lead max_age ps)
| life_world cs d x ws s t x' :
    life inner lead max_age (mkProcess (cs, d) x ws s)
      (mkProcess (cs, mkDisk (files d) t (pid d) (counter d) (faults d) (ops d) (back d)) x' ws s).

(** The names the tasks hold are names of the queue. *)
Definition drainer_names (s : MDrainer) : list string :=
  match s with
  | MIdle | MEnd => []
  | MNext rest _ | MReap _ _ rest => rest
  | MBad p rest _ | MRead p _ rest _ | MDone p rest _ => p :: rest
  end.
Definition write_name (t : MWrite) : string :=
  match t with MQueued p _ | MAccepted p => p end.
Definition names_ok (ps : Process) : Prop :=
  (∀ id t, ps_writes ps !! id = Some t → is_pending (write_name t) = true)
  ∧ ∀ p, p ∈ drainer_names (ps_drainer ps) → is_pending p = true.

Lemma begin_write_books id snaps ps :
  names_ok ps → next_fresh (ps_metered ps).2 →
  names_ok (begin_write id snaps ps) ∧ same_books (ps_metered ps) (ps_metered (begin_write id snaps ps)).
Proof.
  intros [Hw Hd] Hf. unfold begin_write. destruct snaps as [|s0 l]; [done|].
  destruct (ps_metered ps) as [cs d] eqn:Em.
  destruct (m_append w (s0 :: l) (cs, d)) as [[p|e] [cs' d']] eqn:E;
    apply m_append_inv in E as [Hb Hp]; try done. split; [|done]. split; [|done].
  intros i t. simpl. intros [[<- <-]|[_ ?]]%lookup_insert_Some; [by apply Hp|by eapply Hw].
Qed.

Lemma step_write_books inner id ps :
  names_ok ps →
  names_ok (step_write inner id ps) ∧ same_books (ps_metered ps) (ps_metered (step_write inner id ps)).
Proof.
  intros [Hw Hd]. unfold step_write. destruct (ps_writes ps !! id) as [t|] eqn:Et; [|done].
  pose proof (Hw id t Et) as Hp. destruct t as [p snaps|p]; simpl in Hp.
  - destruct (upsert_snapshots inner snaps (ps_world ps)) as [[u|e] x]; (split; [|done]); (split; [|done]).
    + intros i t. simpl. intros [[<- <-]|[_ ?]]%lookup_insert_Some; [done|by eapply Hw].
    + intros i t. simpl. intros [_ ?]%lookup_delete_Some. by eapply Hw.
  - destruct (ps_metered ps) as [cs d]. destruct (m_ack w p (cs, d)) as [r [cs' d']] eqn:E.
    apply m_ack_books in E; [|done]. split; [|done]. split; [|done].
    intros i t. simpl. intros [_ ?]%lookup_delete_Some. by eapply Hw.
Qed.

Lemma step_drainer_books target lead max_age ps :
  names_ok ps →
  names_ok (step_drainer target lead max_age ps)
  ∧ same_books (ps_metered ps) (ps_metered (step_drainer target lead max_age ps)).
Proof.
  intros [Hw Hd]. unfold step_drainer. destruct (ps_metered ps) as [cs d] eqn:Em.
  assert (Hrest : ∀ p rest, (∀ q, q ∈ p :: rest → is_pending q = true) →
    is_pending p = true ∧ ∀ q, q ∈ rest → is_pending q = true).
  { intros p rest H. split; [apply H; left|]. intros q Hq. apply H. by right. }
  assert (Hcons : ∀ p rest, is_pending p = true → (∀ q, q ∈ rest → is_pending q = true) →
    ∀ q, q ∈ p :: rest → is_pending q = true) by (by intros p rest Hp Hr q [->|?]%elem_of_cons; [|apply Hr]).
  assert (Hnil : ∀ q : string, q ∈ [] → is_pending q = true) by (by intros q ?%not_elem_of_nil).
  destruct (ps_drainer ps) as [|[|p rest] n|p rest n|p snaps rest n|p rest n| |now cutoff [|p rest]]; simpl in Hd;
    try (apply Hrest in Hd as [Hp Hd]).
  - destruct (m_refresh_metrics w (cs, d)) as [r [cs1 d1]] eqn:E. apply m_refresh_books in E.
    assert (Hlist : ∀ r0 d2, wal_pending w d1 = (r0, d2) → same_books (cs, d) (cs1, d2)
      ∧ ∀ names, r0 = Ok names → ∀ q, q ∈ names → is_pending q = true).
    { intros r0 d2 (_ & Hf & Hn)%wal_pending_inv. split; [etransitivity; [done|by apply books_same]|].
      intros names ->. destruct Hn as [[= ->]|(_ & ? & ?)]; [|done]. by intros q [? _]%pending_names_elem. }
    destruct (match lead with Some g => _ | None => true end).
    + unfold se_snd. cbn [fst snd].
      destruct (wal_pending w d1) as [[names|e] d2]; destruct (Hlist _ _ eq_refl) as [Hb Hn];
        (split; [split; [exact Hw|]|exact Hb]); [by apply Hn|apply Hnil].
    + destruct max_age as [a|]; cbn [fst snd]; [|split; [split; [exact Hw|apply Hnil]|exact E]].
      destruct (wal_pending w d1) as [[names|e] d2]; destruct (Hlist _ _ eq_refl) as [Hb Hn];
        (split; [split; [exact Hw|]|exact Hb]); [by apply Hn|apply Hnil].
  - split; [split; [exact Hw|apply Hnil]|]. simpl.
    destruct (0 <? n); [|done]. apply books_same; [done|]. rewrite booked_app.
    change (booked cs + 0 = booked cs). lia.
  - destruct (m_read w p (cs, d)) as [[snaps|e] [cs1 d1]] eqn:E; apply m_read_inv in E as (Hf & Ht & _);
      (split; [split; [exact Hw|by apply Hcons]|]);
      (apply books_same; [exact Hf|]; unfold booked; by rewrite !Ht).
  - destruct (m_quarantine p (cs, d)) as [r [cs1 d1]] eqn:E. by apply m_quarantine_books in E.
  - destruct (upsert_snapshots target snaps (ps_world ps)) as [[u|e] x]; (split; [split; [exact Hw|]|done]).
    + by apply Hcons.
    + apply Hnil.
  - destruct (m_ack w p (cs, d)) as [[u|e] [cs1 d1]] eqn:E; (apply m_ack_books in E; [|exact Hp]);
      (split; [split; [exact Hw|]|exact E]); [exact Hd|apply Hnil].
  - destruct (m_refresh_metrics w (cs, d)) as [r [cs1 d1]] eqn:E. by apply m_refresh_books in E.
  - done.
  - destruct (m_reap_file w now cutoff p (cs, d)) as [[[b|]|e] [cs1 d1]] eqn:E;
      (apply m_reap_file_books in E; [|exact Hp]); (split; [split; [exact Hw|]|exact E]);
      [exact Hd|apply Hnil..].
Qed.

Lemma life_books inner lead max_age ps ps' :
  life inner lead max_age ps ps' → names_ok ps →
  names_ok ps' ∧ same_books (ps_metered ps) (ps_metered ps').
Proof.
  intros [id snaps ps0 _ Hf|id ps0|ps0|cs d x ws s t x'] Hok.
  - by apply begin_write_books.
  - by apply step_write_books.
  - by apply step_drainer_books.
  - split; [done|]. by apply books_same.
Qed.

Lemma life_turns inner lead max_age k ps :
  rtc (life inner lead max_age) ps (Nat.iter k (step_drainer inner lead max_age) ps).
Proof. induction k as [|k IH]; [constructor|]. eapply rtc_r; [exact IH|apply life_drainer]. Qed.

Definition no_task (ps : Process) : Prop := ps_writes ps = ∅ ∧ ps_drainer ps = MIdle.
Lemma life_run inner lead max_age ps ps' :
  no_task ps → rtc (life inner lead max_age) ps ps' → same_books (ps_metered ps) (ps_metered ps').
Proof.
  intros [Hw Hd] Hr. assert (Hok : names_ok ps).
  { split; [by intros i t; rewrite Hw, lookup_empty|]. rewrite Hd. by intros p ?%not_elem_of_nil. }
  clear Hw Hd. induction Hr as [ps|ps ps1 ps2 Hs _ IH]; [done|].
  destruct (life_books _ _ _ _ _ Hs Hok) as [Hok1 Hb]. etransitivity; [exact Hb|by apply IH].
Qed.

(** A write, and a turn of the drainer, of which nothing else runs in between are
    those of the sequential definitions. *)
Lemma write_steps_alone inner id snaps m x ws s r m' x' :
  snaps ≠ [] → ws !! id = None →
  m_walbacked_upsert inner w snaps (m, x) = (r, (m', x')) →
  Nat.iter 2 (step_write inner id) (begin_write id snaps (mkProcess m x ws s)) = mkProcess m' x' ws s.
Proof.
  intros Hne Hid. unfold m_walbacked_upsert, begin_write. destruct snaps as [|s0 l]; [done|].
  unfold mbind, se_bind, se_fst, se_snd, se_try. cbn [fst snd ps_metered ps_world ps_writes ps_drainer].
  assert (Hstop : ∀ m x, step_write inner id (mkProcess m x ws s) = mkProcess m x ws s).
  { intros m0 x0. unfold step_write. cbn [ps_writes]. by rewrite Hid. }
  destruct (m_append w (s0 :: l) m) as [[p|e] m1]; cbn [Nat.iter nat_rect fst snd].
  2:{ intros [= <- <- <-]. by rewrite !Hstop. }
  set (f := step_write inner id). unfold f at 2, step_write. cbn [ps_metered ps_world ps_writes ps_drainer].
  rewrite lookup_insert_eq. destruct (upsert_snapshots inner (s0 :: l) x) as [[u|e] x1]; cbn [fst snd].
  - unfold f, step_write. cbn [ps_metered ps_world ps_writes ps_drainer]. rewrite lookup_insert_eq.
    destruct (m_ack w p m1) as [r2 m2]. intros [= <- <- <-].
    by rewrite insert_insert_eq, delete_insert_id.
  - unfold se_fail. intros [= <- <- <-]. rewrite delete_insert_id by done. apply Hstop.
Qed.

Section turn.
Context (target : OiRepository W) (lead : option (W → bool)) (max_age : option Z).
Local Abbreviation dstep := (step_drainer target lead max_age).
(** Some number of steps of the drainer. *)
Definition turns (x y : Process) : Prop := ∃ k, Nat.iter k dstep x = y.
Lemma turns_refl x : turns x x.
Proof. by exists 0%nat. Qed.
Lemma turns_step x y : turns (dstep x) y → turns x y.
Proof. intros [k Hk]. exists (S k). by rewrite Nat.iter_succ_r. Qed.
Lemma turns_trans x y z : turns x y → turns y z → turns x z.
Proof. intros [k <-] [l <-]. exists (l + k)%nat. by rewrite Nat.iter_add. Qed.

Lemma loop_steps_alone ws names n m x r m' x' :
  m_drain_loop w target names n (m, x) = (r, (m', x')) →
  turns (mkProcess m x ws (MNext names n))
    (mkProcess m' x' ws (match r with Ok n' => MNext [] n' | Err _ => MEnd end)).
Proof.
  revert n m x. induction names as [|p rest IH]; intros n m x.
  { intros [= <- <- <-]. apply turns_refl. }
  cbn [m_drain_loop]. unfold mbind, se_bind, se_try, se_fst, se_snd, se_fail. cbn [fst snd].
  intros H. apply turns_step. cbn [step_drainer ps_metered ps_world ps_writes ps_drainer].
  unfold step_drainer. cbn [ps_metered ps_world ps_writes ps_drainer].
  destruct (m_read w p m) as [[b|e] m1]; cbn [fst snd] in H; apply turns_step; unfold step_drainer at 1;
    cbn [ps_metered ps_world ps_writes ps_drainer].
  - destruct (upsert_snapshots target b x) as [[u|e] x1]; cbn [fst snd] in H.
    2:{ injection H as <- <- <-. apply turns_refl. }
    apply turns_step. unfold step_drainer at 1. cbn [ps_metered ps_world ps_writes ps_drainer].
    destruct (m_ack w p m1) as [[u'|e] m2]; [exact (IH _ _ _ H)|].
    injection H as <- <- <-. apply turns_refl.
  - destruct (m_quarantine p m1) as [[u|e'] m2] eqn:Eq; [exact (IH _ _ _ H)|].
    destruct m1, m2. by apply m_quarantine_inv in Eq as [? _].
Qed.

Lemma reap_steps_alone ws now cutoff names reaped m x r m' :
  m_reap_loop w now cutoff names reaped m = (r, m') →
  turns (mkProcess m x ws (MReap now cutoff names)) (mkProcess m' x ws MIdle).
Proof.
  revert reaped m. induction names as [|p rest IH]; intros reaped m; cbn [m_reap_loop].
  { intros [= <- <-]. apply turns_step, turns_refl. }
  unfold mbind, se_bind. intros H. apply turns_step. unfold step_drainer at 1.
  cbn [ps_metered ps_world ps_writes ps_drainer].
  destruct (m_reap_file w now cutoff p m) as [[[[]|]|e] m1]; try exact (IH _ _ H);
    injection H as <- <-; apply turns_refl.
Qed.

Lemma turn_steps_alone ws m x r m' x' :
  m_drainer_tick w target lead max_age (m, x) = (r, (m', x')) →
  turns (mkProcess m x ws MIdle) (mkProcess m' x' ws MIdle).
Proof.
  intros H. apply turns_step. revert H. unfold m_drainer_tick, step_drainer at 1, se_fst.
  cbn [fst snd ps_metered ps_world ps_writes ps_drainer].
  destruct (m_refresh_metrics w m) as [r0 m0]. cbn [fst snd].
  destruct (match lead with Some g => g x | None => true end).
  - assert (Hend : ∀ m1 x1, (let '(r2, m2) := m_refresh_metrics w m1 in (r2, (m2, x1))) = (r, (m', x')) →
      turns (mkProcess m1 x1 ws MEnd) (mkProcess m' x' ws MIdle)).
    { intros m2 x2 H2. apply turns_step. revert H2. unfold step_drainer at 1.
      cbn [ps_metered ps_world ps_writes ps_drainer].
      destruct (m_refresh_metrics w m2) as [r3 m3]. intros [= <- <- <-]. apply turns_refl. }
    unfold m_drain_once, mbind, se_bind. unfold se_fst at 1. cbn [fst snd].
    destruct (se_snd (wal_pending w) m0) as [[names|e] m1]; [|apply Hend].
    destruct names as [|p rest].
    { intros H. apply turns_step. unfold step_drainer at 1. by apply Hend. }
    destruct (m_drain_loop w target (p :: rest) 0 (m1, x)) as [r1 [m2 x2]] eqn:El.
    intros H. eapply turns_trans; [by eapply loop_steps_alone|]. revert H. destruct r1 as [n|e].
    + intros H. apply turns_step. revert H. unfold step_drainer at 1.
      cbn [ps_metered ps_world ps_writes ps_drainer]. destruct (0 <? n); [|apply Hend].
      destruct m2 as [cs2 d2]. apply Hend.
    + apply Hend.
  - destruct max_age as [a|]; [|intros [= <- <- <-]; apply turns_refl].
    unfold m_reap_older_than. destruct m0 as [cs0 d0]. cbn [fst snd].
    destruct (wal_pending w d0) as [[names|e] d1]; [|intros [= <- <- <-]; apply turns_refl].
    destruct (m_reap_loop w (default 0 (clock d1)) a names 0 (cs0, d1)) as [r1 m1] eqn:El.
    intros [= <- <- <-]. by eapply reap_steps_alone.
Qed.
End turn.

(** A leader's turn leaves the gauge exact. *)
Lemma tick_gauge (target : OiRepository W) lead max_age cs d x r cs' d' x' :
  no_faults d → match lead with Some g => g x = true | None => True end →
  m_drainer_tick w target lead max_age ((cs, d), x) = (r, ((cs', d'), x')) →
  gauge oi_wal_pending_files cs' = Some (Exactly (queue_length d')).
Proof.
  intros Hnf Hl. unfold m_drainer_tick, se_fst. cbn [fst snd].
  destruct (m_refresh_metrics w (cs, d)) as [r0 [cs0 d0]] eqn:E0.
  apply m_refresh_inv in E0 as (He0 & _). cbn [fst snd].
  assert ((match lead with Some g => g x | None => true end) = true) as -> by (by destruct lead).
  pose proof (drain_once_erases w target ((cs0, d0), x)) as Hd.
  destruct (m_drain_once w target ((cs0, d0), x)) as [r1 [[cs1 d1] x1]]. cbn [bare fst snd] in *.
  assert (He1 : env_eq d0 d1).
  { apply drain_once_unfold in Hd as (d2 & He & _ & [Hd|(_ & _ & [= -> _])]); [|done].
    apply drain_loop_frame in Hd as [He' _]. by eapply env_eq_trans. }
  destruct (m_refresh_metrics w (cs1, d1)) as [r2 [cs2 d2]] eqn:E2.
  apply m_refresh_inv in E2 as (_ & Hf & _ & Hcs). intros [= <- <- <- <-].
  destruct Hcs as [->|[Hno _]].
  - rewrite (queue_same d1 d2) by (by rewrite Hf). rewrite cons_middle, app_assoc, gauge_snoc.
    rewrite decide_False by done. rewrite gauge_snoc. by rewrite decide_True.
  - destruct Hno. eapply no_faults_env; [|done]. by eapply no_faults_env.
Qed.
End runs.
End accounting.

(** C14. The log's metrics account for its files.  The instrumented store and
    drainer do to disk and database exactly what the bare ones do.  However long
    a process of a node writes and drains, with any number of writes in flight
    beside the drainer or the reaper, so that each may find a file the other has
    removed, with refused inserts, unreadable files, expiry and failing file
    operations, as long as no append is given a name that is in use and the clock
    is past the epoch, the files in its queue are those it started with, plus the
    writes counted, minus the acknowledged, the expired and the quarantined ones.
    (A removal and its counter are one step.)  After a leader's turn on a working
    disk that no write disturbs the gauge shows exactly their number.  The drained
    counter is weaker: an undisturbed cycle that ends well adds what it
    acknowledged, but a cycle that ends with an error adds nothing, even if it
    acknowledged files before. *)
Theorem wal_counters_account {CL : CodecLaws SC} {W} w (repo : OiRepository W) lead max_age :
  (∀ snaps, erases bare (m_walbacked_upsert repo w snaps) (walbacked_upsert repo w snaps))
  ∧ erases bare (m_drainer_tick w repo lead max_age) (drainer_tick w repo lead max_age)
  ∧ (∀ ps ps' cs d', no_task ps → (ps_metered ps).1 = [] →
       rtc (life w repo lead max_age) ps ps' → ps_metered ps' = (cs, d') →
       queue_length d' = queue_length (ps_metered ps).2 + total oi_wal_writes_total cs
         - total oi_wal_acks_total cs - total oi_wal_reaped_total cs
         - total oi_wal_quarantined_total cs)
  ∧ (∀ cs d x r cs' d' x', no_faults d → match lead with Some g => g x = true | None => True end →
       m_drainer_tick w repo lead max_age ((cs, d), x) = (r, ((cs', d'), x')) →
       gauge oi_wal_pending_files cs' = Some (Exactly (queue_length d')))
  ∧ ∀ cs d x r cs' d' x',
      m_drain_once w repo ((cs, d), x) = (r, ((cs', d'), x')) →
      total oi_wal_drained_total cs' - total oi_wal_drained_total cs
      = match r with
        | Ok _ => total oi_wal_acks_total cs' - total oi_wal_acks_total cs
        | Err _ => 0
        end.
Proof.
  split; [|split; [|split; [|split]]].
  - apply upsert_erases.
  - apply tick_erases.
  - intros ps ps' cs d' Hn He Hr Hm. apply life_run in Hr; [|done]. revert Hr.
    unfold same_books, booked. rewrite He, Hm. cbn [fst snd]. change (total _ []) with 0. lia.
  - apply tick_gauge.
  - by intros cs d x r cs' d' x' [_ H]%m_drain_once_books.
Qed.
End metered.

(** * A concrete cycle *)

(** A database that takes only the first of two queued batches. *)
Definition ex_flaky : OiRepository (DL := z_decimal) (TL := z_time) ExStore :=
  with_default_funding
    (λ l w, if bool_decide (native_close <$> l = [1]) then upsert_snapshots ex_primary l w
            else (Err (CStorage "down"), w))
    (λ _, mret tt) (λ _ _ _, mret []) (λ _, mret None).
Local Abbreviation ex_cycle :=
  (m_drain_once (SC := ex_codec) ex_wal ex_flaky (([], ex_queue), ex_world true)).

(** A race: while the first write has been accepted and not yet acknowledged, the
    drainer finds its file, inserts the batch once more and removes the file; the
    write's own removal then finds nothing. *)
Definition ex_process : Process :=
  mkProcess ([], ex_disk (λ _, None)) (ex_world true) ∅ MIdle.
Definition ex_race : Process :=
  let write := step_write ex_wal (ex_db true) 0 in
  let drain := step_drainer (SC := ex_codec) ex_wal (ex_db true) None None in
  write (Nat.iter 4 drain (write (begin_write (SC := ex_codec) ex_wal 0 ex_batch ex_process))).
Lemma ex_race_life :
  rtc (life (SC := ex_codec) ex_wal (ex_db true) None None) ex_process ex_race.
Proof.
  unfold ex_race. eapply rtc_l.
  { apply (life_begin (SC := ex_codec) ex_wal (ex_db true) None None 0 ex_batch); [reflexivity|].
    intros ts [= <-]. split; [done|apply lookup_empty]. }
  generalize (begin_write (SC := ex_codec) ex_wal 0 ex_batch ex_process). intros ps.
  eapply rtc_l; [apply (life_write (SC := ex_codec) ex_wal (ex_db true) None None 0)|].
  eapply rtc_r; [apply life_turns|].
  apply (life_write (SC := ex_codec) ex_wal (ex_db true) None None 0).
Qed.

(** The cycle drains one file, counts its acknowledgement, and counts nothing
    drained; in the race one write is counted and one acknowledgement. *)
Lemma wal_counters_account_witness :
  (queue_length ex_queue, queue_length ex_cycle.2.1.2) = (2, 1)
  ∧ total oi_wal_acks_total ex_cycle.2.1.1 = 1
  ∧ total oi_wal_drained_total ex_cycle.2.1.1 = 0
  ∧ length (st_rows (ps_world ex_race)) = 4%nat
  ∧ total oi_wal_writes_total (ps_metered ex_race).1 = 1
  ∧ queue_length (ps_metered ex_race).2 = 1 - total oi_wal_acks_total (ps_metered ex_race).1.
Proof.
  split; [reflexivity|]. split; [reflexivity|].
  destruct (wal_counters_account (SC := ex_codec) ex_wal ex_flaky None None) as (_ & _ & _ & _ & H).
  split.
  - assert (Hr : ex_cycle.1 = Err (CStorage "down")) by reflexivity. revert Hr.
    destruct ex_cycle as [r [[cs d] x]] eqn:E. cbn [fst snd]. intros ->.
    specialize (H _ _ _ _ _ _ _ E).
    change (total oi_wal_drained_total []) with 0 in H. cbn beta iota in H. lia.
  - split; [reflexivity|]. split; [reflexivity|].
    destruct (wal_counters_account (SC := ex_codec) ex_wal (ex_db true) None None) as (_ & _ & Hl & _ & _).
    rewrite (Hl ex_process ex_race _ _ (conj eq_refl eq_refl) eq_refl ex_race_life (surjective_pairing _)).
    reflexivity.
Defined.
