(* ===== verification/Config.v ===== *)
(** Configuration ([oi-collector/src/config.rs] and [oi-api/src/config.rs]): the
    records, the defaults of absent keys and the required ones.  Reading TOML,
    the environment and their merge are [figment]'s; a [Raw] record is the
    merged document, each key present or absent, with its type already
    checked.  Also the lease the collector's settings ask for
    ([run_async] of runner.rs) and how a lone node fares with it. *)

From Stdlib Require Import ZArith Lia String.
From stdpp Require Import base option list strings.
From S2P Require Import Prelude Domain Lease.
Open Scope Z_scope.
Open Scope oi_scope.

(** * Sections the two programs share *)

Record ClickHouseCfg := mkChCfg {
  ch_url : string; ch_database : string; ch_user : string; ch_password : string }.
Record RedisCfg := mkRedisCfg { rd_url : string }.

Definition default_db : string := "oi".
Definition default_user : string := "default".

Record RawClickHouse := mkRawCh {
  rc_url : option string; rc_database : option string;
  rc_user : option string; rc_password : option string }.

(** A key without a default: its absence is the only way to fail here. *)
Definition required {A} (name : string) (o : option A) : result string A :=
  match o with Some a => Ok a | None => Err ("missing field `" +:+ name +:+ "`") end.

Definition clickhouse_cfg (r : RawClickHouse) : result string ClickHouseCfg :=
  let? url := required "url" (rc_url r) in
  Ok (mkChCfg url (default default_db (rc_database r)) (default default_user (rc_user r))
        (default ""%string (rc_password r))).
Definition redis_cfg (url : option string) : result string RedisCfg :=
  let? url := required "url" url in Ok (mkRedisCfg url).

(** * The collector *)

Record WalCfg := mkWalCfg {
  wal_enabled : bool; wal_dir : string; wal_soft_max_files : Z;
  wal_drain_interval_secs : Z; wal_follower_max_age_secs : option Z }.
Record FailoverCfg := mkFailoverCfg {
  fo_enabled : bool; fo_node_id : option string; fo_key : option string;
  fo_ttl_secs : option Z; fo_refresh_secs : option Z }.
Record Config := mkConfig {
  cfg_clickhouse : ClickHouseCfg; cfg_redis : RedisCfg; cfg_exchanges : list Exchange;
  cfg_failover : FailoverCfg; cfg_wal : WalCfg; cfg_metrics_addr : string }.

Definition default_wal_dir : string := "/var/lib/oi/wal".
Definition default_wal_soft_max : Z := 10000.
Definition default_wal_drain_secs : Z := 10.
Definition default_metrics_addr : string := "0.0.0.0:9090".

Definition wal_default : WalCfg :=
  mkWalCfg false default_wal_dir default_wal_soft_max default_wal_drain_secs None.
Definition failover_default : FailoverCfg := mkFailoverCfg false None None None None.

Record RawWal := mkRawWal {
  rw_enabled : option bool; rw_dir : option string; rw_soft_max_files : option Z;
  rw_drain_interval_secs : option Z; rw_follower_max_age_secs : option Z }.
Record RawFailover := mkRawFailover {
  rf_enabled : option bool; rf_node_id : option string; rf_key : option string;
  rf_ttl_secs : option Z; rf_refresh_secs : option Z }.
Record RawConfig := mkRawConfig {
  raw_clickhouse : option RawClickHouse; raw_redis_url : option (option string);
  raw_exchanges : option (option (list Exchange));
  raw_failover : option RawFailover; raw_wal : option RawWal;
  raw_metrics_addr : option string }.

Definition wal_cfg (r : option RawWal) : WalCfg :=
  match r with
  | None => wal_default
  | Some r =>
      mkWalCfg (default false (rw_enabled r)) (default default_wal_dir (rw_dir r))
        (default default_wal_soft_max (rw_soft_max_files r))
        (default default_wal_drain_secs (rw_drain_interval_secs r))
        (rw_follower_max_age_secs r)
  end.
Definition failover_cfg (r : option RawFailover) : FailoverCfg :=
  match r with
  | None => failover_default
  | Some r => mkFailoverCfg (default false (rf_enabled r)) (rf_node_id r) (rf_key r)
                (rf_ttl_secs r) (rf_refresh_secs r)
  end.
(** The [enabled] list of [exchanges], which may be absent with its section. *)
Definition exchanges_cfg (r : option (option (list Exchange))) : list Exchange :=
  default [] (r ≫= id).

Definition config_load (r : RawConfig) : result string Config :=
  let? ch := required "clickhouse" (raw_clickhouse r) in
  let? ch := clickhouse_cfg ch in
  let? rd := required "redis" (raw_redis_url r) in
  let? rd := redis_cfg rd in
  Ok (mkConfig ch rd (exchanges_cfg (raw_exchanges r)) (failover_cfg (raw_failover r))
        (wal_cfg (raw_wal r)) (default default_metrics_addr (raw_metrics_addr r))).

(** * The API server *)

Record TlsCfg := mkTlsCfg { tls_enabled : bool; tls_cert_path : string; tls_key_path : string }.
Record AuthCfg := mkAuthCfg { auth_enabled : bool; auth_tokens : list string }.
Record ApiConfig := mkApiConfig {
  api_clickhouse : ClickHouseCfg; api_redis : RedisCfg; api_grpc_addr : string;
  api_rest_addr : string; api_metrics_addr : string; api_tls : TlsCfg; api_auth : AuthCfg }.

Definition default_grpc_addr : string := "0.0.0.0:50051".
Definition default_rest_addr : string := "0.0.0.0:8080".
Definition default_api_metrics_addr : string := "0.0.0.0:9091".
Definition tls_default : TlsCfg := mkTlsCfg false "" "".
Definition auth_default : AuthCfg := mkAuthCfg false [].

Record RawTls := mkRawTls {
  rt_enabled : option bool; rt_cert_path : option string; rt_key_path : option string }.
Record RawAuth := mkRawAuth { ra_enabled : option bool; ra_tokens : option (list string) }.
Record RawApi := mkRawApi {
  rapi_clickhouse : option RawClickHouse; rapi_redis_url : option (option string);
  rapi_grpc_addr : option string; rapi_rest_addr : option string;
  rapi_metrics_addr : option string; rapi_tls : option RawTls; rapi_auth : option RawAuth }.

Definition tls_cfg (r : option RawTls) : TlsCfg :=
  match r with
  | None => tls_default
  | Some r => mkTlsCfg (default false (rt_enabled r)) (default ""%string (rt_cert_path r))
                (default ""%string (rt_key_path r))
  end.
Definition auth_cfg (r : option RawAuth) : AuthCfg :=
  match r with
  | None => auth_default
  | Some r => mkAuthCfg (default false (ra_enabled r)) (default [] (ra_tokens r))
  end.
Definition api_config_load (r : RawApi) : result string ApiConfig :=
  let? ch := required "clickhouse" (rapi_clickhouse r) in
  let? ch := clickhouse_cfg ch in
  let? rd := required "redis" (rapi_redis_url r) in
  let? rd := redis_cfg rd in
  Ok (mkApiConfig ch rd (default default_grpc_addr (rapi_grpc_addr r))
        (default default_rest_addr (rapi_rest_addr r))
        (default default_api_metrics_addr (rapi_metrics_addr r))
        (tls_cfg (rapi_tls r)) (auth_cfg (rapi_auth r))).

(** * The lease the settings ask for *)

Definition opt_set {A C} (o : option A) (set : A → C → C) (c : C) : C :=
  match o with Some a => set a c | None => c end.
Definition set_key (k : string) (c : LeaseConfig) : LeaseConfig :=
  mkLease (redis_url c) (node_id c) k (ttl_ms c) (refresh_interval_ms c).
Definition set_ttl_secs (t : Z) (c : LeaseConfig) : LeaseConfig :=
  mkLease (redis_url c) (node_id c) (key c) (t * 1000) (refresh_interval_ms c).
Definition set_refresh_secs (t : Z) (c : LeaseConfig) : LeaseConfig :=
  mkLease (redis_url c) (node_id c) (key c) (ttl_ms c) (t * 1000).

(** The failover block of [run_async]. *)
Definition lease_config_of (f : FailoverCfg) (url uuid : string) : option LeaseConfig :=
  if fo_enabled f then
    let lc := lease_config_new url uuid in
    let lc := opt_set (fo_node_id f) (λ id c, with_node_id c id) lc in
    let lc := opt_set (fo_key f) set_key lc in
    let lc := opt_set (fo_ttl_secs f) set_ttl_secs lc in
    let lc := opt_set (fo_refresh_secs f) set_refresh_secs lc in
    Some lc
  else None.

(** [run_loop] of a node whose requests are all answered at once: the flag and
    the slot after [k] ticks, the first at [now]. *)
Fixpoint lone_ticks (lc : LeaseConfig) (now : Z) (k : nat) (held : bool) (s : Slot) : bool * Slot :=
  match k with
  | O => (held, s)
  | S k' =>
      let '(held, s) := lease_loop_step (node_id lc) (ttl_ms lc) Delivered now held s in
      lone_ticks lc (now + refresh_interval_ms lc) k' held s
  end.

(** * Lemmas *)

Lemma tick_leader lc now :
  0 < ttl_ms lc → ∀ exp, now < exp →
  lease_loop_step (node_id lc) (ttl_ms lc) Delivered now true (Some (node_id lc, exp))
  = (true, Some (node_id lc, now + ttl_ms lc)).
Proof.
  intros Ht exp He. unfold lease_loop_step, lease_tick. rewrite refresh_cases by done.
  by rewrite slot_get_live, bool_decide_true by done.
Qed.
Lemma tick_expired lc now exp :
  0 < ttl_ms lc → exp ≤ now →
  lease_loop_step (node_id lc) (ttl_ms lc) Delivered now true (Some (node_id lc, exp))
  = (false, Some (node_id lc, exp)).
Proof.
  intros Ht He. unfold lease_loop_step, lease_tick. rewrite refresh_cases by done.
  unfold slot_get. by rewrite (proj2 (Z.ltb_ge _ _) He).
Qed.
Lemma tick_acquire lc now s :
  slot_get now s = None →
  lease_loop_step (node_id lc) (ttl_ms lc) Delivered now false s
  = (true, Some (node_id lc, now + ttl_ms lc)).
Proof.
  intros Hs. unfold lease_loop_step, lease_tick, slot_set_nx_px. by rewrite Hs.
Qed.

Lemma lone_leader_stays lc k : ∀ now exp,
  0 < ttl_ms lc → 0 ≤ refresh_interval_ms lc < ttl_ms lc → now < exp →
  (lone_ticks lc now k true (Some (node_id lc, exp))).1 = true.
Proof.
  induction k as [|k IH]; intros now exp Ht Hr He; [done|].
  cbn [lone_ticks]. rewrite (tick_leader lc now Ht exp He). apply IH; lia.
Qed.

Lemma lone_leader_flaps lc k : ∀ now exp,
  0 < ttl_ms lc ≤ refresh_interval_ms lc → exp ≤ now →
  (lone_ticks lc now (2 * k) true (Some (node_id lc, exp))).1 = true
  ∧ (lone_ticks lc now (2 * k + 1) true (Some (node_id lc, exp))).1 = false.
Proof.
  induction k as [|k IH]; intros now exp Hr He.
  - split; [done|]. change (2 * 0 + 1)%nat with 1%nat. cbn [lone_ticks].
    by rewrite tick_expired by lia.
  - assert (Hstep : ∀ m, lone_ticks lc now (2 + m) true (Some (node_id lc, exp))
      = lone_ticks lc (now + refresh_interval_ms lc + refresh_interval_ms lc) m true
          (Some (node_id lc, now + refresh_interval_ms lc + ttl_ms lc))).
    { intros m. cbn [Nat.add lone_ticks]. rewrite tick_expired by lia.
      rewrite tick_acquire; [done|]. unfold slot_get.
      by rewrite (proj2 (Z.ltb_ge _ _)) by lia. }
    replace (2 * S k)%nat with (2 + 2 * k)%nat by lia.
    replace (2 + 2 * k + 1)%nat with (2 + (2 * k + 1))%nat by lia.
    rewrite !Hstep. apply IH; lia.
Qed.

(** The refresh interval decides whether a leader can keep its lease.  With
    an interval below the lifetime, as the defaults have it, a lone node whose
    requests are answered is a leader from its first tick on; with an interval
    of at least the lifetime it loses the lead at every second tick, and the
    settings are loaded all the same: nothing compares the two. *)
Theorem lease_refresh_matters f url uuid lc now :
  lease_config_of f url uuid = Some lc → 0 < ttl_ms lc → 0 < refresh_interval_ms lc →
  (refresh_interval_ms lc < ttl_ms lc →
     ∀ k, (lone_ticks lc now (S k) false None).1 = true)
  ∧ (ttl_ms lc ≤ refresh_interval_ms lc →
     ∀ k, (lone_ticks lc now (2 * k + 1) false None).1 = true
          ∧ (lone_ticks lc now (2 * k + 2) false None).1 = false)
  ∧ (fo_ttl_secs f = None → fo_refresh_secs f = None → refresh_interval_ms lc < ttl_ms lc).
Proof.
  intros Hlc Ht Hr.
  assert (Hfirst : ∀ k, lone_ticks lc now (S k) false None
    = lone_ticks lc (now + refresh_interval_ms lc) k true (Some (node_id lc, now + ttl_ms lc))).
  { intros k. cbn [lone_ticks]. by rewrite tick_acquire. }
  split; [|split].
  - intros Hlt k. rewrite Hfirst. apply lone_leader_stays; lia.
  - intros Hge k. replace (2 * k + 1)%nat with (S (2 * k)) by lia.
    replace (2 * k + 2)%nat with (S (2 * k + 1)) by lia. rewrite !Hfirst.
    apply lone_leader_flaps; lia.
  - intros H1 H2. unfold lease_config_of in Hlc. destruct (fo_enabled f); [|done].
    rewrite H1, H2 in Hlc. injection Hlc as <-. simpl.
    by destruct (fo_node_id f), (fo_key f).
Qed.

(** * Concrete runs *)

(** Only the lifetime is shortened: the default interval no longer fits. *)
Definition ex_failover : FailoverCfg := mkFailoverCfg true (Some "a"%string) None (Some 5) None.

Lemma lease_refresh_matters_witness :
  ∃ lc, lease_config_of ex_failover "redis://r" "u" = Some lc ∧ ttl_ms lc = 5000
    ∧ (lone_ticks lc 0 7 false None).1 = true ∧ (lone_ticks lc 0 8 false None).1 = false.
Proof.
  eexists. split; [reflexivity|]. split; [reflexivity|].
  destruct (lease_refresh_matters ex_failover "redis://r" "u" _ 0 eq_refl) as (_ & H & _);
    [reflexivity|reflexivity|].
  exact (H ltac:(vm_compute; discriminate) 3%nat).
Defined.

Example minimal_config :
  config_load (mkRawConfig (Some (mkRawCh (Some "http://ch"%string) None None None))
    (Some (Some "redis://r"%string)) None None None None)
  = Ok (mkConfig (mkChCfg "http://ch" "oi" "default" "") (mkRedisCfg "redis://r") []
          failover_default wal_default "0.0.0.0:9090").
Proof. reflexivity. Qed.
