(* ===== verification/ClickHouse.v ===== *)
(** The ClickHouse repository of [oi-storage/src/clickhouse.rs]: the wire rows,
    their conversions, the query bindings and the migration splitter.  The
    database client is a parameter: a session of inserts ([open], [write],
    [end]) and two query calls. *)

From Stdlib Require Import ZArith Lia String Ascii.
From stdpp Require Import base option list strings.
From S2P Require Import Prelude Externals Concrete Domain Repository.
Open Scope Z_scope.
Open Scope oi_scope.

(** * Pure helpers *)

Definition ch_err (e : string) : CoreError := CStorage ("clickhouse: " +:+ e).

(** [i128] division truncates towards zero; then the cast to [i64]. *)
Definition unix_millis {TL : TimeLib} (t : OffsetDateTime) : Z :=
  as_i64 (unix_timestamp_nanos t ÷ 1000000).

Definition newline : ascii := ascii_of_nat 10.
Definition carriage_return : ascii := ascii_of_nat 13.

(** [str::split(c)]: one piece more than there are separators. *)
Fixpoint split_on (sep : ascii) (s : string) : list string :=
  match s with
  | EmptyString => [EmptyString]
  | String c s' =>
      if Ascii.eqb c sep then EmptyString :: split_on sep s'
      else match split_on sep s' with
           | [] => [String c EmptyString]
           | p :: ps => String c p :: ps
           end
  end.

(** [str::lines]: split at newlines, a final empty piece dropped, a carriage
    return before the newline stripped. *)
Definition strip_cr (s : string) : string :=
  match strip_suffix (String carriage_return EmptyString) s with Some s' => s' | None => s end.
Definition lines (s : string) : list string :=
  let pieces := split_on newline s in
  let pieces := match last pieces with
                | Some EmptyString => take (length pieces - 1) pieces
                | _ => pieces
                end in
  strip_cr <$> pieces.

(** [&line[..idx]] for [idx] the first occurrence of [--], or the whole line. *)
Fixpoint before_comment (s : string) : string :=
  match s with
  | EmptyString => EmptyString
  | String c s' =>
      if starts_with "--" s then EmptyString else String c (before_comment s')
  end.

(** ASCII white space, as [str::trim] removes it. *)
Definition is_white (c : ascii) : bool :=
  let n := nat_of_ascii c in
  (n =? 32)%nat || ((9 <=? n)%nat && (n <=? 13)%nat).
Fixpoint trim_start (s : string) : string :=
  match s with
  | String c s' => if is_white c then trim_start s' else s
  | EmptyString => EmptyString
  end.
Fixpoint trim_end (s : string) : string :=
  match s with
  | EmptyString => EmptyString
  | String c s' =>
      match trim_end s' with
      | EmptyString => if is_white c then EmptyString else String c EmptyString
      | t => String c t
      end
  end.
Definition trim (s : string) : string := trim_end (trim_start s).

Definition split_sql (sql : string) : list string :=
  let stripped :=
    foldr (λ line acc, before_comment line +:+ String newline acc) EmptyString (lines sql) in
  filter (λ s, s ≠ EmptyString) (trim <$> split_on ";"%char stripped).

Definition unit_code (u : UnitKind) : string :=
  match u with Coins => "coins" | Contracts => "contracts" | Usd => "usd" end.
Definition u8_of_bool (b : bool) : Z := if b then 1 else 0.

Section clickhouse.
Context {DL : DecimalLib} {TL : TimeLib}.

(** * Rows *)

Record InstrumentRow := mkInstrumentRow {
  ir_exchange : string; ir_symbol : string; ir_base_asset : string; ir_quote_asset : string;
  ir_is_perpetual : Z; ir_native_unit : string; ir_contract_multiplier : option string;
  ir_price_tick : option string; ir_qty_step : option string; ir_active : Z }.

Record OiRow := mkOiRow {
  r_exchange : string; r_symbol : string;
  r_bucket_ts : OffsetDateTime; r_first_recv_ts : OffsetDateTime; r_last_recv_ts : OffsetDateTime;
  r_samples : Z; r_native_unit : string;
  r_native_open : string; r_native_high : string; r_native_low : string; r_native_close : string;
  r_oi_coins_open : option string; r_oi_coins_high : option string;
  r_oi_coins_low : option string; r_oi_coins_close : option string;
  r_oi_usd_open : option string; r_oi_usd_high : option string;
  r_oi_usd_low : option string; r_oi_usd_close : option string;
  r_price_used_close : option string }.

Record FundingRow := mkFundingRow {
  fr_exchange : string; fr_symbol : string; fr_bucket_ts : OffsetDateTime;
  fr_recv_ts : OffsetDateTime; fr_rate : string;
  fr_next_funding_ts : option OffsetDateTime; fr_interval_hours : option Z }.

Record FundingEventRow := mkEventRow {
  er_exchange : string; er_symbol : string; er_settlement_ts : OffsetDateTime;
  er_rate : string; er_mark_price : option string }.

Definition parse_decimal (name : string) (s : string) : result CoreError Dec :=
  map_err (λ e, CStorage (name +:+ ": " +:+ e)) (dec_from_str s).
Definition parse_exchange (s : string) : result CoreError Exchange :=
  map_err CStorage (exchange_from_str s).

Definition row_to_event (r : FundingEventRow) : result CoreError FundingEvent :=
  let? exchange := parse_exchange (er_exchange r) in
  let? rate := parse_decimal "event rate" (er_rate r) in
  let? mark_price := opt_traverse (parse_decimal "event mark_price") (er_mark_price r) in
  Ok {| ev_instrument := mkId exchange (er_symbol r); ev_settlement_ts := er_settlement_ts r;
        ev_rate := rate; ev_mark_price := mark_price |}.

Definition row_to_funding (r : FundingRow) : result CoreError FundingBar :=
  let? exchange := parse_exchange (fr_exchange r) in
  let? rate := parse_decimal "funding rate" (fr_rate r) in
  Ok {| f_instrument := mkId exchange (fr_symbol r); f_bucket_ts := fr_bucket_ts r;
        f_recv_ts := fr_recv_ts r; f_rate := rate;
        f_next_funding_ts := fr_next_funding_ts r; f_interval_hours := fr_interval_hours r |}.

Definition row_to_snap (r : OiRow) : result CoreError OiSnapshot :=
  let? exchange := parse_exchange (r_exchange r) in
  let unit := if String.eqb (r_native_unit r) "coins" then Coins
              else if String.eqb (r_native_unit r) "contracts" then Contracts
              else if String.eqb (r_native_unit r) "usd" then Usd else Coins in
  let? no := parse_decimal "native_open" (r_native_open r) in
  let? nh := parse_decimal "native_high" (r_native_high r) in
  let? nl := parse_decimal "native_low" (r_native_low r) in
  let? nc := parse_decimal "native_close" (r_native_close r) in
  let? co := opt_traverse (parse_decimal "decimal") (r_oi_coins_open r) in
  let? ch := opt_traverse (parse_decimal "decimal") (r_oi_coins_high r) in
  let? cl := opt_traverse (parse_decimal "decimal") (r_oi_coins_low r) in
  let? cc := opt_traverse (parse_decimal "decimal") (r_oi_coins_close r) in
  let? uo := opt_traverse (parse_decimal "decimal") (r_oi_usd_open r) in
  let? uh := opt_traverse (parse_decimal "decimal") (r_oi_usd_high r) in
  let? ul := opt_traverse (parse_decimal "decimal") (r_oi_usd_low r) in
  let? uc := opt_traverse (parse_decimal "decimal") (r_oi_usd_close r) in
  let? pc := opt_traverse (parse_decimal "decimal") (r_price_used_close r) in
  Ok {| instrument := mkId exchange (r_symbol r); bucket_ts := r_bucket_ts r;
        first_recv_ts := r_first_recv_ts r; last_recv_ts := r_last_recv_ts r;
        samples := r_samples r; native_unit := unit;
        native_open := no; native_high := nh; native_low := nl; native_close := nc;
        oi_coins_open := co; oi_coins_high := ch; oi_coins_low := cl; oi_coins_close := cc;
        oi_usd_open := uo; oi_usd_high := uh; oi_usd_low := ul; oi_usd_close := uc;
        price_used_close := pc |}.

(** The row each insert writes. *)
Definition snap_to_row (s : OiSnapshot) : OiRow :=
  {| r_exchange := code (exchange (instrument s)); r_symbol := symbol (instrument s);
     r_bucket_ts := bucket_ts s; r_first_recv_ts := first_recv_ts s;
     r_last_recv_ts := last_recv_ts s; r_samples := samples s;
     r_native_unit := unit_code (native_unit s);
     r_native_open := dec_to_string (native_open s);
     r_native_high := dec_to_string (native_high s);
     r_native_low := dec_to_string (native_low s);
     r_native_close := dec_to_string (native_close s);
     r_oi_coins_open := dec_to_string <$> oi_coins_open s;
     r_oi_coins_high := dec_to_string <$> oi_coins_high s;
     r_oi_coins_low := dec_to_string <$> oi_coins_low s;
     r_oi_coins_close := dec_to_string <$> oi_coins_close s;
     r_oi_usd_open := dec_to_string <$> oi_usd_open s;
     r_oi_usd_high := dec_to_string <$> oi_usd_high s;
     r_oi_usd_low := dec_to_string <$> oi_usd_low s;
     r_oi_usd_close := dec_to_string <$> oi_usd_close s;
     r_price_used_close := dec_to_string <$> price_used_close s |}.

Definition meta_to_row (m : InstrumentMeta) : InstrumentRow :=
  {| ir_exchange := code (exchange (meta_id m)); ir_symbol := symbol (meta_id m);
     ir_base_asset := base_asset m; ir_quote_asset := quote_asset m;
     ir_is_perpetual := u8_of_bool (is_perpetual m);
     ir_native_unit := unit_code (meta_native_unit m);
     ir_contract_multiplier := dec_to_string <$> contract_multiplier m;
     ir_price_tick := dec_to_string <$> price_tick m;
     ir_qty_step := dec_to_string <$> qty_step m;
     ir_active := u8_of_bool (active m) |}.

Definition funding_to_row (b : FundingBar) : FundingRow :=
  {| fr_exchange := code (exchange (f_instrument b)); fr_symbol := symbol (f_instrument b);
     fr_bucket_ts := f_bucket_ts b; fr_recv_ts := f_recv_ts b;
     fr_rate := dec_to_string (f_rate b);
     fr_next_funding_ts := f_next_funding_ts b; fr_interval_hours := f_interval_hours b |}.

Definition event_to_row (e : FundingEvent) : FundingEventRow :=
  {| er_exchange := code (exchange (ev_instrument e)); er_symbol := symbol (ev_instrument e);
     er_settlement_ts := ev_settlement_ts e; er_rate := dec_to_string (ev_rate e);
     er_mark_price := dec_to_string <$> ev_mark_price e |}.

(** * The client *)

Inductive ChRow :=
| ROi (r : OiRow) | RInstrument (r : InstrumentRow)
| RFunding (r : FundingRow) | REvent (r : FundingEventRow).
Inductive ChBind := BStr (s : string) | BI64 (z : Z).
Inductive ChQuery :=
| SELECT_OHLC_COLUMNS | SELECT_OHLC_LATEST | SELECT_FUNDING_RANGE | SELECT_FUNDING_LATEST
| SELECT_EVENTS_RANGE | SELECT_EVENT_LATEST.

Record ChClient (W : Type) := mkClient {
  ch_insert : string → SE W string unit;
  ch_write : ChRow → SE W string unit;
  ch_end : SE W string unit;
  ch_fetch_oi : ChQuery → list ChBind → SE W string (list OiRow);
  ch_fetch_funding : ChQuery → list ChBind → SE W string (list FundingRow);
  ch_fetch_events : ChQuery → list ChBind → SE W string (list FundingEventRow);
}.
Arguments ch_insert {W}.
Arguments ch_write {W}.
Arguments ch_end {W}.
Arguments ch_fetch_oi {W}.
Arguments ch_fetch_funding {W}.
Arguments ch_fetch_events {W}.

Fixpoint write_rows {W} (c : ChClient W) (rows : list ChRow) : SE W CoreError unit :=
  match rows with
  | [] => mret tt
  | r :: rows' => _ ← se_map_err ch_err (ch_write c r); write_rows c rows'
  end.

(** The body the four inserts share. *)
Definition insert_rows {W} (c : ChClient W) (table : string) (rows : list ChRow)
  : SE W CoreError unit :=
  match rows with
  | [] => mret tt
  | _ => _ ← se_map_err ch_err (ch_insert c table);
         _ ← write_rows c rows;
         se_map_err ch_err (ch_end c)
  end.

Definition id_binds (i : InstrumentId) : list ChBind := [BStr (code (exchange i)); BStr (symbol i)].
Definition range_binds (i : InstrumentId) (from to : OffsetDateTime) : list ChBind :=
  id_binds i ++ [BI64 (unix_millis from); BI64 (unix_millis to)].

Definition ch_repo {W} (c : ChClient W) : OiRepository W :=
  {| upsert_snapshots snaps := insert_rows c "oi.oi_minute" ((ROi ∘ snap_to_row) <$> snaps);
     upsert_instruments metas :=
       insert_rows c "oi.instruments" ((RInstrument ∘ meta_to_row) <$> metas);
     range i from to :=
       rows ← se_map_err ch_err (ch_fetch_oi c SELECT_OHLC_COLUMNS (range_binds i from to));
       se_lift (list_traverse row_to_snap rows);
     latest i :=
       rows ← se_map_err ch_err (ch_fetch_oi c SELECT_OHLC_LATEST (id_binds i));
       se_lift (opt_traverse row_to_snap (head rows));
     upsert_funding bars :=
       insert_rows c "oi.funding_minute" ((RFunding ∘ funding_to_row) <$> bars);
     funding_range i from to :=
       rows ← se_map_err ch_err (ch_fetch_funding c SELECT_FUNDING_RANGE (range_binds i from to));
       se_lift (list_traverse row_to_funding rows);
     latest_funding i :=
       rows ← se_map_err ch_err (ch_fetch_funding c SELECT_FUNDING_LATEST (id_binds i));
       se_lift (opt_traverse row_to_funding (head rows));
     upsert_funding_events events :=
       insert_rows c "oi.funding_event" ((REvent ∘ event_to_row) <$> events);
     funding_events_range i from to :=
       rows ← se_map_err ch_err (ch_fetch_events c SELECT_EVENTS_RANGE (range_binds i from to));
       se_lift (list_traverse row_to_event rows);
     latest_funding_event i :=
       rows ← se_map_err ch_err (ch_fetch_events c SELECT_EVENT_LATEST (id_binds i));
       se_lift (opt_traverse row_to_event (head rows)) |}.

(** * Equality of bars up to the value of their decimals *)

Definition ohlc_equiv (a b : list (option Dec)) : Prop := Forall2 (λ x y, x ≡ y) a b.
Definition snap_decimals (s : OiSnapshot) : list (option Dec) :=
  [Some (native_open s); Some (native_high s); Some (native_low s); Some (native_close s);
   oi_coins_open s; oi_coins_high s; oi_coins_low s; oi_coins_close s;
   oi_usd_open s; oi_usd_high s; oi_usd_low s; oi_usd_close s; price_used_close s].
#[global] Instance snap_equiv : Equiv OiSnapshot := λ a b,
  instrument a = instrument b ∧ bucket_ts a = bucket_ts b
  ∧ first_recv_ts a = first_recv_ts b ∧ last_recv_ts a = last_recv_ts b
  ∧ samples a = samples b ∧ native_unit a = native_unit b
  ∧ ohlc_equiv (snap_decimals a) (snap_decimals b).
#[global] Instance funding_equiv : Equiv FundingBar := λ a b,
  f_instrument a = f_instrument b ∧ f_bucket_ts a = f_bucket_ts b ∧ f_recv_ts a = f_recv_ts b
  ∧ f_rate a ≡ f_rate b ∧ f_next_funding_ts a = f_next_funding_ts b
  ∧ f_interval_hours a = f_interval_hours b.
#[global] Instance event_equiv : Equiv FundingEvent := λ a b,
  ev_instrument a = ev_instrument b ∧ ev_settlement_ts a = ev_settlement_ts b
  ∧ ev_rate a ≡ ev_rate b ∧ ev_mark_price a ≡ ev_mark_price b.

Context {DLaws : DecimalLaws DL}.

Lemma parse_decimal_text name d :
  ∃ d', parse_decimal name (dec_to_string d) = Ok d' ∧ d' ≡ d.
Proof.
  unfold parse_decimal. destruct (dec_text_round_trip d) as (d' & -> & H). by exists d'.
Qed.

Lemma parse_optional_text name (o : option Dec) :
  ∃ o', opt_traverse (parse_decimal name) (dec_to_string <$> o) = Ok o' ∧ o' ≡ o.
Proof.
  destruct o as [d|]; simpl; [|by exists None].
  destruct (parse_decimal_text name d) as (d' & -> & H). exists (Some d').
  split; [done|]. by constructor.
Qed.

Lemma parse_exchange_code e : parse_exchange (code e) = Ok e.
Proof. unfold parse_exchange. by rewrite code_from_str. Qed.

Ltac parse_field :=
  match goal with
  | |- context [parse_decimal ?n (dec_to_string ?d)] =>
      let d' := fresh "d" in let H := fresh "Hd" in
      destruct (parse_decimal_text n d) as (d' & -> & H)
  | |- context [opt_traverse (parse_decimal ?n) (dec_to_string <$> ?o)] =>
      let o' := fresh "o" in let H := fresh "Ho" in
      destruct (parse_optional_text n o) as (o' & -> & H)
  end.

Lemma snap_row_reads s : ∃ s', row_to_snap (snap_to_row s) = Ok s' ∧ s' ≡ s.
Proof.
  unfold row_to_snap, snap_to_row.
  cbn [r_exchange r_symbol r_bucket_ts r_first_recv_ts r_last_recv_ts r_samples r_native_unit
       r_native_open r_native_high r_native_low r_native_close
       r_oi_coins_open r_oi_coins_high r_oi_coins_low r_oi_coins_close
       r_oi_usd_open r_oi_usd_high r_oi_usd_low r_oi_usd_close r_price_used_close].
  rewrite parse_exchange_code. repeat parse_field.
  eexists. split; [done|].
  split; [by destruct (instrument s)|]. do 4 (split; [done|]).
  split; [by destruct (native_unit s)|].
  repeat constructor; done.
Qed.
Lemma funding_row_reads b : ∃ b', row_to_funding (funding_to_row b) = Ok b' ∧ b' ≡ b.
Proof.
  unfold row_to_funding, funding_to_row. cbn [fr_exchange fr_rate].
  rewrite parse_exchange_code. repeat parse_field. eexists. split; [done|].
  split; [by destruct (f_instrument b)|]. by repeat split.
Qed.
Lemma event_row_reads e : ∃ e', row_to_event (event_to_row e) = Ok e' ∧ e' ≡ e.
Proof.
  unfold row_to_event, event_to_row. cbn [er_exchange er_rate er_mark_price].
  rewrite parse_exchange_code. repeat parse_field. eexists. split; [done|].
  split; [by destruct (ev_instrument e)|]. by repeat split.
Qed.

(** What is written to the database reads back: every bar, funding sample
    and settlement event survives the conversion to a row and back with the
    same instrument, unit, times, counts and optional fields, and with
    numerically equal decimals. *)
Theorem rows_round_trip s b e :
  (∃ s', row_to_snap (snap_to_row s) = Ok s' ∧ s' ≡ s)
  ∧ (∃ b', row_to_funding (funding_to_row b) = Ok b' ∧ b' ≡ b)
  ∧ (∃ e', row_to_event (event_to_row e) = Ok e' ∧ e' ≡ e).
Proof. split; [apply snap_row_reads|split; [apply funding_row_reads|apply event_row_reads]]. Qed.
End clickhouse.

Arguments mkClient {TL W}.
Arguments ch_insert {TL W}.
Arguments ch_write {TL W}.
Arguments ch_end {TL W}.
Arguments ch_fetch_oi {TL W}.
Arguments ch_fetch_funding {TL W}.
Arguments ch_fetch_events {TL W}.

Section millis.
Context {TL : TimeLib} {TLaws : TimeLaws TL}.
Implicit Types t u : OffsetDateTime.

Lemma unix_millis_quot t :
  unix_millis t = unix_timestamp_nanos t ÷ 1000000 ∧ i64_min ≤ unix_millis t ≤ i64_max.
Proof.
  pose proof (odt_nanos_range t) as [H1 H2].
  unfold odt_min_nanos, odt_max_nanos, nanos_per_sec in *.
  set (n := unix_timestamp_nanos t) in *.
  assert (i64_min ≤ n ÷ 1000000 ≤ i64_max).
  { unfold i64_min, i64_max. pose proof (Z.quot_rem' n 1000000).
    pose proof (Z.rem_bound_abs n 1000000). lia. }
  unfold unix_millis. fold n. rewrite as_i64_small by done. done.
Qed.

(** The bounds of a range query: for every date the library can represent
    the conversion to milliseconds fits 64 bits, keeps the order of instants
    and loses less than a millisecond; on whole milliseconds it is exact, so
    binding both ends selects precisely the instants in [from, to). *)
Theorem unix_millis_exact t u v :
  i64_min ≤ unix_millis t ≤ i64_max
  ∧ Z.abs (unix_timestamp_nanos t - unix_millis t * 1000000) < 1000000
  ∧ (unix_timestamp_nanos t ≤ unix_timestamp_nanos u → unix_millis t ≤ unix_millis u)
  ∧ (unix_timestamp_nanos t mod 1000000 = 0 → unix_timestamp_nanos u mod 1000000 = 0 →
     unix_timestamp_nanos v mod 1000000 = 0 →
     (odt_leb t u = true ∧ odt_ltb u v = true
      ↔ unix_millis t ≤ unix_millis u < unix_millis v)).
Proof.
  destruct (unix_millis_quot t) as [Ht Hr], (unix_millis_quot u) as [Hu _],
           (unix_millis_quot v) as [Hv _].
  split; [done|]. rewrite Ht, Hu, Hv.
  set (a := unix_timestamp_nanos t). set (b := unix_timestamp_nanos u).
  set (c := unix_timestamp_nanos v).
  split; [pose proof (Z.quot_rem' a 1000000); pose proof (Z.rem_bound_abs a 1000000); lia|].
  split; [intros; apply Z.quot_le_mono; lia|].
  intros Ha Hb Hc. rewrite odt_leb_spec, odt_ltb_spec. fold a b c.
  apply Z.mod_divide in Ha as [a' Ha], Hb as [b' Hb], Hc as [c' Hc]; try done.
  rewrite Ha, Hb, Hc, !Z.quot_mul by done. lia.
Qed.
End millis.

(** * Concrete runs *)

Example split_sql_comment :
  split_sql ("CREATE TABLE a(x Int64);" +:+ String newline
    ("-- kept; ignored" +:+ String newline ("CREATE TABLE b(y Int64);")))
  = ["CREATE TABLE a(x Int64)"; "CREATE TABLE b(y Int64)"]%string.
Proof. reflexivity. Qed.

Lemma rows_round_trip_witness :
  ∃ s', row_to_snap (snap_to_row (ex_bar 5)) = Ok s' ∧ s' ≡ ex_bar 5.
Proof.
  destruct (rows_round_trip (ex_bar 5) (mkFunding (DL := z_decimal) (TL := z_time) ex_btc 0 0 1 None (Some 8))
              (mkEvent (DL := z_decimal) (TL := z_time) ex_btc 0 1 None)) as [H _]. exact H.
Defined.

Lemma unix_millis_exact_witness :
  unix_millis (TL := z_time) 1500000000 = 1500
  ∧ (@odt_leb z_time 1000000000 1500000000 = true
     ∧ @odt_ltb z_time 1500000000 2000000000 = true
     ↔ unix_millis (TL := z_time) 1000000000 ≤ unix_millis (TL := z_time) 1500000000
       < unix_millis (TL := z_time) 2000000000).
Proof.
  split; [reflexivity|].
  apply (unix_millis_exact (TL := z_time) 1000000000 1500000000 2000000000); reflexivity.
Defined.
