(* ===== verification/Tables.v ===== *)
(** What ClickHouse does for [oi-storage/src/clickhouse.rs]: the six SELECT
    statements as data, the documented behaviour of the server on them, and the
    theorems that the repository reads back what it wrote.

    The tables are ReplacingMergeTrees read without [FINAL]: an insert appends
    rows; rows of one sorting key may be merged away at any time, except the
    last inserted one; rows past their TTL may go.  A SELECT answers from the
    rows that are left, so it may see several versions of a minute. *)

From Stdlib Require Import ZArith Lia String.
From stdpp Require Import base option list strings sets sorting.
From S2P Require Import Prelude Externals Concrete Domain Repository Wal Cluster ClickHouse.
Open Scope Z_scope.
Open Scope oi_scope.

(** * The statements *)

(** One [WHERE] term per placeholder. *)
Inductive Cond := ExchangeIs | SymbolIs | TsFrom | TsBefore.
Record Select := mkSelect {
  sel_table : string;
  sel_where : list Cond;
  sel_desc : bool;
  sel_limit : option nat;
}.

Definition by_instrument : list Cond := [ExchangeIs; SymbolIs].
Definition by_range : list Cond := [ExchangeIs; SymbolIs; TsFrom; TsBefore].
Definition select_of (q : ChQuery) : Select :=
  match q with
  | SELECT_OHLC_COLUMNS => mkSelect "oi.oi_minute" by_range false None
  | SELECT_OHLC_LATEST => mkSelect "oi.oi_minute" by_instrument true (Some 1%nat)
  | SELECT_FUNDING_RANGE => mkSelect "oi.funding_minute" by_range false None
  | SELECT_FUNDING_LATEST => mkSelect "oi.funding_minute" by_instrument true (Some 1%nat)
  | SELECT_EVENTS_RANGE => mkSelect "oi.funding_event" by_range false None
  | SELECT_EVENT_LATEST => mkSelect "oi.funding_event" by_instrument true (Some 1%nat)
  end.

Section tables.
Context {DL : DecimalLib} {TL : TimeLib}.

(** The sorting key of a table; [DateTime64(3)] counts milliseconds. *)
Definition row_exchange (r : ChRow) : string :=
  match r with
  | ROi r => r_exchange r | RInstrument r => ir_exchange r
  | RFunding r => fr_exchange r | REvent r => er_exchange r
  end.
Definition row_symbol (r : ChRow) : string :=
  match r with
  | ROi r => r_symbol r | RInstrument r => ir_symbol r
  | RFunding r => fr_symbol r | REvent r => er_symbol r
  end.
Definition row_ms (r : ChRow) : Z :=
  match r with
  | ROi r => to_millis (r_bucket_ts r)
  | RInstrument _ => 0
  | RFunding r => to_millis (fr_bucket_ts r)
  | REvent r => to_millis (er_settlement_ts r)
  end.
Definition row_key (r : ChRow) : string * string * Z := (row_exchange r, row_symbol r, row_ms r).

Definition cond_holds (c : Cond) (b : ChBind) (r : ChRow) : bool :=
  match c, b with
  | ExchangeIs, BStr s => bool_decide (row_exchange r = s)
  | SymbolIs, BStr s => bool_decide (row_symbol r = s)
  | TsFrom, BI64 ms => ms <=? row_ms r
  | TsBefore, BI64 ms => row_ms r <? ms
  | _, _ => false
  end.
Fixpoint where_holds (cs : list Cond) (bs : list ChBind) (r : ChRow) : bool :=
  match cs, bs with
  | [], [] => true
  | c :: cs', b :: bs' => cond_holds c b r && where_holds cs' bs' r
  | _, _ => false
  end.
Definition ts_order (desc : bool) (a b : ChRow) : Prop :=
  if desc then row_ms b ≤ row_ms a else row_ms a ≤ row_ms b.

(** [out] is an answer to the statement over the rows [visible]: the matching
    rows in some order the [ORDER BY] allows, cut at the limit. *)
Definition answers (s : Select) (bs : list ChBind) (visible out : list ChRow) : Prop :=
  ∃ l, l ≡ₚ filter (λ r, where_holds (sel_where s) bs r = true) visible
     ∧ StronglySorted (ts_order (sel_desc s)) l
     ∧ out = match sel_limit s with Some n => take n l | None => l end.

(** The wire: every timestamp column is sent as milliseconds. *)
Definition wire_oi (ms : OffsetDateTime → OffsetDateTime) (r : OiRow) : OiRow :=
  mkOiRow (r_exchange r) (r_symbol r) (ms (r_bucket_ts r)) (ms (r_first_recv_ts r))
    (ms (r_last_recv_ts r)) (r_samples r) (r_native_unit r)
    (r_native_open r) (r_native_high r) (r_native_low r) (r_native_close r)
    (r_oi_coins_open r) (r_oi_coins_high r) (r_oi_coins_low r) (r_oi_coins_close r)
    (r_oi_usd_open r) (r_oi_usd_high r) (r_oi_usd_low r) (r_oi_usd_close r)
    (r_price_used_close r).
Definition wire_funding (ms : OffsetDateTime → OffsetDateTime) (r : FundingRow) : FundingRow :=
  mkFundingRow (fr_exchange r) (fr_symbol r) (ms (fr_bucket_ts r)) (ms (fr_recv_ts r))
    (fr_rate r) (ms <$> fr_next_funding_ts r) (fr_interval_hours r).
Definition wire_event (ms : OffsetDateTime → OffsetDateTime) (r : FundingEventRow)
  : FundingEventRow :=
  mkEventRow (er_exchange r) (er_symbol r) (ms (er_settlement_ts r)) (er_rate r) (er_mark_price r).
Definition wire (ms : OffsetDateTime → OffsetDateTime) (r : ChRow) : ChRow :=
  match r with
  | ROi r => ROi (wire_oi ms r)
  | RInstrument r => RInstrument r
  | RFunding r => RFunding (wire_funding ms r)
  | REvent r => REvent (wire_event ms r)
  end.

(** * The server *)

(** [session] is the table and the rows of the insert under way, [inserted] all
    rows a table ever received, in order, and [visible] those a query sees now;
    [alive] says that a row is within its table's TTL. *)
Record Server (W : Type) := mkServer {
  session : W → string * list ChRow;
  inserted : W → string → list ChRow;
  visible : W → string → list ChRow;
  alive : W → ChRow → Prop;
  wire_ms : OffsetDateTime → OffsetDateTime;
}.
Arguments mkServer {W}.
Arguments session {W}.
Arguments inserted {W}.
Arguments visible {W}.
Arguments alive {W}.
Arguments wire_ms {W}.

Definition last_of_key (rows : list ChRow) (r : ChRow) : Prop :=
  last (filter (λ r', row_key r' = row_key r) rows) = Some r.

(** Nothing but additions, those in one table and of some of the rows [sent]. *)
Definition grows_in {W} (v : Server W) (table : string) (sent : list ChRow) (w w' : W) : Prop :=
  ∀ t, ∃ new, inserted v w' t = inserted v w t ++ new
    ∧ (t ≠ table → new = []) ∧ ∀ r, r ∈ new → r ∈ sent.

Class ServerLaws {W} (c : ChClient W) (v : Server W) : Prop := {
  wire_ms_law t : unix_timestamp_nanos (wire_ms v t) = to_millis t * 1000000;
  insert_law t w w' : ch_insert c t w = (Ok tt, w') → session v w' = (t, []);
  write_law r w w' : ch_write c r w = (Ok tt, w') →
    session v w' = ((session v w).1, (session v w).2 ++ [wire (wire_ms v) r])
    ∧ ∀ t', inserted v w' t' = inserted v w t';
  end_law w w' : ch_end c w = (Ok tt, w') →
    ∀ t', inserted v w' t' = inserted v w t' ++ (if decide (t' = (session v w).1)
                                                 then (session v w).2 else []);
  insert_only t w r w' : ch_insert c t w = (r, w') → ∀ t', inserted v w' t' = inserted v w t';
  write_only x w r w' : ch_write c x w = (r, w') → grows_in v (session v w).1 ((session v w).2 ++ [wire (wire_ms v) x]) w w';
  end_only w r w' : ch_end c w = (r, w') → grows_in v (session v w).1 (session v w).2 w w';
  visible_sub w t r : r ∈ visible v w t → r ∈ inserted v w t;
  visible_last w t r : last_of_key (inserted v w t) r → alive v w r → r ∈ visible v w t;
  fetch_oi_law q bs w rows w' : ch_fetch_oi c q bs w = (Ok rows, w') →
    answers (select_of q) bs (visible v w (sel_table (select_of q))) (ROi <$> rows);
  fetch_funding_law q bs w rows w' : ch_fetch_funding c q bs w = (Ok rows, w') →
    answers (select_of q) bs (visible v w (sel_table (select_of q))) (RFunding <$> rows);
  fetch_events_law q bs w rows w' : ch_fetch_events c q bs w = (Ok rows, w') →
    answers (select_of q) bs (visible v w (sel_table (select_of q))) (REvent <$> rows);
}.
End tables.

Arguments mkServer {TL W}.
Arguments session {TL W}.
Arguments inserted {TL W}.
Arguments visible {TL W}.
Arguments alive {TL W}.
Arguments wire_ms {TL W}.

(** * Writing *)

Section writing.
Context {DL : DecimalLib} {TL : TimeLib}.
Context {W : Type} (c : ChClient W) (v : Server W) {SL : ServerLaws c v}.

Lemma grows_same table sent w w' :
  (∀ t, inserted v w' t = inserted v w t) → grows_in v table sent w w'.
Proof.
  intros H t. exists []. rewrite app_nil_r. split; [done|]. split; [done|].
  by intros r ?%not_elem_of_nil.
Qed.
Lemma grows_trans table sent w1 w2 w3 :
  grows_in v table sent w1 w2 → grows_in v table sent w2 w3 → grows_in v table sent w1 w3.
Proof.
  intros H1 H2 t. destruct (H1 t) as (n1 & E1 & N1 & S1), (H2 t) as (n2 & E2 & N2 & S2).
  exists (n1 ++ n2). rewrite E2, E1, app_assoc. split; [done|]. split.
  - intros Ht. by rewrite N1, N2.
  - intros r [?|?]%elem_of_app; eauto.
Qed.
Lemma grows_weaken table sent sent' w w' :
  sent ⊆ sent' → grows_in v table sent w w' → grows_in v table sent' w w'.
Proof. intros Hs H t. destruct (H t) as (n & E & N & S). exists n. eauto. Qed.

Lemma write_rows_spec rows w r w' :
  write_rows c rows w = (r, w') →
  grows_in v (session v w).1 ((session v w).2 ++ (wire (wire_ms v) <$> rows)) w w'
  ∧ (r = Ok tt → session v w' = ((session v w).1,
       (session v w).2 ++ (wire (wire_ms v) <$> rows))
     ∧ ∀ t, inserted v w' t = inserted v w t).
Proof.
  revert w. induction rows as [|x rows IH]; intros w.
  { intros [= <- <-]. split; [by apply grows_same|]. intros _. split; [|done].
    rewrite app_nil_r. apply surjective_pairing. }
  intros [(e & H & ->)|([] & w1 & H & Hr)]%se_bind_inv;
    apply se_map_err_inv in H as ([[]|e'] & H & E); try done;
    pose proof (write_only _ _ _ _ H) as Hg;
    apply (grows_weaken _ _ ((session v w).2 ++ (wire (wire_ms v) <$> x :: rows))) in Hg;
    [by split|set_solver| |set_solver].
  destruct (write_law _ _ _ H) as [Hs Hi]. destruct (IH _ Hr) as [Hg' Hok].
  rewrite Hs in Hg'. cbn [fst snd] in Hg'. rewrite <- app_assoc in Hg'.
  split; [by eapply grows_trans|]. intros ->. destruct (Hok eq_refl) as [Hs' Hi'].
  split; [|intros t; by rewrite Hi', Hi].
  rewrite Hs', Hs. cbn [fst snd]. by rewrite <- app_assoc.
Qed.

(** The body the four inserts share: nothing but additions of its rows to the one
    table, and on success exactly the rows, in order. *)
Lemma insert_rows_spec table rows w r w' :
  insert_rows c table rows w = (r, w') →
  grows_in v table (wire (wire_ms v) <$> rows) w w'
  ∧ (r = Ok tt → ∀ t, inserted v w' t
       = inserted v w t ++ (if decide (t = table) then wire (wire_ms v) <$> rows else [])).
Proof.
  unfold insert_rows. destruct rows as [|x rows].
  { intros [= <- <-]. split; [by apply grows_same|]. intros _ t.
    destruct (decide _); by rewrite app_nil_r. }
  set (all := x :: rows).
  intros [(e & H & ->)|([] & w1 & H & Hr)]%se_bind_inv;
    apply se_map_err_inv in H as ([[]|e'] & H & E); try done;
    pose proof (insert_only _ _ _ _ H) as Hi1;
    pose proof (grows_same table (wire (wire_ms v) <$> all) _ _ Hi1) as Hg1; [by split|].
  pose proof (insert_law _ _ _ H) as Hs1.
  apply se_bind_inv in Hr as [(e & Hw & ->)|([] & w2 & Hw & Hr)];
    apply write_rows_spec in Hw as [Hg2 Hw]; rewrite Hs1 in Hg2;
    [by split; [eapply grows_trans|]|].
  destruct (Hw eq_refl) as [Hs2 Hi2].
  apply se_map_err_inv in Hr as (r0 & He & ->). pose proof (end_only _ _ _ He) as Hg3.
  rewrite Hs2, Hs1 in Hg3.
  split; [eapply grows_trans; [exact Hg1|]; by eapply grows_trans|].
  destruct r0 as [[]|e]; [|done]. intros _ t. rewrite (end_law _ _ He t), Hs2, Hs1, Hi2, Hi1.
  done.
Qed.

Definition bar_row (s : OiSnapshot) : ChRow := ROi (wire_oi (wire_ms v) (snap_to_row s)).

#[export] Instance ch_repo_inserts :
  InsertLaws (ch_repo c) bar_row (λ w, inserted v w "oi.oi_minute").
Proof.
  split; intros l w; [intros r w'|intros w']; intros [Hg Hok]%insert_rows_spec.
  - destruct (Hg "oi.oi_minute"%string) as (new & H & _ & Hn). exists new. split; [done|].
    intros x Hx%Hn. by rewrite <- !list_fmap_compose in Hx.
  - rewrite (Hok eq_refl), decide_True by done. by rewrite <- !list_fmap_compose.
Qed.
End writing.

(** * Reading *)

Section reading.
Context {DL : DecimalLib} {TL : TimeLib} {DLaws : DecimalLaws DL} {TLaws : TimeLaws TL}.
Context {W : Type} (c : ChClient W) (v : Server W) {SL : ServerLaws c v}.

(** A bar as the wire carries it: times cut to milliseconds. *)
Definition wire_snap (s : OiSnapshot) : OiSnapshot :=
  mkSnapshot (instrument s) (wire_ms v (bucket_ts s)) (wire_ms v (first_recv_ts s))
    (wire_ms v (last_recv_ts s)) (samples s) (native_unit s)
    (native_open s) (native_high s) (native_low s) (native_close s)
    (oi_coins_open s) (oi_coins_high s) (oi_coins_low s) (oi_coins_close s)
    (oi_usd_open s) (oi_usd_high s) (oi_usd_low s) (oi_usd_close s) (price_used_close s).

Definition bar_ms (s : OiSnapshot) : Z := to_millis (bucket_ts s).
(** Of the bars written, the last one of its instrument and minute. *)
Definition last_version (log : list OiSnapshot) (s : OiSnapshot) : Prop :=
  ∃ l1 l2, log = l1 ++ s :: l2
    ∧ ∀ s', s' ∈ l2 → instrument s' = instrument s → bar_ms s' ≠ bar_ms s.

Lemma to_millis_wire t : to_millis (wire_ms v t) = to_millis t.
Proof. unfold to_millis at 1. rewrite wire_ms_law. by apply Z.quot_mul. Qed.

Lemma code_inj e1 e2 : code e1 = code e2 → e1 = e2.
Proof. by destruct e1, e2. Qed.

Lemma bar_row_key s :
  row_key (bar_row v s) = (code (exchange (instrument s)), symbol (instrument s), bar_ms s).
Proof. unfold row_key. simpl. by rewrite to_millis_wire. Qed.

Lemma bar_row_key_eq s s' :
  row_key (bar_row v s) = row_key (bar_row v s') ↔ instrument s = instrument s' ∧ bar_ms s = bar_ms s'.
Proof.
  rewrite !bar_row_key. split; [|by intros [-> ->]].
  intros [= H1%code_inj H2 H3]. split; [|done].
  destruct (instrument s), (instrument s'); simpl in *; by subst.
Qed.

Lemma last_version_row log s : last_version log s → last_of_key (bar_row v <$> log) (bar_row v s).
Proof.
  intros (l1 & l2 & -> & Hl). unfold last_of_key.
  rewrite fmap_app, fmap_cons, filter_app, filter_cons_True by done.
  assert (filter (λ r, row_key r = row_key (bar_row v s)) (bar_row v <$> l2) = []) as ->.
  { apply elem_of_nil_inv. intros r [Hk (s' & -> & Hs)%list_elem_of_fmap]%list_elem_of_filter.
    apply bar_row_key_eq in Hk as [H1 H2]. by apply (Hl s' Hs). }
  by rewrite last_snoc.
Qed.

Lemma by_instrument_holds i s :
  where_holds by_instrument (id_binds i) (bar_row v s) = true ↔ instrument s = i.
Proof.
  simpl. rewrite !andb_true_iff, !bool_decide_eq_true. split.
  - intros (H1%code_inj & H2 & _). destruct i, (instrument s); simpl in *; by subst.
  - by intros <-.
Qed.
Lemma by_range_holds i from to s :
  where_holds by_range (range_binds i from to) (bar_row v s) = true
  ↔ instrument s = i ∧ unix_millis from ≤ bar_ms s < unix_millis to.
Proof.
  cbn [where_holds by_range range_binds id_binds app cond_holds].
  assert (row_ms (bar_row v s) = bar_ms s) as -> by apply to_millis_wire.
  rewrite !andb_true_iff, !bool_decide_eq_true, Z.leb_le, Z.ltb_lt. simpl. split.
  - intros (H1%code_inj & H2 & ? & ? & _). split; [|lia].
    destruct i, (instrument s); simpl in *; by subst.
  - intros [<- ?]. repeat split; try done; lia.
Qed.

Lemma bar_row_reads s r :
  ROi r = bar_row v s → ∃ b, row_to_snap r = Ok b ∧ b ≡ wire_snap s.
Proof. intros [= ->]. apply (snap_row_reads (wire_snap s)). Qed.

(** A decoded row: the bar [b] is the written bar [s] up to decimals and
    milliseconds. *)
Definition decoded (P : OiSnapshot → Prop) (r : OiRow) (b : OiSnapshot) : Prop :=
  row_to_snap r = Ok b ∧ ∃ s, P s ∧ ROi r = bar_row v s ∧ b ≡ wire_snap s.

Lemma decoded_ms P r b : decoded P r b → bar_ms b = row_ms (ROi r).
Proof.
  intros (_ & s & _ & -> & (_ & H & _)). unfold bar_ms. rewrite H. simpl.
  by rewrite !to_millis_wire.
Qed.

(** Rows the repository wrote all decode. *)
Lemma own_rows_decode (P : OiSnapshot → Prop) (rows : list OiRow) :
  (∀ r, r ∈ rows → ∃ s, P s ∧ ROi r = bar_row v s) →
  ∃ bars, list_traverse row_to_snap rows = Ok bars ∧ Forall2 (decoded P) rows bars.
Proof.
  induction rows as [|r rows IH]; intros H; [by exists []|].
  destruct (H r) as (s & Hs & Hr); [left|].
  destruct (bar_row_reads s r Hr) as (b & Hb & He).
  destruct IH as (bars & Hbars & Hf); [intros; apply H; by right|].
  exists (b :: bars). simpl. rewrite Hb, Hbars. split; [done|]. constructor; [split; [done|by exists s]|done].
Qed.

Lemma decoded_all_ms P rows bars :
  Forall2 (decoded P) rows bars → bar_ms <$> bars = (row_ms ∘ ROi) <$> rows.
Proof.
  induction 1 as [|r b rows bars H _ IH]; [done|]. rewrite !fmap_cons, IH. f_equal.
  by eapply decoded_ms.
Qed.

(** What a statement on the bars' table answers: bars written for which the
    [WHERE] terms hold, and every last version of those still within the TTL. *)
Lemma oi_answer log q bs w rows w' (P : OiSnapshot → Prop) :
  inserted v w "oi.oi_minute" = bar_row v <$> log →
  sel_table (select_of q) = "oi.oi_minute"%string →
  (∀ s, where_holds (sel_where (select_of q)) bs (bar_row v s) = true ↔ P s) →
  ch_fetch_oi c q bs w = (Ok rows, w') →
  ∃ all, StronglySorted (ts_order (sel_desc (select_of q))) all
    ∧ ROi <$> rows = match sel_limit (select_of q) with Some n => take n all | None => all end
    ∧ (∀ r, r ∈ all → ∃ s, (s ∈ log ∧ P s) ∧ r = bar_row v s)
    ∧ (∀ s, s ∈ log → last_version log s → alive v w (bar_row v s) → P s → bar_row v s ∈ all).
Proof.
  intros Hlog Ht HP (all & Hperm & Hs & Hout)%fetch_oi_law. exists all.
  split; [done|]. split; [done|]. rewrite Ht in Hperm. split.
  - intros r Hr. rewrite Hperm, list_elem_of_filter in Hr. destruct Hr as [Hw Hv].
    apply visible_sub in Hv. rewrite Hlog in Hv.
    apply list_elem_of_fmap in Hv as (s & -> & Hin). exists s. by rewrite HP in Hw.
  - intros s Hin Hlast Ha Hp. rewrite Hperm, list_elem_of_filter. split; [by apply HP|].
    apply visible_last; [|done]. rewrite Hlog. by apply last_version_row.
Qed.

Lemma sorted_fmap {A B} (R : B → B → Prop) (f : A → B) l :
  StronglySorted (λ a b, R (f a) (f b)) l → StronglySorted R (f <$> l).
Proof.
  induction 1 as [|a l _ IH Hl]; [constructor|]. rewrite fmap_cons. constructor; [done|].
  by apply Forall_fmap.
Qed.

Lemma range_reads log i from to w rows w' :
  inserted v w "oi.oi_minute" = bar_row v <$> log →
  ch_fetch_oi c SELECT_OHLC_COLUMNS (range_binds i from to) w = (Ok rows, w') →
  ∃ bars, range (ch_repo c) i from to w = (Ok bars, w')
    ∧ StronglySorted Z.le (bar_ms <$> bars)
    ∧ (∀ b, b ∈ bars → ∃ s, s ∈ log ∧ instrument s = i
         ∧ unix_millis from ≤ bar_ms s < unix_millis to ∧ b ≡ wire_snap s)
    ∧ (∀ s, s ∈ log → last_version log s → alive v w (bar_row v s) → instrument s = i →
         unix_millis from ≤ bar_ms s < unix_millis to → ∃ b, b ∈ bars ∧ b ≡ wire_snap s).
Proof.
  intros Hlog Hf.
  destruct (oi_answer log SELECT_OHLC_COLUMNS _ _ _ _ (λ s, instrument s = i ∧ unix_millis from ≤ bar_ms s < unix_millis to)
              Hlog eq_refl (by_range_holds i from to) Hf) as (all & Hs & Hall & Hown & Hlast).
  simpl in Hs, Hall.
  destruct (own_rows_decode (λ s, s ∈ log ∧ instrument s = i
              ∧ unix_millis from ≤ bar_ms s < unix_millis to) rows) as (bars & Hbars & Hdec).
  { intros r Hr. destruct (Hown (ROi r)) as (s & ? & ?); [|by exists s].
    rewrite <- Hall. by apply list_elem_of_fmap_2. }
  exists bars. split; [|split; [|split]].
  - simpl. unfold mbind, se_bind, se_map_err, se_lift. rewrite Hf. simpl. by rewrite Hbars.
  - rewrite (decoded_all_ms _ _ _ Hdec), list_fmap_compose, Hall. by apply sorted_fmap.
  - intros b [k Hk]%list_elem_of_lookup.
    destruct (Forall2_lookup_r _ _ _ _ _ Hdec Hk) as (r & _ & _ & s & (? & ? & ?) & _ & ?).
    by exists s.
  - intros s Hin Hlv Ha Hi Hw. pose proof (Hlast s Hin Hlv Ha (conj Hi Hw)) as Hr.
    rewrite <- Hall in Hr. apply list_elem_of_fmap in Hr as (r & Hr & [k Hk]%list_elem_of_lookup).
    destruct (Forall2_lookup_l _ _ _ _ _ Hdec Hk) as (b & Hb & Hread & _).
    destruct (bar_row_reads s r (eq_sym Hr)) as (b' & Hb' & He). rewrite Hread in Hb'.
    injection Hb' as <-. exists b. split; [by eapply list_elem_of_lookup_2|done].
Qed.

Lemma latest_reads log i w rows w' :
  inserted v w "oi.oi_minute" = bar_row v <$> log →
  ch_fetch_oi c SELECT_OHLC_LATEST (id_binds i) w = (Ok rows, w') →
  ∃ o, latest (ch_repo c) i w = (Ok o, w')
    ∧ (∀ b, o = Some b → ∃ s, s ∈ log ∧ instrument s = i ∧ b ≡ wire_snap s)
    ∧ (∀ s, s ∈ log → last_version log s → alive v w (bar_row v s) → instrument s = i →
         ∃ b, o = Some b ∧ bar_ms s ≤ bar_ms b).
Proof.
  intros Hlog Hf.
  destruct (oi_answer log SELECT_OHLC_LATEST _ _ _ _ (λ s, instrument s = i) Hlog eq_refl (by_instrument_holds i) Hf)
    as (all & Hs & Hall & Hown & Hlast).
  simpl in Hs, Hall. destruct all as [|x all].
  - destruct rows as [|r rows]; [|done]. exists None.
    split; [|split; [done|]].
    + simpl. unfold mbind, se_bind, se_map_err, se_lift. by rewrite Hf.
    + intros s Hin Hlv Ha Hi. by destruct (not_elem_of_nil _ (Hlast s Hin Hlv Ha Hi)).
  - destruct rows as [|r [|]]; [done| |done]. injection Hall as <-.
    destruct (Hown (ROi r)) as (s & [Hin Hi] & Hr); [left|].
    destruct (bar_row_reads s r Hr) as (b & Hb & He). exists (Some b).
    split; [|split; [intros b' [= <-]; by exists s|]].
    + simpl. unfold mbind, se_bind, se_map_err, se_lift. rewrite Hf. simpl. by rewrite Hb.
    + intros s' Hin' Hlv Ha Hi'. exists b. split; [done|].
      assert (Hb' : bar_ms b = row_ms (ROi r)).
      { apply (decoded_ms (λ s, s ∈ log)). split; [done|]. by exists s. }
      rewrite Hb'. replace (bar_ms s') with (row_ms (bar_row v s')) by apply to_millis_wire.
      pose proof (Hlast s' Hin' Hlv Ha Hi') as [<-|Hx]%elem_of_cons; [done|].
      apply StronglySorted_inv in Hs as [_ Hx'].
      by apply (proj1 (Forall_forall _ _) Hx').
Qed.

(** C13. Storage reads back.  In a database filled by the repository, a range
    query succeeds whenever the server answers it, and gives, in order of their
    minutes, only bars written for that instrument with a minute in the
    half-open window, equal up to the text of decimals and the milliseconds of
    times; and among them the last version of every such minute that is within
    its TTL.  The latest-bar query gives nothing only if no such bar is left,
    and otherwise a bar at least as recent as every last version. *)
Theorem bars_read_back log i from to w :
  inserted v w "oi.oi_minute" = bar_row v <$> log →
  (∀ rows w', ch_fetch_oi c SELECT_OHLC_COLUMNS (range_binds i from to) w = (Ok rows, w') →
     ∃ bars, range (ch_repo c) i from to w = (Ok bars, w')
       ∧ StronglySorted Z.le (bar_ms <$> bars)
       ∧ (∀ b, b ∈ bars → ∃ s, s ∈ log ∧ instrument s = i
            ∧ unix_millis from ≤ bar_ms s < unix_millis to ∧ b ≡ wire_snap s)
       ∧ (∀ s, s ∈ log → last_version log s → alive v w (bar_row v s) → instrument s = i →
            unix_millis from ≤ bar_ms s < unix_millis to → ∃ b, b ∈ bars ∧ b ≡ wire_snap s))
  ∧ (∀ rows w', ch_fetch_oi c SELECT_OHLC_LATEST (id_binds i) w = (Ok rows, w') →
     ∃ o, latest (ch_repo c) i w = (Ok o, w')
       ∧ (∀ b, o = Some b → ∃ s, s ∈ log ∧ instrument s = i ∧ b ≡ wire_snap s)
       ∧ (∀ s, s ∈ log → last_version log s → alive v w (bar_row v s) → instrument s = i →
            ∃ b, o = Some b ∧ bar_ms s ≤ bar_ms b)).
Proof. intros Hlog. split; intros rows w'; [by apply range_reads|by apply latest_reads]. Qed.
End reading.

(** * Concrete runs *)

(** A server that keeps every row and answers by filtering and sorting. *)
Record ExTables := mkTables {
  et_session : string * list ChRow;
  et_rows : list (string * ChRow);
}.
Definition ex_cut (t : @OffsetDateTime z_time) : @OffsetDateTime z_time :=
  odt_clamp t ÷ 1000000 * 1000000.
Definition et_table (w : ExTables) (t : string) : list ChRow :=
  snd <$> filter (λ p, p.1 = t) (et_rows w).
#[export] Instance ts_order_dec desc a b : Decision (ts_order desc a b).
Proof. unfold ts_order. destruct desc; apply _. Defined.
#[export] Instance ts_order_total desc : Total (ts_order desc).
Proof. intros a b. unfold ts_order. destruct desc; lia. Qed.
#[export] Instance ts_order_trans desc : Transitive (ts_order desc).
Proof. intros a b d. unfold ts_order. destruct desc; lia. Qed.

Definition ex_answer (q : ChQuery) (bs : list ChBind) (w : ExTables) : list ChRow :=
  let l := merge_sort (ts_order (sel_desc (select_of q)))
             (filter (λ r, where_holds (sel_where (select_of q)) bs r = true)
                     (et_table w (sel_table (select_of q)))) in
  match sel_limit (select_of q) with Some n => take n l | None => l end.

Definition ex_fetch {R} (sel : ChRow → result string R) (q : ChQuery) (bs : list ChBind)
  : SE ExTables string (list R) := λ w, (list_traverse sel (ex_answer q bs w), w).

Definition ex_client : ChClient ExTables := {|
  ch_insert t w := (Ok tt, mkTables (t, []) (et_rows w));
  ch_write r w := (Ok tt, mkTables ((et_session w).1, (et_session w).2 ++ [wire ex_cut r]) (et_rows w));
  ch_end w := (Ok tt, mkTables ("", [])%string
    (et_rows w ++ (pair (et_session w).1 <$> (et_session w).2)));
  ch_fetch_oi := ex_fetch (λ r, match r with ROi r => Ok r | _ => Err "type mismatch"%string end);
  ch_fetch_funding :=
    ex_fetch (λ r, match r with RFunding r => Ok r | _ => Err "type mismatch"%string end);
  ch_fetch_events :=
    ex_fetch (λ r, match r with REvent r => Ok r | _ => Err "type mismatch"%string end);
|}.
Definition ex_server : Server ExTables :=
  mkServer et_session et_table et_table (λ _ _, True) ex_cut.

Lemma ex_answer_ok q bs w :
  answers (select_of q) bs (et_table w (sel_table (select_of q))) (ex_answer q bs w).
Proof.
  unfold ex_answer. eexists.
  split; [apply (merge_sort_Permutation (ts_order (sel_desc (select_of q))))|]. split; [|done].
  apply (StronglySorted_merge_sort (ts_order _)).
Qed.

Lemma typed_rows {R} (inj : R → ChRow) (sel : ChRow → result string R) l rows :
  (∀ r x, sel r = Ok x → r = inj x) → list_traverse sel l = Ok rows → inj <$> rows = l.
Proof.
  intros Hs. revert rows. induction l as [|r l IH]; intros rows; [by intros [= <-]|]. simpl.
  destruct (sel r) as [x|] eqn:E; [|done]. destruct (list_traverse sel l) as [xs|]; [|done].
  intros [= <-]. rewrite fmap_cons, (IH xs eq_refl). f_equal. symmetry. by apply Hs.
Qed.

Lemma ex_fetch_ok {R} (inj : R → ChRow) sel q bs w rows w' :
  (∀ r x, sel r = Ok x → r = inj x) →
  ex_fetch sel q bs w = (Ok rows, w') →
  answers (select_of q) bs (et_table w (sel_table (select_of q))) (inj <$> rows).
Proof.
  unfold ex_fetch. intros Hsel [= E _]. rewrite (typed_rows inj sel _ _ Hsel E).
  apply ex_answer_ok.
Qed.

#[export] Instance ex_server_laws : ServerLaws (TL := z_time) ex_client ex_server.
Proof.
  assert (Hadd : ∀ (l : list ChRow) (t t' : string), snd <$> filter (λ p, p.1 = t') (pair t <$> l)
    = if decide (t' = t) then l else [] : list ChRow).
  { induction l as [|r l IH]; intros t t'; [by destruct (decide _)|]. rewrite fmap_cons.
    specialize (IH t t'). destruct (decide (t' = t)) as [->|Hne].
    - rewrite filter_cons_True by done. rewrite fmap_cons. by rewrite IH.
    - by rewrite filter_cons_False. }
  assert (Hend : ∀ w t', et_table (mkTables ("", [])%string
      (et_rows w ++ (pair (et_session w).1 <$> (et_session w).2))) t'
    = et_table w t' ++ (if decide (t' = (et_session w).1) then (et_session w).2 else [])).
  { intros w t'. unfold et_table. simpl. by rewrite filter_app, fmap_app, Hadd. }
  assert (Hsame : ∀ t rs w w', et_rows w' = et_rows w → grows_in ex_server t rs w w').
  { intros t rs w w' E. apply grows_same. intros t'. simpl. unfold et_table. by rewrite E. }
  constructor; try (intros; simplify_eq/=; by eauto).
  - intros t. simpl. unfold to_millis. simpl. apply odt_clamp_id.
    pose proof (odt_clamp_range t) as [H1 H2]. revert H1 H2.
    unfold odt_in_range, odt_min_nanos, odt_max_nanos, nanos_per_sec.
    generalize (odt_clamp t). intros z H1 H2. Z.to_euclidean_division_equations. lia.
  - intros w r w' [= <- <-] t'. eexists. split; [apply Hend|].
    destruct (decide _); (split; [done|]); [done|]. by intros x ?%not_elem_of_nil.
  - intros w t r Hl _. apply last_Some_elem_of in Hl. by apply list_elem_of_filter in Hl as [_ ?].
  - intros q bs w rows w'. apply ex_fetch_ok. by intros [] x [= ->].
  - intros q bs w rows w'. apply ex_fetch_ok. by intros [] x [= ->].
  - intros q bs w rows w'. apply ex_fetch_ok. by intros [] x [= ->].
Qed.

(** Two versions of one minute, as a replay of the log leaves them. *)
Definition ex_tables : ExTables :=
  (upsert_snapshots (ch_repo ex_client) [ex_bar 1; ex_bar 2] (mkTables ("", [])%string [])).2.

Lemma bars_read_back_witness :
  ∃ bars, range (ch_repo ex_client) ex_btc 0 60000000000 ex_tables = (Ok bars, ex_tables)
    ∧ length bars = 2%nat
    ∧ ∃ b, b ∈ bars ∧ b ≡ wire_snap ex_server (ex_bar 2).
Proof.
  destruct (bars_read_back ex_client ex_server [ex_bar 1; ex_bar 2] ex_btc 0 60000000000 ex_tables
              eq_refl) as [H _].
  destruct (H _ _ eq_refl) as (bars & Hr & _ & _ & Hl). exists bars. split; [exact Hr|]. split.
  - assert (bars = unwrap_or [] (range (ch_repo ex_client) ex_btc 0 60000000000 ex_tables).1) as ->.
    { rewrite Hr. reflexivity. }
    reflexivity.
  - apply Hl; [right; left| |exact I|reflexivity|vm_compute; split; [discriminate|reflexivity]].
    exists [ex_bar 1], []. split; [reflexivity|]. intros s' Hs'. destruct (not_elem_of_nil _ Hs').
Defined.
