(* ===== verification/Schema.v ===== *)
(** The database schema and the texts that meet it: the migration
    [migrations/single/001_schema.sql], which [ensure_schema] of
    [oi-storage/src/clickhouse.rs] runs statement by statement, the SELECT texts,
    and the column layout of the row structs.  The driver sends rows as
    positional binary, so names, order and types have to agree. *)

From Stdlib Require Import ZArith Lia String Ascii.
From stdpp Require Import base option list strings.
From S2P Require Import Prelude Externals Concrete Domain Repository ClickHouse Tables.
Open Scope Z_scope.
Open Scope oi_scope.

(** * Texts *)

(** The migration, line by line. *)
Definition migration_lines : list string :=
  ["-- ClickHouse schema for OI collection (OHLC bars).";
   "--";
   "-- Each row is ONE one-minute OHLC bar per (exchange, symbol). The";
   "-- collector aggregates intra-minute samples (REST + WS pushes) into";
   "-- a single bar before flushing at the minute boundary.";
   "--";
   "-- Numeric columns (OI values, prices, multipliers, funding rates) are";
   "-- stored as String — full decimal precision is preserved in the";
   "-- application layer via rust_decimal, and the binary wire protocol";
   "-- for Nullable(Decimal*) is incompatible with String-typed Rust rows";
   "-- as currently written. Migrating to native Decimal* later is a";
   "-- non-breaking schema change (toDecimal128OrNull on read).";
   "";
   "CREATE DATABASE IF NOT EXISTS oi;";
   "";
   "-- Canonical instrument catalogue. Refreshed daily by the collector.";
   "CREATE TABLE IF NOT EXISTS oi.instruments";
   "(";
   "    exchange             LowCardinality(String),";
   "    symbol               String,";
   "    base_asset           LowCardinality(String),";
   "    quote_asset          LowCardinality(String),";
   "    is_perpetual         UInt8,";
   "    native_unit          LowCardinality(String),";
   "    contract_multiplier  Nullable(String),";
   "    price_tick           Nullable(String),";
   "    qty_step             Nullable(String),";
   "    active               UInt8,";
   "    updated_at           DateTime64(3, 'UTC') DEFAULT now64()";
   ")";
   "ENGINE = ReplacingMergeTree(updated_at)";
   "ORDER BY (exchange, symbol);";
   "";
   "-- Minute OHLC bar. The row key makes (exchange, symbol) range scans";
   "-- a tight index seek. ReplacingMergeTree on ingest_ts deduplicates";
   "-- if the same minute is re-flushed (e.g. resync, WAL replay).";
   "CREATE TABLE IF NOT EXISTS oi.oi_minute";
   "(";
   "    exchange       LowCardinality(String),";
   "    symbol         String,";
   "    bucket_ts      DateTime64(3, 'UTC')   CODEC(Delta, LZ4),";
   "    first_recv_ts  DateTime64(3, 'UTC')   CODEC(Delta, LZ4),";
   "    last_recv_ts   DateTime64(3, 'UTC')   CODEC(Delta, LZ4),";
   "    samples        UInt32                 CODEC(T64, LZ4),";
   "";
   "    native_unit    LowCardinality(String),";
   "    native_open    String                 CODEC(ZSTD(1)),";
   "    native_high    String                 CODEC(ZSTD(1)),";
   "    native_low     String                 CODEC(ZSTD(1)),";
   "    native_close   String                 CODEC(ZSTD(1)),";
   "";
   "    oi_coins_open  Nullable(String)       CODEC(ZSTD(1)),";
   "    oi_coins_high  Nullable(String)       CODEC(ZSTD(1)),";
   "    oi_coins_low   Nullable(String)       CODEC(ZSTD(1)),";
   "    oi_coins_close Nullable(String)       CODEC(ZSTD(1)),";
   "";
   "    oi_usd_open    Nullable(String)       CODEC(ZSTD(1)),";
   "    oi_usd_high    Nullable(String)       CODEC(ZSTD(1)),";
   "    oi_usd_low     Nullable(String)       CODEC(ZSTD(1)),";
   "    oi_usd_close   Nullable(String)       CODEC(ZSTD(1)),";
   "";
   "    price_used_close Nullable(String)     CODEC(ZSTD(1)),";
   "";
   "    ingest_ts      DateTime64(3, 'UTC') DEFAULT now64()   CODEC(Delta, LZ4)";
   ")";
   "ENGINE = ReplacingMergeTree(ingest_ts)";
   "PARTITION BY toYYYYMM(bucket_ts)";
   "ORDER BY (exchange, symbol, bucket_ts)";
   "TTL toDateTime(bucket_ts) + INTERVAL 400 DAY;";
   "";
   "-- Funding-rate samples, one per (exchange, symbol, minute). Funding";
   "-- intra-minute variance is essentially zero (the rate moves with";
   "-- the basis, which itself updates on a slow cadence), so we store a";
   "-- single value per minute rather than OHLC. ReplacingMergeTree on";
   "-- ingest_ts deduplicates re-flushes.";
   "CREATE TABLE IF NOT EXISTS oi.funding_minute";
   "(";
   "    exchange         LowCardinality(String),";
   "    symbol           String,";
   "    bucket_ts        DateTime64(3, 'UTC')         CODEC(Delta, LZ4),";
   "    recv_ts          DateTime64(3, 'UTC')         CODEC(Delta, LZ4),";
   "    rate             String                       CODEC(ZSTD(1)),";
   "    next_funding_ts  Nullable(DateTime64(3, 'UTC')) CODEC(Delta, LZ4),";
   "    interval_hours   Nullable(UInt8),";
   "    ingest_ts        DateTime64(3, 'UTC') DEFAULT now64()  CODEC(Delta, LZ4)";
   ")";
   "ENGINE = ReplacingMergeTree(ingest_ts)";
   "PARTITION BY toYYYYMM(bucket_ts)";
   "ORDER BY (exchange, symbol, bucket_ts)";
   "TTL toDateTime(bucket_ts) + INTERVAL 400 DAY;";
   "";
   "-- Settlement events — discrete records of actually-paid funding.";
   "-- Distinct from oi.funding_minute (continuous predicted-rate";
   "-- series): events are sparse, sit at exact venue settlement";
   "-- boundaries (00/08/16 UTC for 8h venues, hourly for Hyperliquid),";
   "-- and carry the realised rate. Retained 5 years because each";
   "-- symbol only produces 3 events/day on most venues, so the";
   "-- volume is small and historically valuable.";
   "CREATE TABLE IF NOT EXISTS oi.funding_event";
   "(";
   "    exchange       LowCardinality(String),";
   "    symbol         String,";
   "    settlement_ts  DateTime64(3, 'UTC')         CODEC(Delta, LZ4),";
   "    rate           String                       CODEC(ZSTD(1)),";
   "    mark_price     Nullable(String)             CODEC(ZSTD(1)),";
   "    ingest_ts      DateTime64(3, 'UTC') DEFAULT now64()  CODEC(Delta, LZ4)";
   ")";
   "ENGINE = ReplacingMergeTree(ingest_ts)";
   "PARTITION BY toYYYYMM(settlement_ts)";
   "ORDER BY (exchange, symbol, settlement_ts)";
   "TTL toDateTime(settlement_ts) + INTERVAL 1825 DAY;"]%string.
Definition migration : string :=
  foldr (λ line acc, line +:+ String newline acc) EmptyString migration_lines.

Definition select_text (q : ChQuery) : string :=
  match q with
  | SELECT_FUNDING_RANGE =>
        "SELECT exchange, symbol, bucket_ts, recv_ts, rate, next_funding_ts, interval_hours " +:+
        "FROM oi.funding_minute WHERE exchange = ? AND symbol = ? AND bucket_ts >= " +:+
        "fromUnixTimestamp64Milli(?) AND bucket_ts <  fromUnixTimestamp64Milli(?) ORDER BY " +:+
        "bucket_ts"
  | SELECT_FUNDING_LATEST =>
        "SELECT exchange, symbol, bucket_ts, recv_ts, rate, next_funding_ts, interval_hours " +:+
        "FROM oi.funding_minute WHERE exchange = ? AND symbol = ? ORDER BY bucket_ts DESC " +:+
        "LIMIT 1"
  | SELECT_EVENTS_RANGE =>
        "SELECT exchange, symbol, settlement_ts, rate, mark_price FROM oi.funding_event " +:+
        "WHERE exchange = ? AND symbol = ? AND settlement_ts >= fromUnixTimestamp64Milli(?) " +:+
        "AND settlement_ts <  fromUnixTimestamp64Milli(?) ORDER BY settlement_ts"
  | SELECT_EVENT_LATEST =>
        "SELECT exchange, symbol, settlement_ts, rate, mark_price FROM oi.funding_event " +:+
        "WHERE exchange = ? AND symbol = ? ORDER BY settlement_ts DESC LIMIT 1"
  | SELECT_OHLC_COLUMNS =>
        "SELECT exchange, symbol, bucket_ts, first_recv_ts, last_recv_ts, samples, " +:+
        "native_unit, native_open, native_high, native_low, native_close, oi_coins_open, " +:+
        "oi_coins_high, oi_coins_low, oi_coins_close, oi_usd_open, oi_usd_high, oi_usd_low, " +:+
        "oi_usd_close, price_used_close FROM oi.oi_minute WHERE exchange = ? AND symbol = ? " +:+
        "AND bucket_ts >= fromUnixTimestamp64Milli(?) AND bucket_ts <  " +:+
        "fromUnixTimestamp64Milli(?) ORDER BY bucket_ts"
  | SELECT_OHLC_LATEST =>
        "SELECT exchange, symbol, bucket_ts, first_recv_ts, last_recv_ts, samples, " +:+
        "native_unit, native_open, native_high, native_low, native_close, oi_coins_open, " +:+
        "oi_coins_high, oi_coins_low, oi_coins_close, oi_usd_open, oi_usd_high, oi_usd_low, " +:+
        "oi_usd_close, price_used_close FROM oi.oi_minute WHERE exchange = ? AND symbol = ? " +:+
        "ORDER BY bucket_ts DESC LIMIT 1"
  end.

(** * Running the migration *)

Section schema.
Context {W : Type} (execute : string → SE W string unit).

Fixpoint execute_all (statements : list string) : SE W CoreError unit :=
  match statements with
  | [] => mret tt
  | s :: statements => _ ← se_map_err ch_err (execute s); execute_all statements
  end.
Definition ensure_schema : SE W CoreError unit := execute_all (split_sql migration).

(** [probe]: any failure is an error. *)
Definition ch_probe : SE W CoreError unit := se_map_err ch_err (execute "SELECT 1").
End schema.

(** * Layouts *)

(** What a field is on the wire. *)
Inductive WireType := WString | WNullString | WU8 | WNullU8 | WU32 | WMillis | WNullMillis.
#[export] Instance wire_type_eq : EqDecision WireType.
Proof. solve_decision. Defined.
Definition Layout : Type := list (string * WireType).

(** The fields of the row structs, in order. *)
Definition instrument_layout : Layout :=
  [("exchange", WString); ("symbol", WString); ("base_asset", WString); ("quote_asset", WString);
   ("is_perpetual", WU8); ("native_unit", WString); ("contract_multiplier", WNullString);
   ("price_tick", WNullString); ("qty_step", WNullString); ("active", WU8)]%string.
Definition oi_layout : Layout :=
  [("exchange", WString); ("symbol", WString); ("bucket_ts", WMillis); ("first_recv_ts", WMillis);
   ("last_recv_ts", WMillis); ("samples", WU32); ("native_unit", WString);
   ("native_open", WString); ("native_high", WString); ("native_low", WString);
   ("native_close", WString);
   ("oi_coins_open", WNullString); ("oi_coins_high", WNullString);
   ("oi_coins_low", WNullString); ("oi_coins_close", WNullString);
   ("oi_usd_open", WNullString); ("oi_usd_high", WNullString);
   ("oi_usd_low", WNullString); ("oi_usd_close", WNullString);
   ("price_used_close", WNullString)]%string.
Definition funding_layout : Layout :=
  [("exchange", WString); ("symbol", WString); ("bucket_ts", WMillis); ("recv_ts", WMillis);
   ("rate", WString); ("next_funding_ts", WNullMillis); ("interval_hours", WNullU8)]%string.
Definition event_layout : Layout :=
  [("exchange", WString); ("symbol", WString); ("settlement_ts", WMillis); ("rate", WString);
   ("mark_price", WNullString)]%string.

(** The table each insert names, with the struct it writes. *)
Definition insert_targets : list (string * Layout) :=
  [("oi.oi_minute", oi_layout); ("oi.instruments", instrument_layout);
   ("oi.funding_minute", funding_layout); ("oi.funding_event", event_layout)]%string.
(** The struct [fetch_all] and [fetch_optional] decode. *)
Definition fetched_layout (q : ChQuery) : Layout :=
  match q with
  | SELECT_OHLC_COLUMNS | SELECT_OHLC_LATEST => oi_layout
  | SELECT_FUNDING_RANGE | SELECT_FUNDING_LATEST => funding_layout
  | SELECT_EVENTS_RANGE | SELECT_EVENT_LATEST => event_layout
  end.

(** * Reading the texts *)

Definition words (s : string) : list string :=
  filter (λ w, w ≠ EmptyString) (split_on " " s).
Definition no_comma (s : string) : string :=
  match strip_suffix "," s with Some s' => s' | None => s end.
Fixpoint take_while {A} (f : A → bool) (l : list A) : list A :=
  match l with [] => [] | x :: l => if f x then x :: take_while f l else [] end.
Fixpoint drop_until {A} (f : A → bool) (l : list A) : list A :=
  match l with [] => [] | x :: l => if f x then l else drop_until f l end.

Definition sql_type (text : string) : option WireType :=
  if String.eqb text "String" || String.eqb text "LowCardinality(String)" then Some WString
  else if String.eqb text "Nullable(String)" then Some WNullString
  else if String.eqb text "UInt8" then Some WU8
  else if String.eqb text "Nullable(UInt8)" then Some WNullU8
  else if String.eqb text "UInt32" then Some WU32
  else if String.eqb text "DateTime64(3, 'UTC')" then Some WMillis
  else if String.eqb text "Nullable(DateTime64(3, 'UTC'))" then Some WNullMillis
  else None.

(** A column line: its name, its type and whether the server fills it in. *)
Definition is_option_word (w : string) : bool := starts_with "CODEC" w || starts_with "DEFAULT" w.
Definition column_of (line : string) : option (string * option WireType * bool) :=
  match words line with
  | name :: rest =>
      Some (name,
            sql_type (no_comma (String.concat " " (take_while (λ w, negb (is_option_word w)) rest))),
            existsb (starts_with "DEFAULT") rest)
  | [] => None
  end.
(** The table a CREATE TABLE statement makes: name, columns, sorting key. *)
Definition table_of (stmt : string)
  : option (string * list (string * option WireType * bool) * list string) :=
  match lines stmt with
  | head :: "(" :: rest =>
      name ← last (words head);
      order ← List.find (starts_with "ORDER BY") rest;
      Some (name, omap column_of (take_while (λ l, negb (String.eqb l ")")) rest),
            no_comma <$> words (String.concat "" (split_on ")"
              (String.concat "" (drop 1 (split_on "(" order))))))
  | _ => None
  end%string.
Definition schema_tables := omap table_of (split_sql migration).

(** The columns the client has to send. *)
Definition required_columns (cols : list (string * option WireType * bool)) : list (string * option WireType) :=
  (filter (λ c, c.2 = false) cols).*1.
Definition as_required (l : Layout) : list (string * option WireType) :=
  (λ f, (f.1, Some f.2)) <$> l.

(** A SELECT text: columns, table, number of placeholders, newest first. *)
Definition select_columns (text : string) : list string :=
  no_comma <$> take_while (λ w, negb (String.eqb w "FROM")) (drop 1 (words text)).
Definition select_table (text : string) : option string :=
  head (drop_until (String.eqb "FROM") (words text)).
Definition placeholders (text : string) : nat := pred (length (split_on "?" text)).
(** The column each placeholder is compared with. *)
Definition compared (text : string) : list string :=
  let ws := take_while (λ w, negb (String.eqb w "ORDER")) (drop_until (String.eqb "WHERE") (words text)) in
  filter (λ w, w ≠ "AND" ∧ w ≠ "=" ∧ w ≠ ">=" ∧ w ≠ "<" ∧ w ≠ "?" ∧ w ≠ "fromUnixTimestamp64Milli(?)")%string ws.
Definition newest_one (text : string) : bool := ends_with " DESC LIMIT 1" text.
Definition sorted_by (text : string) : option string :=
  head (drop 1 (drop_until (String.eqb "ORDER") (words text))).

(** The columns [select_of]'s terms stand for, over the time column [ts]. *)
Definition cond_column (ts : string) (c : Cond) : string :=
  match c with ExchangeIs => "exchange" | SymbolIs => "symbol" | TsFrom | TsBefore => ts end.
Definition all_queries : list ChQuery :=
  [SELECT_OHLC_COLUMNS; SELECT_OHLC_LATEST; SELECT_FUNDING_RANGE; SELECT_FUNDING_LATEST;
   SELECT_EVENTS_RANGE; SELECT_EVENT_LATEST].
Definition cond_operator (c : Cond) : string :=
  match c with ExchangeIs | SymbolIs => "=" | TsFrom => ">=" | TsBefore => "<" end.
Definition operators (text : string) : list string :=
  filter (λ w, w = "=" ∨ w = ">=" ∨ w = "<")%string (words text).

Definition table_named (t : string) : option (list (string * option WireType * bool) * list string) :=
  (λ x, (x.1.2, x.2)) <$> List.find (λ x, String.eqb x.1.1 t) schema_tables.

(** What an execution of statements leaves: each done in order, and none after
    the first that fails. *)
Inductive executed {W} (execute : string → SE W string unit) : list string → W → W → Prop :=
| executed_nil w : executed execute [] w w
| executed_cons s l w w1 w2 :
    execute s w = (Ok tt, w1) → executed execute l w1 w2 → executed execute (s :: l) w w2.

Lemma execute_all_spec {W} (execute : string → SE W string unit) l w r w' :
  execute_all execute l w = (r, w') →
  match r with
  | Ok _ => executed execute l w w'
  | Err e => ∃ before s after w1 m, l = before ++ s :: after ∧ executed execute before w w1
             ∧ execute s w1 = (Err m, w') ∧ e = ch_err m
  end.
Proof.
  revert w. induction l as [|s l IH]; intros w H.
  { injection H as <- <-. constructor. }
  cbn [execute_all] in H.
  apply se_bind_inv in H as [(e & H & ->)|([] & w1 & H & Hr)];
    apply se_map_err_inv in H as ([[]|m] & H & E); try done.
  - injection E as ->. exists [], s, l, w, m. split; [done|]. split; [constructor|done].
  - specialize (IH _ Hr). destruct r as [[]|e]; [by econstructor|].
    destruct IH as (before & s' & after & w2 & m & -> & Hb & He).
    exists (s :: before), s', after, w2, m. split; [done|]. split; [by econstructor|done].
Qed.

(** C22. The schema, the row structs and the queries fit together.  The migration
    splits into five CREATE statements with no comment or separator left in any;
    the columns the server does not fill in itself are, for every insert, exactly
    the fields of the struct it writes, in order and with their types; every
    SELECT asks for exactly the fields of the struct it is decoded into, of the
    table that struct is written to, by the conditions and the order the model
    of the server uses, and the sorting key that deduplicates rows is the
    instrument and that time column; and [ensure_schema] runs the statements in
    order and stops at the first that fails, with its error. *)
Theorem schema_fits_rows {W} (execute : string → SE W string unit) w :
  (length (split_sql migration) = 5%nat
   ∧ Forall (λ s, starts_with "CREATE " s = true ∧ split_on ";" s = [s] ∧ before_comment s = s)
       (split_sql migration))
  ∧ Forall (λ target, (λ t, required_columns t.1) <$> table_named target.1
                      = Some (as_required target.2)) insert_targets
  ∧ Forall (λ q, let text := select_text q in let s := select_of q in
       select_columns text = (fetched_layout q).*1
       ∧ select_table text = Some (sel_table s)
       ∧ (sel_table s, fetched_layout q) ∈ insert_targets
       ∧ snd <$> table_named (sel_table s) = (λ ts, ["exchange"; "symbol"; ts]) <$> sorted_by text
       ∧ (λ ts, cond_column ts <$> sel_where s) <$> sorted_by text = Some (compared text)
       ∧ cond_operator <$> sel_where s = operators text
       ∧ length (sel_where s) = placeholders text
       ∧ newest_one text = sel_desc s
       ∧ sel_limit s = if sel_desc s then Some 1%nat else None) all_queries
  ∧ match ensure_schema execute w with
    | (Ok _, w') => executed execute (split_sql migration) w w'
    | (Err e, w') => ∃ before s after w1 m, split_sql migration = before ++ s :: after
        ∧ executed execute before w w1 ∧ execute s w1 = (Err m, w') ∧ e = ch_err m
    end.
Proof.
  split; [|split; [|split]].
  - refine (bool_decide_unpack _ _). vm_compute. exact I.
  - refine (bool_decide_unpack _ _). vm_compute. exact I.
  - cbv zeta. refine (bool_decide_unpack _ _). vm_compute. exact I.
  - destruct (ensure_schema execute w) as [r w'] eqn:E.
    apply execute_all_spec in E. by destruct r as [[]|e].
Qed.
