(* ===== verification/Http.v ===== *)
(** The HTTP layer of the REST adapters, [common/http.rs]: what a request's
    outcome becomes.  The transport (connection, TLS, decompression, the token
    bucket) is outside the model: a request yields a response, a connection
    failure or another failure. *)

From Stdlib Require Import ZArith Lia String Ascii.
From stdpp Require Import base option list strings.
From S2P Require Import Prelude Externals Concrete Domain.
Open Scope Z_scope.
Open Scope oi_scope.

Record Response := mkResponse {
  status : Z;
  retry_after_header : option string;  (** [Retry-After], when printable *)
  body : string;
}.

(** The outcome of [reqwest::Client::send]; the text is the error's. *)
Inductive Transport :=
| Responded (r : Response)
| TimeoutOrConnect (message : string)
| OtherFailure (message : string).

Definition is_continuation_byte (c : ascii) : bool :=
  let n := nat_of_ascii c in (128 <=? n)%nat && (n <? 192)%nat.
(** [str::is_char_boundary]. *)
Definition is_char_boundary (s : string) (i : nat) : bool :=
  (i =? 0)%nat || (i =? String.length s)%nat ||
  match String.get i s with Some c => negb (is_continuation_byte c) | None => false end.

(** The loop that walks back to a character boundary. *)
Fixpoint boundary_at_most (s : string) (n : nat) : nat :=
  match n with
  | O => O
  | S n' => if is_char_boundary s n then n else boundary_at_most s n'
  end.

(** The three bytes of the ellipsis. *)
Definition ellipsis : string :=
  String (ascii_of_nat 226) (String (ascii_of_nat 128) (String (ascii_of_nat 166) EmptyString)).

Definition truncate (s : string) (n : nat) : string :=
  if (String.length s <=? n)%nat then s
  else String.substring 0 (boundary_at_most s n) s +:+ ellipsis.

Definition is_success (s : Z) : bool := (200 <=? s) && (s <? 300).
Definition is_server_error (s : Z) : bool := (500 <=? s) && (s <? 600).

Definition classify (resp : Response) (exchange_code : string) : result ExchangeError Response :=
  if is_success (status resp) then Ok resp
  else
    let retry_after :=
      dur_seconds <$> (retry_after_header resp ≫= parse_unsigned u64_max) in
    if status resp =? 418 then Err (RateLimited retry_after)
    else if status resp =? 429 then Err (RateLimited retry_after)
    else if is_server_error (status resp)
    then Err (Transient "http_5xx" ("status " +:+ int_to_string (status resp)))
    else if status resp =? 404
    then Err (NotFound ("status 404 from " +:+ exchange_code))
    else if (status resp =? 401) || (status resp =? 403)
    then Err (Auth (int_to_string (status resp) +:+ ": " +:+ truncate (body resp) 200))
    else Err (Schema (int_to_string (status resp) +:+ ": " +:+ truncate (body resp) 200)).

Section client.
(** [decode] is the derived [Deserialize] of the payload type. *)
Context {T : Type} (decode : string → result string T).

Definition http_send (method url exchange_code : string) (t : Transport)
  : result ExchangeError Response :=
  match t with
  | TimeoutOrConnect e => Err (Transient "http" (method +:+ " " +:+ url +:+ ": " +:+ e))
  | OtherFailure e => Err (Unexpected (method +:+ " " +:+ url +:+ ": " +:+ e))
  | Responded r => classify r exchange_code
  end.

Definition get_json (url exchange_code : string) (t : Transport) : result ExchangeError T :=
  let? resp := http_send "GET" url exchange_code t in
  map_err (λ e, Schema ("GET " +:+ url +:+ " decode: " +:+ e)) (decode (body resp)).

Definition post_json (url exchange_code : string) (t : Transport) : result ExchangeError T :=
  let? resp := match t with
               | TimeoutOrConnect e => Err (Transient "http" ("POST " +:+ url +:+ ": " +:+ e))
               | OtherFailure e => Err (Unexpected ("POST " +:+ url +:+ ": " +:+ e))
               | Responded r => classify r exchange_code
               end in
  map_err (λ e, Schema ("POST " +:+ url +:+ " decode: " +:+ e)) (decode (body resp)).

Lemma boundary_at_most_le s n : (boundary_at_most s n ≤ n)%nat.
Proof. induction n as [|n IH]; simpl; [lia|]. destruct (is_char_boundary _ _); lia. Qed.
Lemma boundary_at_most_boundary s n : is_char_boundary s (boundary_at_most s n) = true.
Proof. induction n as [|n IH]; [done|]. simpl. by destruct (is_char_boundary s (S n)) eqn:E. Qed.

Lemma substring_prefix_length n s :
  (String.length (String.substring 0 n s) ≤ n)%nat.
Proof. revert s. induction n as [|n IH]; intros [|c s]; simpl; try lia. specialize (IH s). lia. Qed.

(** Every outcome of a request becomes exactly one error class: a payload is
    returned only for a 2xx response whose body decodes; an error is worth a
    retry exactly when it is a connection problem, a 418 or 429, or a 5xx; and
    the wait the exchange asks for is passed on for those two codes and no
    other.  The text of a response body kept in an error is at most 200 bytes
    plus the ellipsis, cut at a character boundary. *)
Theorem http_outcomes url ex t :
  match get_json url ex t with
  | Ok v => ∃ r, t = Responded r ∧ is_success (status r) = true ∧ decode (body r) = Ok v
  | Err e =>
      (is_retryable e = true ↔
         (∃ m, t = TimeoutOrConnect m)
         ∨ ∃ r, t = Responded r ∧
             (status r = 418 ∨ status r = 429 ∨ is_server_error (status r) = true))
      ∧ (∀ d, e = RateLimited (Some d) →
           ∃ r h s, t = Responded r ∧ retry_after_header r = Some h
             ∧ parse_unsigned u64_max h = Some s ∧ d = dur_seconds s)
  end
  ∧ (∀ s, (String.length (truncate s 200) ≤ 203)%nat
          ∧ (truncate s 200 = s
             ∨ ∃ k, truncate s 200 = String.substring 0 k s +:+ ellipsis
                    ∧ is_char_boundary s k = true)).
Proof.
  split.
  - unfold get_json, http_send. destruct t as [r|m|m]; simpl; [|naive_solver..].
    unfold classify. destruct (is_success (status r)) eqn:Es.
    { simpl. destruct (decode (body r)) as [v|e] eqn:Ed; simpl; [by eauto|].
      split; [|done]. split; [done|]. intros [[? ?]|(r' & [= <-] & H)]; [done|].
      unfold is_success, is_server_error in *. lia. }
    destruct (Z.eqb_spec (status r) 418) as [E1|E1].
    { simpl. split; [naive_solver|]. intros d [= Hd].
      destruct (retry_after_header r) as [h|] eqn:Eh; [|done]. simpl in Hd.
      destruct (parse_unsigned u64_max h) as [s|] eqn:Ep; [|done].
      injection Hd as <-. eauto 10. }
    destruct (Z.eqb_spec (status r) 429) as [E2|E2].
    { simpl. split; [naive_solver|]. intros d [= Hd].
      destruct (retry_after_header r) as [h|] eqn:Eh; [|done]. simpl in Hd.
      destruct (parse_unsigned u64_max h) as [s|] eqn:Ep; [|done].
      injection Hd as <-. eauto 10. }
    destruct (is_server_error (status r)) eqn:E5; [simpl; naive_solver|].
    assert (Hno : ¬ ((∃ m, Responded r = TimeoutOrConnect m) ∨
      ∃ r0, Responded r = Responded r0 ∧
        (status r0 = 418 ∨ status r0 = 429 ∨ is_server_error (status r0) = true))).
    { intros [[? ?]|(r' & [= <-] & H)]; [done|]. naive_solver congruence. }
    destruct (status r =? 404); [split; [split; [done|by intros ?%Hno]|done]|].
    by destruct (_ || _); (split; [split; [done|by intros ?%Hno]|done]).
  - intros s. unfold truncate. destruct (Nat.leb_spec (String.length s) 200) as [H|H].
    + split; [lia|by left].
    + split.
      * rewrite string_app_length. pose proof (substring_prefix_length (boundary_at_most s 200) s).
        pose proof (boundary_at_most_le s 200). simpl (String.length ellipsis). lia.
      * right. eexists. split; [done|]. apply boundary_at_most_boundary.
Qed.
End client.

(** * Building a client *)

(** The limiter's quota, in requests; the limiter itself and the connection pool
    are the crates'. *)
Record RateLimitedClient := mkClient {
  client_rps : Z; client_burst : Z; user_agent : string; client_code : string;
}.
(** [NonZeroU32::new]. *)
Definition nonzero (n : Z) : option Z := if n =? 0 then None else Some n.
Definition ok_or {E A} (o : option A) (e : E) : result E A :=
  match o with Some a => Ok a | None => Err e end.

Section new.
(** [reqwest::ClientBuilder::build] for a user agent, and the crate's version. *)
Context (build : string → result string unit) (version : string).

Definition agent_of (exchange_code : string) : string :=
  "trading-terminal-oi/" +:+ version +:+ " (" +:+ exchange_code +:+ ")".
(** [RateLimitedClient::new] *)
Definition client_new (exchange_code : string) (requests_per_sec burst : Z)
  : result ExchangeError RateLimitedClient :=
  let? rps := ok_or (nonzero (Z.max requests_per_sec 1)) (Unexpected "rps must be > 0") in
  let? burst := ok_or (nonzero (Z.max burst 1)) (Unexpected "burst must be > 0") in
  let? _ := map_err (λ e, Unexpected ("http build: " +:+ e)) (build (agent_of exchange_code)) in
  Ok (mkClient rps burst (agent_of exchange_code) exchange_code).

(** The quota is never what fails: zero counts as one. *)
Lemma client_new_spec code rps burst :
  client_new code rps burst =
    match build (agent_of code) with
    | Ok _ => Ok (mkClient (Z.max rps 1) (Z.max burst 1) (agent_of code) code)
    | Err e => Err (Unexpected ("http build: " +:+ e))
    end.
Proof.
  unfold client_new, nonzero.
  destruct (Z.eqb_spec (Z.max rps 1) 0) as [H|_]; [lia|].
  destruct (Z.eqb_spec (Z.max burst 1) 0) as [H|_]; [lia|]. simpl.
  by destruct (build (agent_of code)).
Qed.
End new.
