(* ===== verification/FanOut.v ===== *)
(** The bounded fan-out the adapters and the API use around
    [FuturesUnordered]: start as many tasks as the limit allows, and start the
    next one each time one completes.  Which running task completes next is the
    scheduler's choice, so it is an argument: at step [n] the task at position
    [sched n] (modulo the number running) completes. *)

From Stdlib Require Import ZArith Lia.
From stdpp Require Import base option list.
From S2P Require Import Prelude.

Local Open Scope nat_scope.

Section fan_out.
Context {A : Type} (sched : nat → nat).

(** Remove one element of the running set, and give it back. *)
Definition complete (choice : nat) (running : list A) : option (A * list A) :=
  let i := choice mod length running in
  match running !! i with
  | Some a => Some (a, delete i running)
  | None => None
  end.

(** The [while let Some(res) = stream.next().await] loop; [iter] holds the items
    not started yet.  The result is the order of completion and the largest
    number of tasks that ran at once. *)
Fixpoint fan_out_loop (fuel step : nat) (running iter : list A) : list A * nat :=
  match fuel with
  | O => ([], length running)
  | S fuel' =>
      match complete (sched step) running with
      | None => ([], length running)
      | Some (a, running') =>
          let '(running', iter') :=
            match iter with
            | [] => (running', [])
            | x :: iter' => (running' ++ [x], iter')
            end in
          let '(done, peak) := fan_out_loop fuel' (S step) running' iter' in
          (a :: done, Nat.max (length running) peak)
      end
  end.

(** One step per item completes them all. *)
Definition fan_out (limit : nat) (items : list A) : list A * nat :=
  fan_out_loop (length items) 0 (take limit items) (drop limit items).

Lemma complete_some choice running :
  running ≠ [] →
  ∃ a running', complete choice running = Some (a, running') ∧ running ≡ₚ a :: running'
    ∧ length running = S (length running').
Proof.
  intros Hne. unfold complete.
  assert (Hlt : choice mod length running < length running)
    by (apply Nat.mod_upper_bound; by destruct running).
  destruct (lookup_lt_is_Some_2 running _ Hlt) as [a Ha]. rewrite Ha.
  exists a, (delete (choice mod length running) running). split; [done|].
  split; [by apply delete_Permutation|]. rewrite length_delete by done.
  destruct running; [done|]. simpl. lia.
Qed.

Lemma fan_out_loop_spec fuel step running iter limit :
  length running + length iter = fuel → (running = [] → iter = []) → length running ≤ limit →
  (fan_out_loop fuel step running iter).1 ≡ₚ running ++ iter
  ∧ (fan_out_loop fuel step running iter).2 ≤ limit.
Proof.
  revert step running iter. induction fuel as [|fuel IH]; intros step running iter Hf Hne Hl.
  - destruct running, iter; simpl in *; try lia. done.
  - destruct (decide (running = [])) as [->|Hr].
    { rewrite Hne in Hf by done. done. }
    destruct (complete_some (sched step) running Hr) as (a & running' & Hc & Hp & Hlen).
    cbn [fan_out_loop]. rewrite Hc. destruct iter as [|x iter].
    + destruct (IH (S step) running' []) as [H1 H2];
        [rewrite Hlen in Hf; simpl in *; lia|done|lia|].
      destruct (fan_out_loop fuel (S step) running' []) as [dn peak]. simpl in *.
      split; [|lia]. rewrite H1, app_nil_r. by rewrite Hp, app_nil_r.
    + destruct (IH (S step) (running' ++ [x]) iter) as [H1 H2].
      * rewrite length_app. rewrite Hlen in Hf. simpl in *. lia.
      * by destruct running'.
      * rewrite length_app. simpl. lia.
      * destruct (fan_out_loop fuel (S step) (running' ++ [x]) iter) as [dn peak]. simpl in *.
        split; [|lia]. rewrite H1, Hp. simpl. by rewrite <- (assoc_L (++)).
Qed.

Lemma fan_out_complete limit items :
  0 < limit →
  (fan_out limit items).1 ≡ₚ items ∧ (fan_out limit items).2 ≤ limit.
Proof.
  intros Hl. unfold fan_out.
  destruct (fan_out_loop_spec (length items) 0 (take limit items) (drop limit items) limit)
    as [H1 H2].
  - by rewrite <- length_app, take_drop.
  - intros H. destruct items; [by rewrite drop_nil|]. destruct limit; [lia|done].
  - rewrite length_take. lia.
  - by rewrite take_drop in H1.
Qed.
End fan_out.

#[export] Hint Resolve fan_out_complete : oi.
