(* ===== verification/Adapter.v ===== *)
(** The trait [ExchangeAdapter] of [oi-core/src/traits.rs] and what it promises
    its caller, as an interface: every adapter is a record of the trait's
    methods and an instance of [AdapterContract].

    An endpoint is a function from a URL to the decoded payload or the error of
    the HTTP layer ([Http.get_json]); the derived [Deserialize] impls are
    in [Wire].  An adapter value describes the exchange's answers at one moment,
    with the clock reading [now] taken then.  The history call may panic on a
    date before the first representable one. *)

From Stdlib Require Import ZArith Lia String Ascii.
From stdpp Require Import base option list strings gmap.
From S2P Require Import Prelude Externals Concrete Domain FanOut.
Open Scope Z_scope.
Open Scope oi_scope.

Section adapter.
Context {DL : DecimalLib} {TL : TimeLib}.

Record ExchangeAdapter := mkAdapter {
  ad_exchange : Exchange;
  ad_discover_instruments : result ExchangeError (list InstrumentMeta);
  ad_fetch_oi : list InstrumentId → OffsetDateTime → result ExchangeError (list RawOi);
  ad_fetch_prices : list InstrumentId → result ExchangeError (list PriceQuote);
  ad_fetch_funding : list InstrumentId → OffsetDateTime → result ExchangeError (list FundingBar);
  ad_fetch_funding_history :
    InstrumentId → option OffsetDateTime → run (result ExchangeError (list FundingEvent));
}.

(** The trait's defaults. *)
Definition default_fetch_prices (_ : list InstrumentId)
  : result ExchangeError (list PriceQuote) := Ok [].
Definition default_fetch_funding (_ : list InstrumentId) (_ : OffsetDateTime)
  : result ExchangeError (list FundingBar) := Ok [].
Definition default_fetch_funding_history (_ : InstrumentId) (_ : option OffsetDateTime)
  : run (result ExchangeError (list FundingEvent)) := Ret (Ok []).

(** [wanted.contains(sym)] for the set of the requested symbols. *)
Definition wanted (instruments : list InstrumentId) (sym : string) : bool :=
  existsb (String.eqb sym) (symbol <$> instruments).
Definition str_is_empty (s : string) : bool := String.eqb s EmptyString.
(** [Decimal::from_str(s).ok()] behind an emptiness test. *)
Definition dec_nonempty (s : string) : option Dec :=
  if str_is_empty s then None else dec_parse_ok s.

(** [s.split(c).next()]: the text before the first [c]. *)
Fixpoint split_first (c : ascii) (s : string) : string :=
  match s with
  | EmptyString => EmptyString
  | String x s' => if Ascii.eqb x c then EmptyString else String x (split_first c s')
  end.
(** The first non-empty text of two. *)
Definition prefer (a b : string) : option string :=
  if negb (str_is_empty a) then Some a else if negb (str_is_empty b) then Some b else None.

(** A loop that skips some rows and stops at the first error. *)
Fixpoint collect {E A B} (f : A → result E (option B)) (l : list A) : result E (list B) :=
  match l with
  | [] => Ok []
  | a :: l' => let? o := f a in let? bs := collect f l' in Ok (option_list o ++ bs)
  end.

(** What a caller may rely on. *)
Class AdapterContract (a : ExchangeAdapter) : Prop := {
  contract_discover metas :
    ad_discover_instruments a = Ok metas →
    Forall (λ m, exchange (meta_id m) = ad_exchange a ∧ is_perpetual m = true) metas;
  contract_oi insts bucket out :
    Forall (λ i, exchange i = ad_exchange a) insts →
    ad_fetch_oi a insts bucket = Ok out →
    Forall (λ r, raw_instrument r ∈ insts ∧ raw_bucket_ts r = bucket
                 ∧ ∀ q, raw_price_hint r = Some q → q_instrument q = raw_instrument r) out;
  contract_prices insts out :
    Forall (λ i, exchange i = ad_exchange a) insts →
    ad_fetch_prices a insts = Ok out → Forall (λ q, q_instrument q ∈ insts) out;
  contract_funding insts bucket out :
    Forall (λ i, exchange i = ad_exchange a) insts →
    ad_fetch_funding a insts bucket = Ok out →
    Forall (λ f, f_instrument f ∈ insts ∧ f_bucket_ts f = bucket) out;
  contract_history i since out :
    exchange i = ad_exchange a →
    ad_fetch_funding_history a i since = Ret (Ok out) → Forall (λ e, ev_instrument e = i) out;
}.

(** [since] filters of the histories that have no server-side cursor. *)
Definition not_after (ts : OffsetDateTime) (since : option OffsetDateTime) : bool :=
  match since with Some s => odt_leb ts s | None => false end.

(** The per-symbol funding-interval cache of the adapters that keep one, and
    one answered request of the loop that fills it: [read] is what the answer
    gives, [None] for every failure. *)
Definition interval_step (read : string → option Z) (m : gmap string Z) (sym : string)
  : gmap string Z :=
  match read sym with Some h => <[sym := h]> m | None => m end.
Definition refresh_intervals (sched : nat → nat) (limit : nat) (read : string → option Z)
    (m : gmap string Z) (symbols : list string) : gmap string Z :=
  foldl (interval_step read) m (fan_out sched limit symbols).1.
(** [self.funding_intervals.get(sym).map(|v| *v).or(Some(8))] *)
Definition interval_for (m : gmap string Z) (sym : string) : option Z :=
  opt_or (m !! sym) (Some 8).

(** Whatever order the answers come in, each symbol asked for gets its own
    answer, and keeps the cached value when there is none. *)
Lemma refresh_intervals_lookup sched limit read m symbols sym :
  (0 < limit)%nat →
  refresh_intervals sched limit read m symbols !! sym =
    if bool_decide (sym ∈ symbols) then opt_or (read sym) (m !! sym) else m !! sym.
Proof.
  intros Hl. unfold refresh_intervals.
  destruct (fan_out_complete sched limit symbols Hl) as [Hp _].
  assert (Hg : ∀ l, foldl (interval_step read) m l !! sym =
    if bool_decide (sym ∈ l) then opt_or (read sym) (m !! sym) else m !! sym).
  { clear. intros l. induction l as [|s l IH] using rev_ind; [done|].
    rewrite foldl_snoc. unfold interval_step at 1.
    destruct (decide (s = sym)) as [->|Hne].
    - rewrite (bool_decide_true (sym ∈ l ++ [sym])) by set_solver.
      destruct (read sym) as [h|]; simpl; [by rewrite lookup_insert_eq|].
      rewrite IH. by case_bool_decide.
    - assert (Hl : foldl (interval_step read) m l !! sym
        = if bool_decide (sym ∈ l ++ [s]) then opt_or (read sym) (m !! sym) else m !! sym).
      { rewrite IH. rewrite (bool_decide_ext (sym ∈ l ++ [s]) (sym ∈ l)); [done|].
        rewrite elem_of_app, list_elem_of_singleton. naive_solver. }
      destruct (read s); [by rewrite lookup_insert_ne|done]. }
  rewrite Hg. by rewrite (bool_decide_ext (sym ∈ (fan_out sched limit symbols).1) (sym ∈ symbols))
    by (by rewrite Hp).
Qed.

Lemma wanted_elem insts sym x :
  Forall (λ i, exchange i = x) insts → wanted insts sym = true → mkId x sym ∈ insts.
Proof.
  intros Hf Hw. unfold wanted in Hw. apply existsb_exists in Hw as (s & Hs & E).
  apply String.eqb_eq in E as <-. apply list_elem_of_In, list_elem_of_fmap in Hs as (i & -> & Hi).
  rewrite Forall_forall in Hf. rewrite <- (Hf i Hi). by destruct i.
Qed.

Lemma Forall_omap {A B} (P : B → Prop) (f : A → option B) l :
  (∀ a b, a ∈ l → f a = Some b → P b) → Forall P (omap f l).
Proof.
  intros H. apply Forall_forall. intros b (a & Ha & Hf)%list_elem_of_omap. eauto.
Qed.

Lemma collect_Forall {E A B} (P : B → Prop) (f : A → result E (option B)) l bs :
  (∀ a b, a ∈ l → f a = Ok (Some b) → P b) → collect f l = Ok bs → Forall P bs.
Proof.
  revert bs. induction l as [|a l IH]; simpl; intros bs H.
  - intros [= <-]. constructor.
  - destruct (f a) as [o|] eqn:E1; [|done]. destruct (collect f l) as [bs'|]; [|done].
    intros [= <-]. apply Forall_app. split.
    + destruct o as [b|]; simpl; [|done]. constructor; [|done]. by eapply H; [left|].
    + apply IH; [|done]. intros a' b Ha Hf. eapply H; [by right|done].
Qed.

Lemma collect_ok {E A B} (f : A → result E (option B)) l :
  (∀ a, a ∈ l → is_ok (f a) = true) → ∃ bs, collect f l = Ok bs.
Proof.
  induction l as [|a l IH]; intros H; simpl; [eauto|].
  specialize (H a) as Ha. destruct (f a); [|by discriminate Ha; left].
  destruct IH as [bs ->]; [|eauto]. intros. apply H. by right.
Qed.
End adapter.

(** Case analysis of a row handler that answered [Some _] or [Ok _] in [H]:
    the branches that skip the row are dropped. *)
Ltac row_cases H :=
  repeat (cbn beta iota in H; first
    [ discriminate H
    | lazymatch type of H with
      | (_ ≫= _) = Some _ => apply bind_Some in H as (? & ? & H)
      | (match ?x with _ => _ end) = _ => destruct x eqn:?
      end ]);
  injection H as <-.

(** What the contract asks about one row, from the membership test it passed. *)
Ltac wanted_tac :=
  repeat match goal with
  | H : negb _ = false |- _ => apply negb_false_iff in H
  | H : (_ || _) = false |- _ => apply orb_false_iff in H as [? ?]
  end;
  cbn;
  repeat match goal with
  | |- _ ∧ _ => split
  | |- ∀ q, _ <$> ?o = Some q → _ =>
      let q := fresh in let H := fresh in intros q H; apply fmap_Some in H as (? & _ & ->)
  | |- None = Some _ → _ => discriminate
  | |- ∀ _, None = Some _ → _ => discriminate
  end;
  try reflexivity; try (eapply wanted_elem; eassumption).

(** One endpoint's rows through one row handler. *)
Ltac rows_tac :=
  try match goal with
  | |- Ret _ = Ret _ → _ =>
      let H := fresh in intros H; injection H; clear H
  end;
  repeat match goal with
  | |- (match ?x with Ok _ => _ | Err _ => _ end) = Ok _ → _ => destruct x; [|discriminate]
  end;
  let H := fresh in intros H; injection H as <-; apply Forall_omap.
