(* ===== verification/Binance.v ===== *)
(** The Binance USD-M adapter, [binance/rest.rs]. *)

From Stdlib Require Import ZArith Lia String Ascii.
From stdpp Require Import base option list strings.
From S2P Require Import Prelude Externals Concrete Domain FanOut Adapter.
Open Scope Z_scope.
Open Scope oi_scope.

Section binance.
Context {DL : DecimalLib} {TL : TimeLib} {JL : JsonLib}.

(** * Wire types *)

Record SymbolInfo := mkSymbolInfo {
  si_symbol : string; contract_type : string; si_base_asset : string; si_quote_asset : string;
  si_status : string; filters : list Value }.
Record ExchangeInfo := mkExchangeInfo { symbols : list SymbolInfo }.
Record OpenInterestResp := mkOpenInterest {
  oi_symbol : string; open_interest : string; oi_time : Z }.
Record MarkPriceResp := mkMarkPrice {
  mp_symbol : string; mark_price : string; last_funding_rate : string;
  next_funding_time : Z; mp_time : Z }.
Record HistoryRow := mkHistory {
  h_funding_rate : string; h_funding_time : Z; h_mark_price : string }.

(** The last [PRICE_FILTER] and [LOT_SIZE] entries win. *)
Definition filter_step (acc : option Dec * option Dec) (f : Value) : option Dec * option Dec :=
  let '(tick, step) := acc in
  match get_str f "filterType" with
  | Some ty =>
      if String.eqb ty "PRICE_FILTER" then (get_str f "tickSize" ≫= dec_parse_ok, step)
      else if String.eqb ty "LOT_SIZE" then (tick, get_str f "stepSize" ≫= dec_parse_ok)
      else acc
  | None => acc
  end.
Definition extract_filters (filters : list Value) : option Dec * option Dec :=
  foldl filter_step (None, None) filters.

(** * The adapter *)

(** [get_*] are the four endpoints, [now] the clock, [sched] the order in which
    the spawned requests complete; [fetch_one] runs in a spawned task, whose
    panic shows as [None]. *)
Context (base_url : string) (concurrency : nat) (now : OffsetDateTime) (sched : nat → nat).
Context (get_exchange_info : string → result ExchangeError ExchangeInfo)
        (get_open_interest : string → option (result ExchangeError OpenInterestResp))
        (get_premium_index : string → result ExchangeError (list MarkPriceResp))
        (get_funding_rate : string → result ExchangeError (list HistoryRow)).

Definition with_concurrency (n : nat) : nat := Nat.max n 1.

Definition symbol_meta (s : SymbolInfo) : option InstrumentMeta :=
  if negb (ends_with "PERPETUAL" (contract_type s)) then None
  else
    let active := String.eqb (si_status s) "TRADING" in
    let '(price_tick, qty_step) := extract_filters (filters s) in
    Some {| meta_id := mkId Binance (si_symbol s); base_asset := si_base_asset s;
            quote_asset := si_quote_asset s; is_perpetual := true;
            meta_native_unit := Coins; contract_multiplier := None;
            price_tick := price_tick; qty_step := qty_step; active := active |}.

Definition discover_instruments : result ExchangeError (list InstrumentMeta) :=
  let? info := get_exchange_info (base_url +:+ "/fapi/v1/exchangeInfo") in
  Ok (omap symbol_meta (symbols info)).

Definition fetch_one (symbol : string) : option (result ExchangeError Dec) :=
  (λ r : result ExchangeError OpenInterestResp,
    let? resp := r in
    map_err (λ e, Schema ("openInterest " +:+ symbol +:+ ": " +:+ e))
      (dec_from_str (open_interest resp)))
  <$> get_open_interest (base_url +:+ "/fapi/v1/openInterest?symbol=" +:+ symbol).

Definition oi_result (bucket : OffsetDateTime) (inst : InstrumentId) : option RawOi :=
  match fetch_one (symbol inst) with
  | Some (Ok value) =>
      Some {| raw_instrument := inst; raw_value := value; raw_unit := Coins;
              raw_bucket_ts := bucket; raw_recv_ts := now; raw_price_hint := None |}
  | _ => None
  end.

Definition fetch_oi (instruments : list InstrumentId) (bucket : OffsetDateTime)
  : result ExchangeError (list RawOi) :=
  Ok (omap (oi_result bucket) (fan_out sched concurrency instruments).1).

Definition price_row (instruments : list InstrumentId) (row : MarkPriceResp)
  : result ExchangeError (option PriceQuote) :=
  if negb (wanted instruments (mp_symbol row)) then Ok None
  else
    let? price := map_err (λ e, Schema ("mark price " +:+ mp_symbol row +:+ ": " +:+ e))
                    (dec_from_str (mark_price row)) in
    let? ts := map_err (λ e, Schema ("ts: " +:+ e)) (from_millis (mp_time row)) in
    Ok (Some {| q_instrument := mkId Binance (mp_symbol row); q_price := price;
                q_source := Mark; q_ts := ts |}).

Definition fetch_prices (instruments : list InstrumentId)
  : result ExchangeError (list PriceQuote) :=
  let? all := get_premium_index (base_url +:+ "/fapi/v1/premiumIndex") in
  collect (price_row instruments) all.

Definition history_row (instrument : InstrumentId) (r : HistoryRow) : option FundingEvent :=
  match dec_from_str (h_funding_rate r), from_millis (h_funding_time r) with
  | Ok rate, Ok ts =>
      Some {| ev_instrument := instrument; ev_settlement_ts := ts; ev_rate := rate;
              ev_mark_price := dec_nonempty (h_mark_price r) |}
  | _, _ => None
  end.

Definition history_url (instrument : InstrumentId) (since : option OffsetDateTime) : string :=
  base_url +:+ "/fapi/v1/fundingRate?symbol=" +:+ symbol instrument +:+ "&limit=1000"
  +:+ match since with
      | Some s => "&startTime=" +:+ int_to_string (to_millis s)
      | None => EmptyString
      end.

Definition fetch_funding_history (instrument : InstrumentId) (since : option OffsetDateTime)
  : result ExchangeError (list FundingEvent) :=
  let? rows := get_funding_rate (history_url instrument since) in
  Ok (omap (history_row instrument) rows).

Definition funding_row (instruments : list InstrumentId) (bucket : OffsetDateTime)
    (row : MarkPriceResp) : option FundingBar :=
  if negb (wanted instruments (mp_symbol row)) then None
  else if str_is_empty (last_funding_rate row) then None
  else match dec_from_str (last_funding_rate row) with
       | Err _ => None
       | Ok rate =>
           Some {| f_instrument := mkId Binance (mp_symbol row); f_bucket_ts := bucket;
                   f_recv_ts := now; f_rate := rate;
                   f_next_funding_ts := next_ts_of_millis (next_funding_time row);
                   f_interval_hours := Some 8 |}
       end.

Definition fetch_funding (instruments : list InstrumentId) (bucket : OffsetDateTime)
  : result ExchangeError (list FundingBar) :=
  let? all := get_premium_index (base_url +:+ "/fapi/v1/premiumIndex") in
  Ok (omap (funding_row instruments bucket) all).

Definition adapter : ExchangeAdapter := {|
  ad_exchange := Binance;
  ad_discover_instruments := discover_instruments;
  ad_fetch_oi := fetch_oi;
  ad_fetch_prices := fetch_prices;
  ad_fetch_funding := fetch_funding;
  ad_fetch_funding_history := λ i since, Ret (fetch_funding_history i since) |}.

Lemma fetch_oi_elem insts bucket out r :
  fetch_oi insts bucket = Ok out → 0 < Z.of_nat concurrency →
  r ∈ out ↔ ∃ i, i ∈ insts ∧ oi_result bucket i = Some r.
Proof.
  intros [= <-] Hc. rewrite list_elem_of_omap.
  destruct (fan_out_complete sched concurrency insts ltac:(lia)) as [Hp _].
  by setoid_rewrite Hp.
Qed.

#[global] Instance binance_contract : 0 < Z.of_nat concurrency → AdapterContract adapter.
Proof.
  intros Hc. split; simpl.
  - intros metas. unfold discover_instruments.
    destruct (get_exchange_info _) as [info|]; [|done]. intros [= <-].
    apply Forall_omap. intros s m _ H. unfold symbol_meta in H.
    destruct (negb _); [done|]. destruct (extract_filters _). by injection H as <-.
  - intros insts bucket out _ Hf. apply Forall_forall. intros r Hr.
    apply (fetch_oi_elem _ _ _ _ Hf Hc) in Hr as (i & Hi & H). unfold oi_result in H.
    destruct (fetch_one _) as [[v|]|]; try done. by injection H as <-.
  - intros insts out Hx. unfold fetch_prices. destruct (get_premium_index _) as [all|]; [|done].
    apply collect_Forall. intros row q _ H. unfold price_row in H.
    destruct (wanted insts (mp_symbol row)) eqn:Hw; simpl in H; [|done].
    destruct (map_err _ _); [|done]. destruct (map_err _ _); [|done].
    injection H as <-. simpl. by eapply wanted_elem.
  - intros insts bucket out Hx. unfold fetch_funding.
    destruct (get_premium_index _) as [all|]; [|done]. intros [= <-].
    apply Forall_omap. intros row f _ H. unfold funding_row in H.
    destruct (wanted insts (mp_symbol row)) eqn:Hw; simpl in H; [|done].
    destruct (str_is_empty _); [done|]. destruct (dec_from_str _); [|done].
    injection H as <-. simpl. split; [by eapply wanted_elem|done].
  - intros i since out _ H. injection H as H. revert H. unfold fetch_funding_history.
    destruct (get_funding_rate _) as [rows|]; [|done]. intros [= <-].
    apply Forall_omap. intros r e _ H. unfold history_row in H.
    destruct (dec_from_str _); [|done]. destruct (from_millis _); [|done]. by injection H as <-.
Qed.

(** A minute's open-interest fetch is complete and failure-isolated for any
    order in which the requests complete: with at least one request in flight
    the call succeeds, never has more than the configured number running, and
    returns, each exactly as often as it was asked for, the instruments whose
    own request answered with a readable number, whatever happened to the
    others. *)
Theorem fetch_oi_complete insts bucket :
  0 < Z.of_nat concurrency →
  ∃ out, fetch_oi insts bucket = Ok out
    ∧ out ≡ₚ omap (oi_result bucket) insts
    ∧ ((fan_out sched concurrency insts).2 ≤ concurrency)%nat
    ∧ ∀ i, i ∈ insts →
        (∃ r, r ∈ out ∧ raw_instrument r = i) ↔
        ∃ resp v, get_open_interest (base_url +:+ "/fapi/v1/openInterest?symbol=" +:+ symbol i)
                    = Some (Ok resp) ∧ dec_from_str (open_interest resp) = Ok v.
Proof.
  intros Hc. destruct (fan_out_complete sched concurrency insts ltac:(lia)) as [Hp Hpeak].
  eexists. split; [done|]. split; [by rewrite Hp|]. split; [done|].
  intros i Hi. split.
  - intros (r & Hr & <-). apply list_elem_of_omap in Hr as (j & Hj & H).
    unfold oi_result in H. destruct (fetch_one (symbol j)) as [[v|]|] eqn:Ef; try done.
    injection H as <-. simpl. unfold fetch_one in Ef.
    destruct (get_open_interest _) as [[resp|]|]; simpl in Ef; try done.
    destruct (dec_from_str (open_interest resp)) as [v'|] eqn:Ed; simpl in Ef; [|done].
    exists resp, v'. by rewrite Ed.
  - intros (resp & v & Hg & Hd).
    assert (Hr : oi_result bucket i = Some (mkRaw i v Coins bucket now None)).
    { unfold oi_result, fetch_one. rewrite Hg. simpl. by rewrite Hd. }
    exists (mkRaw i v Coins bucket now None). split; [|done].
    apply list_elem_of_omap. exists i. split; [by rewrite Hp|done].
Qed.
End binance.

(** Two instruments, the second of which fails; two requests in flight. *)
Definition ex_open_interest (url : string) : option (result ExchangeError OpenInterestResp) :=
  if String.eqb url "x/fapi/v1/openInterest?symbol=A" then Some (Ok (mkOpenInterest "A" "7" 0))
  else None.
Lemma fetch_oi_complete_witness :
  0 < Z.of_nat 2 ∧
  ∃ out,
    fetch_oi (DL := z_decimal) (TL := z_time) "x" 2 5 (λ _, 1%nat) ex_open_interest
      [mkId Binance "A"; mkId Binance "B"] 0 = Ok out ∧ raw_value <$> out = [7].
Proof.
  split; [lia|].
  destruct (fetch_oi_complete (DL := z_decimal) (TL := z_time) "x" 2 5 (λ _, 1%nat)
    ex_open_interest [mkId Binance "A"; mkId Binance "B"] 0 ltac:(lia))
    as (out & Ho & _).
  exists out. split; [exact Ho|]. injection Ho as <-. reflexivity.
Defined.
