(* ===== verification/Bybit.v ===== *)
(** The Bybit v5 adapter: [bybit/rest.rs] (REST) and [bybit/stream.rs] (the
    per-symbol state that ticker deltas are merged into). *)

From Stdlib Require Import ZArith Lia String Ascii.
From stdpp Require Import base option list strings.
From S2P Require Import Prelude Externals Concrete Domain FanOut Adapter.
Open Scope Z_scope.
Open Scope oi_scope.

(** * REST *)

Definition RATE_LIMIT_CODES : list string := ["10006"; "10018"; "10029"].

Record Envelope (T : Type) := mkEnvelope { ret_code : Z; ret_msg : string; env_result : T }.
Arguments mkEnvelope {T} _ _ _.
Arguments ret_code {T} _.
Arguments ret_msg {T} _.
Arguments env_result {T} _.

(** [Envelope::check]. *)
Definition check {T} (e : Envelope T) : result ExchangeError T :=
  if ret_code e =? 0 then Ok (env_result e)
  else
    let code_str := int_to_string (ret_code e) in
    if existsb (String.eqb code_str) RATE_LIMIT_CODES then Err (RateLimited None)
    else Err (Schema ("bybit retCode=" +:+ code_str +:+ " retMsg=" +:+ ret_msg e)).

Record InstrumentRow := mkInstrumentRow {
  ir_symbol : string; contract_type : string; ir_status : string;
  base_coin : string; quote_coin : string;
  tick_size : option string;  (** [priceFilter.tickSize] *)
  qty_step_str : option string  (** [lotSizeFilter.qtyStep] *) }.
Record InstrumentsPage := mkPage { page_list : list InstrumentRow; next_page_cursor : string }.
Record TickerRow := mkTicker {
  tk_symbol : string; open_interest_str : string; open_interest_value : string;
  mark_price_str : string; last_price_str : string; index_price_str : string;
  funding_rate : string; next_funding_time : string }.
Record HistoryRow := mkHistory { h_funding_rate : string; funding_rate_timestamp : string }.

Section rest.
Context {DL : DecimalLib} {TL : TimeLib}.
Context (base_url : string) (now : OffsetDateTime).
Context (get_instruments : string → result ExchangeError (Envelope InstrumentsPage))
        (get_tickers : string → result ExchangeError (Envelope (list TickerRow)))
        (get_history : string → result ExchangeError (Envelope (list HistoryRow))).

Definition instrument_meta (r : InstrumentRow) : option InstrumentMeta :=
  if negb (str_is_empty (contract_type r))
     && negb (String.eqb (contract_type r) "LinearPerpetual") then None
  else Some {| meta_id := mkId Bybit (ir_symbol r); base_asset := base_coin r;
               quote_asset := quote_coin r; is_perpetual := true; meta_native_unit := Coins;
               contract_multiplier := None;
               price_tick := tick_size r ≫= dec_parse_ok;
               qty_step := qty_step_str r ≫= dec_parse_ok;
               active := String.eqb (ir_status r) "Trading" |}.

Definition page_url (cursor : string) : string :=
  base_url +:+ "/v5/market/instruments-info?category=linear&limit=1000"
  +:+ (if str_is_empty cursor then EmptyString else "&cursor=" +:+ cursor).

(** The body of [for _page in 0..32], and what follows the loop. *)
Fixpoint discover_pages (pages : nat) (cursor : string) (out : list InstrumentMeta)
  : result ExchangeError (list InstrumentMeta) :=
  match pages with
  | O => Ok out
  | S pages' =>
      let? env := get_instruments (page_url cursor) in
      let? page := check env in
      let out := out ++ omap instrument_meta (page_list page) in
      if str_is_empty (next_page_cursor page) then Ok out
      else discover_pages pages' (next_page_cursor page) out
  end.
Definition discover_instruments : result ExchangeError (list InstrumentMeta) :=
  discover_pages 32 EmptyString [].

Definition tickers_page : result ExchangeError (list TickerRow) :=
  let? env := get_tickers (base_url +:+ "/v5/market/tickers?category=linear") in check env.

Definition mark_or_last (r : TickerRow) : PriceSource :=
  if negb (str_is_empty (mark_price_str r)) then Mark else Last.

Definition oi_row (instruments : list InstrumentId) (bucket : OffsetDateTime) (r : TickerRow)
  : option RawOi :=
  if negb (wanted instruments (tk_symbol r)) then None
  else if str_is_empty (open_interest_str r) then None
  else match dec_from_str (open_interest_str r) with
       | Err _ => None
       | Ok value =>
           let price := if negb (str_is_empty (mark_price_str r))
                        then dec_parse_ok (mark_price_str r)
                        else if negb (str_is_empty (last_price_str r))
                        then dec_parse_ok (last_price_str r) else None in
           let inst := mkId Bybit (tk_symbol r) in
           Some {| raw_instrument := inst; raw_value := value; raw_unit := Coins;
                   raw_bucket_ts := bucket; raw_recv_ts := now;
                   raw_price_hint :=
                     (λ p, {| q_instrument := inst; q_price := p;
                              q_source := mark_or_last r; q_ts := now |}) <$> price |}
       end.
Definition fetch_oi (instruments : list InstrumentId) (bucket : OffsetDateTime)
  : result ExchangeError (list RawOi) :=
  let? page := tickers_page in Ok (omap (oi_row instruments bucket) page).

Definition price_row (instruments : list InstrumentId) (r : TickerRow) : option PriceQuote :=
  if negb (wanted instruments (tk_symbol r)) then None
  else
    let raw := if negb (str_is_empty (mark_price_str r)) then Some (mark_price_str r)
               else if negb (str_is_empty (last_price_str r)) then Some (last_price_str r)
               else None in
    match raw ≫= dec_parse_ok with
    | None => None
    | Some price => Some {| q_instrument := mkId Bybit (tk_symbol r); q_price := price;
                            q_source := mark_or_last r; q_ts := now |}
    end.
Definition fetch_prices (instruments : list InstrumentId)
  : result ExchangeError (list PriceQuote) :=
  let? page := tickers_page in Ok (omap (price_row instruments) page).

Definition history_url (instrument : InstrumentId) (since : option OffsetDateTime) : string :=
  base_url +:+ "/v5/market/funding/history?category=linear&symbol=" +:+ symbol instrument
  +:+ "&limit=200"
  +:+ match since with
      | Some s => "&startTime=" +:+ int_to_string (to_millis s)
                  +:+ "&endTime=" +:+ int_to_string (to_millis now)
      | None => EmptyString
      end.
Definition history_row (instrument : InstrumentId) (r : HistoryRow) : option FundingEvent :=
  rate ← dec_parse_ok (h_funding_rate r);
  ms ← parse_signed i64_min i64_max (funding_rate_timestamp r);
  ts ← result_ok (from_millis ms);
  Some {| ev_instrument := instrument; ev_settlement_ts := ts; ev_rate := rate;
          ev_mark_price := None |}.
Definition fetch_funding_history (instrument : InstrumentId) (since : option OffsetDateTime)
  : result ExchangeError (list FundingEvent) :=
  let? env := get_history (history_url instrument since) in
  let? history := check env in
  Ok (omap (history_row instrument) history).

Definition funding_row (instruments : list InstrumentId) (bucket : OffsetDateTime)
    (r : TickerRow) : option FundingBar :=
  if negb (wanted instruments (tk_symbol r)) || str_is_empty (funding_rate r) then None
  else
    rate ← dec_parse_ok (funding_rate r);
    Some {| f_instrument := mkId Bybit (tk_symbol r); f_bucket_ts := bucket;
            f_recv_ts := now; f_rate := rate;
            f_next_funding_ts :=
              parse_signed i64_min i64_max (next_funding_time r) ≫= next_ts_of_millis;
            f_interval_hours := Some 8 |}.
Definition fetch_funding (instruments : list InstrumentId) (bucket : OffsetDateTime)
  : result ExchangeError (list FundingBar) :=
  let? page := tickers_page in Ok (omap (funding_row instruments bucket) page).

Definition adapter : ExchangeAdapter := {|
  ad_exchange := Bybit;
  ad_discover_instruments := discover_instruments;
  ad_fetch_oi := fetch_oi;
  ad_fetch_prices := fetch_prices;
  ad_fetch_funding := fetch_funding;
  ad_fetch_funding_history := λ i since, Ret (fetch_funding_history i since) |}.

Lemma instrument_meta_ok r m :
  instrument_meta r = Some m → exchange (meta_id m) = Bybit ∧ is_perpetual m = true.
Proof. unfold instrument_meta. destruct (_ && _); [done|]. by intros [= <-]. Qed.

Lemma discover_pages_ok pages cursor out metas :
  Forall (λ m, exchange (meta_id m) = Bybit ∧ is_perpetual m = true) out →
  discover_pages pages cursor out = Ok metas →
  Forall (λ m, exchange (meta_id m) = Bybit ∧ is_perpetual m = true) metas.
Proof.
  revert cursor out. induction pages as [|pages IH]; simpl; intros cursor out Hout H;
    [by injection H as <-|].
  destruct (get_instruments _); [|done]. destruct (check _) as [page|]; [|done].
  assert (Hout' : Forall (λ m, exchange (meta_id m) = Bybit ∧ is_perpetual m = true)
    (out ++ omap instrument_meta (page_list page))).
  { apply Forall_app. split; [done|]. apply Forall_omap. eauto using instrument_meta_ok. }
  destruct (str_is_empty _); [by injection H as <-|]. by eapply IH.
Qed.

#[global] Instance bybit_contract : AdapterContract adapter.
Proof.
  split; simpl.
  - intros metas. by apply discover_pages_ok.
  - intros insts bucket out Hx. unfold fetch_oi. rows_tac.
    intros r o _ H. unfold oi_row in H. row_cases H; wanted_tac.
  - intros insts out Hx. unfold fetch_prices. rows_tac.
    intros r o _ H. unfold price_row in H. row_cases H; wanted_tac.
  - intros insts bucket out Hx. unfold fetch_funding. rows_tac.
    intros r o _ H. unfold funding_row in H. row_cases H; wanted_tac.
  - intros i since out _ H. injection H as H. revert H. unfold fetch_funding_history. rows_tac.
    intros r e _ H. unfold history_row in H. row_cases H; done.
Qed.

(** * Pagination *)

(** The pages the server hands out when the cursors are followed from
    [cursor]: the rows of each, and the last cursor. *)
Inductive served : string → list (list InstrumentRow) → string → Prop :=
| served_nil cursor : served cursor [] cursor
| served_cons cursor env page pages last :
    get_instruments (page_url cursor) = Ok env → check env = Ok page →
    served (next_page_cursor page) pages last →
    (pages = [] ∨ str_is_empty (next_page_cursor page) = false) →
    served cursor (page_list page :: pages) last.

Lemma discover_pages_served n cursor pages last out :
  served cursor pages last → pages ≠ [] →
  (length pages = n ∨ length pages < n ∧ str_is_empty last = true)%nat →
  discover_pages n cursor out = Ok (out ++ omap instrument_meta (concat pages)).
Proof.
  intros Hs. revert n out. induction Hs as [|cursor env page pages last Hg Hc Hs IH Hne];
    intros n out Hp Hn; [done|].
  destruct n as [|n]; [simpl in Hn; lia|]. cbn [discover_pages]. rewrite Hg, Hc.
  cbn [concat]. rewrite omap_app, (assoc_L (++)).
  destruct pages as [|p pages].
  - inversion Hs; subst. simpl. rewrite app_nil_r. destruct Hn as [Hn|[_ Hl]]; [|by rewrite Hl].
    destruct n; [|simpl in Hn; lia]. by destruct (str_is_empty _).
  - destruct Hne as [?| ->]; [done|]. apply IH; [done|].
    destruct Hn as [Hn|[Hn ?]]; [left|right; split; [|done]]; simpl in *; lia.
Qed.

(** Every listing the call returns is of pages the server handed out. *)
Lemma discover_pages_of n cursor out metas :
  discover_pages n cursor out = Ok metas →
  ∃ pages last, served cursor pages last ∧ metas = out ++ omap instrument_meta (concat pages).
Proof.
  revert cursor out. induction n as [|n IH]; intros cursor out; cbn [discover_pages].
  { intros [= <-]. exists [], cursor. split; [constructor|]. by rewrite app_nil_r. }
  destruct (get_instruments (page_url cursor)) as [env|] eqn:Eg; [|done].
  destruct (check env) as [page|] eqn:Ec; [|done].
  destruct (str_is_empty (next_page_cursor page)) eqn:El.
  - intros [= <-]. exists [page_list page], (next_page_cursor page).
    split; [|by cbn [concat]; rewrite app_nil_r].
    by eapply served_cons; [| |constructor|left].
  - intros (pages & last & Hs & ->)%IH. exists (page_list page :: pages), last.
    split; [by eapply served_cons; [| |exact Hs|right]|].
    cbn [concat]. by rewrite omap_app, (assoc_L (++)).
Qed.

(** C40. Discovery follows the cursors.  When the server ends the listing within
    32 pages, the result is the linear perpetuals of all pages in order; when it
    never ends it, the call still returns, with those of exactly the first 32
    pages; an error on any page it reads fails the whole call. *)
Theorem discovery_paginates pages last :
  served EmptyString pages last →
  (pages ≠ [] → str_is_empty last = true → (length pages ≤ 32)%nat →
     discover_instruments = Ok (omap instrument_meta (concat pages)))
  ∧ (length pages = 32%nat →
     discover_instruments = Ok (omap instrument_meta (concat pages)))
  ∧ (∀ e, (length pages < 32)%nat → (pages = [] ∨ str_is_empty last = false) →
     (let? env := get_instruments (page_url last) in check env) = Err e →
     discover_instruments = Err e).
Proof.
  intros Hs. split; [|split].
  - intros Hp Hl Hn. unfold discover_instruments.
    rewrite (discover_pages_served 32 _ pages last []); [done..|].
    destruct (Nat.eq_dec (length pages) 32%nat); [by left|right; split; [lia|done]].
  - intros Hn. unfold discover_instruments.
    rewrite (discover_pages_served 32 _ pages last []); [done|done|by destruct pages|lia].
  - unfold discover_instruments. generalize (32%nat). generalize (@nil InstrumentMeta).
    induction Hs as [cursor|cursor env page pages last Hg Hc Hs IH Hne];
      intros out n e Hn Hl He; (destruct n as [|n]; [simpl in Hn; lia|]); cbn [discover_pages].
    + destruct (get_instruments (page_url cursor)) as [env|]; [|by injection He as ->].
      by rewrite He.
    + rewrite Hg, Hc.
      assert (He' : str_is_empty (next_page_cursor page) = false).
      { destruct Hne as [-> |?]; [|done]. inversion Hs; subst. by destruct Hl. }
      rewrite He'. eapply IH; [simpl in Hn; lia| |done].
      destruct Hl as [?|?]; [done|by right].
Qed.
End rest.

(** * The ticker stream *)

Inductive FrameType := Snapshot | Delta.

Section stream.
Context {DL : DecimalLib} {TL : TimeLib} {JL : JsonLib}.

Record SymbolState := mkState {
  open_interest : option Dec; mark_price : option Dec; last_price : option Dec }.
Definition state_default : SymbolState := mkState None None None.

Definition pick_decimal (data : Value) (key : string) : option Dec :=
  s ← get_str data key;
  if str_is_empty s then None else dec_parse_ok s.

(** [SymbolState::merge]: the new state, and the open interest to emit. *)
Definition merge (st : SymbolState) (ty : FrameType) (data : Value)
  : SymbolState * option Dec :=
  let prev_oi := open_interest st in
  let st' :=
    match ty with
    | Snapshot =>
        {| open_interest := opt_or (pick_decimal data "openInterest") (open_interest st);
           mark_price := opt_or (pick_decimal data "markPrice") (mark_price st);
           last_price := opt_or (pick_decimal data "lastPrice") (last_price st) |}
    | Delta =>
        {| open_interest := match pick_decimal data "openInterest" with
                            | Some v => Some v | None => open_interest st end;
           mark_price := match pick_decimal data "markPrice" with
                         | Some v => Some v | None => mark_price st end;
           last_price := match pick_decimal data "lastPrice" with
                         | Some v => Some v | None => last_price st end |}
    end in
  (st', match prev_oi, open_interest st' with
        | Some a, Some b => if dec_eqb a b then None else Some b
        | None, None => None
        | _, Some new => Some new
        | _, None => None
        end).

Definition to_raw (st : SymbolState) (symbol : string) (bucket_ts recv_ts : OffsetDateTime)
  : option RawOi :=
  value ← open_interest st;
  let instrument := mkId Bybit symbol in
  Some {| raw_instrument := instrument; raw_value := value; raw_unit := Coins;
          raw_bucket_ts := bucket_ts; raw_recv_ts := recv_ts;
          raw_price_hint :=
            (λ p, {| q_instrument := instrument; q_price := p;
                     q_source := if bool_decide (is_Some (mark_price st)) then Mark else Last;
                     q_ts := recv_ts |}) <$> opt_or (mark_price st) (last_price st) |}.

(** [enrich_bybit]; [raw.value * p] may panic. *)
Definition enrich_bybit (raw : RawOi) : run OiSample :=
  let price := q_price <$> raw_price_hint raw in
  oi_usd ← opt_run (λ p, dec_mul (raw_value raw) p) price;
  Ret {| s_instrument := raw_instrument raw; s_bucket_ts := raw_bucket_ts raw;
         s_recv_ts := raw_recv_ts raw; s_native_value := raw_value raw;
         s_native_unit := Coins; s_oi_coins := Some (raw_value raw); s_oi_usd := oi_usd;
         s_price_used := price |}.

Definition classify_frame (frame : Value) : option (FrameType * string) :=
  topic ← get_str frame "topic";
  symbol ← strip_prefix "tickers." topic;
  ty ← get_str frame "type";
  if String.eqb ty "snapshot" then Some (Snapshot, symbol)
  else if String.eqb ty "delta" then Some (Delta, symbol)
  else None.

(** A run of frames from a state: the state after it, and what was emitted. *)
Fixpoint merge_all (st : SymbolState) (frames : list (FrameType * Value))
  : SymbolState * list Dec :=
  match frames with
  | [] => (st, [])
  | (ty, data) :: frames' =>
      let '(st, out) := merge st ty data in
      let '(st, outs) := merge_all st frames' in
      (st, option_list out ++ outs)
  end.

(** The last readable value of a field. *)
Definition latest (key : string) (frames : list (FrameType * Value)) : option Dec :=
  last (omap (λ f, pick_decimal f.2 key) frames).

(** Consecutive values differ, and the first differs from [prev]. *)
Fixpoint all_changes (prev : option Dec) (l : list Dec) : Prop :=
  match l with
  | [] => True
  | v :: l' => ¬ (prev ≡ Some v) ∧ all_changes (Some v) l'
  end.

Lemma merge_fields st ty data :
  (merge st ty data).1 =
    {| open_interest := opt_or (pick_decimal data "openInterest") (open_interest st);
       mark_price := opt_or (pick_decimal data "markPrice") (mark_price st);
       last_price := opt_or (pick_decimal data "lastPrice") (last_price st) |}.
Proof.
  destruct ty; [done|]. unfold merge. cbn [fst].
  by destruct (pick_decimal data "openInterest"), (pick_decimal data "markPrice"),
    (pick_decimal data "lastPrice").
Qed.

Lemma merge_all_snoc st fs ty data :
  merge_all st (fs ++ [(ty, data)]) =
    let '(st1, outs) := merge_all st fs in
    let '(st2, out) := merge st1 ty data in (st2, outs ++ option_list out).
Proof.
  revert st. induction fs as [|[ty' d'] fs IH]; intros st.
  { cbn [app merge_all]. destruct (merge st ty data) as [st2 out]. by rewrite app_nil_r. }
  cbn [app merge_all]. destruct (merge st ty' d') as [st1 out1]. rewrite IH.
  destruct (merge_all st1 fs) as [st2 outs]. destruct (merge st2 ty data) as [st3 out].
  by rewrite (assoc_L (++)).
Qed.

Lemma latest_snoc key fs ty data :
  latest key (fs ++ [(ty, data)]) = opt_or (pick_decimal data key) (latest key fs).
Proof.
  unfold latest. rewrite omap_app. simpl. destruct (pick_decimal data key); simpl.
  - by rewrite last_snoc.
  - by rewrite app_nil_r.
Qed.

Lemma merge_all_latest fs :
  (merge_all state_default fs).1 =
    mkState (latest "openInterest" fs) (latest "markPrice" fs) (latest "lastPrice" fs).
Proof.
  induction fs as [|[ty data] fs IH] using rev_ind; [done|].
  rewrite merge_all_snoc, !latest_snoc.
  destruct (merge_all state_default fs) as [st outs]. simpl in IH.
  pose proof (merge_fields st ty data) as Hm. destruct (merge st ty data) as [st2 out].
  simpl in *. by rewrite Hm, IH.
Qed.

Context {DLaws : DecimalLaws DL}.

Lemma all_changes_snoc prev l v :
  all_changes prev l → ¬ (default prev (Some <$> last l) ≡ Some v) → all_changes prev (l ++ [v]).
Proof.
  revert prev. induction l as [|w l IH]; intros prev; [by split|].
  intros [Hw Hl] Hv. split; [done|]. apply IH; [done|]. intros Hc. apply Hv.
  destruct l as [|x l]; [done|]. rewrite last_cons.
  destruct (proj2 (last_is_Some (x :: l))) as [y Hy]; [done|]. by rewrite Hy in Hc |- *.
Qed.

(** What is emitted is the last known value, whenever it changed. *)
Lemma merge_emits st ty data :
  (merge st ty data).2 =
    (v ← open_interest (merge st ty data).1;
     if match open_interest st with Some a => dec_eqb a v | None => false end
     then None else Some v).
Proof.
  destruct ty; unfold merge; cbn [fst snd open_interest];
    destruct (open_interest st) as [a|], (pick_decimal data "openInterest") as [b|]; simpl;
    try done; by case_match.
Qed.

(** The stream's per-symbol state.  After any frames the state holds, for
    each field, the last readable value any of them carried, so a snapshot
    that lacks a field keeps the old one just as a delta does; the open
    interests emitted on the way are all changes (no emitted value equals the
    one before it), and the last of them is numerically the current open
    interest, so no change is missed; a price-only frame emits nothing. *)
Theorem delta_merge_correct fs :
  let '(st, emitted) := merge_all state_default fs in
  st = mkState (latest "openInterest" fs) (latest "markPrice" fs) (latest "lastPrice" fs)
  ∧ all_changes None emitted
  ∧ last emitted ≡ open_interest st
  ∧ (∀ ty data, pick_decimal data "openInterest" = None → (merge st ty data).2 = None).
Proof.
  pose proof (merge_all_latest fs) as Hst.
  assert (Hem : all_changes None (merge_all state_default fs).2
                ∧ last (merge_all state_default fs).2 ≡ open_interest (merge_all state_default fs).1).
  { clear Hst. induction fs as [|[ty data] fs [IH1 IH2]] using rev_ind; [done|].
    rewrite merge_all_snoc. destruct (merge_all state_default fs) as [st outs].
    cbn [fst snd] in *. pose proof (merge_emits st ty data) as He. pose proof (merge_fields st ty data) as Hf.
    destruct (merge st ty data) as [st2 out]. cbn [fst snd] in *. subst st2 out. cbn [open_interest].
    destruct (pick_decimal data "openInterest") as [v|]; simpl.
    - destruct (open_interest st) as [a|]; simpl.
      + unfold dec_eqb. destruct (dec_cmp a v) eqn:Ec; simpl.
        * rewrite app_nil_r. split; [done|]. rewrite IH2. by constructor.
        * rewrite last_snoc. split; [|done]. apply all_changes_snoc; [done|].
          destruct (last outs) as [w|]; inversion IH2 as [? ? Hw|]; subst. simpl.
          rewrite Hw. intros Hc. inversion Hc as [? ? Hc'|]; subst.
          unfold equiv, dec_equiv in Hc'. congruence.
        * rewrite last_snoc. split; [|done]. apply all_changes_snoc; [done|].
          destruct (last outs) as [w|]; inversion IH2 as [? ? Hw|]; subst. simpl.
          rewrite Hw. intros Hc. inversion Hc as [? ? Hc'|]; subst.
          unfold equiv, dec_equiv in Hc'. congruence.
      + rewrite last_snoc. split; [|done]. apply all_changes_snoc; [done|].
        destruct (last outs) as [w|]; inversion IH2. intros Hc. inversion Hc.
    - destruct (open_interest st) as [a|]; simpl.
      + unfold dec_eqb. rewrite dec_cmp_refl. simpl. rewrite app_nil_r. done.
      + rewrite app_nil_r. done. }
  destruct (merge_all state_default fs) as [st emitted]. cbn [fst snd] in *.
  split; [done|]. destruct Hem as [H1 H2]. split; [done|]. split; [done|].
  intros ty data Hd. rewrite merge_emits, merge_fields, Hd. simpl.
  destruct (open_interest st) as [a|]; simpl; [|done].
  unfold dec_eqb. by rewrite dec_cmp_refl.
Qed.
End stream.

Definition ex_frame (oi : string) : FrameType * Value (JsonLib := tree_json) :=
  (Delta, JObj [("openInterest"%string, JStr oi)]).
Lemma delta_merge_correct_witness :
  let '(st, emitted) := merge_all (DL := z_decimal) state_default
                          [ex_frame "5"; ex_frame "05"; ex_frame "6"] in
  open_interest st = Some 6 ∧ emitted = [5; 6] ∧ last emitted ≡ open_interest st.
Proof.
  pose proof (delta_merge_correct (DL := z_decimal)
    [ex_frame "5"; ex_frame "05"; ex_frame "6"]) as (H1 & _ & H2 & _).
  split; [reflexivity|]. split; [reflexivity|exact H2].
Defined.

(** Two pages, the second the last. *)
Definition ex_row (sym : string) : InstrumentRow :=
  mkInstrumentRow sym "LinearPerpetual" "Trading" "B" "Q" None None.
Definition ex_pages (url : string) : result ExchangeError (Envelope InstrumentsPage) :=
  if ends_with "cursor=c" url then Ok (mkEnvelope 0 "" (mkPage [ex_row "B"] ""))
  else Ok (mkEnvelope 0 "" (mkPage [ex_row "A"] "c")).
Lemma discovery_paginates_witness :
  served "x" ex_pages "" [[ex_row "A"]; [ex_row "B"]] ""
  ∧ discover_instruments (DL := z_decimal) "x" ex_pages
    = Ok (omap (instrument_meta (DL := z_decimal)) (concat [[ex_row "A"]; [ex_row "B"]])).
Proof.
  assert (Hs : served "x" ex_pages "" [[ex_row "A"]; [ex_row "B"]] "").
  { apply (served_cons "x" ex_pages "" (mkEnvelope 0 "" (mkPage [ex_row "A"] "c"))
             (mkPage [ex_row "A"] "c") [[ex_row "B"]] ""); [reflexivity|reflexivity| |by right].
    apply (served_cons "x" ex_pages "c" (mkEnvelope 0 "" (mkPage [ex_row "B"] ""))
             (mkPage [ex_row "B"] "") [] ""); [reflexivity|reflexivity|apply served_nil|by left]. }
  split; [exact Hs|].
  destruct (discovery_paginates (DL := z_decimal) "x" ex_pages
    [[ex_row "A"]; [ex_row "B"]] "" Hs) as [H _].
  apply H; [discriminate|reflexivity|simpl; lia].
Defined.
