(* ===== verification/Okx.v ===== *)
(** The OKX adapter: [okx/rest.rs] and the push parser [okx/stream.rs]. *)

From Stdlib Require Import ZArith Lia String Ascii.
From stdpp Require Import base option list strings.
From S2P Require Import Prelude Externals Concrete Domain Buckets FanOut Adapter.
Open Scope Z_scope.
Open Scope oi_scope.

Record Envelope (T : Type) := mkEnvelope { env_code : string; env_msg : string; env_data : list T }.
Arguments mkEnvelope {T} _ _ _.
Arguments env_code {T} _.
Arguments env_msg {T} _.
Arguments env_data {T} _.

(** [Envelope::check]. *)
Definition check {T} (e : Envelope T) : result ExchangeError (list T) :=
  if String.eqb (env_code e) "0" then Ok (env_data e)
  else Err (Schema ("okx code=" +:+ env_code e +:+ " msg=" +:+ env_msg e)).

Record InstrumentRow := mkInstrumentRow {
  inst_id : string; inst_type : string; base_ccy : string; quote_ccy : string;
  ct_val : string; ct_val_ccy : string; settle_ccy : string; tick_sz : string;
  lot_sz : string; state : string; ct_type : string }.
Record OiRow := mkOiRow {
  oi_inst_id : string; oi_contracts : string; oi_ccy : string; oi_ts : string }.
Record TickerRow := mkTicker {
  tk_inst_id : string; last_str : string; mark_px : string; tk_ts : string }.
Record HistoryRow := mkHistory {
  realized_rate : string; h_funding_rate : string; h_funding_time : string }.
Record FundingRateRow := mkFundingRate {
  fr_inst_id : string; fr_funding_rate : string; fr_next_funding_time : string;
  fr_funding_time : string }.

Section rest.
Context {DL : DecimalLib} {TL : TimeLib}.
Context (base_url : string) (now : OffsetDateTime) (sched : nat → nat).
Context (get_instruments : string → result ExchangeError (Envelope InstrumentRow))
        (get_open_interest : string → result ExchangeError (Envelope OiRow))
        (get_tickers : string → result ExchangeError (Envelope TickerRow))
        (get_history : string → result ExchangeError (Envelope HistoryRow))
        (get_funding_rate : string → option (result ExchangeError (Envelope FundingRateRow))).

Definition parse_ms (s : string) : option OffsetDateTime :=
  ms ← parse_signed i64_min i64_max s; result_ok (from_millis ms).

Definition instrument_meta (r : InstrumentRow) : option InstrumentMeta :=
  if negb (str_is_empty (ct_type r)) && negb (String.eqb (ct_type r) "linear") then None
  else Some {| meta_id := mkId Okx (inst_id r);
               base_asset := split_first "-" (inst_id r);
               quote_asset := if str_is_empty (quote_ccy r) then settle_ccy r else quote_ccy r;
               is_perpetual := true; meta_native_unit := Coins;
               contract_multiplier := dec_nonempty (ct_val r);
               price_tick := dec_nonempty (tick_sz r);
               qty_step := dec_nonempty (lot_sz r);
               active := String.eqb (state r) "live" |}.
Definition discover_instruments : result ExchangeError (list InstrumentMeta) :=
  let? env := get_instruments (base_url +:+ "/api/v5/public/instruments?instType=SWAP") in
  let? rows := check env in
  Ok (omap instrument_meta rows).

Definition oi_row (instruments : list InstrumentId) (bucket : OffsetDateTime) (r : OiRow)
  : option RawOi :=
  if negb (wanted instruments (oi_inst_id r)) then None
  else
    let value_unit :=
      if negb (str_is_empty (oi_ccy r)) then
        match dec_from_str (oi_ccy r) with Ok v => Some (v, Coins) | Err _ => None end
      else if negb (str_is_empty (oi_contracts r)) then
        match dec_from_str (oi_contracts r) with Ok v => Some (v, Contracts) | Err _ => None end
      else None in
    match value_unit with
    | None => None
    | Some (value, unit) =>
        Some {| raw_instrument := mkId Okx (oi_inst_id r); raw_value := value; raw_unit := unit;
                raw_bucket_ts := bucket; raw_recv_ts := now; raw_price_hint := None |}
    end.
Definition fetch_oi (instruments : list InstrumentId) (bucket : OffsetDateTime)
  : result ExchangeError (list RawOi) :=
  let? env := get_open_interest (base_url +:+ "/api/v5/public/open-interest?instType=SWAP") in
  let? rows := check env in
  Ok (omap (oi_row instruments bucket) rows).

Definition price_row (instruments : list InstrumentId) (r : TickerRow) : option PriceQuote :=
  if negb (wanted instruments (tk_inst_id r)) then None
  else
    raw ← prefer (mark_px r) (last_str r);
    price ← dec_parse_ok raw;
    Some {| q_instrument := mkId Okx (tk_inst_id r); q_price := price;
            q_source := if negb (str_is_empty (mark_px r)) then Mark else Last;
            q_ts := default now (parse_ms (tk_ts r)) |}.
Definition fetch_prices (instruments : list InstrumentId)
  : result ExchangeError (list PriceQuote) :=
  let? env := get_tickers (base_url +:+ "/api/v5/market/tickers?instType=SWAP") in
  let? rows := check env in
  Ok (omap (price_row instruments) rows).

Definition history_url (instrument : InstrumentId) (since : option OffsetDateTime) : string :=
  base_url +:+ "/api/v5/public/funding-rate-history?instId=" +:+ symbol instrument
  +:+ "&limit=100"
  +:+ match since with
      | Some s => "&before=" +:+ int_to_string (to_millis s)
      | None => EmptyString
      end.
Definition history_row (instrument : InstrumentId) (r : HistoryRow) : option FundingEvent :=
  rate_str ← prefer (realized_rate r) (h_funding_rate r);
  rate ← dec_parse_ok rate_str;
  ts ← parse_ms (h_funding_time r);
  Some {| ev_instrument := instrument; ev_settlement_ts := ts; ev_rate := rate;
          ev_mark_price := None |}.
Definition fetch_funding_history (instrument : InstrumentId) (since : option OffsetDateTime)
  : result ExchangeError (list FundingEvent) :=
  let? env := get_history (history_url instrument since) in
  let? rows := check env in
  Ok (omap (history_row instrument) rows).

(** One spawned task; [None] when it panicked. *)
Definition fetch_one_funding (symbol : string)
  : option (result ExchangeError (option (Dec * option OffsetDateTime))) :=
  (λ r : result ExchangeError (Envelope FundingRateRow),
    let? env := r in
    let? rows := check env in
    match rows with
    | [] => Ok None
    | r :: _ =>
        if str_is_empty (fr_funding_rate r) then Ok None
        else
          let? rate := map_err (λ e, Schema ("okx fundingRate " +:+ symbol +:+ ": " +:+ e))
                         (dec_from_str (fr_funding_rate r)) in
          Ok (Some (rate, parse_ms (fr_next_funding_time r)))
    end)
  <$> get_funding_rate (base_url +:+ "/api/v5/public/funding-rate?instId=" +:+ symbol).

Definition funding_result (bucket : OffsetDateTime) (inst : InstrumentId) : option FundingBar :=
  match fetch_one_funding (symbol inst) with
  | Some (Ok (Some (rate, next_ts))) =>
      Some {| f_instrument := inst; f_bucket_ts := bucket; f_recv_ts := now; f_rate := rate;
              f_next_funding_ts := next_ts; f_interval_hours := Some 8 |}
  | _ => None
  end.
Definition fetch_funding (instruments : list InstrumentId) (bucket : OffsetDateTime)
  : result ExchangeError (list FundingBar) :=
  Ok (omap (funding_result bucket) (fan_out sched 8 instruments).1).

Definition adapter : ExchangeAdapter := {|
  ad_exchange := Okx;
  ad_discover_instruments := discover_instruments;
  ad_fetch_oi := fetch_oi;
  ad_fetch_prices := fetch_prices;
  ad_fetch_funding := fetch_funding;
  ad_fetch_funding_history := λ i since, Ret (fetch_funding_history i since) |}.

#[global] Instance okx_contract : AdapterContract adapter.
Proof.
  split; simpl.
  - intros metas. unfold discover_instruments. rows_tac.
    intros r m _ H. unfold instrument_meta in H. row_cases H; done.
  - intros insts bucket out Hx. unfold fetch_oi. rows_tac.
    intros r o _ H. unfold oi_row in H. row_cases H; wanted_tac.
  - intros insts out Hx. unfold fetch_prices. rows_tac.
    intros r q _ H. unfold price_row in H. row_cases H; wanted_tac.
  - intros insts bucket out Hx. unfold fetch_funding. rows_tac.
    intros i f Hi H. unfold funding_result in H. row_cases H.
    destruct (fan_out_complete sched 8 insts ltac:(lia)) as [Hp _]. rewrite Hp in Hi. done.
  - intros i since out _ H. injection H as H. revert H. unfold fetch_funding_history. rows_tac.
    intros r e _ H. unfold history_row in H. row_cases H; done.
Qed.
End rest.

(** * The open-interest channel *)

Section stream.
Context {DL : DecimalLib} {TL : TimeLib} {JL : JsonLib}.

Definition extract_oi_update (frame : Value) : option (string * Dec) :=
  arg ← json_get frame "arg";
  channel ← get_str arg "channel";
  if negb (String.eqb channel "open-interest") then None
  else
    data ← json_get frame "data" ≫= json_as_array;
    row ← head data;
    inst_id ← get_str row "instId";
    let coins_str := default EmptyString (get_str row "oiCcy") in
    if negb (str_is_empty coins_str) then
      value ← dec_parse_ok coins_str; Some (inst_id, value)
    else None.

Definition to_raw (inst_id : string) (value : Dec) (now : OffsetDateTime) : run RawOi :=
  bucket ← floor_to_minute now;
  Ret {| raw_instrument := mkId Okx inst_id; raw_value := value; raw_unit := Coins;
         raw_bucket_ts := bucket; raw_recv_ts := now; raw_price_hint := None |}.

Definition enrich_okx (raw : RawOi) : OiSample :=
  {| s_instrument := raw_instrument raw; s_bucket_ts := raw_bucket_ts raw;
     s_recv_ts := raw_recv_ts raw; s_native_value := raw_value raw; s_native_unit := Coins;
     s_oi_coins := Some (raw_value raw); s_oi_usd := None; s_price_used := None |}.
End stream.
