(* ===== verification/Bitget.v ===== *)
(** The Bitget adapter: [bitget/rest.rs] and the push parser
    [bitget/stream.rs]. *)

From Stdlib Require Import ZArith Lia String Ascii.
From stdpp Require Import base option list strings.
From S2P Require Import Prelude Externals Concrete Domain Buckets FanOut Adapter.
Open Scope Z_scope.
Open Scope oi_scope.

Definition PRODUCT_TYPE : string := "USDT-FUTURES".
Definition RATE_LIMIT_CODES : list string := ["40018"; "40429"; "429"]%string.

Record Envelope (T : Type) := mkEnvelope { env_code : string; env_msg : string; env_data : T }.
Arguments mkEnvelope {T} _ _ _.
Arguments env_code {T} _.
Arguments env_msg {T} _.
Arguments env_data {T} _.

(** [Envelope::check]. *)
Definition check {T} (e : Envelope T) : result ExchangeError T :=
  if String.eqb (env_code e) "00000" then Ok (env_data e)
  else if existsb (String.eqb (env_code e)) RATE_LIMIT_CODES then Err (RateLimited None)
  else Err (Schema ("bitget code=" +:+ env_code e +:+ " msg=" +:+ env_msg e)).

Record ContractRow := mkContract {
  c_symbol : string; base_coin : string; quote_coin : string; symbol_type : string;
  symbol_status : string; min_trade_num : string }.
Record TickerRow := mkTicker {
  tk_symbol : string; holding_amount : string; mark_price_str : string;
  last_pr : string; funding_rate : string; next_funding_time : string }.
Record HistoryRow := mkHistory {
  h_symbol : string; h_funding_rate : string; h_funding_time : string }.

Section rest.
Context {DL : DecimalLib} {TL : TimeLib}.
Context (base_url : string) (now : OffsetDateTime).
Context (get_contracts : string → result ExchangeError (Envelope (list ContractRow)))
        (get_tickers : string → result ExchangeError (Envelope (list TickerRow)))
        (get_history : string → result ExchangeError (Envelope (list HistoryRow))).

Definition instrument_meta (r : ContractRow) : option InstrumentMeta :=
  if str_is_empty (symbol_type r) || String.eqb (symbol_type r) "perpetual" then
    Some {| meta_id := mkId Bitget (c_symbol r); base_asset := base_coin r;
            quote_asset := quote_coin r; is_perpetual := true; meta_native_unit := Coins;
            contract_multiplier := None; price_tick := None;
            qty_step := dec_parse_ok (min_trade_num r);
            active := String.eqb (symbol_status r) "normal" |}
  else None.
Definition discover_instruments : result ExchangeError (list InstrumentMeta) :=
  let? env := get_contracts (base_url +:+ "/api/v2/mix/market/contracts?productType="
                             +:+ PRODUCT_TYPE) in
  let? rows := check env in
  Ok (omap instrument_meta rows).

Definition tickers_rows : result ExchangeError (list TickerRow) :=
  let? env := get_tickers (base_url +:+ "/api/v2/mix/market/tickers?productType="
                           +:+ PRODUCT_TYPE) in
  check env.

Definition oi_row (instruments : list InstrumentId) (bucket : OffsetDateTime) (r : TickerRow)
  : option RawOi :=
  if negb (wanted instruments (tk_symbol r)) then None
  else if str_is_empty (holding_amount r) then None
  else
    value ← dec_parse_ok (holding_amount r);
    let price := prefer (mark_price_str r) (last_pr r) ≫= dec_parse_ok in
    let inst := mkId Bitget (tk_symbol r) in
    Some {| raw_instrument := inst; raw_value := value; raw_unit := Coins;
            raw_bucket_ts := bucket; raw_recv_ts := now;
            raw_price_hint :=
              (λ p, {| q_instrument := inst; q_price := p;
                       q_source := if negb (str_is_empty (mark_price_str r)) then Mark else Last;
                       q_ts := now |}) <$> price |}.
Definition fetch_oi (instruments : list InstrumentId) (bucket : OffsetDateTime)
  : result ExchangeError (list RawOi) :=
  let? rows := tickers_rows in Ok (omap (oi_row instruments bucket) rows).

Definition history_row (instrument : InstrumentId) (since : option OffsetDateTime)
    (r : HistoryRow) : option FundingEvent :=
  rate ← dec_parse_ok (h_funding_rate r);
  ms ← parse_signed i64_min i64_max (h_funding_time r);
  ts ← result_ok (from_millis ms);
  if match since with Some s => odt_leb ts s | None => false end then None
  else Some {| ev_instrument := instrument; ev_settlement_ts := ts; ev_rate := rate;
               ev_mark_price := None |}.
Definition fetch_funding_history (instrument : InstrumentId) (since : option OffsetDateTime)
  : result ExchangeError (list FundingEvent) :=
  let? env := get_history (base_url +:+ "/api/v2/mix/market/history-fund-rate?symbol="
                +:+ symbol instrument +:+ "&productType=" +:+ PRODUCT_TYPE
                +:+ "&pageSize=100") in
  let? rows := check env in
  Ok (omap (history_row instrument since) rows).

Definition funding_row (instruments : list InstrumentId) (bucket : OffsetDateTime)
    (r : TickerRow) : option FundingBar :=
  if negb (wanted instruments (tk_symbol r)) || str_is_empty (funding_rate r) then None
  else
    rate ← dec_parse_ok (funding_rate r);
    Some {| f_instrument := mkId Bitget (tk_symbol r); f_bucket_ts := bucket;
            f_recv_ts := now; f_rate := rate;
            f_next_funding_ts :=
              parse_signed i64_min i64_max (next_funding_time r) ≫= next_ts_of_millis;
            f_interval_hours := Some 8 |}.
Definition fetch_funding (instruments : list InstrumentId) (bucket : OffsetDateTime)
  : result ExchangeError (list FundingBar) :=
  let? rows := tickers_rows in Ok (omap (funding_row instruments bucket) rows).

(** [fetch_prices] is the trait's default. *)
Definition adapter : ExchangeAdapter := {|
  ad_exchange := Bitget;
  ad_discover_instruments := discover_instruments;
  ad_fetch_oi := fetch_oi;
  ad_fetch_prices := default_fetch_prices;
  ad_fetch_funding := fetch_funding;
  ad_fetch_funding_history := λ i since, Ret (fetch_funding_history i since) |}.

#[global] Instance bitget_contract : AdapterContract adapter.
Proof.
  split; simpl.
  - intros metas. unfold discover_instruments. rows_tac.
    intros r m _ H. unfold instrument_meta in H. row_cases H; done.
  - intros insts bucket out Hx. unfold fetch_oi. rows_tac.
    intros r o _ H. unfold oi_row in H. row_cases H; wanted_tac.
  - intros insts out Hx [= <-]. done.
  - intros insts bucket out Hx. unfold fetch_funding. rows_tac.
    intros r f _ H. unfold funding_row in H. row_cases H; wanted_tac.
  - intros i since out _ H. injection H as H. revert H. unfold fetch_funding_history. rows_tac.
    intros r e _ H. unfold history_row in H. row_cases H; done.
Qed.
End rest.

(** * The ticker channel *)

Section stream.
Context {DL : DecimalLib} {TL : TimeLib} {JL : JsonLib}.

Definition extract_oi_update (frame : Value) : option (string * Dec * option Dec) :=
  arg ← json_get frame "arg";
  channel ← get_str arg "channel";
  if negb (String.eqb channel "ticker") then None
  else
    data ← json_get frame "data" ≫= json_as_array;
    row ← head data;
    inst_id ← get_str row "instId";
    oi_s ← get_str row "holdingAmount";
    if str_is_empty oi_s then None
    else
      value ← dec_parse_ok oi_s;
      Some (inst_id, value, get_str row "markPrice" ≫= dec_nonempty).

Definition to_raw (inst_id : string) (value : Dec) (price : option Dec) (now : OffsetDateTime)
  : run RawOi :=
  bucket ← floor_to_minute now;
  let instrument := mkId Bitget inst_id in
  Ret {| raw_instrument := instrument; raw_value := value; raw_unit := Coins;
         raw_bucket_ts := bucket; raw_recv_ts := now;
         raw_price_hint :=
           (λ p, {| q_instrument := instrument; q_price := p; q_source := Mark;
                    q_ts := now |}) <$> price |}.

Definition enrich_bitget (raw : RawOi) : run OiSample :=
  let price := q_price <$> raw_price_hint raw in
  oi_usd ← opt_run (λ p, dec_mul (raw_value raw) p) price;
  Ret {| s_instrument := raw_instrument raw; s_bucket_ts := raw_bucket_ts raw;
         s_recv_ts := raw_recv_ts raw; s_native_value := raw_value raw; s_native_unit := Coins;
         s_oi_coins := Some (raw_value raw); s_oi_usd := oi_usd; s_price_used := price |}.
End stream.
