(* ===== verification/Hyperliquid.v ===== *)
(** The Hyperliquid adapter: [hyperliquid/rest.rs], whose payload is two
    index-parallel arrays, and the push parser [hyperliquid/stream.rs]. *)

From Stdlib Require Import ZArith Lia String Ascii.
From stdpp Require Import base option list strings gmap.
From S2P Require Import Prelude Externals Concrete Domain Buckets FanOut Adapter.
Open Scope Z_scope.
Open Scope oi_scope.

Record UniverseEntry := mkUniverse { u_name : string; is_delisted : bool }.
Record AssetCtx := mkCtx {
  open_interest : option string; mark_px : option string; funding : option string }.
Record HistoryRow := mkHistory { h_coin : string; h_funding_rate : string; h_time : Z }.
(** The body of the [fundingHistory] request. *)
Record HistoryBody := mkBody { b_coin : string; b_start_time : Z }.

Section rest.
Context {DL : DecimalLib} {TL : TimeLib}.

(** The map of [fetch_oi], and its iteration order. *)
Abbreviation ByName := (gmap string (AssetCtx * option Dec)).
Context (base_url : string) (now : OffsetDateTime).
Context (iter : ByName → list (string * (AssetCtx * option Dec))).
Context (post_meta : string → result ExchangeError (list UniverseEntry * list AssetCtx))
        (post_history : string → HistoryBody → result ExchangeError (list HistoryRow)).

Definition meta_and_ctxs : result ExchangeError (list UniverseEntry * list AssetCtx) :=
  post_meta (base_url +:+ "/info").

Definition instrument_meta (u : UniverseEntry) : InstrumentMeta :=
  {| meta_id := mkId Hyperliquid (u_name u); base_asset := u_name u; quote_asset := "USD";
     is_perpetual := true; meta_native_unit := Coins; contract_multiplier := None;
     price_tick := None; qty_step := None; active := negb (is_delisted u) |}.
Definition discover_instruments : result ExchangeError (list InstrumentMeta) :=
  let? mc := meta_and_ctxs in Ok (instrument_meta <$> mc.1).

(** One iteration of the loop that builds the index. *)
Definition by_name_step (m : ByName) (uc : UniverseEntry * AssetCtx) : ByName :=
  <[u_name uc.1 := (uc.2, mark_px uc.2 ≫= dec_parse_ok)]> m.
Definition by_name_of (universe : list UniverseEntry) (ctxs : list AssetCtx) : ByName :=
  foldl by_name_step ∅ (zip universe ctxs).

Definition oi_entry (instruments : list InstrumentId) (bucket : OffsetDateTime)
    (e : string * (AssetCtx * option Dec)) : option RawOi :=
  let '(name, (ctx, price)) := e in
  if negb (wanted instruments name) then None
  else
    oi_s ← open_interest ctx;
    value ← dec_parse_ok oi_s;
    let inst := mkId Hyperliquid name in
    Some {| raw_instrument := inst; raw_value := value; raw_unit := Coins;
            raw_bucket_ts := bucket; raw_recv_ts := now;
            raw_price_hint := (λ p, {| q_instrument := inst; q_price := p; q_source := Mark;
                                       q_ts := now |}) <$> price |}.
Definition fetch_oi (instruments : list InstrumentId) (bucket : OffsetDateTime)
  : result ExchangeError (list RawOi) :=
  let? mc := meta_and_ctxs in
  let '(universe, ctxs) := mc in
  if negb (length universe =? length ctxs)%nat then
    Err (Schema ("universe/ctxs length mismatch: "
           +:+ int_to_string (Z.of_nat (length universe)) +:+ " vs "
           +:+ int_to_string (Z.of_nat (length ctxs))))
  else Ok (omap (oi_entry instruments bucket) (iter (by_name_of universe ctxs))).

Definition price_entry (instruments : list InstrumentId) (uc : UniverseEntry * AssetCtx)
  : option PriceQuote :=
  if negb (wanted instruments (u_name uc.1)) then None
  else
    s ← mark_px uc.2;
    price ← dec_parse_ok s;
    Some {| q_instrument := mkId Hyperliquid (u_name uc.1); q_price := price;
            q_source := Mark; q_ts := now |}.
Definition fetch_prices (instruments : list InstrumentId)
  : result ExchangeError (list PriceQuote) :=
  let? mc := meta_and_ctxs in
  if negb (length mc.1 =? length mc.2)%nat then Ok []
  else Ok (omap (price_entry instruments) (zip mc.1 mc.2)).

Definition seven_days : Z := dur_hours (7 * 24).
Definition history_row (instrument : InstrumentId) (since : option OffsetDateTime)
    (r : HistoryRow) : option FundingEvent :=
  rate ← dec_parse_ok (h_funding_rate r);
  ts ← result_ok (from_millis (h_time r));
  if match since with Some s => odt_leb ts s | None => false end then None
  else Some {| ev_instrument := instrument; ev_settlement_ts := ts; ev_rate := rate;
               ev_mark_price := None |}.
Definition fetch_funding_history (instrument : InstrumentId) (since : option OffsetDateTime)
  : run (result ExchangeError (list FundingEvent)) :=
  start ← match since with Some s => Ret s | None => odt_sub now seven_days end;
  let body := {| b_coin := symbol instrument; b_start_time := as_i64 (to_millis start) |} in
  Ret (let? rows := post_history (base_url +:+ "/info") body in
       Ok (omap (history_row instrument since) rows)).

Definition funding_entry (instruments : list InstrumentId) (bucket : OffsetDateTime)
    (uc : UniverseEntry * AssetCtx) : option FundingBar :=
  if negb (wanted instruments (u_name uc.1)) then None
  else
    s ← funding uc.2;
    rate ← dec_parse_ok s;
    Some {| f_instrument := mkId Hyperliquid (u_name uc.1); f_bucket_ts := bucket;
            f_recv_ts := now; f_rate := rate; f_next_funding_ts := None;
            f_interval_hours := Some 1 |}.
Definition fetch_funding (instruments : list InstrumentId) (bucket : OffsetDateTime)
  : result ExchangeError (list FundingBar) :=
  let? mc := meta_and_ctxs in
  if negb (length mc.1 =? length mc.2)%nat then Ok []
  else Ok (omap (funding_entry instruments bucket) (zip mc.1 mc.2)).

Definition adapter : ExchangeAdapter := {|
  ad_exchange := Hyperliquid;
  ad_discover_instruments := discover_instruments;
  ad_fetch_oi := fetch_oi;
  ad_fetch_prices := fetch_prices;
  ad_fetch_funding := fetch_funding;
  ad_fetch_funding_history := fetch_funding_history |}.

#[global] Instance hyperliquid_contract : AdapterContract adapter.
Proof.
  split; simpl.
  - intros metas. unfold discover_instruments. destruct meta_and_ctxs as [mc|]; [|done].
    intros [= <-]. apply Forall_fmap, Forall_forall. intros u _. done.
  - intros insts bucket out Hx. unfold fetch_oi. destruct meta_and_ctxs as [[us cs]|]; [|done].
    destruct (negb _); [done|]. rows_tac.
    intros [name [ctx price]] o _ H. unfold oi_entry in H. row_cases H; wanted_tac.
  - intros insts out Hx. unfold fetch_prices. destruct meta_and_ctxs as [mc|]; [|done].
    destruct (negb _); [by intros [= <-]|]. rows_tac.
    intros uc q _ H. unfold price_entry in H. row_cases H; wanted_tac.
  - intros insts bucket out Hx. unfold fetch_funding. destruct meta_and_ctxs as [mc|]; [|done].
    destruct (negb _); [by intros [= <-]|]. rows_tac.
    intros uc f _ H. unfold funding_entry in H. row_cases H; wanted_tac.
  - intros i since out _. unfold fetch_funding_history.
    destruct (match since with Some s => _ | None => _ end) as [start|]; [|done].
    cbn [mbind run_bind]. rows_tac.
    intros r e _ H. unfold history_row in H. row_cases H; done.
Qed.

Lemma by_name_lookup universe ctxs name v :
  NoDup (u_name <$> universe) → length universe = length ctxs →
  by_name_of universe ctxs !! name = Some v ↔
  ∃ n u c, universe !! n = Some u ∧ ctxs !! n = Some c ∧ u_name u = name
           ∧ v = (c, mark_px c ≫= dec_parse_ok).
Proof.
  intros Hnd Hlen. unfold by_name_of.
  assert (Hg : ∀ (us : list UniverseEntry) (cs : list AssetCtx) (m : ByName),
    NoDup (u_name <$> us) → length us = length cs →
    foldl by_name_step m (zip us cs) !! name = Some v ↔
    (∃ n u c, us !! n = Some u ∧ cs !! n = Some c ∧ u_name u = name
       ∧ v = (c, mark_px c ≫= dec_parse_ok))
    ∨ (name ∉ (u_name <$> us)) ∧ m !! name = Some v).
  { clear. induction us as [|u us IH]; intros [|c cs] m Hnd Hlen; try done; simpl in *.
    - split; [intros H; right; split; [apply not_elem_of_nil|done]|].
      intros [(n & u & c & H & _)|[_ H]]; [done|done].
    - apply NoDup_cons in Hnd as [Hu Hnd]. rewrite IH by (done || lia).
      unfold by_name_step. simpl. split.
      + intros [(n & u' & c' & H)|[Hin H]]; [left; by exists (S n), u', c'|].
        apply lookup_insert_Some in H as [[Hn Hv]|[Hne H]].
        * left. exists 0%nat, u, c. done.
        * right. split; [|done]. intros [?|?]%elem_of_cons; [by subst|done].
      + intros [(n & u' & c' & Hn & Hc & Hname & Hv)|[Hin H]].
        * destruct n as [|n]; simpl in *; [simplify_eq|left; by exists n, u', c'].
          right. split; [done|]. by rewrite lookup_insert_eq.
        * right. apply not_elem_of_cons in Hin as [Hne Hin]. split; [done|].
          by rewrite lookup_insert_ne. }
  rewrite Hg by done. split; [intros [H|[_ H]]; [done|by rewrite lookup_empty in H]|by left].
Qed.

Lemma oi_entry_some insts bucket name c p r :
  oi_entry insts bucket (name, (c, p)) = Some r ↔
  wanted insts name = true ∧ ∃ oi_s v,
    open_interest c = Some oi_s ∧ dec_from_str oi_s = Ok v
    ∧ r = mkRaw (mkId Hyperliquid name) v Coins bucket now
            ((λ p, mkQuote (mkId Hyperliquid name) p Mark now) <$> p).
Proof.
  unfold oi_entry, dec_parse_ok. destruct (wanted insts name); simpl; [|naive_solver].
  destruct (open_interest c) as [oi_s|]; simpl; [|naive_solver].
  destruct (dec_from_str oi_s) eqn:Hd; simpl; [|naive_solver congruence].
  split; [intros [= <-]; eauto 10|]. intros (_ & s & v & [= <-] & Hv & ->).
  rewrite Hd in Hv. by injection Hv as ->.
Qed.

(** Distinct coins give distinct instruments. *)
Lemma oi_entries_nodup insts bucket l :
  NoDup l.*1 → NoDup (raw_instrument <$> omap (oi_entry insts bucket) l).
Proof.
  induction l as [|[name [ctx price]] l IH]; intros Hk; [constructor|].
  apply NoDup_cons in Hk as [Hin Hk]. specialize (IH Hk). cbn [omap list_omap].
  destruct (oi_entry insts bucket (name, (ctx, price))) as [r|] eqn:E; [|done].
  apply oi_entry_some in E as (_ & oi_s & v & _ & _ & ->).
  cbn [fmap list_fmap]. apply NoDup_cons. split; [|done].
  intros (r' & Hr' & Hin')%list_elem_of_fmap.
  apply list_elem_of_omap in Hin' as ([name' [c' p']] & Hin' & E').
  apply oi_entry_some in E' as (_ & oi_s' & v' & _ & _ & ->). simplify_eq/=.
  apply Hin, list_elem_of_fmap. by exists (name', (c', p')).
Qed.

(** The two arrays are matched by position.  When their lengths differ the
    open-interest call fails rather than pair a coin with another's numbers;
    when they agree (and no coin is listed twice), a reading is returned for a
    requested coin exactly when the entry at the coin's own position holds a
    readable number, it is that number, and each coin has at most one. *)
Theorem positional_match universe ctxs insts bucket :
  (∀ m, iter m ≡ₚ map_to_list m) →
  meta_and_ctxs = Ok (universe, ctxs) →
  (length universe ≠ length ctxs → ∃ msg, fetch_oi insts bucket = Err (Schema msg))
  ∧ (length universe = length ctxs → NoDup (u_name <$> universe) →
     ∃ out, fetch_oi insts bucket = Ok out
       ∧ NoDup (raw_instrument <$> out)
       ∧ ∀ name v,
           (∃ r, r ∈ out ∧ raw_instrument r = mkId Hyperliquid name ∧ raw_value r = v) ↔
           wanted insts name = true ∧
           ∃ n u c oi_s, universe !! n = Some u ∧ ctxs !! n = Some c ∧ u_name u = name
             ∧ open_interest c = Some oi_s ∧ dec_from_str oi_s = Ok v).
Proof.
  intros Hit Hm. unfold fetch_oi. rewrite Hm. split.
  - intros Hl. rewrite (proj2 (Nat.eqb_neq _ _) Hl). simpl. eauto.
  - intros Hl Hnd. rewrite (proj2 (Nat.eqb_eq _ _) Hl). simpl. eexists. split; [done|]. split.
    + apply oi_entries_nodup. rewrite Hit. apply NoDup_fst_map_to_list.
    + intros name v. split.
      * intros (r & ([name' [c p]] & Hin & E)%list_elem_of_omap & Hi & Hv).
        rewrite Hit in Hin. apply elem_of_map_to_list, by_name_lookup in Hin as
          (n & u & c' & Hu & Hc & Hname & Hp); [|done..].
        apply oi_entry_some in E as (Hw & oi_s & v' & Ho & Hd & ->). simplify_eq/=.
        split; [done|]. eauto 10.
      * intros (Hw & n & u & c & oi_s & Hu & Hc & Hname & Ho & Hd).
        assert (Hin : (name, (c, mark_px c ≫= dec_parse_ok)) ∈ iter (by_name_of universe ctxs)).
        { rewrite Hit. apply elem_of_map_to_list, by_name_lookup; [done..|]. eauto 10. }
        eexists. split; [|split].
        -- apply list_elem_of_omap. eexists. split; [exact Hin|].
           apply oi_entry_some. split; [done|]. by exists oi_s, v.
        -- done.
        -- done.
Qed.
End rest.

(** * The activeAssetCtx channel *)

Section stream.
Context {DL : DecimalLib} {TL : TimeLib} {JL : JsonLib}.

Definition extract_oi_update (frame : Value) : option (string * Dec * option Dec) :=
  channel ← get_str frame "channel";
  if negb (String.eqb channel "activeAssetCtx") then None
  else
    data ← json_get frame "data";
    coin ← get_str data "coin";
    ctx ← json_get data "ctx";
    oi_s ← get_str ctx "openInterest";
    if str_is_empty oi_s then None
    else
      value ← dec_parse_ok oi_s;
      Some (coin, value, get_str ctx "markPx" ≫= dec_nonempty).

Definition to_raw (coin : string) (value : Dec) (price : option Dec) (now : OffsetDateTime)
  : run RawOi :=
  bucket ← floor_to_minute now;
  let instrument := mkId Hyperliquid coin in
  Ret {| raw_instrument := instrument; raw_value := value; raw_unit := Coins;
         raw_bucket_ts := bucket; raw_recv_ts := now;
         raw_price_hint :=
           (λ p, {| q_instrument := instrument; q_price := p; q_source := Mark;
                    q_ts := now |}) <$> price |}.

Definition enrich_hyperliquid (raw : RawOi) : run OiSample :=
  let price := q_price <$> raw_price_hint raw in
  oi_usd ← opt_run (λ p, dec_mul (raw_value raw) p) price;
  Ret {| s_instrument := raw_instrument raw; s_bucket_ts := raw_bucket_ts raw;
         s_recv_ts := raw_recv_ts raw; s_native_value := raw_value raw; s_native_unit := Coins;
         s_oi_coins := Some (raw_value raw); s_oi_usd := oi_usd; s_price_used := price |}.
End stream.

Definition ex_meta (_ : string) : result ExchangeError (list UniverseEntry * list AssetCtx) :=
  Ok ([mkUniverse "BTC" false; mkUniverse "ETH" false],
      [mkCtx (Some "5"%string) None None; mkCtx (Some "6"%string) None None]).
Lemma positional_match_witness :
  ∃ out, fetch_oi (DL := z_decimal) (TL := z_time) "x" 0 map_to_list ex_meta
           [mkId Hyperliquid "ETH"] 0 = Ok out
    ∧ ∃ r, r ∈ out ∧ raw_instrument r = mkId Hyperliquid "ETH" ∧ raw_value r = 6.
Proof.
  destruct (positional_match (DL := z_decimal) (TL := z_time) "x" 0 map_to_list ex_meta (λ _ _, Ok [])
    [mkUniverse "BTC" false; mkUniverse "ETH" false]
    [mkCtx (Some "5"%string) None None; mkCtx (Some "6"%string) None None]
    [mkId Hyperliquid "ETH"] 0 (λ m, reflexivity _) eq_refl) as [_ H].
  destruct H as (out & Ho & _ & H); [reflexivity| |].
  - apply NoDup_cons. split; [intros Hc%list_elem_of_singleton; discriminate|].
    apply NoDup_singleton.
  - exists out. split; [exact Ho|]. apply (H "ETH"%string 6). split; [reflexivity|].
    exists 1%nat, (mkUniverse "ETH" false), (mkCtx (Some "6"%string) None None), "6"%string.
    split; [reflexivity|]. split; [reflexivity|]. split; [reflexivity|].
    split; [reflexivity|reflexivity].
Defined.
