(* ===== verification/Mexc.v ===== *)
(** The MEXC adapter, [mexc/mod.rs].  A [serde_json::Number] is its canonical
    text, which is all the code reads of it. *)

From Stdlib Require Import ZArith Lia String Ascii.
From stdpp Require Import base option list strings gmap.
From S2P Require Import Prelude Externals Concrete Domain FanOut Adapter.
Open Scope Z_scope.
Open Scope oi_scope.

Record Envelope (T : Type) := mkEnvelope { env_success : bool; env_code : Z; env_data : T }.
Arguments mkEnvelope {T} _ _ _.
Arguments env_success {T} _.
Arguments env_code {T} _.
Arguments env_data {T} _.

(** [Envelope::check]. *)
Definition check {T} (e : Envelope T) : result ExchangeError T :=
  if (env_code e =? 0) && env_success e then Ok (env_data e)
  else if (env_code e =? 510) || (env_code e =? 429) then Err (RateLimited None)
  else Err (Schema ("mexc code=" +:+ int_to_string (env_code e))).

Record DetailRow := mkDetail {
  d_symbol : string; base_coin : string; quote_coin : string;
  contract_size : option string; price_unit : option string; vol_unit : option string;
  state : Z }.
Record TickerRow := mkTicker {
  tk_symbol : string; hold_vol : option string; fair_price : option string;
  last_price : option string; funding_rate : option string }.
Record HistoryRow := mkHistory {
  h_funding_rate : option string; settle_time : option Z }.

Section rest.
Context {DL : DecimalLib} {TL : TimeLib}.
(** [intervals] is the cache at the time of the call, [get_cycle] the answer to
    one spawned request ([None] when the task panicked). *)
Context (base_url : string) (now : OffsetDateTime) (sched : nat → nat)
        (intervals : gmap string Z).
Context (get_detail : string → result ExchangeError (Envelope (list DetailRow)))
        (get_ticker : string → result ExchangeError (Envelope (list TickerRow)))
        (get_history : string → result ExchangeError (Envelope (list HistoryRow)))
        (get_cycle : string → option (result ExchangeError (Envelope (option Z)))).

Definition number_to_decimal (n : string) : option Dec := dec_parse_ok n.

(** What one answer inserts into the cache. *)
Definition read_cycle (sym : string) : option Z :=
  match get_cycle (base_url +:+ "/api/v1/contract/funding_rate/" +:+ sym) with
  | Some (Ok env) => match check env with Ok inner => inner | Err _ => None end
  | _ => None
  end.
Definition refresh_funding_intervals (symbols : list string) : gmap string Z :=
  refresh_intervals sched 8 read_cycle intervals symbols.

Definition instrument_meta (r : DetailRow) : InstrumentMeta :=
  {| meta_id := mkId Mexc (d_symbol r); base_asset := base_coin r; quote_asset := quote_coin r;
     is_perpetual := true; meta_native_unit := Contracts;
     contract_multiplier := contract_size r ≫= number_to_decimal;
     price_tick := price_unit r ≫= number_to_decimal;
     qty_step := vol_unit r ≫= number_to_decimal;
     active := (state r =? 0) |}.
Definition active_symbols (metas : list InstrumentMeta) : list string :=
  (λ m, symbol (meta_id m)) <$> filter (λ m, active m = true) metas.
(** The result and the cache after the call. *)
Definition discover_instruments : result ExchangeError (list InstrumentMeta) * gmap string Z :=
  match (let? env := get_detail (base_url +:+ "/api/v1/contract/detail") in check env) with
  | Err e => (Err e, intervals)
  | Ok rows =>
      let metas := instrument_meta <$> rows in
      (Ok metas, refresh_funding_intervals (active_symbols metas))
  end.

Definition ticker_rows : result ExchangeError (list TickerRow) :=
  let? env := get_ticker (base_url +:+ "/api/v1/contract/ticker") in check env.

Definition oi_row (instruments : list InstrumentId) (bucket : OffsetDateTime) (r : TickerRow)
  : option RawOi :=
  if negb (wanted instruments (tk_symbol r)) then None
  else
    n ← hold_vol r;
    value ← number_to_decimal n;
    let price := opt_or (fair_price r ≫= number_to_decimal)
                        (last_price r ≫= number_to_decimal) in
    let inst := mkId Mexc (tk_symbol r) in
    Some {| raw_instrument := inst; raw_value := value; raw_unit := Contracts;
            raw_bucket_ts := bucket; raw_recv_ts := now;
            raw_price_hint :=
              (λ p, {| q_instrument := inst; q_price := p;
                       q_source := if bool_decide (is_Some (fair_price r)) then Mark else Last;
                       q_ts := now |}) <$> price |}.
Definition fetch_oi (instruments : list InstrumentId) (bucket : OffsetDateTime)
  : result ExchangeError (list RawOi) :=
  let? rows := ticker_rows in Ok (omap (oi_row instruments bucket) rows).

Definition history_row (instrument : InstrumentId) (since : option OffsetDateTime)
    (r : HistoryRow) : option FundingEvent :=
  rate ← h_funding_rate r ≫= number_to_decimal;
  ms ← settle_time r;
  ts ← result_ok (from_millis ms);
  if not_after ts since then None
  else Some {| ev_instrument := instrument; ev_settlement_ts := ts; ev_rate := rate;
               ev_mark_price := None |}.
Definition fetch_funding_history (instrument : InstrumentId) (since : option OffsetDateTime)
  : result ExchangeError (list FundingEvent) :=
  let? env := get_history (base_url +:+ "/api/v1/contract/funding_rate/history?symbol="
                +:+ symbol instrument +:+ "&page_num=1&page_size=100") in
  let? rows := check env in
  Ok (omap (history_row instrument since) rows).

Definition funding_row (instruments : list InstrumentId) (bucket : OffsetDateTime)
    (r : TickerRow) : option FundingBar :=
  if negb (wanted instruments (tk_symbol r)) then None
  else
    rate ← funding_rate r ≫= number_to_decimal;
    Some {| f_instrument := mkId Mexc (tk_symbol r); f_bucket_ts := bucket; f_recv_ts := now;
            f_rate := rate; f_next_funding_ts := None;
            f_interval_hours := interval_for intervals (tk_symbol r) |}.
Definition fetch_funding (instruments : list InstrumentId) (bucket : OffsetDateTime)
  : result ExchangeError (list FundingBar) :=
  let? rows := ticker_rows in Ok (omap (funding_row instruments bucket) rows).

(** [fetch_prices] is the trait's default. *)
Definition adapter : ExchangeAdapter := {|
  ad_exchange := Mexc;
  ad_discover_instruments := discover_instruments.1;
  ad_fetch_oi := fetch_oi;
  ad_fetch_prices := default_fetch_prices;
  ad_fetch_funding := fetch_funding;
  ad_fetch_funding_history := λ i since, Ret (fetch_funding_history i since) |}.

#[global] Instance mexc_contract : AdapterContract adapter.
Proof.
  split; simpl.
  - intros metas. unfold discover_instruments.
    destruct (match get_detail _ with Ok _ => _ | Err _ => _ end) as [rows|]; simpl; [|done].
    intros [= <-]. apply Forall_fmap, Forall_forall. done.
  - intros insts bucket out Hx. unfold fetch_oi. rows_tac.
    intros r o _ H. unfold oi_row in H. row_cases H; wanted_tac.
  - intros insts out Hx [= <-]. done.
  - intros insts bucket out Hx. unfold fetch_funding. rows_tac.
    intros r f _ H. unfold funding_row in H. row_cases H; wanted_tac.
  - intros i since out _ H. injection H as H. revert H. unfold fetch_funding_history. rows_tac.
    intros r e _ H. unfold history_row in H. row_cases H; done.
Qed.
End rest.
