(* ===== verification/KuCoin.v ===== *)
(** The KuCoin futures adapter, [kucoin/mod.rs].  A [serde_json::Number] is its
    canonical text. *)

From Stdlib Require Import ZArith Lia String Ascii.
From stdpp Require Import base option list strings gmap.
From S2P Require Import Prelude Externals Concrete Domain FanOut Adapter.
Open Scope Z_scope.
Open Scope oi_scope.

Definition RATE_LIMIT_CODES : list string := ["429000"; "429100"; "429200"]%string.

Record Envelope (T : Type) := mkEnvelope { env_code : string; env_msg : string; env_data : T }.
Arguments mkEnvelope {T} _ _ _.
Arguments env_code {T} _.
Arguments env_msg {T} _.
Arguments env_data {T} _.

(** [Envelope::check]. *)
Definition check {T} (e : Envelope T) : result ExchangeError T :=
  if String.eqb (env_code e) "200000" then Ok (env_data e)
  else if existsb (String.eqb (env_code e)) RATE_LIMIT_CODES then Err (RateLimited None)
  else Err (Schema ("kucoin code=" +:+ env_code e +:+ " msg=" +:+ env_msg e)).

Record ContractRow := mkContract {
  c_symbol : string; base_currency : string; quote_currency : string;
  contract_type : string; multiplier : option string; tick_size : option string;
  open_interest : string; mark_price : option string; last_trade_price : option string;
  status : string; is_inverse : bool; funding_fee_rate : option string;
  next_funding_rate_time : option Z }.
Record HistoryRow := mkHistory { h_funding_rate : option string; timepoint : option Z }.

(** [(ms / 3_600_000).clamp(1, 24) as u8] *)
Definition granularity_hours (ms : Z) : Z := Z.max 1 (Z.min 24 (ms ÷ 3600000)).

Section rest.
Context {DL : DecimalLib} {TL : TimeLib}.
Context (base_url : string) (now : OffsetDateTime) (sched : nat → nat)
        (intervals : gmap string Z).
Context (get_contracts : string → result ExchangeError (Envelope (list ContractRow)))
        (get_history : string → result ExchangeError (Envelope (list HistoryRow)))
        (get_current : string → option (result ExchangeError (Envelope (option Z)))).

Definition number_to_decimal (n : string) : option Dec := dec_parse_ok n.

(** What one answer inserts into the cache. *)
Definition read_granularity (sym : string) : option Z :=
  match get_current (base_url +:+ "/api/v1/funding-rate/" +:+ sym +:+ "/current") with
  | Some (Ok env) =>
      match check env with Ok inner => granularity_hours <$> inner | Err _ => None end
  | _ => None
  end.
Definition refresh_funding_intervals (symbols : list string) : gmap string Z :=
  refresh_intervals sched 4 read_granularity intervals symbols.

Definition linear_perp (r : ContractRow) : bool :=
  negb (is_inverse r)
  && (str_is_empty (contract_type r) || String.eqb (contract_type r) "FFWCSX").
Definition instrument_meta (r : ContractRow) : InstrumentMeta :=
  {| meta_id := mkId KuCoin (c_symbol r); base_asset := base_currency r;
     quote_asset := quote_currency r; is_perpetual := true; meta_native_unit := Contracts;
     contract_multiplier := multiplier r ≫= number_to_decimal;
     price_tick := tick_size r ≫= number_to_decimal;
     qty_step := None; active := String.eqb (status r) "Open" |}.
Definition active_symbols (metas : list InstrumentMeta) : list string :=
  (λ m, symbol (meta_id m)) <$> filter (λ m, active m = true) metas.

Definition contracts_rows : result ExchangeError (list ContractRow) :=
  let? env := get_contracts (base_url +:+ "/api/v1/contracts/active") in check env.
(** The result and the cache after the call. *)
Definition discover_instruments : result ExchangeError (list InstrumentMeta) * gmap string Z :=
  match contracts_rows with
  | Err e => (Err e, intervals)
  | Ok rows =>
      let metas := instrument_meta <$> filter (λ r, linear_perp r = true) rows in
      (Ok metas, refresh_funding_intervals (active_symbols metas))
  end.

Definition oi_row (instruments : list InstrumentId) (bucket : OffsetDateTime) (r : ContractRow)
  : option RawOi :=
  if negb (wanted instruments (c_symbol r)) then None
  else if str_is_empty (open_interest r) then None
  else
    value ← dec_parse_ok (open_interest r);
    let price := opt_or (mark_price r ≫= number_to_decimal)
                        (last_trade_price r ≫= number_to_decimal) in
    let inst := mkId KuCoin (c_symbol r) in
    Some {| raw_instrument := inst; raw_value := value; raw_unit := Contracts;
            raw_bucket_ts := bucket; raw_recv_ts := now;
            raw_price_hint :=
              (λ p, {| q_instrument := inst; q_price := p;
                       q_source := if bool_decide (is_Some (mark_price r)) then Mark else Last;
                       q_ts := now |}) <$> price |}.
Definition fetch_oi (instruments : list InstrumentId) (bucket : OffsetDateTime)
  : result ExchangeError (list RawOi) :=
  let? rows := contracts_rows in Ok (omap (oi_row instruments bucket) rows).

Definition history_row (instrument : InstrumentId) (since : option OffsetDateTime)
    (r : HistoryRow) : option FundingEvent :=
  rate ← h_funding_rate r ≫= number_to_decimal;
  ms ← timepoint r;
  ts ← result_ok (from_millis ms);
  if not_after ts since then None
  else Some {| ev_instrument := instrument; ev_settlement_ts := ts; ev_rate := rate;
               ev_mark_price := None |}.
Definition seven_days : Z := dur_hours (7 * 24).
Definition fetch_funding_history (instrument : InstrumentId) (since : option OffsetDateTime)
  : run (result ExchangeError (list FundingEvent)) :=
  from_ts ← match since with Some s => Ret s | None => odt_sub now seven_days end;
  let url := base_url +:+ "/api/v1/contract/funding-rates?symbol=" +:+ symbol instrument
             +:+ "&from=" +:+ int_to_string (to_millis from_ts)
             +:+ "&to=" +:+ int_to_string (to_millis now) in
  Ret (let? env := get_history url in
       let? rows := check env in
       Ok (omap (history_row instrument since) rows)).

Definition funding_row (instruments : list InstrumentId) (bucket : OffsetDateTime)
    (r : ContractRow) : option FundingBar :=
  if negb (wanted instruments (c_symbol r)) then None
  else
    rate ← funding_fee_rate r ≫= number_to_decimal;
    Some {| f_instrument := mkId KuCoin (c_symbol r); f_bucket_ts := bucket; f_recv_ts := now;
            f_rate := rate;
            f_next_funding_ts := next_funding_rate_time r ≫= next_ts_of_millis;
            f_interval_hours := interval_for intervals (c_symbol r) |}.
Definition fetch_funding (instruments : list InstrumentId) (bucket : OffsetDateTime)
  : result ExchangeError (list FundingBar) :=
  let? rows := contracts_rows in Ok (omap (funding_row instruments bucket) rows).

(** [fetch_prices] is the trait's default. *)
Definition adapter : ExchangeAdapter := {|
  ad_exchange := KuCoin;
  ad_discover_instruments := discover_instruments.1;
  ad_fetch_oi := fetch_oi;
  ad_fetch_prices := default_fetch_prices;
  ad_fetch_funding := fetch_funding;
  ad_fetch_funding_history := fetch_funding_history |}.

#[global] Instance kucoin_contract : AdapterContract adapter.
Proof.
  split; simpl.
  - intros metas. unfold discover_instruments. destruct contracts_rows; simpl; [|done].
    intros [= <-]. apply Forall_fmap, Forall_forall. done.
  - intros insts bucket out Hx. unfold fetch_oi. rows_tac.
    intros r o _ H. unfold oi_row in H. row_cases H; wanted_tac.
  - intros insts out Hx [= <-]. done.
  - intros insts bucket out Hx. unfold fetch_funding. rows_tac.
    intros r f _ H. unfold funding_row in H. row_cases H; wanted_tac.
  - intros i since out _. unfold fetch_funding_history.
    destruct (match since with Some s => _ | None => _ end) as [from_ts|]; [|done].
    cbn [mbind run_bind]. rows_tac.
    intros r e _ H. unfold history_row in H. row_cases H; done.
Qed.

(** The funding-interval cache.  Whatever order the discovery requests
    complete in, after a successful discovery every active symbol whose request
    was answered has the hours of that answer, between 1 and 24 and exactly the
    whole hours when the period is in that range; a symbol whose request failed
    keeps what was cached before, every symbol not asked for keeps its entry,
    and a failed discovery changes nothing; a symbol never answered is charged
    with 8 hours. *)
Theorem interval_cache_correct :
  let '(res, cache) := discover_instruments in
  (∀ sym, cache !! sym =
     match res with
     | Ok metas =>
         if bool_decide (sym ∈ active_symbols metas)
         then opt_or (read_granularity sym) (intervals !! sym) else intervals !! sym
     | Err _ => intervals !! sym
     end)
  ∧ (∀ sym h, read_granularity sym = Some h → 1 ≤ h ≤ 24)
  ∧ (∀ h r, 1 ≤ h ≤ 24 → 0 ≤ r < 3600000 → granularity_hours (h * 3600000 + r) = h)
  ∧ (∀ sym, interval_for cache sym = Some (default 8 (cache !! sym))).
Proof.
  unfold discover_instruments. destruct contracts_rows as [rows|e].
  all: split; [|split; [|split]].
  1: intros sym; apply refresh_intervals_lookup; lia.
  4: done.
  1, 4: intros sym h; unfold read_granularity;
    destruct (get_current _) as [[env|]|]; try done; destruct (check env) as [[ms|]|]; try done;
    simpl; intros [= <-]; unfold granularity_hours; lia.
  1, 3: intros h r Hh Hr; unfold granularity_hours;
    rewrite Z.quot_div_nonneg, Z.div_add_l, (Z.div_small r) by lia; lia.
  all: intros sym; unfold interval_for; by destruct (_ !! sym).
Qed.
End rest.
