(* ===== verification/BingX.v ===== *)
(** The BingX adapter, [bingx/mod.rs]. *)

From Stdlib Require Import ZArith Lia String Ascii.
From stdpp Require Import base option list strings.
From S2P Require Import Prelude Externals Concrete Domain FanOut Adapter.
Open Scope Z_scope.
Open Scope oi_scope.

Record Envelope (T : Type) := mkEnvelope { env_code : Z; env_msg : string; env_data : T }.
Arguments mkEnvelope {T} _ _ _.
Arguments env_code {T} _.
Arguments env_msg {T} _.
Arguments env_data {T} _.

(** [Envelope::check]. *)
Definition check {T} (e : Envelope T) : result ExchangeError T :=
  if env_code e =? 0 then Ok (env_data e)
  else if (env_code e =? 100410) || (env_code e =? 80014) || (env_code e =? 429)
  then Err (RateLimited None)
  else Err (Schema ("bingx code=" +:+ int_to_string (env_code e) +:+ " msg=" +:+ env_msg e)).

Record ContractRow := mkContract {
  c_symbol : string; asset : string; currency : string; status : Z; price_precision : Z }.
Record OpenInterestData := mkOpenInterest { oi_symbol : string; open_interest : string; oi_time : Z }.
Record PremiumRow := mkPremium {
  p_symbol : string; mark_price : string; index_price : string;
  last_funding_rate : string; next_funding_time : Z }.
Record HistoryRow := mkHistory { h_symbol : string; h_funding_rate : string; h_funding_time : Z }.

(** [str::repeat]. *)
Fixpoint repeat_str (s : string) (n : nat) : string :=
  match n with O => EmptyString | S n' => s +:+ repeat_str s n' end.

Section rest.
Context {DL : DecimalLib} {TL : TimeLib}.
Context (base_url : string) (concurrency : nat) (now : OffsetDateTime) (sched : nat → nat).
Context (get_contracts : string → result ExchangeError (Envelope (list ContractRow)))
        (get_open_interest : string → option (result ExchangeError (Envelope OpenInterestData)))
        (get_premium : string → result ExchangeError (Envelope (list PremiumRow)))
        (get_history : string → result ExchangeError (Envelope (list HistoryRow))).

Definition price_tick_of (price_precision : Z) : option Dec :=
  if 0 <? price_precision
  then dec_parse_ok ("0." +:+ repeat_str "0" (Z.to_nat (price_precision - 1)) +:+ "1")
  else Some dec_one.
Definition instrument_meta (r : ContractRow) : InstrumentMeta :=
  {| meta_id := mkId BingX (c_symbol r); base_asset := asset r; quote_asset := currency r;
     is_perpetual := true; meta_native_unit := Coins; contract_multiplier := None;
     price_tick := price_tick_of (price_precision r); qty_step := None;
     active := (status r =? 1) |}.
Definition discover_instruments : result ExchangeError (list InstrumentMeta) :=
  let? env := get_contracts (base_url +:+ "/openApi/swap/v2/quote/contracts") in
  let? rows := check env in
  Ok (instrument_meta <$> rows).

Definition fetch_one (symbol : string) : option (result ExchangeError Dec) :=
  (λ r : result ExchangeError (Envelope OpenInterestData),
    let? env := r in
    let? data := check env in
    map_err (λ e, Schema ("bingx openInterest " +:+ symbol +:+ ": " +:+ e))
      (dec_from_str (open_interest data)))
  <$> get_open_interest (base_url +:+ "/openApi/swap/v2/quote/openInterest?symbol=" +:+ symbol).
Definition oi_result (bucket : OffsetDateTime) (inst : InstrumentId) : option RawOi :=
  match fetch_one (symbol inst) with
  | Some (Ok value) =>
      Some {| raw_instrument := inst; raw_value := value; raw_unit := Coins;
              raw_bucket_ts := bucket; raw_recv_ts := now; raw_price_hint := None |}
  | _ => None
  end.
Definition fetch_oi (instruments : list InstrumentId) (bucket : OffsetDateTime)
  : result ExchangeError (list RawOi) :=
  Ok (omap (oi_result bucket) (fan_out sched concurrency instruments).1).

Definition premium_rows : result ExchangeError (list PremiumRow) :=
  let? env := get_premium (base_url +:+ "/openApi/swap/v2/quote/premiumIndex") in check env.

Definition price_row (instruments : list InstrumentId) (r : PremiumRow) : option PriceQuote :=
  if negb (wanted instruments (p_symbol r)) then None
  else
    price ← dec_parse_ok (mark_price r);
    Some {| q_instrument := mkId BingX (p_symbol r); q_price := price; q_source := Mark;
            q_ts := now |}.
Definition fetch_prices (instruments : list InstrumentId)
  : result ExchangeError (list PriceQuote) :=
  let? rows := premium_rows in Ok (omap (price_row instruments) rows).

Definition history_url (instrument : InstrumentId) (since : option OffsetDateTime) : string :=
  base_url +:+ "/openApi/swap/v2/quote/fundingRate?symbol=" +:+ symbol instrument
  +:+ "&limit=1000"
  +:+ match since with
      | Some s => "&startTime=" +:+ int_to_string (to_millis s)
      | None => EmptyString
      end.
Definition history_row (instrument : InstrumentId) (since : option OffsetDateTime)
    (r : HistoryRow) : option FundingEvent :=
  rate ← dec_parse_ok (h_funding_rate r);
  ts ← result_ok (from_millis (h_funding_time r));
  if not_after ts since then None
  else Some {| ev_instrument := instrument; ev_settlement_ts := ts; ev_rate := rate;
               ev_mark_price := None |}.
Definition fetch_funding_history (instrument : InstrumentId) (since : option OffsetDateTime)
  : result ExchangeError (list FundingEvent) :=
  let? env := get_history (history_url instrument since) in
  let? rows := check env in
  Ok (omap (history_row instrument since) rows).

Definition funding_row (instruments : list InstrumentId) (bucket : OffsetDateTime)
    (r : PremiumRow) : option FundingBar :=
  if negb (wanted instruments (p_symbol r)) || str_is_empty (last_funding_rate r) then None
  else
    rate ← dec_parse_ok (last_funding_rate r);
    Some {| f_instrument := mkId BingX (p_symbol r); f_bucket_ts := bucket; f_recv_ts := now;
            f_rate := rate; f_next_funding_ts := next_ts_of_millis (next_funding_time r);
            f_interval_hours := Some 8 |}.
Definition fetch_funding (instruments : list InstrumentId) (bucket : OffsetDateTime)
  : result ExchangeError (list FundingBar) :=
  let? rows := premium_rows in Ok (omap (funding_row instruments bucket) rows).

Definition adapter : ExchangeAdapter := {|
  ad_exchange := BingX;
  ad_discover_instruments := discover_instruments;
  ad_fetch_oi := fetch_oi;
  ad_fetch_prices := fetch_prices;
  ad_fetch_funding := fetch_funding;
  ad_fetch_funding_history := λ i since, Ret (fetch_funding_history i since) |}.

#[global] Instance bingx_contract : 0 < Z.of_nat concurrency → AdapterContract adapter.
Proof.
  intros Hc. split; simpl.
  - intros metas. unfold discover_instruments.
    destruct (get_contracts _) as [env|]; [|done]. destruct (check env) as [rows|]; [|done].
    intros [= <-]. apply Forall_fmap, Forall_forall. done.
  - intros insts bucket out _. unfold fetch_oi. rows_tac.
    intros i r Hi H. unfold oi_result in H. row_cases H.
    destruct (fan_out_complete sched concurrency insts ltac:(lia)) as [Hp _].
    rewrite Hp in Hi. done.
  - intros insts out Hx. unfold fetch_prices. rows_tac.
    intros r q _ H. unfold price_row in H. row_cases H; wanted_tac.
  - intros insts bucket out Hx. unfold fetch_funding. rows_tac.
    intros r f _ H. unfold funding_row in H. row_cases H; wanted_tac.
  - intros i since out _ H. injection H as H. revert H. unfold fetch_funding_history. rows_tac.
    intros r e _ H. unfold history_row in H. row_cases H; done.
Qed.
End rest.
