(* ===== verification/Aster.v ===== *)
(** The Aster adapter, [aster/mod.rs]: the Binance adapter on another base URL,
    its answers re-tagged.  It is proved against the adapter contract alone, for
    any inner adapter that answers for Binance. *)

From Stdlib Require Import ZArith Lia String.
From stdpp Require Import base option list strings.
From S2P Require Import Prelude Externals Concrete Domain FanOut Adapter Binance.
Open Scope Z_scope.
Open Scope oi_scope.

Definition retag (ex : Exchange) (id : InstrumentId) : InstrumentId := mkId ex (symbol id).

Section aster.
Context {DL : DecimalLib} {TL : TimeLib}.

Definition with_id (m : InstrumentMeta) (id : InstrumentId) : InstrumentMeta :=
  {| meta_id := id; base_asset := base_asset m; quote_asset := quote_asset m;
     is_perpetual := is_perpetual m; meta_native_unit := meta_native_unit m;
     contract_multiplier := contract_multiplier m; price_tick := price_tick m;
     qty_step := qty_step m; active := active m |}.
Definition retag_meta (m : InstrumentMeta) : InstrumentMeta :=
  with_id m (retag Aster (meta_id m)).
Definition retag_quote (q : PriceQuote) : PriceQuote :=
  {| q_instrument := retag Aster (q_instrument q); q_price := q_price q;
     q_source := q_source q; q_ts := q_ts q |}.
Definition retag_raw (r : RawOi) : RawOi :=
  {| raw_instrument := retag Aster (raw_instrument r); raw_value := raw_value r;
     raw_unit := raw_unit r; raw_bucket_ts := raw_bucket_ts r; raw_recv_ts := raw_recv_ts r;
     raw_price_hint := retag_quote <$> raw_price_hint r |}.
Definition retag_event (e : FundingEvent) : FundingEvent :=
  {| ev_instrument := retag Aster (ev_instrument e); ev_settlement_ts := ev_settlement_ts e;
     ev_rate := ev_rate e; ev_mark_price := ev_mark_price e |}.
Definition retag_bar (b : FundingBar) : FundingBar :=
  {| f_instrument := retag Aster (f_instrument b); f_bucket_ts := f_bucket_ts b;
     f_recv_ts := f_recv_ts b; f_rate := f_rate b; f_next_funding_ts := f_next_funding_ts b;
     f_interval_hours := f_interval_hours b |}.

(** [inner] is the Binance adapter. *)
Context (inner : ExchangeAdapter).

Definition forwarded (instruments : list InstrumentId) : list InstrumentId :=
  (λ i, mkId Binance (symbol i)) <$> instruments.

Definition discover_instruments : result ExchangeError (list InstrumentMeta) :=
  let? metas := ad_discover_instruments inner in Ok (retag_meta <$> metas).
Definition fetch_oi (instruments : list InstrumentId) (bucket : OffsetDateTime)
  : result ExchangeError (list RawOi) :=
  let? raw := ad_fetch_oi inner (forwarded instruments) bucket in Ok (retag_raw <$> raw).
Definition fetch_prices (instruments : list InstrumentId)
  : result ExchangeError (list PriceQuote) :=
  let? quotes := ad_fetch_prices inner (forwarded instruments) in Ok (retag_quote <$> quotes).
Definition fetch_funding_history (instrument : InstrumentId) (since : option OffsetDateTime)
  : run (result ExchangeError (list FundingEvent)) :=
  (λ r : result ExchangeError (list FundingEvent),
    let? events := r in Ok (retag_event <$> events))
  <$> ad_fetch_funding_history inner (mkId Binance (symbol instrument)) since.
Definition fetch_funding (instruments : list InstrumentId) (bucket : OffsetDateTime)
  : result ExchangeError (list FundingBar) :=
  let? bars := ad_fetch_funding inner (forwarded instruments) bucket in Ok (retag_bar <$> bars).

Definition adapter : ExchangeAdapter := {|
  ad_exchange := Aster;
  ad_discover_instruments := discover_instruments;
  ad_fetch_oi := fetch_oi;
  ad_fetch_prices := fetch_prices;
  ad_fetch_funding := fetch_funding;
  ad_fetch_funding_history := fetch_funding_history |}.

Lemma retag_forwarded insts i :
  Forall (λ i, exchange i = Aster) insts → i ∈ forwarded insts → retag Aster i ∈ insts.
Proof.
  intros Hx (j & -> & Hj)%list_elem_of_fmap. rewrite Forall_forall in Hx.
  unfold retag. simpl. rewrite <- (Hx j Hj). by destruct j.
Qed.

Lemma forwarded_exchange insts : Forall (λ i, exchange i = Binance) (forwarded insts).
Proof. apply Forall_fmap, Forall_forall. done. Qed.

Context {Hinner : AdapterContract inner} (Hbin : ad_exchange inner = Binance).

#[global] Instance aster_contract : AdapterContract adapter.
Proof using Hinner Hbin.
  split; simpl.
  - intros metas. unfold discover_instruments.
    destruct (ad_discover_instruments inner) as [ms|] eqn:E; [|done]. intros [= <-].
    apply contract_discover in E. apply Forall_fmap. eapply Forall_impl; [exact E|].
    intros m [_ Hp]. done.
  - intros insts bucket out Hx. unfold fetch_oi.
    destruct (ad_fetch_oi inner _ _) as [raw|] eqn:E; [|done]. intros [= <-].
    apply contract_oi in E; [|rewrite Hbin; apply forwarded_exchange].
    apply Forall_fmap. eapply Forall_impl; [exact E|]. intros r (Hi & Hb & Hq). simpl.
    split; [by apply retag_forwarded|]. split; [done|].
    intros q Hq'. apply fmap_Some in Hq' as (q' & Hq' & ->). simpl. by rewrite (Hq _ Hq').
  - intros insts out Hx. unfold fetch_prices.
    destruct (ad_fetch_prices inner _) as [qs|] eqn:E; [|done]. intros [= <-].
    apply contract_prices in E; [|rewrite Hbin; apply forwarded_exchange].
    apply Forall_fmap. eapply Forall_impl; [exact E|]. intros q Hi. by apply retag_forwarded.
  - intros insts bucket out Hx. unfold fetch_funding.
    destruct (ad_fetch_funding inner _ _) as [bs|] eqn:E; [|done]. intros [= <-].
    apply contract_funding in E; [|rewrite Hbin; apply forwarded_exchange].
    apply Forall_fmap. eapply Forall_impl; [exact E|]. intros b [Hi Hb].
    split; [by apply retag_forwarded|done].
  - intros i since out Hi. unfold fetch_funding_history.
    destruct (ad_fetch_funding_history inner _ _) as [[es|]|] eqn:E; simpl; [|done|done].
    intros [= <-]. apply contract_history in E; [|done]. apply Forall_fmap.
    eapply Forall_impl; [exact E|]. intros e He. simpl. rewrite He. unfold retag. simpl.
    rewrite <- Hi. by destruct i.
Qed.
End aster.
