(* ===== verification/Adapters.v ===== *)
(** The adapter set the collector builds ([runner.rs] and [lib.rs] of
    [oi-exchanges]) and the contract every one of them keeps. *)

From Stdlib Require Import ZArith Lia String.
From stdpp Require Import base option list strings gmap.
From S2P Require Import Prelude Externals Concrete Domain FanOut Adapter.
From S2P Require Import Binance Bybit Okx Bitget Hyperliquid Mexc KuCoin BingX Aster.
Open Scope Z_scope.
Open Scope oi_scope.

(** [is_production_ready] *)
Definition is_production_ready (ex : Exchange) : bool :=
  match ex with
  | Domain.Binance | Domain.Bybit | Domain.Hyperliquid | Domain.Okx
  | Domain.Bitget | Domain.Mexc | Domain.Aster | Domain.BingX | Domain.KuCoin => true
  end.

Section adapters.
Context {DL : DecimalLib} {TL : TimeLib} {JL : JsonLib}.

(** What the exchanges answer, the clock, the completion order of spawned
    requests, the iteration order of Hyperliquid's index and the two interval
    caches. *)
Record Net := mkNet {
  net_now : OffsetDateTime;
  net_sched : nat → nat;
  net_iter : gmap string (AssetCtx * option Dec) → list (string * (AssetCtx * option Dec));
  mexc_intervals : gmap string Z;
  kucoin_intervals : gmap string Z;
  binance_info : string → result ExchangeError ExchangeInfo;
  binance_oi : string → option (result ExchangeError OpenInterestResp);
  binance_premium : string → result ExchangeError (list MarkPriceResp);
  binance_funding : string → result ExchangeError (list Binance.HistoryRow);
  bybit_instruments : string → result ExchangeError (Bybit.Envelope InstrumentsPage);
  bybit_tickers : string → result ExchangeError (Bybit.Envelope (list Bybit.TickerRow));
  bybit_history : string → result ExchangeError (Bybit.Envelope (list Bybit.HistoryRow));
  okx_instruments : string → result ExchangeError (Okx.Envelope Okx.InstrumentRow);
  okx_oi : string → result ExchangeError (Okx.Envelope OiRow);
  okx_tickers : string → result ExchangeError (Okx.Envelope Okx.TickerRow);
  okx_history : string → result ExchangeError (Okx.Envelope Okx.HistoryRow);
  okx_funding : string → option (result ExchangeError (Okx.Envelope FundingRateRow));
  bitget_contracts : string → result ExchangeError (Bitget.Envelope (list Bitget.ContractRow));
  bitget_tickers : string → result ExchangeError (Bitget.Envelope (list Bitget.TickerRow));
  bitget_history : string → result ExchangeError (Bitget.Envelope (list Bitget.HistoryRow));
  hl_meta : string → result ExchangeError (list UniverseEntry * list AssetCtx);
  hl_history : string → HistoryBody → result ExchangeError (list Hyperliquid.HistoryRow);
  mexc_detail : string → result ExchangeError (Mexc.Envelope (list DetailRow));
  mexc_ticker : string → result ExchangeError (Mexc.Envelope (list Mexc.TickerRow));
  mexc_history : string → result ExchangeError (Mexc.Envelope (list Mexc.HistoryRow));
  mexc_cycle : string → option (result ExchangeError (Mexc.Envelope (option Z)));
  kucoin_contracts : string → result ExchangeError (KuCoin.Envelope (list KuCoin.ContractRow));
  kucoin_history : string → result ExchangeError (KuCoin.Envelope (list KuCoin.HistoryRow));
  kucoin_current : string → option (result ExchangeError (KuCoin.Envelope (option Z)));
  bingx_contracts : string → result ExchangeError (BingX.Envelope (list BingX.ContractRow));
  bingx_oi : string → option (result ExchangeError (BingX.Envelope OpenInterestData));
  bingx_premium : string → result ExchangeError (BingX.Envelope (list PremiumRow));
  bingx_history : string → result ExchangeError (BingX.Envelope (list BingX.HistoryRow));
}.

(** [BinanceUsdmAdapter::with_base_url] *)
Definition binance_at (net : Net) (base_url : string) : ExchangeAdapter :=
  Binance.adapter base_url 16 (net_now net) (net_sched net) (binance_info net)
    (binance_oi net) (binance_premium net) (binance_funding net).

(** The [match ex] of [run_async], with each adapter's default base URL. *)
Definition make_adapter (net : Net) (ex : Exchange) : ExchangeAdapter :=
  match ex with
  | Domain.Binance => binance_at net "https://fapi.binance.com"
  | Domain.Bybit =>
      Bybit.adapter "https://api.bybit.com" (net_now net) (bybit_instruments net)
        (bybit_tickers net) (bybit_history net)
  | Domain.Hyperliquid =>
      Hyperliquid.adapter "https://api.hyperliquid.xyz" (net_now net) (net_iter net)
        (hl_meta net) (hl_history net)
  | Domain.Okx =>
      Okx.adapter "https://www.okx.com" (net_now net) (net_sched net) (okx_instruments net)
        (okx_oi net) (okx_tickers net) (okx_history net) (okx_funding net)
  | Domain.Bitget =>
      Bitget.adapter "https://api.bitget.com" (net_now net) (bitget_contracts net)
        (bitget_tickers net) (bitget_history net)
  | Domain.Mexc =>
      Mexc.adapter "https://contract.mexc.com" (net_now net) (net_sched net)
        (mexc_intervals net) (mexc_detail net) (mexc_ticker net) (mexc_history net)
        (mexc_cycle net)
  | Domain.Aster => Aster.adapter (binance_at net "https://fapi.asterdex.com")
  | Domain.BingX =>
      BingX.adapter "https://open-api.bingx.com" 8 (net_now net) (net_sched net)
        (bingx_contracts net) (bingx_oi net) (bingx_premium net) (bingx_history net)
  | Domain.KuCoin =>
      KuCoin.adapter "https://api-futures.kucoin.com" (net_now net) (net_sched net)
        (kucoin_intervals net) (kucoin_contracts net) (kucoin_history net) (kucoin_current net)
  end.

(** The enabled exchanges: the configured list, or every adapter that is ready. *)
Definition enabled_exchanges (configured : list Exchange) : list Exchange :=
  match configured with
  | [] => filter (λ ex, is_production_ready ex = true) exchange_all
  | _ => configured
  end.

Lemma make_adapter_exchange net ex : ad_exchange (make_adapter net ex) = ex.
Proof. by destruct ex. Qed.

#[export] Instance binance_at_contract net url : AdapterContract (binance_at net url).
Proof. apply binance_contract. lia. Qed.
#[export] Instance make_adapter_contract net ex : AdapterContract (make_adapter net ex).
Proof.
  destruct ex; simpl; try apply _.
  - apply bingx_contract. lia.
  - by apply aster_contract; [apply _|].
Qed.

(** What a venue lists: symbol and whether it is active, for the wire rows that
    pass the venue's guard, in the answer's order. *)
Definition kept {A} (guard : A → bool) (sym : A → string) (act : A → bool) (rows : list A)
  : list (string * bool) := (λ r, (sym r, act r)) <$> filter (λ r, guard r = true) rows.
Definition listed_of (metas : list InstrumentMeta) : list (string * bool) :=
  (λ m, (symbol (meta_id m), active m)) <$> metas.
(** A text that is missing or one given word. *)
Definition absent_or (word s : string) : bool := String.eqb s EmptyString || String.eqb s word.

(** The listing of each venue: Binance and Aster take the contract types that end
    in PERPETUAL, Bybit, OKX and Bitget the rows whose type is missing or the
    linear perpetual's, KuCoin those that are not inverse besides; MEXC, BingX
    and Hyperliquid take every row of their endpoint. *)
Definition listing (net : Net) (ex : Exchange) (l : list (string * bool)) : Prop :=
  let usdm base := ∃ info, binance_info net (base +:+ "/fapi/v1/exchangeInfo") = Ok info
    ∧ l = kept (λ s, ends_with "PERPETUAL" (Binance.contract_type s)) si_symbol
            (λ s, String.eqb (si_status s) "TRADING") (symbols info) in
  match ex with
  | Domain.Binance => usdm "https://fapi.binance.com"%string
  | Domain.Aster => usdm "https://fapi.asterdex.com"%string
  | Domain.Bybit => ∃ pages last,
      served "https://api.bybit.com" (bybit_instruments net) EmptyString pages last
      ∧ l = kept (λ r, absent_or "LinearPerpetual" (Bybit.contract_type r)) ir_symbol
              (λ r, String.eqb (ir_status r) "Trading") (concat pages)
  | Domain.Okx => ∃ env,
      okx_instruments net "https://www.okx.com/api/v5/public/instruments?instType=SWAP" = Ok env
      ∧ Okx.env_code env = "0"%string
      ∧ l = kept (λ r, absent_or "linear" (ct_type r)) inst_id
              (λ r, String.eqb (Okx.state r) "live") (Okx.env_data env)
  | Domain.Bitget => ∃ env,
      bitget_contracts net
        "https://api.bitget.com/api/v2/mix/market/contracts?productType=USDT-FUTURES" = Ok env
      ∧ Bitget.env_code env = "00000"%string
      ∧ l = kept (λ r, absent_or "perpetual" (symbol_type r)) Bitget.c_symbol
              (λ r, String.eqb (symbol_status r) "normal") (Bitget.env_data env)
  | Domain.KuCoin => ∃ env,
      kucoin_contracts net "https://api-futures.kucoin.com/api/v1/contracts/active" = Ok env
      ∧ KuCoin.env_code env = "200000"%string
      ∧ l = kept (λ r, negb (is_inverse r) && absent_or "FFWCSX" (KuCoin.contract_type r))
              KuCoin.c_symbol (λ r, String.eqb (KuCoin.status r) "Open") (KuCoin.env_data env)
  | Domain.Mexc => ∃ env,
      mexc_detail net "https://contract.mexc.com/api/v1/contract/detail" = Ok env
      ∧ Mexc.env_code env = 0 ∧ env_success env = true
      ∧ l = kept (λ _, true) d_symbol (λ r, Mexc.state r =? 0) (Mexc.env_data env)
  | Domain.BingX => ∃ env,
      bingx_contracts net "https://open-api.bingx.com/openApi/swap/v2/quote/contracts" = Ok env
      ∧ BingX.env_code env = 0
      ∧ l = kept (λ _, true) BingX.c_symbol (λ r, BingX.status r =? 1) (BingX.env_data env)
  | Domain.Hyperliquid => ∃ universe ctxs,
      hl_meta net "https://api.hyperliquid.xyz/info" = Ok (universe, ctxs)
      ∧ l = kept (λ _, true) u_name (λ u, negb (is_delisted u)) universe
  end.

Lemma kept_omap {A} guard sym act (f : A → option InstrumentMeta) rows :
  (∀ r, match f r with
        | Some m => guard r = true ∧ symbol (meta_id m) = sym r ∧ active m = act r
        | None => guard r = false
        end) →
  listed_of (omap f rows) = kept guard sym act rows.
Proof.
  intros H. unfold listed_of, kept. induction rows as [|r rows IH]; [done|].
  cbn [omap list_omap]. specialize (H r). rewrite filter_cons.
  destruct (f r) as [m|].
  - destruct H as (Hg & Hs & Ha). rewrite decide_True by done. cbn [fmap list_fmap].
    by rewrite Hs, Ha, IH.
  - rewrite decide_False by congruence. done.
Qed.
Lemma kept_fmap {A} sym act (f : A → InstrumentMeta) rows :
  (∀ r, symbol (meta_id (f r)) = sym r ∧ active (f r) = act r) →
  listed_of (f <$> rows) = kept (λ _, true) sym act rows.
Proof.
  intros H. unfold listed_of, kept. induction rows as [|r rows IH]; [done|].
  rewrite filter_cons, decide_True by done. cbn [fmap list_fmap].
  destruct (H r) as [-> ->]. by rewrite <- IH.
Qed.

Lemma usdm_listing net base metas :
  ad_discover_instruments (binance_at net base) = Ok metas →
  ∃ info, binance_info net (base +:+ "/fapi/v1/exchangeInfo") = Ok info
    ∧ listed_of metas = kept (λ s, ends_with "PERPETUAL" (Binance.contract_type s)) si_symbol
        (λ s, String.eqb (si_status s) "TRADING") (symbols info).
Proof.
  simpl. unfold Binance.discover_instruments. destruct (binance_info net _) as [info|]; [|done].
  intros [= <-]. exists info. split; [done|]. apply kept_omap. intros s. unfold symbol_meta.
  destruct (ends_with _ _); simpl; [|done]. by destruct (extract_filters _).
Qed.
Lemma aster_listed metas : listed_of (retag_meta <$> metas) = listed_of metas.
Proof. unfold listed_of. by rewrite <- list_fmap_compose. Qed.

Lemma discovery_lists net ex metas :
  ad_discover_instruments (make_adapter net ex) = Ok metas → listing net ex (listed_of metas).
Proof.
  destruct ex; cbn [make_adapter listing].
  - apply usdm_listing.
  - simpl. intros (pages & last & Hs & ->)%Bybit.discover_pages_of. exists pages, last.
    split; [done|]. apply kept_omap. intros r. unfold Bybit.instrument_meta, absent_or, str_is_empty.
    by destruct (String.eqb _ _), (String.eqb _ _).
  - simpl. unfold Okx.discover_instruments.
    destruct (okx_instruments net _) as [env|] eqn:E; [|done]. unfold Okx.check.
    destruct (String.eqb_spec (Okx.env_code env) "0") as [Hc|]; [|done]. intros [= <-].
    exists env. do 2 (split; [done|]). apply kept_omap. intros r.
    unfold Okx.instrument_meta, absent_or, str_is_empty.
    by destruct (String.eqb (ct_type r) _), (String.eqb (ct_type r) _).
  - simpl. unfold BingX.discover_instruments.
    destruct (bingx_contracts net _) as [env|] eqn:E; [|done]. unfold BingX.check.
    destruct (Z.eqb_spec (BingX.env_code env) 0) as [Hc|]; [|by destruct (_ || _)].
    intros [= <-]. exists env. do 2 (split; [done|]). by apply kept_fmap.
  - simpl. unfold KuCoin.discover_instruments, contracts_rows.
    destruct (kucoin_contracts net _) as [env|] eqn:E; [|done]. unfold KuCoin.check.
    destruct (String.eqb_spec (KuCoin.env_code env) "200000") as [Hc|]; [|by destruct (existsb _ _)].
    intros [= <-]. exists env. do 2 (split; [done|]).
    unfold listed_of, kept. by rewrite <- list_fmap_compose.
  - simpl. unfold Mexc.discover_instruments.
    destruct (mexc_detail net _) as [env|] eqn:E; [|done]. unfold Mexc.check.
    destruct (Z.eqb_spec (Mexc.env_code env) 0) as [Hc|]; [|by destruct (_ || _)].
    destruct (env_success env) eqn:Hs; cbn [andb]; [|by destruct (_ || _)].
    intros [= <-]. exists env. do 3 (split; [done|]). by apply kept_fmap.
  - simpl. unfold Bitget.discover_instruments.
    destruct (bitget_contracts net _) as [env|] eqn:E; [|done]. unfold Bitget.check.
    destruct (String.eqb_spec (Bitget.env_code env) "00000") as [Hc|]; [|by destruct (existsb _ _)].
    intros [= <-]. exists env. do 2 (split; [done|]). apply kept_omap. intros r.
    unfold Bitget.instrument_meta, absent_or, str_is_empty.
    by destruct (String.eqb (symbol_type r) _), (String.eqb (symbol_type r) _).
  - simpl. unfold Hyperliquid.discover_instruments, meta_and_ctxs.
    destruct (hl_meta net _) as [[universe ctxs]|] eqn:E; [|done]. intros [= <-].
    exists universe, ctxs. split; [done|]. by apply kept_fmap.
  - cbn [ad_discover_instruments Aster.adapter]. unfold Aster.discover_instruments.
    destruct (ad_discover_instruments _) as [ms|] eqn:E; [|done]. intros [= <-].
    rewrite aster_listed. by apply usdm_listing.
Qed.

(** C28. What every exchange's adapter promises the collector, whatever the
    exchange answers. It speaks for the exchange it is built for. What it
    discovers are instruments of that exchange, one for each row of its own
    endpoint's answer that passes the venue's guard, in order, under the row's
    symbol and active exactly when the row's status is the venue's word for it;
    the guard keeps the contract types that are the venue's word for a perpetual
    (Bybit, OKX, Bitget and KuCoin also rows without a type), except for MEXC,
    BingX and Hyperliquid, whose endpoints' rows are all taken; all of them are
    marked perpetual. Every reading,
    price and funding rate is for an instrument that was asked for, readings and
    rates under the collector's own minute; a price that comes along with a
    reading carries that reading's instrument; and a settlement history is the
    asked instrument's. *)
Theorem adapters_keep_contract net ex insts bucket i since :
  let a := make_adapter net ex in
  Forall (λ i, exchange i = ex) insts → exchange i = ex →
  ad_exchange a = ex
  ∧ (∀ metas, ad_discover_instruments a = Ok metas →
       Forall (λ m, exchange (meta_id m) = ex ∧ is_perpetual m = true) metas
       ∧ listing net ex (listed_of metas))
  ∧ (∀ out, ad_fetch_oi a insts bucket = Ok out →
       Forall (λ r, raw_instrument r ∈ insts ∧ raw_bucket_ts r = bucket
                    ∧ ∀ q, raw_price_hint r = Some q → q_instrument q = raw_instrument r) out)
  ∧ (∀ out, ad_fetch_prices a insts = Ok out → Forall (λ q, q_instrument q ∈ insts) out)
  ∧ (∀ out, ad_fetch_funding a insts bucket = Ok out →
       Forall (λ f, f_instrument f ∈ insts ∧ f_bucket_ts f = bucket) out)
  ∧ (∀ out, ad_fetch_funding_history a i since = Ret (Ok out) →
       Forall (λ e, ev_instrument e = i) out).
Proof.
  intros a Hx Hi. pose proof (make_adapter_contract net ex) as Hc. fold a in Hc.
  assert (Ha : ad_exchange a = ex) by apply make_adapter_exchange.
  split; [done|]. rewrite <- Ha in Hx, Hi. split; [|split; [|split; [|split]]].
  - intros metas H. split; [rewrite <- Ha; by apply contract_discover|by apply discovery_lists].
  - intros out. by apply contract_oi.
  - intros out. by apply contract_prices.
  - intros out. by apply contract_funding.
  - intros out. by apply contract_history.
Qed.
End adapters.

(** A network on which only the Binance-shaped endpoints answer, the listing with
    a perpetual and a dated future. *)
Definition down {A B} (_ : A) : result ExchangeError B := Err (NotFound "down").
Definition ex_net : Net (DL := z_decimal) (TL := z_time) (JL := tree_json) :=
  {| net_now := 0; net_sched := λ _, 0%nat; net_iter := map_to_list;
     mexc_intervals := ∅; kucoin_intervals := ∅;
     binance_info := λ _, Ok (mkExchangeInfo
       [mkSymbolInfo "BTC" "PERPETUAL" "BTC" "USDT" "TRADING" [];
        mkSymbolInfo "BTC_260925" "CURRENT_QUARTER" "BTC" "USDT" "TRADING" []]);
     binance_oi := λ _, Some (Ok (Binance.mkOpenInterest "BTC" "42" 0));
     binance_premium := down; binance_funding := down; bybit_instruments := down;
     bybit_tickers := down; bybit_history := down; okx_instruments := down; okx_oi := down;
     okx_tickers := down; okx_history := down; okx_funding := λ _, None;
     bitget_contracts := down; bitget_tickers := down; bitget_history := down;
     hl_meta := down; hl_history := λ _ _, down 0; mexc_detail := down; mexc_ticker := down;
     mexc_history := down; mexc_cycle := λ _, None; kucoin_contracts := down;
     kucoin_history := down; kucoin_current := λ _, None; bingx_contracts := down;
     bingx_oi := λ _, None; bingx_premium := down; bingx_history := down |}.
Lemma adapters_keep_contract_witness :
  (∃ metas, ad_discover_instruments (make_adapter ex_net Domain.Aster) = Ok metas
     ∧ listed_of metas = [("BTC"%string, true)])
  ∧ ∃ out, ad_fetch_oi (make_adapter ex_net Domain.Aster) [mkId Domain.Aster "BTC"] 0 = Ok out
    ∧ raw_value <$> out = [42]
    ∧ Forall (λ r, raw_instrument r ∈ [mkId Domain.Aster "BTC"]) out.
Proof.
  destruct (adapters_keep_contract ex_net Domain.Aster [mkId Domain.Aster "BTC"] 0
    (mkId Domain.Aster "BTC") None) as (_ & Hd & H & _); [|reflexivity|].
  - apply Forall_singleton. reflexivity.
  - split.
    + eexists. split; [reflexivity|].
      destruct (Hd _ eq_refl) as [_ (info & Hi & Hl)]. rewrite Hl.
      injection Hi as <-. reflexivity.
    + eexists. split; [reflexivity|]. split; [reflexivity|].
      eapply Forall_impl; [apply H; reflexivity|]. intros r [Hr _]. exact Hr.
Defined.
