(* ===== verification/Json.v ===== *)
(** JSON values and the derived [Deserialize] impls of the wire types.

    A wire type's decoder is written from the attributes of its struct: the key
    of every field and whether it is required or defaulted.  What
    [serde_json] does with the text (its grammar, how it prints a number, the
    words of its errors) stays a parameter, the class [SerdeJson]; what a derived
    impl does with the values is the documented behaviour the attributes rely
    on: unknown keys are skipped, a key that occurs twice is an error, a missing
    key is an error unless the field has a default, and an array is read field
    by field in the order of declaration. *)

From Stdlib Require Import ZArith Lia String Ascii.
From stdpp Require Import base option list strings.
From S2P Require Import Prelude Externals Concrete.
Open Scope Z_scope.
Open Scope oi_scope.

(** A number is kept as its text. *)
#[warnings="-register-all"]
Inductive json :=
| JNull
| JBool (b : bool)
| JNum (text : string)
| JStr (s : string)
| JArr (l : list json)
| JObj (kvs : list (string * json)).

Abbreviation Pairs := (list (string * json)).

(** The accessors of [serde_json::Value]; of a repeated key its map keeps the
    last value. *)
Definition last_value (kvs : Pairs) (k : string) : option json :=
  snd <$> last (filter (λ kv, kv.1 = k) kvs).

Class SerdeJson := {
  sj_read : string → result string json;   (** [from_str], and its syntax errors *)
  sj_number : string → string;             (** [Number::to_string] *)
  sj_data_error : string → string;         (** why a body does not decode *)
}.

#[export] Instance json_lib `{SerdeJson} : JsonLib := {|
  Value := json;
  json_get v k := match v with JObj kvs => last_value kvs k | _ => None end;
  json_as_str v := match v with JStr s => Some s | _ => None end;
  json_as_array v := match v with JArr l => Some l | _ => None end;
  json_from_str s := result_ok (sj_read s);
|}.

(** * Decoders *)

Definition De (A : Type) : Type := json → option A.

Section decoders.
Context {SJ : SerdeJson}.

Definition de_str : De string := λ v, match v with JStr s => Some s | _ => None end.
Definition de_bool : De bool := λ v, match v with JBool b => Some b | _ => None end.
Definition de_value : De json := Some.
(** [-0], a fraction and an exponent are read as floats, which no integer type
    accepts. *)
Definition de_int (lo hi : Z) : De Z := λ v,
  match v with
  | JNum t => if String.eqb t "-0" then None else z_of_string t ≫= in_width lo hi
  | _ => None
  end.
Definition de_i64 : De Z := de_int i64_min i64_max.
Definition de_i32 : De Z := de_int (- 2 ^ 31) (2 ^ 31 - 1).
Definition de_u8 : De Z := de_int 0 u8_max.
Definition de_u32 : De Z := de_int 0 u32_max.
(** [serde_json::Number], by the text it prints as. *)
Definition de_number : De string := λ v,
  match v with JNum t => Some (sj_number t) | _ => None end.
Definition de_opt {A} (d : De A) : De (option A) := λ v,
  match v with JNull => Some None | _ => Some <$> d v end.
Definition de_vec {A} (d : De A) : De (list A) := λ v,
  match v with JArr l => mapM d l | _ => None end.

(** The fields of a struct that are still to be read. *)
Inductive Fields := FObj (kvs : Pairs) | FArr (l : list json).
Definition DeM (A : Type) : Type := Fields → option (A * Fields).
#[export] Instance dem_ret : MRet DeM := λ A a fs, Some (a, fs).
#[export] Instance dem_bind : MBind DeM := λ A B f m fs,
  match m fs with Some (a, fs') => f a fs' | None => None end.

(** [None] for a repeated key, [Some None] for a missing one. *)
Definition lookup_key (kvs : Pairs) (k : string) : option (option json) :=
  match filter (λ kv, kv.1 = k) kvs with
  | [] => Some None
  | [kv] => Some (Some kv.2)
  | _ => None
  end.

Definition req {A} (k : string) (d : De A) : DeM A := λ fs,
  match fs with
  | FObj kvs =>
      match lookup_key kvs k with
      | Some (Some v) => a ← d v; Some (a, fs)
      | _ => None
      end
  | FArr (v :: l) => a ← d v; Some (a, FArr l)
  | FArr [] => None
  end.
(** [#[serde(default)]] *)
Definition dflt {A} (k : string) (a0 : A) (d : De A) : DeM A := λ fs,
  match fs with
  | FObj kvs =>
      match lookup_key kvs k with
      | Some (Some v) => a ← d v; Some (a, fs)
      | Some None => Some (a0, fs)
      | None => None
      end
  | FArr (v :: l) => a ← d v; Some (a, FArr l)
  | FArr [] => Some (a0, fs)
  end.
(** An [Option] field without a default: a missing key is [None], a missing
    element of an array is an error. *)
Definition opt_field {A} (k : string) (d : De A) : DeM (option A) := λ fs,
  match fs with
  | FArr [] => None
  | _ => dflt k None (de_opt d) fs
  end.
Definition struct {A} (m : DeM A) : De A := λ v,
  match v with
  | JObj kvs => fst <$> m (FObj kvs)
  | JArr l => match m (FArr l) with Some (a, FArr []) => Some a | _ => None end
  | _ => None
  end.

Definition dflt_str (k : string) : DeM string := dflt k EmptyString de_str.
Definition dflt_opt {A} (k : string) (d : De A) : DeM (option A) := dflt k None (de_opt d).

(** Reading the fields of an object one after the other. *)
Lemma bind_at {A B} (m : DeM A) (k : A → DeM B) fs a fs' r :
  m fs = Some (a, fs') → k a fs' = r → (m ≫= k) fs = r.
Proof. unfold mbind, dem_bind. by intros ->. Qed.
Lemma req_at {A} k (d : De A) kvs v a :
  lookup_key kvs k = Some (Some v) → d v = Some a → req k d (FObj kvs) = Some (a, FObj kvs).
Proof. intros H Hd. simpl. by rewrite H, Hd. Qed.
Lemma dflt_at {A} k (a0 : A) (d : De A) kvs v a :
  lookup_key kvs k = Some (Some v) → d v = Some a → dflt k a0 d (FObj kvs) = Some (a, FObj kvs).
Proof. intros H Hd. simpl. by rewrite H, Hd. Qed.
Lemma opt_field_at {A} k (d : De A) kvs v a :
  lookup_key kvs k = Some (Some v) → de_opt d v = Some a →
  opt_field k d (FObj kvs) = Some (a, FObj kvs).
Proof. apply dflt_at. Qed.
Lemma opt_field_missing {A} k (d : De A) kvs :
  lookup_key kvs k = Some None → opt_field k d (FObj kvs) = Some (None, FObj kvs).
Proof. intros H. simpl. by rewrite H. Qed.
Lemma struct_at {A} (m : DeM A) kvs a fs : m (FObj kvs) = Some (a, fs) → struct m (JObj kvs) = Some a.
Proof. intros H. simpl. by rewrite H. Qed.

(** [serde_json::from_slice] of a response body. *)
Definition decode_body {A} (d : De A) (body : string) : result string A :=
  let? v := sj_read body in
  match d v with Some a => Ok a | None => Err (sj_data_error body) end.

Lemma de_vec_all {A} (d : De A) l xs :
  de_vec d (JArr l) = Some xs ↔ Forall2 (λ v x, d v = Some x) l xs.
Proof. apply mapM_Some. Qed.

Lemma de_vec_bad {A} (d : De A) l v : v ∈ l → d v = None → de_vec d (JArr l) = None.
Proof.
  intros Hv Hd. destruct (de_vec d (JArr l)) as [xs|] eqn:E; [|done].
  apply de_vec_all in E. apply list_elem_of_lookup in Hv as [i Hi].
  apply (Forall2_lookup_l _ _ _ _ _ E) in Hi as (x & _ & Hx). congruence.
Qed.

(** * Unknown keys *)

Section strip.
Context (known : string → bool).

(** The value without the keys that are not known. *)
Fixpoint strip (v : json) : json :=
  match v with
  | JArr l => JArr (map strip l)
  | JObj kvs =>
      JObj ((fix go (kvs : Pairs) : Pairs :=
        match kvs with
        | [] => []
        | (k, x) :: rest => if known k then (k, strip x) :: go rest else go rest
        end) kvs)
  | _ => v
  end.
Definition strip_pairs (kvs : Pairs) : Pairs :=
  (λ kv, (kv.1, strip kv.2)) <$> filter (λ kv, known kv.1 = true) kvs.
Definition strip_fields (fs : Fields) : Fields :=
  match fs with FObj kvs => FObj (strip_pairs kvs) | FArr l => FArr (map strip l) end.

Lemma strip_obj kvs : strip (JObj kvs) = JObj (strip_pairs kvs).
Proof.
  cbn [strip]. f_equal. unfold strip_pairs. induction kvs as [|[k x] kvs IH]; [done|].
  rewrite filter_cons. simpl. destruct (known k) eqn:E; simpl; by rewrite IH.
Qed.

Lemma strip_filter kvs k :
  known k = true →
  filter (λ kv, kv.1 = k) (strip_pairs kvs)
  = (λ kv, (kv.1, strip kv.2)) <$> filter (λ kv, kv.1 = k) kvs.
Proof.
  intros Hk. unfold strip_pairs. induction kvs as [|[k' x] kvs IH]; [done|].
  rewrite !(filter_cons _ (k', x)). cbn [fst snd].
  destruct (decide (known k' = true)) as [E|E].
  - rewrite fmap_cons, filter_cons. cbn [fst snd].
    destruct (decide (k' = k)) as [->|]; [by rewrite fmap_cons, IH|done].
  - destruct (decide (k' = k)) as [->|]; [done|done].
Qed.

Lemma strip_lookup kvs k :
  known k = true → lookup_key (strip_pairs kvs) k = option_map (option_map strip) (lookup_key kvs k).
Proof.
  intros Hk. unfold lookup_key. rewrite strip_filter by done.
  by destruct (filter _ kvs) as [|? [|? ?]].
Qed.

(** A decoder, or a part of one, that looks at known keys only. *)
Class Blind {A} (d : De A) : Prop := blind v : d (strip v) = d v.
Class BlindM {A} (m : DeM A) : Prop :=
  blind_m fs : m (strip_fields fs) = prod_map id strip_fields <$> m fs.

#[export] Instance blind_str : Blind de_str.
Proof. intros [| | | | |]; done. Qed.
#[export] Instance blind_bool : Blind de_bool.
Proof. intros [| | | | |]; done. Qed.
#[export] Instance blind_int lo hi : Blind (de_int lo hi).
Proof. intros [| | | | |]; done. Qed.
#[export] Instance blind_i64 : Blind de_i64 := blind_int _ _.
#[export] Instance blind_i32 : Blind de_i32 := blind_int _ _.
#[export] Instance blind_u8 : Blind de_u8 := blind_int _ _.
#[export] Instance blind_u32 : Blind de_u32 := blind_int _ _.
#[export] Instance blind_number : Blind de_number.
Proof. intros [| | | | |]; done. Qed.
#[export] Instance blind_opt {A} (d : De A) : Blind d → Blind (de_opt d).
Proof. intros Hd v. pose proof (blind v) as H. unfold de_opt. destruct v; simpl in *; by rewrite ?H. Qed.
#[export] Instance blind_vec {A} (d : De A) : Blind d → Blind (de_vec d).
Proof.
  intros Hd [| | | |l|]; try done. simpl. induction l as [|v l IH]; [done|].
  simpl. rewrite blind. destruct (d v); simpl; [|done]. by rewrite IH.
Qed.
#[export] Instance blind_ret {A} (a : A) : BlindM (mret a).
Proof. done. Qed.
#[export] Instance blind_bind {A B} (m : DeM A) (f : A → DeM B) :
  BlindM m → (∀ a, BlindM (f a)) → BlindM (m ≫= f).
Proof.
  intros Hm Hf fs. unfold mbind, dem_bind. rewrite blind_m.
  destruct (m fs) as [[a fs']|]; simpl; [apply Hf|done].
Qed.
Lemma blind_req {A} k (d : De A) : known k = true → Blind d → BlindM (req k d).
Proof.
  intros Hk Hd [kvs|[|v l]]; simpl; [|done|rewrite blind; by destruct (d v)].
  rewrite strip_lookup by done. destruct (lookup_key kvs k) as [[v|]|]; simpl; try done.
  rewrite blind. by destruct (d v).
Qed.
Lemma blind_dflt {A} k (a0 : A) (d : De A) : known k = true → Blind d → BlindM (dflt k a0 d).
Proof.
  intros Hk Hd [kvs|[|v l]]; simpl; [|done|rewrite blind; by destruct (d v)].
  rewrite strip_lookup by done. destruct (lookup_key kvs k) as [[v|]|]; simpl; try done.
  rewrite blind. by destruct (d v).
Qed.
#[export] Instance blind_struct {A} (m : DeM A) : BlindM m → Blind (struct m).
Proof.
  intros Hm [| | | |l|kvs]; try done.
  - cbn [strip struct]. rewrite (blind_m (FArr l)).
    destruct (m (FArr l)) as [[a [kvs|[|v l']]]|]; done.
  - rewrite strip_obj. cbn [struct]. rewrite (blind_m (FObj kvs)).
    by destruct (m (FObj kvs)) as [[a fs]|].
Qed.

(** A decoder that keeps some JSON sees it without the unknown keys. *)
Definition tracks {A} (f : A → A) (d : De A) : Prop := ∀ v, d (strip v) = f <$> d v.
Definition tracks_m {A} (f : A → A) (m : DeM A) : Prop :=
  ∀ fs, m (strip_fields fs) = prod_map f strip_fields <$> m fs.

Lemma tracks_value : tracks strip de_value.
Proof. done. Qed.
Lemma tracks_vec {A} f (d : De A) : tracks f d → tracks (map f) (de_vec d).
Proof.
  intros Hd [| | | |l|]; try done. simpl. induction l as [|v l IH]; [done|].
  simpl. rewrite Hd. destruct (d v); simpl; [|done]. rewrite IH. by destruct (mapM d l).
Qed.
Lemma tracks_req {A} f k (d : De A) : known k = true → tracks f d → tracks_m f (req k d).
Proof.
  intros Hk Hd [kvs|[|v l]]; simpl; [|done|rewrite Hd; by destruct (d v)].
  rewrite strip_lookup by done. destruct (lookup_key kvs k) as [[v|]|]; simpl; try done.
  rewrite Hd. by destruct (d v).
Qed.
Lemma tracks_bind {A B} g f (m : DeM A) (k : A → DeM B) :
  tracks_m g m →
  (∀ a fs, k (g a) (strip_fields fs) = prod_map f strip_fields <$> k a fs) →
  tracks_m f (m ≫= k).
Proof.
  intros Hm Hk fs. unfold mbind, dem_bind. rewrite Hm.
  destruct (m fs) as [[a fs']|]; simpl; [apply Hk|done].
Qed.
Lemma tracks_bind_blind {A B} f (m : DeM A) (k : A → DeM B) :
  BlindM m → (∀ a, tracks_m f (k a)) → tracks_m f (m ≫= k).
Proof. intros Hm Hk. apply (tracks_bind id); [exact Hm|]. intros a fs. apply Hk. Qed.
Lemma tracks_struct {A} f (m : DeM A) : tracks_m f m → tracks f (struct m).
Proof.
  intros Hm [| | | |l|kvs]; try done.
  - cbn [strip struct]. pose proof (Hm (FArr l)) as H. cbn [strip_fields] in H. rewrite H.
    destruct (m (FArr l)) as [[a [kvs|[|v l']]]|]; done.
  - rewrite strip_obj. cbn [struct]. pose proof (Hm (FObj kvs)) as H.
    cbn [strip_fields] in H. rewrite H. by destruct (m (FObj kvs)) as [[a fs]|].
Qed.

(** The accessors at known keys. *)
Lemma json_get_strip v k :
  known k = true → json_get (JsonLib := json_lib) (strip v) k
                   = strip <$> json_get (JsonLib := json_lib) v k.
Proof.
  intros Hk. destruct v as [| | | |l|kvs]; try done. rewrite strip_obj. simpl.
  unfold last_value. rewrite strip_filter by done. rewrite fmap_last.
  by destruct (last _).
Qed.
Lemma get_str_strip v k :
  known k = true → get_str (H := json_lib) (strip v) k = get_str (H := json_lib) v k.
Proof.
  intros Hk. unfold get_str. rewrite json_get_strip by done.
  by destruct (json_get (JsonLib := json_lib) v k) as [[]|].
Qed.
End strip.
End decoders.

(** Decides the side conditions on keys. *)
#[export] Hint Extern 1 (BlindM _ (req _ _)) => (apply blind_req; [reflexivity|]) : typeclass_instances.
#[export] Hint Extern 1 (BlindM _ (dflt _ _ _)) => (apply blind_dflt; [reflexivity|]) : typeclass_instances.
#[export] Hint Extern 1 (BlindM _ (dflt_str _)) => (apply blind_dflt; [reflexivity|]) : typeclass_instances.
#[export] Hint Extern 1 (BlindM _ (dflt_opt _ _)) => (apply blind_dflt; [reflexivity|]) : typeclass_instances.

(** * A reader of JSON text

    The instance the concrete runs use.  It knows no [\u] escape and takes any
    run of number characters for a number. *)

Definition is_ws (c : ascii) : bool :=
  let n := nat_of_ascii c in
  (n =? 32)%nat || (n =? 10)%nat || (n =? 13)%nat || (n =? 9)%nat.
Definition num_char (c : ascii) : bool :=
  let n := nat_of_ascii c in
  ((48 <=? n)%nat && (n <=? 57)%nat) || (n =? 45)%nat || (n =? 43)%nat || (n =? 46)%nat
  || (n =? 101)%nat || (n =? 69)%nat.
Definition quote : ascii := ascii_of_nat 34.
Definition backslash : ascii := ascii_of_nat 92.
Definition unescape (c : ascii) : option ascii :=
  if Ascii.eqb c quote || Ascii.eqb c backslash || Ascii.eqb c "/" then Some c
  else if Ascii.eqb c "n" then Some (ascii_of_nat 10)
  else if Ascii.eqb c "r" then Some (ascii_of_nat 13)
  else if Ascii.eqb c "t" then Some (ascii_of_nat 9)
  else if Ascii.eqb c "b" then Some (ascii_of_nat 8)
  else if Ascii.eqb c "f" then Some (ascii_of_nat 12)
  else None.

Fixpoint skip_ws (s : string) : string :=
  match s with
  | String c s' => if is_ws c then skip_ws s' else s
  | EmptyString => EmptyString
  end.
Fixpoint read_num (s : string) : string * string :=
  match s with
  | String c s' => if num_char c then let '(t, r) := read_num s' in (String c t, r)
                   else (EmptyString, s)
  | EmptyString => (EmptyString, EmptyString)
  end.
(** After the opening quote. *)
Fixpoint read_str (s : string) : option (string * string) :=
  match s with
  | EmptyString => None
  | String c s' =>
      if Ascii.eqb c quote then Some (EmptyString, s')
      else if Ascii.eqb c backslash then
        match s' with
        | String e s'' =>
            c' ← unescape e; '(t, r) ← read_str s''; Some (String c' t, r)
        | EmptyString => None
        end
      else '(t, r) ← read_str s'; Some (String c t, r)
  end.
Definition expect (c : ascii) (s : string) : option string :=
  match skip_ws s with
  | String x s' => if Ascii.eqb x c then Some s' else None
  | EmptyString => None
  end.

Fixpoint read_value (fuel : nat) (s : string) : option (json * string) :=
  match fuel with
  | O => None
  | S f =>
      match skip_ws s with
      | EmptyString => None
      | String c s' as all =>
          if Ascii.eqb c "{" then
            match skip_ws s' with
            | String "}" r => Some (JObj [], r)
            | _ => '(kvs, r) ← read_members f s'; Some (JObj kvs, r)
            end
          else if Ascii.eqb c "[" then
            match skip_ws s' with
            | String "]" r => Some (JArr [], r)
            | _ => '(l, r) ← read_elements f s'; Some (JArr l, r)
            end
          else if Ascii.eqb c quote then '(t, r) ← read_str s'; Some (JStr t, r)
          else if Ascii.eqb c "n" then r ← strip_prefix "null" all; Some (JNull, r)
          else if Ascii.eqb c "t" then r ← strip_prefix "true" all; Some (JBool true, r)
          else if Ascii.eqb c "f" then r ← strip_prefix "false" all; Some (JBool false, r)
          else let '(t, r) := read_num all in
               if String.eqb t EmptyString then None else Some (JNum t, r)
      end
  end
with read_elements (fuel : nat) (s : string) : option (list json * string) :=
  match fuel with
  | O => None
  | S f =>
      '(v, r) ← read_value f s;
      match expect "," r with
      | Some r' => '(l, r'') ← read_elements f r'; Some (v :: l, r'')
      | None => r' ← expect "]" r; Some ([v], r')
      end
  end
with read_members (fuel : nat) (s : string) : option (Pairs * string) :=
  match fuel with
  | O => None
  | S f =>
      s1 ← expect quote s;
      '(k, s2) ← read_str s1;
      s3 ← expect ":" s2;
      '(v, r) ← read_value f s3;
      match expect "," r with
      | Some r' => '(l, r'') ← read_members f r'; Some ((k, v) :: l, r'')
      | None => r' ← expect "}" r; Some ([(k, v)], r')
      end
  end.
(** Every level of the reader consumes a character or stays at one of three. *)
Definition json_read (s : string) : option json :=
  match read_value (3 * S (String.length s)) s with
  | Some (v, r) => if String.eqb (skip_ws r) EmptyString then Some v else None
  | None => None
  end.

Definition text_serde : SerdeJson := {|
  sj_read s := match json_read s with Some v => Ok v | None => Err "syntax error"%string end;
  sj_number t := t;
  sj_data_error _ := "data error"%string;
|}.
(** JSON text written with single quotes. *)
Definition js (s : string) : string :=
  string_map (λ c, if Ascii.eqb c (ascii_of_nat 39) then quote else c) s.
