(* ===== verification/CoreJson.v ===== *)
(** The JSON of the core values: the derived [Serialize] and [Deserialize] impls
    of [oi-core], field by field.  Browsers receive bars in this form, and an
    exchange of a configuration file is read as a value of it.  How a decimal
    written as a number is read stays a parameter ([dec_of_other]); decimals are
    written as text, date-times as RFC 3339. *)

From Stdlib Require Import ZArith Lia String Ascii.
From stdpp Require Import base option list strings.
From S2P Require Import Prelude Externals Concrete Domain Json.
Open Scope Z_scope.
Open Scope oi_scope.

(** * Names of enum variants *)

(** serde's [rename_all = "snake_case"]: an underscore before every capital
    letter but the first, and everything in lower case. *)
Definition is_upper (c : ascii) : bool :=
  let n := nat_of_ascii c in (65 <=? n)%nat && (n <=? 90)%nat.
Fixpoint snake_rest (s : string) : string :=
  match s with
  | EmptyString => EmptyString
  | String c s' =>
      if is_upper c then String "_" (String (ascii_lower c) (snake_rest s'))
      else String c (snake_rest s')
  end.
Definition snake_case (s : string) : string :=
  match s with
  | EmptyString => EmptyString
  | String c s' => String (ascii_lower c) (snake_rest s')
  end.

Section names.
Local Open Scope string_scope.
Definition exchange_variant (e : Exchange) : string :=
  match e with
  | Binance => "Binance" | Bybit => "Bybit" | Okx => "Okx" | BingX => "BingX"
  | KuCoin => "KuCoin" | Mexc => "Mexc" | Bitget => "Bitget"
  | Hyperliquid => "Hyperliquid" | Aster => "Aster"
  end.
Definition unit_variant (u : UnitKind) : string :=
  match u with Coins => "Coins" | Usd => "Usd" | Contracts => "Contracts" end.
Definition source_variant (s : PriceSource) : string :=
  match s with Mark => "Mark" | Last => "Last" | Index => "Index" | Mid => "Mid" end.
End names.

Definition ser_variant {A} (name : A → string) (a : A) : json := JStr (snake_case (name a)).
Definition de_variant {A} (name : A → string) (all : list A) : De A := λ v,
  match v with
  | JStr s => head (filter (λ a, snake_case (name a) = s) all)
  | _ => None
  end.
Definition ser_exchange : Exchange → json := ser_variant exchange_variant.
Definition de_exchange : De Exchange := de_variant exchange_variant exchange_all.
Definition ser_unit : UnitKind → json := ser_variant unit_variant.
Definition de_unit : De UnitKind := de_variant unit_variant [Coins; Usd; Contracts].
Definition ser_source : PriceSource → json := ser_variant source_variant.
Definition de_source : De PriceSource := de_variant source_variant [Mark; Last; Index; Mid].

Lemma de_ser_exchange e : de_exchange (ser_exchange e) = Some e.
Proof. by destruct e. Qed.
Lemma de_ser_unit u : de_unit (ser_unit u) = Some u.
Proof. by destruct u. Qed.
Lemma de_ser_source s : de_source (ser_source s) = Some s.
Proof. by destruct s. Qed.

(** * Values *)

Section core_json.
Context {DL : DecimalLib} {TL : TimeLib}.
Context (dec_of_other : json → option Dec).
Local Open Scope string_scope.

Definition ser_dec (d : Dec) : json := JStr (dec_to_string d).
Definition de_dec : De Dec := λ v,
  match v with JStr s => dec_parse_ok s | _ => dec_of_other v end.
(** A date-time whose year has no RFC 3339 form cannot be written. *)
Definition ser_ts (t : OffsetDateTime) : option json :=
  JStr <$> result_ok (rfc3339_format t).
Definition de_ts : De OffsetDateTime := λ v,
  match v with JStr s => result_ok (rfc3339_parse s) | _ => None end.
Definition ser_opt {A} (f : A → json) (o : option A) : json :=
  match o with Some a => f a | None => JNull end.
(** [rfc3339_opt] *)
Definition ser_opt_ts (o : option OffsetDateTime) : option json :=
  match o with Some t => ser_ts t | None => Some JNull end.
(** [skip_serializing_if = "Option::is_none"] *)
Definition skip_none {A} (k : string) (f : A → json) (o : option A) : Pairs :=
  match o with Some a => [(k, f a)] | None => [] end.

(** ** instrument.rs *)

Definition ser_id (i : InstrumentId) : json :=
  JObj [("exchange", ser_exchange (exchange i)); ("symbol", JStr (symbol i))].
Definition de_id : De InstrumentId := struct (
  ex ← req "exchange" de_exchange; sym ← req "symbol" de_str; mret (mkId ex sym)).

Definition ser_meta (m : InstrumentMeta) : json :=
  JObj ([("id", ser_id (meta_id m)); ("base_asset", JStr (base_asset m));
         ("quote_asset", JStr (quote_asset m)); ("is_perpetual", JBool (is_perpetual m));
         ("native_unit", ser_unit (meta_native_unit m))]
        ++ skip_none "contract_multiplier" ser_dec (contract_multiplier m)
        ++ skip_none "price_tick" ser_dec (price_tick m)
        ++ skip_none "qty_step" ser_dec (qty_step m)
        ++ [("active", JBool (active m))]).
Definition de_meta : De InstrumentMeta := struct (
  id ← req "id" de_id;
  base ← req "base_asset" de_str;
  quote ← req "quote_asset" de_str;
  perp ← req "is_perpetual" de_bool;
  unit ← req "native_unit" de_unit;
  mult ← opt_field "contract_multiplier" de_dec;
  tick ← opt_field "price_tick" de_dec;
  step ← opt_field "qty_step" de_dec;
  active ← req "active" de_bool;
  mret (mkMeta id base quote perp unit mult tick step active)).

(** ** funding.rs *)

Definition ser_funding (b : FundingBar) : option json :=
  bucket ← ser_ts (f_bucket_ts b);
  recv ← ser_ts (f_recv_ts b);
  next ← ser_opt_ts (f_next_funding_ts b);
  Some (JObj [("instrument", ser_id (f_instrument b)); ("bucket_ts", bucket);
              ("recv_ts", recv); ("rate", ser_dec (f_rate b)); ("next_funding_ts", next);
              ("interval_hours", ser_opt (λ h, JNum (int_to_string h)) (f_interval_hours b))]).
Definition de_funding : De FundingBar := struct (
  inst ← req "instrument" de_id;
  bucket ← req "bucket_ts" de_ts;
  recv ← req "recv_ts" de_ts;
  rate ← req "rate" de_dec;
  next ← dflt_opt "next_funding_ts" de_ts;
  hours ← dflt_opt "interval_hours" de_u8;
  mret (mkFunding inst bucket recv rate next hours)).

Definition ser_event (e : FundingEvent) : option json :=
  ts ← ser_ts (ev_settlement_ts e);
  Some (JObj [("instrument", ser_id (ev_instrument e)); ("settlement_ts", ts);
              ("rate", ser_dec (ev_rate e));
              ("mark_price", ser_opt ser_dec (ev_mark_price e))]).
Definition de_event : De FundingEvent := struct (
  inst ← req "instrument" de_id;
  ts ← req "settlement_ts" de_ts;
  rate ← req "rate" de_dec;
  mark ← dflt_opt "mark_price" de_dec;
  mret (mkEvent inst ts rate mark)).

(** ** snapshot.rs *)

Definition ser_snapshot (s : OiSnapshot) : option json :=
  bucket ← ser_ts (bucket_ts s);
  first ← ser_ts (first_recv_ts s);
  last ← ser_ts (last_recv_ts s);
  Some (JObj [("instrument", ser_id (instrument s)); ("bucket_ts", bucket);
    ("first_recv_ts", first); ("last_recv_ts", last);
    ("samples", JNum (int_to_string (samples s))); ("native_unit", ser_unit (native_unit s));
    ("native_open", ser_dec (native_open s)); ("native_high", ser_dec (native_high s));
    ("native_low", ser_dec (native_low s)); ("native_close", ser_dec (native_close s));
    ("oi_coins_open", ser_opt ser_dec (oi_coins_open s));
    ("oi_coins_high", ser_opt ser_dec (oi_coins_high s));
    ("oi_coins_low", ser_opt ser_dec (oi_coins_low s));
    ("oi_coins_close", ser_opt ser_dec (oi_coins_close s));
    ("oi_usd_open", ser_opt ser_dec (oi_usd_open s));
    ("oi_usd_high", ser_opt ser_dec (oi_usd_high s));
    ("oi_usd_low", ser_opt ser_dec (oi_usd_low s));
    ("oi_usd_close", ser_opt ser_dec (oi_usd_close s));
    ("price_used_close", ser_opt ser_dec (price_used_close s))]).
Definition de_snapshot : De OiSnapshot := struct (
  inst ← req "instrument" de_id;
  bucket ← req "bucket_ts" de_ts;
  first ← req "first_recv_ts" de_ts;
  last ← req "last_recv_ts" de_ts;
  n ← req "samples" de_u32;
  unit ← req "native_unit" de_unit;
  no ← req "native_open" de_dec;
  nh ← req "native_high" de_dec;
  nl ← req "native_low" de_dec;
  nc ← req "native_close" de_dec;
  co ← opt_field "oi_coins_open" de_dec;
  ch ← opt_field "oi_coins_high" de_dec;
  cl ← opt_field "oi_coins_low" de_dec;
  cc ← opt_field "oi_coins_close" de_dec;
  uo ← opt_field "oi_usd_open" de_dec;
  uh ← opt_field "oi_usd_high" de_dec;
  ul ← opt_field "oi_usd_low" de_dec;
  uc ← opt_field "oi_usd_close" de_dec;
  px ← opt_field "price_used_close" de_dec;
  mret (mkSnapshot inst bucket first last n unit no nh nl nc co ch cl cc uo uh ul uc px)).

(** * Round trips *)

Local Open Scope Z_scope.

(** Equal up to the text of decimals and the offset of date-times. *)
Definition same_meta (a b : InstrumentMeta) : Prop :=
  meta_id a = meta_id b ∧ base_asset a = base_asset b ∧ quote_asset a = quote_asset b
  ∧ is_perpetual a = is_perpetual b ∧ meta_native_unit a = meta_native_unit b
  ∧ active a = active b
  ∧ Forall2 (option_Forall2 (≡)) [contract_multiplier a; price_tick a; qty_step a]
      [contract_multiplier b; price_tick b; qty_step b].
Definition same_funding (a b : FundingBar) : Prop :=
  f_instrument a = f_instrument b ∧ f_bucket_ts a ≡ f_bucket_ts b ∧ f_recv_ts a ≡ f_recv_ts b
  ∧ f_rate a ≡ f_rate b ∧ option_Forall2 (≡) (f_next_funding_ts a) (f_next_funding_ts b)
  ∧ f_interval_hours a = f_interval_hours b.
Definition same_event (a b : FundingEvent) : Prop :=
  ev_instrument a = ev_instrument b ∧ ev_settlement_ts a ≡ ev_settlement_ts b
  ∧ ev_rate a ≡ ev_rate b ∧ option_Forall2 (≡) (ev_mark_price a) (ev_mark_price b).
Definition natives (s : OiSnapshot) : list Dec :=
  [native_open s; native_high s; native_low s; native_close s].
Definition columns (s : OiSnapshot) : list (option Dec) :=
  [oi_coins_open s; oi_coins_high s; oi_coins_low s; oi_coins_close s;
   oi_usd_open s; oi_usd_high s; oi_usd_low s; oi_usd_close s; price_used_close s].
Definition same_snapshot (a b : OiSnapshot) : Prop :=
  instrument a = instrument b ∧ samples a = samples b ∧ native_unit a = native_unit b
  ∧ Forall2 (≡) [bucket_ts a; first_recv_ts a; last_recv_ts a]
      [bucket_ts b; first_recv_ts b; last_recv_ts b]
  ∧ Forall2 (≡) (natives a) (natives b)
  ∧ Forall2 (option_Forall2 (≡)) (columns a) (columns b).

Context {DLaws : DecimalLaws DL}.
(** RFC 3339 keeps the instant. *)
Context (rfc3339_law : ∀ t s, rfc3339_format t = Ok s →
           ∃ t', rfc3339_parse s = Ok t' ∧ t' ≡ t).

Lemma de_ser_id i : de_id (ser_id i) = Some i.
Proof. destruct i as [e s]. by destruct e. Qed.

Lemma de_ser_dec d : ∃ d', de_dec (ser_dec d) = Some d' ∧ d' ≡ d.
Proof.
  destruct (dec_text_round_trip d) as (d' & H & E). exists d'. split; [|done].
  simpl. unfold dec_parse_ok. by rewrite H.
Qed.
Lemma de_ser_opt o : ∃ o', de_opt de_dec (ser_opt ser_dec o) = Some o' ∧ option_Forall2 (≡) o' o.
Proof.
  destruct o as [d|]; [|by exists None; split; [|constructor]].
  destruct (de_ser_dec d) as (d' & H & E). exists (Some d'). split; [|by constructor].
  unfold de_opt, ser_opt. change (ser_dec d) with (JStr (dec_to_string d)) in *. by rewrite H.
Qed.
Lemma de_ser_ts t j : ser_ts t = Some j → ∃ t', de_ts j = Some t' ∧ t' ≡ t.
Proof.
  unfold ser_ts. destruct (rfc3339_format t) as [s|] eqn:E; [|done]. intros [= <-].
  destruct (rfc3339_law _ _ E) as (t' & H & Ht). exists t'. simpl. by rewrite H.
Qed.
Lemma de_ser_opt_ts o j :
  ser_opt_ts o = Some j → ∃ o', de_opt de_ts j = Some o' ∧ option_Forall2 (≡) o' o.
Proof.
  destruct o as [t|]; simpl; [|by intros [= <-]; exists None; split; [|constructor]].
  intros H. destruct (de_ser_ts _ _ H) as (t' & Ht & E). exists (Some t').
  split; [|by constructor]. unfold ser_ts in H. destruct (rfc3339_format t); [|done].
  injection H as <-. unfold de_opt. by rewrite Ht.
Qed.
Lemma de_ser_int lo hi z :
  lo ≤ z ≤ hi → de_int lo hi (JNum (int_to_string z)) = Some z.
Proof.
  intros H. unfold de_int. destruct (String.eqb_spec (int_to_string z) "-0") as [E|_].
  - pose proof (z_to_of_string z) as Hz. rewrite E in Hz. vm_compute in Hz.
    injection Hz as <-. done.
  - rewrite z_to_of_string. simpl. by apply in_width_some.
Qed.

(** Reads the next field of a struct from the facts in the context. *)
Ltac read_field :=
  eapply bind_at;
  [ first [ eapply req_at; [reflexivity|first [eassumption|apply de_ser_id|reflexivity]]
          | eapply opt_field_at; [reflexivity|eassumption]
          | eapply opt_field_missing; reflexivity
          | eapply dflt_at; [reflexivity|first [eassumption|reflexivity]] ]
  | cbv beta ].

Lemma event_round_trip e j :
  ser_event e = Some j → ∃ e', de_event j = Some e' ∧ same_event e' e.
Proof.
  unfold ser_event. destruct (ser_ts (ev_settlement_ts e)) as [ts|] eqn:Ets; [|done].
  simpl. intros [= <-].
  destruct (de_ser_ts _ _ Ets) as (t' & Ht & Et).
  destruct (de_ser_dec (ev_rate e)) as (r' & Hr & Er).
  destruct (de_ser_opt (ev_mark_price e)) as (m' & Hm & Em).
  eexists. split; [eapply struct_at; repeat read_field; reflexivity|].
  unfold same_event. simpl. by split_and!.
Qed.

Lemma funding_round_trip b j :
  (∀ h, f_interval_hours b = Some h → 0 ≤ h ≤ u8_max) →
  ser_funding b = Some j → ∃ b', de_funding j = Some b' ∧ same_funding b' b.
Proof.
  intros Hh. unfold ser_funding.
  destruct (ser_ts (f_bucket_ts b)) as [bk|] eqn:Eb; [|done].
  destruct (ser_ts (f_recv_ts b)) as [rv|] eqn:Erv; [|done].
  destruct (ser_opt_ts (f_next_funding_ts b)) as [nx|] eqn:En; [|done].
  simpl. intros [= <-].
  destruct (de_ser_ts _ _ Eb) as (b' & Hb & Eb').
  destruct (de_ser_ts _ _ Erv) as (v' & Hv & Ev').
  destruct (de_ser_opt_ts _ _ En) as (n' & Hn & En').
  destruct (de_ser_dec (f_rate b)) as (r' & Hr & Er).
  assert (de_opt de_u8 (ser_opt (λ h, JNum (int_to_string h)) (f_interval_hours b))
          = Some (f_interval_hours b)) as Hi.
  { destruct (f_interval_hours b) as [h|]; [|done].
    unfold ser_opt, de_opt, de_u8. by rewrite de_ser_int by (by apply Hh). }
  eexists. split; [eapply struct_at; repeat read_field; reflexivity|].
  unfold same_funding. simpl. by split_and!.
Qed.

Lemma meta_round_trip m : ∃ m', de_meta (ser_meta m) = Some m' ∧ same_meta m' m.
Proof.
  destruct m as [id base quote perp unit mult tick step act].
  pose proof (de_ser_unit unit) as Hu.
  assert (∀ o, ∃ o', de_opt de_dec (ser_opt ser_dec o) = Some o' ∧ option_Forall2 (≡) o' o)
    as Hopt by apply de_ser_opt.
  destruct (Hopt mult) as (mult' & Hm & Em), (Hopt tick) as (tick' & Ht & Et),
    (Hopt step) as (step' & Hs & Es).
  destruct mult, tick, step; (eexists; split;
    [eapply struct_at; repeat read_field; reflexivity|]);
    unfold same_meta; simpl; repeat split; repeat constructor; try done;
    repeat match goal with H : option_Forall2 _ _ _ |- _ => inversion_clear H end;
    repeat constructor; done.
Qed.

Lemma snapshot_round_trip s j :
  0 ≤ samples s ≤ u32_max →
  ser_snapshot s = Some j → ∃ s', de_snapshot j = Some s' ∧ same_snapshot s' s.
Proof.
  intros Hn. unfold ser_snapshot.
  destruct (ser_ts (bucket_ts s)) as [jb|] eqn:Eb; [|done].
  destruct (ser_ts (first_recv_ts s)) as [jf|] eqn:Ef; [|done].
  destruct (ser_ts (last_recv_ts s)) as [jl|] eqn:El; [|done].
  simpl. intros [= <-].
  destruct (de_ser_ts _ _ Eb) as (tb & Hb & Eb'), (de_ser_ts _ _ Ef) as (tf & Hf & Ef'),
    (de_ser_ts _ _ El) as (tl & Hl & El').
  pose proof (de_ser_int 0 u32_max (samples s) Hn) as Hsam. fold de_u32 in Hsam.
  pose proof (de_ser_unit (native_unit s)) as Hu.
  destruct (de_ser_dec (native_open s)) as (no & Hno & Eno),
    (de_ser_dec (native_high s)) as (nh & Hnh & Enh),
    (de_ser_dec (native_low s)) as (nl & Hnl & Enl),
    (de_ser_dec (native_close s)) as (nc & Hnc & Enc).
  destruct (de_ser_opt (oi_coins_open s)) as (co & Hco & Eco),
    (de_ser_opt (oi_coins_high s)) as (ch & Hch & Ech),
    (de_ser_opt (oi_coins_low s)) as (cl & Hcl & Ecl),
    (de_ser_opt (oi_coins_close s)) as (cc & Hcc & Ecc).
  destruct (de_ser_opt (oi_usd_open s)) as (uo & Huo & Euo),
    (de_ser_opt (oi_usd_high s)) as (uh & Huh & Euh),
    (de_ser_opt (oi_usd_low s)) as (ul & Hul & Eul),
    (de_ser_opt (oi_usd_close s)) as (uc & Huc & Euc),
    (de_ser_opt (price_used_close s)) as (px & Hpx & Epx).
  eexists. split; [eapply struct_at; repeat read_field; reflexivity|].
  unfold same_snapshot, natives, columns. simpl.
  repeat split; repeat constructor; done.
Qed.

(** C34. The JSON of the core values reads back: every instrument, funding bar,
    settlement and bar that can be written (its date-times have an RFC 3339
    form) is read as the same value, up to the text of decimals and the offset
    of date-times, with unset columns written as [null] or left out.  The
    exchange in it is named by the variant in snake case, which is the code
    every other interface uses for all exchanges but BingX and KuCoin: those two
    are [bing_x] and [ku_coin] in JSON and in a configuration file, names
    [from_str] refuses, and their codes are not read there. *)
Theorem core_json_round_trip :
  (∀ m, ∃ m', de_meta (ser_meta m) = Some m' ∧ same_meta m' m)
  ∧ (∀ b j, (∀ h, f_interval_hours b = Some h → 0 ≤ h ≤ u8_max) → ser_funding b = Some j →
       ∃ b', de_funding j = Some b' ∧ same_funding b' b)
  ∧ (∀ e j, ser_event e = Some j → ∃ e', de_event j = Some e' ∧ same_event e' e)
  ∧ (∀ s j, 0 ≤ samples s ≤ u32_max → ser_snapshot s = Some j →
       ∃ s', de_snapshot j = Some s' ∧ same_snapshot s' s)
  ∧ ∀ e, (ser_exchange e = JStr (code e) ↔ e ≠ BingX ∧ e ≠ KuCoin)
       ∧ (de_exchange (JStr (code e)) = None ↔ e = BingX ∨ e = KuCoin)
       ∧ (∀ s, ser_exchange e = JStr s →
            (is_ok (exchange_from_str s) = false ↔ e = BingX ∨ e = KuCoin)).
Proof.
  split; [apply meta_round_trip|]. split; [apply funding_round_trip|].
  split; [apply event_round_trip|]. split; [apply snapshot_round_trip|].
  intros e. split; [|split; [|intros s [= <-]]]; destruct e; vm_compute; naive_solver.
Qed.
End core_json.

(** * A concrete run *)

Lemma ex_rfc3339 (t : OffsetDateTime (TimeLib := z_time)) s :
  rfc3339_format t = Ok s → ∃ t' : OffsetDateTime, rfc3339_parse s = Ok t' ∧ t' ≡ t.
Proof.
  intros [= <-]. exists (odt_clamp t). simpl. rewrite z_to_of_string. unfold z_odt_from_nanos.
  rewrite (proj2 (odt_ok_spec _) (odt_clamp_range t)). split; [done|].
  apply odt_clamp_id, odt_clamp_range.
Qed.

Definition ex_bingx_event : FundingEvent (DL := z_decimal) (TL := z_time) :=
  mkEvent (DL := z_decimal) (TL := z_time) (mkId BingX "BTC-USDT") 60 3 None.

Lemma core_json_round_trip_witness :
  ser_event ex_bingx_event
  = Some (JObj [("instrument", JObj [("exchange", JStr "bing_x"); ("symbol", JStr "BTC-USDT")]);
                ("settlement_ts", JStr "60"); ("rate", JStr "3"); ("mark_price", JNull)])%string
  ∧ ∃ e', de_event (λ _, None) (default JNull (ser_event ex_bingx_event)) = Some e'
          ∧ same_event e' ex_bingx_event.
Proof.
  split; [reflexivity|].
  destruct (core_json_round_trip (DL := z_decimal) (TL := z_time) (λ _, None) ex_rfc3339)
    as (_ & _ & H & _).
  apply (H ex_bingx_event (default JNull (ser_event ex_bingx_event))). reflexivity.
Defined.
