(* ===== verification/Wire.v ===== *)
(** The wire types of the nine venues: how the JSON of every endpoint becomes
    the rows the adapters work on, from the structs of [rest.rs] and [mod.rs]
    and their serde attributes; and the adapters over an HTTP server that answers
    with text ([wire_net]).  Fields a struct reads and never uses are decoded and
    dropped, because a value of the wrong kind in one of them fails the answer
    just as well. *)

From Stdlib Require Import ZArith Lia String.
From stdpp Require Import base option list strings gmap.
From S2P Require Import Prelude Externals Concrete Domain FanOut Http Adapter.
From S2P Require Import Binance Bybit Okx Bitget Hyperliquid Mexc KuCoin BingX Aster Adapters Json.
Open Scope Z_scope.
Open Scope oi_scope.

Section wire.
Context {SJ : SerdeJson}.
Local Open Scope string_scope.

(** * Binance (and Aster) *)

Definition de_symbol_info : De (SymbolInfo (JL := json_lib)) := struct (
  symbol ← req "symbol" de_str;
  contract_type ← req "contractType" de_str;
  base_asset ← req "baseAsset" de_str;
  quote_asset ← req "quoteAsset" de_str;
  status ← req "status" de_str;
  filters ← req "filters" (de_vec de_value);
  mret (mkSymbolInfo (JL := json_lib) symbol contract_type base_asset quote_asset status filters)).
Definition de_exchange_info : De (ExchangeInfo (JL := json_lib)) := struct (
  symbols ← req "symbols" (de_vec de_symbol_info); mret (mkExchangeInfo (JL := json_lib) symbols)).
Definition de_open_interest_resp : De OpenInterestResp := struct (
  symbol ← req "symbol" de_str;
  open_interest ← req "openInterest" de_str;
  time ← req "time" de_i64;
  mret (Binance.mkOpenInterest symbol open_interest time)).
Definition de_mark_price_resp : De MarkPriceResp := struct (
  symbol ← req "symbol" de_str;
  mark_price ← req "markPrice" de_str;
  last_funding_rate ← dflt_str "lastFundingRate";
  next_funding_time ← dflt "nextFundingTime" 0 de_i64;
  time ← req "time" de_i64;
  mret (mkMarkPrice symbol mark_price last_funding_rate next_funding_time time)).
Definition de_binance_history : De Binance.HistoryRow := struct (
  funding_rate ← dflt_str "fundingRate";
  funding_time ← dflt "fundingTime" 0 de_i64;
  mark_price ← dflt_str "markPrice";
  mret (Binance.mkHistory funding_rate funding_time mark_price)).

(** * Bybit *)

Definition de_bybit_envelope {A} (d : De A) : De (Bybit.Envelope A) := struct (
  ret_code ← req "retCode" de_i64;
  ret_msg ← dflt_str "retMsg";
  result ← req "result" d;
  mret (Bybit.mkEnvelope ret_code ret_msg result)).
Definition de_price_filter : De string := struct (dflt_str "tickSize").
Definition de_lot_size_filter : De string := struct (dflt_str "qtyStep").
Definition de_bybit_instrument : De Bybit.InstrumentRow := struct (
  symbol ← req "symbol" de_str;
  contract_type ← dflt_str "contractType";
  status ← req "status" de_str;
  base_coin ← dflt_str "baseCoin";
  quote_coin ← dflt_str "quoteCoin";
  price_filter ← dflt_opt "priceFilter" de_price_filter;
  lot_size_filter ← dflt_opt "lotSizeFilter" de_lot_size_filter;
  mret (Bybit.mkInstrumentRow symbol contract_type status base_coin quote_coin
          price_filter lot_size_filter)).
Definition de_instruments_page : De InstrumentsPage := struct (
  list ← req "list" (de_vec de_bybit_instrument);
  next_page_cursor ← dflt_str "nextPageCursor";
  mret (mkPage list next_page_cursor)).
Definition de_bybit_ticker : De Bybit.TickerRow := struct (
  symbol ← req "symbol" de_str;
  open_interest ← dflt_str "openInterest";
  open_interest_value ← dflt_str "openInterestValue";
  mark_price ← dflt_str "markPrice";
  last_price ← dflt_str "lastPrice";
  index_price ← dflt_str "indexPrice";
  funding_rate ← dflt_str "fundingRate";
  next_funding_time ← dflt_str "nextFundingTime";
  mret (Bybit.mkTicker symbol open_interest open_interest_value mark_price last_price
          index_price funding_rate next_funding_time)).
Definition de_tickers_result : De (list Bybit.TickerRow) := struct (
  req "list" (de_vec de_bybit_ticker)).
Definition de_bybit_history_row : De Bybit.HistoryRow := struct (
  funding_rate ← dflt_str "fundingRate";
  funding_rate_timestamp ← dflt_str "fundingRateTimestamp";
  mret (Bybit.mkHistory funding_rate funding_rate_timestamp)).
Definition de_bybit_history : De (list Bybit.HistoryRow) := struct (
  dflt "list" [] (de_vec de_bybit_history_row)).

(** * OKX *)

Definition de_okx_envelope {A} (d : De A) : De (Okx.Envelope A) := struct (
  code ← req "code" de_str;
  msg ← dflt_str "msg";
  data ← req "data" (de_vec d);
  mret (Okx.mkEnvelope code msg data)).
Definition de_okx_instrument : De Okx.InstrumentRow := struct (
  inst_id ← req "instId" de_str;
  inst_type ← req "instType" de_str;
  base_ccy ← dflt_str "baseCcy";
  quote_ccy ← dflt_str "quoteCcy";
  ct_val ← dflt_str "ctVal";
  ct_val_ccy ← dflt_str "ctValCcy";
  settle_ccy ← dflt_str "settleCcy";
  tick_sz ← dflt_str "tickSz";
  lot_sz ← dflt_str "lotSz";
  state ← req "state" de_str;
  ct_type ← dflt_str "ctType";
  mret (Okx.mkInstrumentRow inst_id inst_type base_ccy quote_ccy ct_val ct_val_ccy settle_ccy
          tick_sz lot_sz state ct_type)).
Definition de_oi_row : De OiRow := struct (
  inst_id ← req "instId" de_str;
  inst_type ← dflt_str "instType";
  oi ← dflt_str "oi";
  oi_ccy ← dflt_str "oiCcy";
  ts ← dflt_str "ts";
  mret (mkOiRow inst_id oi oi_ccy ts)).
Definition de_okx_ticker : De Okx.TickerRow := struct (
  inst_id ← req "instId" de_str;
  last ← dflt_str "last";
  mark_px ← dflt_str "markPx";
  ts ← dflt_str "ts";
  mret (Okx.mkTicker inst_id last mark_px ts)).
Definition de_okx_history_row : De Okx.HistoryRow := struct (
  realized_rate ← dflt_str "realizedRate";
  funding_rate ← dflt_str "fundingRate";
  funding_time ← dflt_str "fundingTime";
  mret (Okx.mkHistory realized_rate funding_rate funding_time)).
Definition de_funding_rate_row : De FundingRateRow := struct (
  inst_id ← req "instId" de_str;
  funding_rate ← dflt_str "fundingRate";
  next_funding_time ← dflt_str "nextFundingTime";
  funding_time ← dflt_str "fundingTime";
  mret (mkFundingRate inst_id funding_rate next_funding_time funding_time)).

(** * Bitget *)

Definition de_bitget_envelope {A} (d : De A) : De (Bitget.Envelope A) := struct (
  code ← req "code" de_str;
  msg ← dflt_str "msg";
  data ← req "data" d;
  mret (Bitget.mkEnvelope code msg data)).
Definition de_bitget_contract : De Bitget.ContractRow := struct (
  symbol ← req "symbol" de_str;
  base_coin ← dflt_str "baseCoin";
  quote_coin ← dflt_str "quoteCoin";
  symbol_type ← dflt_str "symbolType";
  symbol_status ← dflt_str "symbolStatus";
  price_place ← dflt_str "pricePlace";
  price_end_step ← dflt_str "priceEndStep";
  min_trade_num ← dflt_str "minTradeNum";
  size_multiplier ← dflt_str "sizeMultiplier";
  mret (Bitget.mkContract symbol base_coin quote_coin symbol_type symbol_status min_trade_num)).
Definition de_bitget_ticker : De Bitget.TickerRow := struct (
  symbol ← req "symbol" de_str;
  holding_amount ← dflt_str "holdingAmount";
  mark_price ← dflt_str "markPrice";
  index_price ← dflt_str "indexPrice";
  last_pr ← dflt_str "lastPr";
  funding_rate ← dflt_str "fundingRate";
  next_funding_time ← dflt_str "nextFundingTime";
  ts ← dflt_str "ts";
  mret (Bitget.mkTicker symbol holding_amount mark_price last_pr funding_rate
          next_funding_time)).
Definition de_bitget_history_row : De Bitget.HistoryRow := struct (
  symbol ← req "symbol" de_str;
  funding_rate ← dflt_str "fundingRate";
  funding_time ← dflt_str "fundingTime";
  mret (Bitget.mkHistory symbol funding_rate funding_time)).

(** * Hyperliquid *)

Definition de_universe_entry : De UniverseEntry := struct (
  name ← req "name" de_str;
  sz_decimals ← req "szDecimals" de_u8;
  max_leverage ← dflt_opt "maxLeverage" de_u32;
  is_delisted ← dflt "isDelisted" false de_bool;
  only_isolated ← dflt "onlyIsolated" false de_bool;
  mret (mkUniverse name is_delisted)).
Definition de_meta_universe : De (list UniverseEntry) := struct (
  req "universe" (de_vec de_universe_entry)).
Definition de_asset_ctx : De AssetCtx := struct (
  open_interest ← dflt_opt "openInterest" de_str;
  mark_px ← dflt_opt "markPx" de_str;
  oracle_px ← dflt_opt "oraclePx" de_str;
  mid_px ← dflt_opt "midPx" de_str;
  funding ← dflt_opt "funding" de_str;
  prev_day_px ← dflt_opt "prevDayPx" de_str;
  day_ntl_vlm ← dflt_opt "dayNtlVlm" de_str;
  premium ← dflt_opt "premium" de_str;
  mret (mkCtx open_interest mark_px funding)).
(** The untagged pair. *)
Definition de_meta_and_ctxs : De (list UniverseEntry * list AssetCtx) := λ v,
  match v with
  | JArr [meta; ctxs] =>
      m ← de_meta_universe meta; c ← de_vec de_asset_ctx ctxs; Some (m, c)
  | _ => None
  end.
Definition de_hl_history_row : De Hyperliquid.HistoryRow := struct (
  coin ← req "coin" de_str;
  funding_rate ← dflt_str "fundingRate";
  time ← req "time" de_i64;
  premium ← dflt_str "premium";
  mret (Hyperliquid.mkHistory coin funding_rate time)).

(** * MEXC *)

Definition de_mexc_envelope {A} (d : De A) : De (Mexc.Envelope A) := struct (
  success ← dflt "success" false de_bool;
  code ← req "code" de_i64;
  data ← req "data" d;
  mret (Mexc.mkEnvelope success code data)).
Definition de_detail_row : De DetailRow := struct (
  symbol ← req "symbol" de_str;
  base_coin ← dflt_str "baseCoin";
  quote_coin ← dflt_str "quoteCoin";
  contract_size ← dflt_opt "contractSize" de_number;
  price_unit ← dflt_opt "priceUnit" de_number;
  vol_unit ← dflt_opt "volUnit" de_number;
  state ← dflt "state" 0 de_i32;
  mret (mkDetail symbol base_coin quote_coin contract_size price_unit vol_unit state)).
Definition de_mexc_ticker : De Mexc.TickerRow := struct (
  symbol ← req "symbol" de_str;
  hold_vol ← dflt_opt "holdVol" de_number;
  fair_price ← dflt_opt "fairPrice" de_number;
  last_price ← dflt_opt "lastPrice" de_number;
  index_price ← dflt_opt "indexPrice" de_number;
  funding_rate ← dflt_opt "fundingRate" de_number;
  timestamp ← dflt_opt "timestamp" de_i64;
  mret (Mexc.mkTicker symbol hold_vol fair_price last_price funding_rate)).
Definition de_mexc_history_row : De Mexc.HistoryRow := struct (
  symbol ← dflt_str "symbol";
  funding_rate ← dflt_opt "fundingRate" de_number;
  settle_time ← dflt_opt "settleTime" de_i64;
  mret (Mexc.mkHistory funding_rate settle_time)).
Definition de_mexc_history : De (list Mexc.HistoryRow) := struct (
  dflt "resultList" [] (de_vec de_mexc_history_row)).
Definition de_mexc_cycle : De (option Z) := struct (dflt_opt "collectCycle" de_u8).

(** * KuCoin *)

Definition de_kucoin_envelope {A} (d : De A) : De (KuCoin.Envelope A) := struct (
  code ← req "code" de_str;
  msg ← dflt_str "msg";
  data ← req "data" d;
  mret (KuCoin.mkEnvelope code msg data)).
Definition de_kucoin_contract : De KuCoin.ContractRow := struct (
  symbol ← req "symbol" de_str;
  base_currency ← dflt_str "baseCurrency";
  quote_currency ← dflt_str "quoteCurrency";
  settle_currency ← dflt_str "settleCurrency";
  contract_type ← dflt_str "type";
  multiplier ← dflt_opt "multiplier" de_number;
  tick_size ← dflt_opt "tickSize" de_number;
  open_interest ← dflt_str "openInterest";
  mark_price ← dflt_opt "markPrice" de_number;
  last_trade_price ← dflt_opt "lastTradePrice" de_number;
  index_price ← dflt_opt "indexPrice" de_number;
  status ← dflt_str "status";
  is_inverse ← dflt "isInverse" false de_bool;
  funding_fee_rate ← dflt_opt "fundingFeeRate" de_number;
  next_funding_rate_time ← dflt_opt "nextFundingRateTime" de_i64;
  mret (KuCoin.mkContract symbol base_currency quote_currency contract_type multiplier
          tick_size open_interest mark_price last_trade_price status is_inverse
          funding_fee_rate next_funding_rate_time)).
Definition de_kucoin_history_row : De KuCoin.HistoryRow := struct (
  symbol ← req "symbol" de_str;
  funding_rate ← dflt_opt "fundingRate" de_number;
  timepoint ← dflt_opt "timepoint" de_i64;
  mret (KuCoin.mkHistory funding_rate timepoint)).
Definition de_kucoin_current : De (option Z) := struct (dflt_opt "granularity" de_i64).

(** * BingX *)

Definition de_bingx_envelope {A} (d : De A) : De (BingX.Envelope A) := struct (
  code ← req "code" de_i64;
  msg ← dflt_str "msg";
  data ← req "data" d;
  mret (BingX.mkEnvelope code msg data)).
Definition de_bingx_contract : De BingX.ContractRow := struct (
  symbol ← req "symbol" de_str;
  asset ← dflt_str "asset";
  currency ← dflt_str "currency";
  status ← dflt "status" 0 de_i32;
  quantity_precision ← dflt "quantityPrecision" 0 de_i32;
  price_precision ← dflt "pricePrecision" 0 de_i32;
  trade_min_limit ← dflt_opt "tradeMinLimit" de_number;
  mret (BingX.mkContract symbol asset currency status price_precision)).
Definition de_open_interest_data : De OpenInterestData := struct (
  symbol ← dflt_str "symbol";
  open_interest ← dflt_str "openInterest";
  time ← dflt "time" 0 de_i64;
  mret (BingX.mkOpenInterest symbol open_interest time)).
Definition de_premium_row : De PremiumRow := struct (
  symbol ← req "symbol" de_str;
  mark_price ← dflt_str "markPrice";
  index_price ← dflt_str "indexPrice";
  last_funding_rate ← dflt_str "lastFundingRate";
  next_funding_time ← dflt "nextFundingTime" 0 de_i64;
  mret (mkPremium symbol mark_price index_price last_funding_rate next_funding_time)).
Definition de_bingx_history_row : De BingX.HistoryRow := struct (
  symbol ← req "symbol" de_str;
  funding_rate ← dflt_str "fundingRate";
  funding_time ← dflt "fundingTime" 0 de_i64;
  mret (BingX.mkHistory symbol funding_rate funding_time)).

(** * Endpoints *)

Inductive Endpoint :=
| BinanceInfo | BinanceOi | BinancePremium | BinanceFunding
| BybitInstruments | BybitTickers | BybitHistory
| OkxInstruments | OkxOi | OkxTickers | OkxHistory | OkxFunding
| BitgetContracts | BitgetTickers | BitgetHistory
| HlMeta | HlHistory
| MexcDetail | MexcTickers | MexcHistory | MexcCycle
| KucoinContracts | KucoinHistory | KucoinCurrent
| BingxContracts | BingxOi | BingxPremium | BingxHistory.

(** The type parameter of each [get_json] call. *)
Definition answer (e : Endpoint) : Type :=
  match e with
  | BinanceInfo => ExchangeInfo (JL := json_lib)
  | BinanceOi => OpenInterestResp
  | BinancePremium => list MarkPriceResp
  | BinanceFunding => list Binance.HistoryRow
  | BybitInstruments => Bybit.Envelope InstrumentsPage
  | BybitTickers => Bybit.Envelope (list Bybit.TickerRow)
  | BybitHistory => Bybit.Envelope (list Bybit.HistoryRow)
  | OkxInstruments => Okx.Envelope Okx.InstrumentRow
  | OkxOi => Okx.Envelope OiRow
  | OkxTickers => Okx.Envelope Okx.TickerRow
  | OkxHistory => Okx.Envelope Okx.HistoryRow
  | OkxFunding => Okx.Envelope FundingRateRow
  | BitgetContracts => Bitget.Envelope (list Bitget.ContractRow)
  | BitgetTickers => Bitget.Envelope (list Bitget.TickerRow)
  | BitgetHistory => Bitget.Envelope (list Bitget.HistoryRow)
  | HlMeta => (list UniverseEntry * list AssetCtx)%type
  | HlHistory => list Hyperliquid.HistoryRow
  | MexcDetail => Mexc.Envelope (list DetailRow)
  | MexcTickers => Mexc.Envelope (list Mexc.TickerRow)
  | MexcHistory => Mexc.Envelope (list Mexc.HistoryRow)
  | MexcCycle => Mexc.Envelope (option Z)
  | KucoinContracts => KuCoin.Envelope (list KuCoin.ContractRow)
  | KucoinHistory => KuCoin.Envelope (list KuCoin.HistoryRow)
  | KucoinCurrent => KuCoin.Envelope (option Z)
  | BingxContracts => BingX.Envelope (list BingX.ContractRow)
  | BingxOi => BingX.Envelope OpenInterestData
  | BingxPremium => BingX.Envelope (list PremiumRow)
  | BingxHistory => BingX.Envelope (list BingX.HistoryRow)
  end.

Definition de (e : Endpoint) : De (answer e) :=
  match e with
  | BinanceInfo => de_exchange_info
  | BinanceOi => de_open_interest_resp
  | BinancePremium => de_vec de_mark_price_resp
  | BinanceFunding => de_vec de_binance_history
  | BybitInstruments => de_bybit_envelope de_instruments_page
  | BybitTickers => de_bybit_envelope de_tickers_result
  | BybitHistory => de_bybit_envelope de_bybit_history
  | OkxInstruments => de_okx_envelope de_okx_instrument
  | OkxOi => de_okx_envelope de_oi_row
  | OkxTickers => de_okx_envelope de_okx_ticker
  | OkxHistory => de_okx_envelope de_okx_history_row
  | OkxFunding => de_okx_envelope de_funding_rate_row
  | BitgetContracts => de_bitget_envelope (de_vec de_bitget_contract)
  | BitgetTickers => de_bitget_envelope (de_vec de_bitget_ticker)
  | BitgetHistory => de_bitget_envelope (de_vec de_bitget_history_row)
  | HlMeta => de_meta_and_ctxs
  | HlHistory => de_vec de_hl_history_row
  | MexcDetail => de_mexc_envelope (de_vec de_detail_row)
  | MexcTickers => de_mexc_envelope (de_vec de_mexc_ticker)
  | MexcHistory => de_mexc_envelope de_mexc_history
  | MexcCycle => de_mexc_envelope de_mexc_cycle
  | KucoinContracts => de_kucoin_envelope (de_vec de_kucoin_contract)
  | KucoinHistory => de_kucoin_envelope (de_vec de_kucoin_history_row)
  | KucoinCurrent => de_kucoin_envelope de_kucoin_current
  | BingxContracts => de_bingx_envelope (de_vec de_bingx_contract)
  | BingxOi => de_bingx_envelope de_open_interest_data
  | BingxPremium => de_bingx_envelope (de_vec de_premium_row)
  | BingxHistory => de_bingx_envelope (de_vec de_bingx_history_row)
  end.

(** * The adapters over a server *)

(** The bodies of Hyperliquid's two requests. *)
Inductive HlBody := MetaAndAssetCtxs | FundingHistory (b : HistoryBody).

Record Web := mkWeb {
  web_get : string → Transport;
  web_post : string → HlBody → Transport;
}.

(** [self.http.get_json(&url)] and [post_json] of the client named [code]. *)
Definition ask (w : Web) (code : string) (e : Endpoint) (url : string)
  : result ExchangeError (answer e) :=
  get_json (decode_body (de e)) url code (web_get w url).
Definition send (w : Web) (code : string) (e : Endpoint) (url : string) (b : HlBody)
  : result ExchangeError (answer e) :=
  post_json (decode_body (de e)) url code (web_post w url b).

Context {DL : DecimalLib} {TL : TimeLib}.

(** The spawned requests do not panic; the order and the caches are given. *)
Definition wire_net (w : Web) (now : OffsetDateTime) (sched : nat → nat)
    (iter : gmap string (AssetCtx * option Dec) → list (string * (AssetCtx * option Dec)))
    (mexc_iv kucoin_iv : gmap string Z) : Net (JL := json_lib) := {|
  net_now := now; net_sched := sched; net_iter := iter;
  mexc_intervals := mexc_iv; kucoin_intervals := kucoin_iv;
  binance_info := ask w "binance" BinanceInfo;
  binance_oi url := Some (ask w "binance" BinanceOi url);
  binance_premium := ask w "binance" BinancePremium;
  binance_funding := ask w "binance" BinanceFunding;
  bybit_instruments := ask w "bybit" BybitInstruments;
  bybit_tickers := ask w "bybit" BybitTickers;
  bybit_history := ask w "bybit" BybitHistory;
  okx_instruments := ask w "okx" OkxInstruments;
  okx_oi := ask w "okx" OkxOi;
  okx_tickers := ask w "okx" OkxTickers;
  okx_history := ask w "okx" OkxHistory;
  okx_funding url := Some (ask w "okx" OkxFunding url);
  bitget_contracts := ask w "bitget" BitgetContracts;
  bitget_tickers := ask w "bitget" BitgetTickers;
  bitget_history := ask w "bitget" BitgetHistory;
  hl_meta url := send w "hyperliquid" HlMeta url MetaAndAssetCtxs;
  hl_history url b := send w "hyperliquid" HlHistory url (FundingHistory b);
  mexc_detail := ask w "mexc" MexcDetail;
  mexc_ticker := ask w "mexc" MexcTickers;
  mexc_history := ask w "mexc" MexcHistory;
  mexc_cycle url := Some (ask w "mexc" MexcCycle url);
  kucoin_contracts := ask w "kucoin" KucoinContracts;
  kucoin_history := ask w "kucoin" KucoinHistory;
  kucoin_current url := Some (ask w "kucoin" KucoinCurrent url);
  bingx_contracts := ask w "bingx" BingxContracts;
  bingx_oi url := Some (ask w "bingx" BingxOi url);
  bingx_premium := ask w "bingx" BingxPremium;
  bingx_history := ask w "bingx" BingxHistory;
|}.

(** * Unknown fields *)

(** The keys of each endpoint's structs. *)
Definition envelope_keys : list string :=
  ["retCode"; "retMsg"; "result"; "list"; "code"; "msg"; "data"; "success"].
Definition endpoint_keys (e : Endpoint) : list string :=
  match e with
  | BinanceInfo => ["symbols"; "symbol"; "contractType"; "baseAsset"; "quoteAsset"; "status";
      "filters"; "filterType"; "tickSize"; "stepSize"]
  | BinanceOi => ["symbol"; "openInterest"; "time"]
  | BinancePremium => ["symbol"; "markPrice"; "lastFundingRate"; "nextFundingTime"; "time"]
  | BinanceFunding => ["fundingRate"; "fundingTime"; "markPrice"]
  | BybitInstruments => ["nextPageCursor"; "symbol"; "contractType"; "status"; "baseCoin";
      "quoteCoin"; "priceFilter"; "lotSizeFilter"; "tickSize"; "qtyStep"]
  | BybitTickers => ["symbol"; "openInterest"; "openInterestValue"; "markPrice"; "lastPrice";
      "indexPrice"; "fundingRate"; "nextFundingTime"]
  | BybitHistory => ["fundingRate"; "fundingRateTimestamp"]
  | OkxInstruments => ["instId"; "instType"; "baseCcy"; "quoteCcy"; "ctVal"; "ctValCcy";
      "settleCcy"; "tickSz"; "lotSz"; "state"; "ctType"]
  | OkxOi => ["instId"; "instType"; "oi"; "oiCcy"; "ts"]
  | OkxTickers => ["instId"; "last"; "markPx"; "ts"]
  | OkxHistory => ["realizedRate"; "fundingRate"; "fundingTime"]
  | OkxFunding => ["instId"; "fundingRate"; "nextFundingTime"; "fundingTime"]
  | BitgetContracts => ["symbol"; "baseCoin"; "quoteCoin"; "symbolType"; "symbolStatus";
      "pricePlace"; "priceEndStep"; "minTradeNum"; "sizeMultiplier"]
  | BitgetTickers => ["symbol"; "holdingAmount"; "markPrice"; "indexPrice"; "lastPr";
      "fundingRate"; "nextFundingTime"; "ts"]
  | BitgetHistory => ["symbol"; "fundingRate"; "fundingTime"]
  | HlMeta => ["universe"; "name"; "szDecimals"; "maxLeverage"; "isDelisted"; "onlyIsolated";
      "openInterest"; "markPx"; "oraclePx"; "midPx"; "funding"; "prevDayPx"; "dayNtlVlm";
      "premium"]
  | HlHistory => ["coin"; "fundingRate"; "time"; "premium"]
  | MexcDetail => ["symbol"; "baseCoin"; "quoteCoin"; "contractSize"; "priceUnit"; "volUnit";
      "state"]
  | MexcTickers => ["symbol"; "holdVol"; "fairPrice"; "lastPrice"; "indexPrice"; "fundingRate";
      "timestamp"]
  | MexcHistory => ["resultList"; "symbol"; "fundingRate"; "settleTime"]
  | MexcCycle => ["collectCycle"]
  | KucoinContracts => ["symbol"; "baseCurrency"; "quoteCurrency"; "settleCurrency"; "type";
      "multiplier"; "tickSize"; "openInterest"; "markPrice"; "lastTradePrice"; "indexPrice";
      "status"; "isInverse"; "fundingFeeRate"; "nextFundingRateTime"]
  | KucoinHistory => ["symbol"; "fundingRate"; "timepoint"]
  | KucoinCurrent => ["granularity"]
  | BingxContracts => ["symbol"; "asset"; "currency"; "status"; "quantityPrecision";
      "pricePrecision"; "tradeMinLimit"]
  | BingxOi => ["symbol"; "openInterest"; "time"]
  | BingxPremium => ["symbol"; "markPrice"; "indexPrice"; "lastFundingRate"; "nextFundingTime"]
  | BingxHistory => ["symbol"; "fundingRate"; "fundingTime"]
  end.
Definition known_to (e : Endpoint) (k : string) : bool :=
  existsb (String.eqb k) (envelope_keys ++ endpoint_keys e).

(** Binance's filters are kept as JSON, so they are compared without unknown
    keys too. *)
Definition strip_symbol (s : SymbolInfo (JL := json_lib)) : SymbolInfo (JL := json_lib) :=
  mkSymbolInfo (JL := json_lib) (si_symbol s) (Binance.contract_type s) (si_base_asset s)
    (si_quote_asset s) (si_status s)
    (map (strip (known_to BinanceInfo)) (filters (JL := json_lib) s)).
Definition strip_info (i : ExchangeInfo (JL := json_lib)) : ExchangeInfo (JL := json_lib) :=
  mkExchangeInfo (JL := json_lib) (strip_symbol <$> symbols (JL := json_lib) i).
Definition strip_answer (e : Endpoint) : answer e → answer e :=
  match e with BinanceInfo => strip_info | _ => id end.

#[export] Instance blind_meta_and_ctxs : Blind (known_to HlMeta) de_meta_and_ctxs.
Proof.
  assert (Blind (known_to HlMeta) de_meta_universe) by apply _.
  assert (Blind (known_to HlMeta) (de_vec de_asset_ctx)) by apply _.
  intros [| | | |l|kvs]; try done. destruct l as [|m [|c [|? ?]]]; try done.
  cbn [strip map de_meta_and_ctxs]. by rewrite !blind.
Qed.

Lemma de_blind e : e ≠ BinanceInfo → Blind (known_to e) (de e).
Proof. intros He. destruct e; [done|..]; cbn [de answer]; apply _. Qed.

Lemma symbol_info_tracks : tracks (known_to BinanceInfo) strip_symbol de_symbol_info.
Proof.
  apply tracks_struct. unfold de_symbol_info.
  do 5 (apply tracks_bind_blind; [apply _|intros ?]).
  eapply tracks_bind; [apply tracks_req; [done|apply tracks_vec, tracks_value]|]. done.
Qed.

Lemma de_strip e v : de e (strip (known_to e) v) = strip_answer e <$> de e v.
Proof.
  destruct e; try (cbn [strip_answer]; rewrite option_fmap_id; by apply (de_blind _)).
  revert v. apply tracks_struct.
  eapply tracks_bind; [apply tracks_req; [done|apply tracks_vec, symbol_info_tracks]|]. done.
Qed.

(** * One bad row *)

(** The venues whose open interest comes as one page: its URL and its endpoint. *)
Definition oi_page (ex : Exchange) : option (string * Endpoint) :=
  match ex with
  | Domain.Bybit =>
      Some ("https://api.bybit.com/v5/market/tickers?category=linear", BybitTickers)
  | Domain.Okx =>
      Some ("https://www.okx.com/api/v5/public/open-interest?instType=SWAP", OkxOi)
  | Domain.Bitget =>
      Some ("https://api.bitget.com/api/v2/mix/market/tickers?productType=USDT-FUTURES",
            BitgetTickers)
  | Domain.Mexc => Some ("https://contract.mexc.com/api/v1/contract/ticker", MexcTickers)
  | Domain.KuCoin =>
      Some ("https://api-futures.kucoin.com/api/v1/contracts/active", KucoinContracts)
  | _ => None
  end.

(** The rows inside the envelope, and whether one of them decodes. *)
Definition member (k : string) (v : json) : option json :=
  match v with
  | JObj kvs => match lookup_key kvs k with Some (Some x) => Some x | _ => None end
  | _ => None
  end.
Definition page_rows (ex : Exchange) (v : json) : option (list json) :=
  x ← match ex with
      | Domain.Bybit => member "result" v ≫= member "list"
      | _ => member "data" v
      end;
  match x with JArr l => Some l | _ => None end.
Definition row_decodes (ex : Exchange) (row : json) : bool :=
  bool_decide (is_Some match ex with
    | Domain.Bybit => (λ _, tt) <$> de_bybit_ticker row
    | Domain.Okx => (λ _, tt) <$> de_oi_row row
    | Domain.Bitget => (λ _, tt) <$> de_bitget_ticker row
    | Domain.Mexc => (λ _, tt) <$> de_mexc_ticker row
    | Domain.KuCoin => (λ _, tt) <$> de_kucoin_contract row
    | _ => None
    end).

Lemma req_fails {A} kvs k (d : De A) x :
  member k (JObj kvs) = Some x → d x = None → req k d (FObj kvs) = None.
Proof.
  simpl. destruct (lookup_key kvs k) as [[y|]|]; try done. intros [= ->] Hd. by rewrite Hd.
Qed.

(** Fields of an object are read without changing it. *)
Lemma req_keeps {A} k (d : De A) kvs a fs : req k d (FObj kvs) = Some (a, fs) → fs = FObj kvs.
Proof.
  simpl. destruct (lookup_key kvs k) as [[y|]|]; try done.
  destruct (d y); simpl; [|done]. by intros [= _ <-].
Qed.
Lemma dflt_keeps {A} k (a0 : A) (d : De A) kvs a fs :
  dflt k a0 d (FObj kvs) = Some (a, fs) → fs = FObj kvs.
Proof.
  simpl. destruct (lookup_key kvs k) as [[y|]|]; try done; [|by intros [= _ <-]].
  destruct (d y); simpl; [|done]. by intros [= _ <-].
Qed.
Lemma bind_fails {A B} (m : DeM A) (k : A → DeM B) kvs :
  (∀ a fs, m (FObj kvs) = Some (a, fs) → fs = FObj kvs) →
  (∀ a, k a (FObj kvs) = None) → (m ≫= k) (FObj kvs) = None.
Proof.
  intros Hm Hk. unfold mbind, dem_bind. destruct (m _) as [[a fs]|] eqn:E; [|done].
  rewrite (Hm a fs eq_refl). apply Hk.
Qed.
Lemma bind_stops {A B} (m : DeM A) (k : A → DeM B) fs : m fs = None → (m ≫= k) fs = None.
Proof. unfold mbind, dem_bind. by intros ->. Qed.

Ltac bad_member :=
  lazymatch goal with
  | |- struct _ ?v = None => destruct v as [| | | | |kvs]; try done; cbn [struct];
      match goal with |- fst <$> ?x = None => enough (x = None) as ->; [done|] end
  end;
  repeat first
    [ apply bind_stops; eapply req_fails; eassumption
    | eapply req_fails; eassumption
    | apply bind_fails; [eauto using req_keeps, dflt_keeps|intros ?] ].

Lemma page_fails ex url e v rows row :
  oi_page ex = Some (url, e) → page_rows ex v = Some rows →
  row ∈ rows → row_decodes ex row = false → de e v = None.
Proof.
  intros He Hr Hin Hd. unfold page_rows in Hr. apply bool_decide_eq_false in Hd.
  rewrite <- eq_None_not_Some in Hd.
  destruct ex; try done; injection He as <- <-; cbn [de];
    match type of Hr with
    | ?m ≫= _ = _ => destruct m as [x|] eqn:Hx; [|done]; cbn in Hr;
        destruct x as [| | | |l|]; try done; injection Hr as ->
    end; apply fmap_None in Hd; pose proof (de_vec_bad _ _ _ Hin Hd) as Hbad.
  - destruct (member "result" v) as [x|] eqn:Hres; [|done]. cbn in Hx.
    assert (de_tickers_result x = None) by (unfold de_tickers_result; bad_member).
    unfold de_bybit_envelope. bad_member.
  - unfold de_okx_envelope. bad_member.
  - unfold de_kucoin_envelope. bad_member.
  - unfold de_mexc_envelope. bad_member.
  - unfold de_bitget_envelope. bad_member.
Qed.

Lemma ask_undecodable w code e url r v :
  web_get w url = Responded r → is_success (Http.status r) = true →
  sj_read (Http.body r) = Ok v → de e v = None →
  ask w code e url = Err (Schema ("GET " +:+ url +:+ " decode: " +:+ sj_data_error (Http.body r))).
Proof.
  intros Hw Hs Hv Hd. unfold ask, get_json, http_send. rewrite Hw. unfold classify. rewrite Hs.
  unfold decode_body. rewrite Hv. by rewrite Hd.
Qed.

Lemma filter_blind acc f :
  filter_step (JL := json_lib) acc (strip (known_to BinanceInfo) f)
  = filter_step (JL := json_lib) acc f.
Proof. unfold filter_step. by rewrite !get_str_strip. Qed.

Lemma extract_blind (l : list json) :
  extract_filters (JL := json_lib) (map (strip (known_to BinanceInfo)) l)
  = extract_filters (JL := json_lib) l.
Proof.
  unfold extract_filters. generalize (@None Dec, @None Dec).
  induction l as [|f l IH]; [done|]. intros acc. cbn [map foldl]. rewrite filter_blind. apply IH.
Qed.

Lemma symbol_meta_blind i :
  omap (symbol_meta (JL := json_lib)) (symbols (strip_info i))
  = omap (symbol_meta (JL := json_lib)) (symbols i).
Proof.
  unfold strip_info. cbn [symbols]. induction (symbols i) as [|s l IH]; [done|].
  cbn [omap list_omap fmap list_fmap]. rewrite IH.
  assert (symbol_meta (JL := json_lib) (strip_symbol s) = symbol_meta s) as ->; [|done].
  unfold symbol_meta, strip_symbol. cbn [Binance.contract_type si_symbol si_base_asset
    si_quote_asset si_status filters]. by rewrite extract_blind.
Qed.

(** C35. What the adapters make of the text the venues send.  A field a struct does
    not name never matters, anywhere in the answer of any endpoint: decoding
    sees the JSON without its unknown keys (Binance's instruments, whose filters
    are kept as JSON, come out the same).  But a page is read whole or not at
    all: on the five venues that publish their open interest as one page, a
    single row that does not decode (a missing symbol, a number where a text is
    expected, even in a field nobody reads) fails the call with a schema error,
    and the minute has no reading of any instrument of that venue; so when
    there are readings every row decoded. *)
Theorem wire_tolerance :
  (∀ e v, de e (strip (known_to e) v) = strip_answer e <$> de e v)
  ∧ (∀ i, omap (symbol_meta (JL := json_lib)) (symbols (strip_info i))
          = omap (symbol_meta (JL := json_lib)) (symbols i))
  ∧ ∀ w now sched iter mi ki ex url e r v rows insts bucket,
      oi_page ex = Some (url, e) → web_get w url = Responded r →
      is_success (Http.status r) = true → sj_read (Http.body r) = Ok v → page_rows ex v = Some rows →
      let fetched := ad_fetch_oi (make_adapter (wire_net w now sched iter mi ki) ex)
                       insts bucket in
      (existsb (λ row, negb (row_decodes ex row)) rows = true →
         fetched = Err (Schema ("GET " +:+ url +:+ " decode: " +:+ sj_data_error (Http.body r))))
      ∧ ∀ out, fetched = Ok out → forallb (row_decodes ex) rows = true.
Proof.
  split; [apply de_strip|]. split; [apply symbol_meta_blind|].
  intros w now sched iter mi ki ex url e r v rows insts bucket He Hw Hs Hv Hrows fetched.
  assert (Hbad : existsb (λ row, negb (row_decodes ex row)) rows = true →
    fetched = Err (Schema ("GET " +:+ url +:+ " decode: " +:+ sj_data_error (Http.body r)))).
  { intros (row & Hin & Hd)%existsb_exists. apply negb_true_iff in Hd.
    apply list_elem_of_In in Hin.
    pose proof (page_fails _ _ _ _ _ _ He Hrows Hin Hd) as Hde.
    pose proof (λ code, ask_undecodable w code e url r v Hw Hs Hv Hde) as Ha.
    subst fetched. destruct ex; try done; injection He as <- <-; cbn [make_adapter ad_fetch_oi].
    - unfold Bybit.adapter, Bybit.fetch_oi, tickers_page. cbn. by rewrite Ha.
    - unfold Okx.adapter, Okx.fetch_oi. cbn. by rewrite Ha.
    - unfold KuCoin.adapter, KuCoin.fetch_oi, contracts_rows. cbn. by rewrite Ha.
    - unfold Mexc.adapter, Mexc.fetch_oi, ticker_rows. cbn. by rewrite Ha.
    - unfold Bitget.adapter, Bitget.fetch_oi, tickers_rows. cbn. by rewrite Ha. }
  split; [done|]. intros out Hok. apply forallb_forall. intros row Hin.
  destruct (row_decodes ex row) eqn:Hd; [done|]. exfalso.
  rewrite Hbad in Hok; [done|]. apply existsb_exists. exists row. by rewrite Hd.
Qed.
End wire.

(** * A concrete run *)

Definition ex_page : string :=
  js "{'retCode':0,'retMsg':'OK','result':{'category':'linear','list':[
       {'symbol':'BTCUSDT','openInterest':'12.5','markPrice':'64000'},
       {'symbol':'ETHUSDT','openInterest':12.5,'markPrice':'3200'}]},'time':1714000000000}".
Definition ex_web : Web :=
  mkWeb (λ _, Responded (mkResponse 200 None ex_page)) (λ _ _, TimeoutOrConnect "no route").
Definition ex_wire_net : Net (DL := z_decimal) (TL := z_time) (JL := json_lib (H := text_serde)) :=
  wire_net (SJ := text_serde) (DL := z_decimal) (TL := z_time)
    ex_web 0 (λ n, n) (λ m, map_to_list m) ∅ ∅.

(** The second row has a number where the struct has a text: neither instrument
    gets a reading.  The extra keys [category] and [time] do not matter. *)
Lemma wire_tolerance_witness :
  ad_fetch_oi (make_adapter ex_wire_net Domain.Bybit) [mkId Domain.Bybit "BTCUSDT"] 0
  = Err (Schema ("GET " +:+ "https://api.bybit.com/v5/market/tickers?category=linear"
                 +:+ " decode: data error")).
Proof.
  destruct (wire_tolerance (SJ := text_serde) (DL := z_decimal) (TL := z_time)) as (_ & _ & H).
  destruct (json_read ex_page) as [v|] eqn:Ev; [|vm_compute in Ev; discriminate].
  assert (Hv : sj_read (SerdeJson := text_serde) ex_page = Ok v)
    by (cbn [sj_read text_serde]; by rewrite Ev).
  vm_compute in Ev. injection Ev as <-.
  refine (proj1 (H ex_web 0 (λ n, n) (λ m, map_to_list m) ∅ ∅ Domain.Bybit _ _ _ _ _
    [mkId Domain.Bybit "BTCUSDT"] 0 eq_refl eq_refl eq_refl Hv _) _).
  - vm_compute. reflexivity.
  - vm_compute. reflexivity.
Defined.
