(* ===== verification/Runner.v ===== *)
(** The collector's per-exchange loop, [run_exchange_loop] of [runner.rs]: one
    iteration turns a minute's prices, readings and funding rates into repository
    writes.  The exchange's answers at this tick are an adapter value, the
    iteration order of the bar map and whether the six-hour refresh is due are
    arguments; logs are left out, and the metrics are in [LoopMetrics]. *)

From Stdlib Require Import ZArith Lia String.
From stdpp Require Import base option list strings gmap sorting.
From S2P Require Import Prelude Externals Concrete Domain FanOut Aggregator Pricing Repository Adapter.
Open Scope Z_scope.
Open Scope oi_scope.

Section runner.
Context {DL : DecimalLib} {TL : TimeLib}.

(** [funding_cursor] *)
Abbreviation Cursor := (gmap InstrumentId (OffsetDateTime * Dec)).

Record LoopState := mkLoop {
  metas : list InstrumentMeta;
  loop_prices : InMemoryPriceProvider;
  loop_bars : OiAggregator;
  symbol_list : list InstrumentId;
  funding_cursor : Cursor;
}.

Definition classify_err (e : ExchangeError) : string :=
  match e with
  | Transient _ _ => "http" | RateLimited _ => "ratelimit" | Auth _ => "auth"
  | Schema _ => "schema" | NotFound _ => "notfound" | Unexpected _ => "other"
  end.

Definition active_ids (ms : list InstrumentMeta) : list InstrumentId :=
  meta_id <$> filter (λ m, active m = true) ms.

(** * Start-up *)

Definition register_all (p : InMemoryPriceProvider) (ms : list InstrumentMeta)
  : InMemoryPriceProvider :=
  foldl (λ p m, register_instrument p (meta_id m) (base_asset m) (quote_asset m)) p
    (filter (λ m, active m = true) ms).

(** [None] when discovery fails: the task ends. *)
Definition loop_start {W} (a : ExchangeAdapter) (repo : OiRepository W)
    (p : InMemoryPriceProvider) (bars : OiAggregator) (w : W) : option LoopState * W :=
  match ad_discover_instruments a with
  | Err _ => (None, w)
  | Ok ms =>
      let '(_, w) := upsert_instruments repo ms w in
      (Some {| metas := ms; loop_prices := register_all p ms; loop_bars := bars;
               symbol_list := active_ids ms; funding_cursor := ∅ |}, w)
  end.

(** * One iteration *)

(** The body of [for r in raw]. *)
Definition observe_raw (ms : list InstrumentMeta) (p : InMemoryPriceProvider)
    (bars : OiAggregator) (r : RawOi) : run OiAggregator :=
  match List.find (λ m, bool_decide (meta_id m = raw_instrument r)) ms with
  | None => Ret bars
  | Some meta =>
      let price := fst <$> price_usd_with_fallback p (raw_instrument r) (base_asset meta)
                             (quote_asset meta) (raw_bucket_ts r) in
      e ← enrich r meta price;
      Ret match e with
          | Ok s => (agg_observe bars s).2
          | Err _ => bars
          end
  end.
Fixpoint observe_raws (ms : list InstrumentMeta) (p : InMemoryPriceProvider)
    (bars : OiAggregator) (raw : list RawOi) : run OiAggregator :=
  match raw with
  | [] => Ret bars
  | r :: raw' => bars' ← observe_raw ms p bars r; observe_raws ms p bars' raw'
  end.

(** The body of [for bar in &funding]: the event it adds and the cursor. *)
Definition derive_event (cursor : Cursor) (bar : FundingBar) : option FundingEvent * Cursor :=
  match f_next_funding_ts bar with
  | None => (None, cursor)
  | Some next =>
      (match cursor !! f_instrument bar with
       | Some (prev_next, prev_rate) =>
           if odt_ltb prev_next next then
             Some {| ev_instrument := f_instrument bar; ev_settlement_ts := prev_next;
                     ev_rate := prev_rate; ev_mark_price := None |}
           else None
       | None => None
       end, <[f_instrument bar := (next, f_rate bar)]> cursor)
  end.
Fixpoint derive_events (cursor : Cursor) (funding : list FundingBar)
  : list FundingEvent * Cursor :=
  match funding with
  | [] => ([], cursor)
  | bar :: funding' =>
      let '(e, cursor) := derive_event cursor bar in
      let '(es, cursor) := derive_events cursor funding' in
      (option_list e ++ es, cursor)
  end.

(** The funding half of the iteration. *)
Definition funding_step {W} (repo : OiRepository W)
    (fetched : result ExchangeError (list FundingBar)) (cursor : Cursor) (w : W) : Cursor * W :=
  match fetched with
  | Ok ((_ :: _) as funding) =>
      let '(events, cursor) := derive_events cursor funding in
      let w := match events with
               | [] => w
               | _ => (upsert_funding_events repo events w).2
               end in
      (cursor, (upsert_funding repo funding w).2)
  | _ => (cursor, w)
  end.

(** The opportunistic metadata refresh. *)
Definition refresh_step {W} (repo : OiRepository W) (a : ExchangeAdapter) (due : bool)
    (ms : list InstrumentMeta) (symbols : list InstrumentId) (w : W)
  : list InstrumentMeta * list InstrumentId * W :=
  if due then
    match ad_discover_instruments a with
    | Ok m => let '(_, w) := upsert_instruments repo m w in (m, active_ids m, w)
    | Err _ => (ms, symbols, w)
    end
  else (ms, symbols, w).

Definition loop_iteration {W} (repo : OiRepository W) (a : ExchangeAdapter)
    (order : OiAggregator → list (InstrumentId * OiSnapshot)) (due : bool)
    (bucket : OffsetDateTime) (st : LoopState) (w : W) : run (LoopState * W) :=
  let ids := active_ids (metas st) in
  let p := match ad_fetch_prices a ids with
           | Ok quotes => ingest (loop_prices st) quotes
           | Err _ => loop_prices st
           end in
  match ad_fetch_oi a ids bucket with
  | Err _ => Ret (mkLoop (metas st) p (loop_bars st) (symbol_list st) (funding_cursor st), w)
  | Ok raw =>
      bars ← observe_raws (metas st) p (loop_bars st) raw;
      let '(snaps, bars) := flush_through (order bars) bars bucket in
      let '(_, w) := upsert_snapshots repo snaps w in
      let '(cursor, w) :=
        funding_step repo (ad_fetch_funding a ids bucket) (funding_cursor st) w in
      let '(ms, symbols, w) := refresh_step repo a due (metas st) (symbol_list st) w in
      Ret (mkLoop ms p bars symbols cursor, w)
  end.

(** * Specification of the derived settlement events *)

(** What the funding stream said about one instrument, in order. *)
Definition observations (i : InstrumentId) (bars : list FundingBar)
  : list (OffsetDateTime * Dec) :=
  omap (λ b, if bool_decide (f_instrument b = i)
             then (λ next, (next, f_rate b)) <$> f_next_funding_ts b else None) bars.

(** The boundaries that passed: each observation whose successor names a later
    next settlement. *)
Fixpoint rollovers (l : list (OffsetDateTime * Dec)) : list (OffsetDateTime * Dec) :=
  match l with
  | o :: ((o' :: _) as l') => (if odt_ltb o.1 o'.1 then [o] else []) ++ rollovers l'
  | _ => []
  end.

Lemma rollovers_cons o o' l :
  rollovers (o :: o' :: l) = (if odt_ltb o.1 o'.1 then [o] else []) ++ rollovers (o' :: l).
Proof. done. Qed.

Definition event_of (i : InstrumentId) (o : OffsetDateTime * Dec) : FundingEvent :=
  {| ev_instrument := i; ev_settlement_ts := o.1; ev_rate := o.2; ev_mark_price := None |}.

Lemma derive_events_spec i bars cursor :
  filter (λ e, ev_instrument e = i) (derive_events cursor bars).1
    = event_of i <$> rollovers (option_list (cursor !! i) ++ observations i bars)
  ∧ (derive_events cursor bars).2 !! i
    = last (option_list (cursor !! i) ++ observations i bars).
Proof.
  revert cursor. induction bars as [|b bars IH]; intros cursor.
  { simpl. rewrite app_nil_r. by destruct (cursor !! i). }
  cbn [derive_events]. destruct (derive_event cursor b) as [e c'] eqn:E.
  specialize (IH c'). destruct (derive_events c' bars) as [es c''].
  cbn [fst snd] in *. destruct IH as [IH1 IH2]. rewrite filter_app, IH1, IH2. clear IH1 IH2.
  unfold derive_event in E. unfold observations. cbn [omap list_omap].
  destruct (f_next_funding_ts b) as [next|]; injection E as <- <-.
  2:{ by case_bool_decide. }
  fold (observations i bars). destruct (decide (f_instrument b = i)) as [Hi|Hi].
  - rewrite (bool_decide_true _ Hi), Hi. cbn [fmap option_fmap option_map].
    rewrite lookup_insert_eq.
    destruct (cursor !! i) as [[pn pr]|]; [|done].
    change (option_list (Some (next, f_rate b)) ++ observations i bars)
      with ((next, f_rate b) :: observations i bars).
    change (option_list (Some (pn, pr)) ++ (next, f_rate b) :: observations i bars)
      with ((pn, pr) :: (next, f_rate b) :: observations i bars).
    rewrite rollovers_cons. cbn [fst snd]. rewrite last_cons_cons. split; [|done]. rewrite fmap_app.
    f_equal. destruct (odt_ltb pn next); [|done]. simpl. by rewrite filter_cons_True.
  - rewrite (bool_decide_false _ Hi), lookup_insert_ne by done.
    assert (Hf : filter (λ e, ev_instrument e = i)
      (option_list (match cursor !! f_instrument b with
        | Some (prev_next, prev_rate) =>
            if odt_ltb prev_next next then
              Some {| ev_instrument := f_instrument b; ev_settlement_ts := prev_next;
                     ev_rate := prev_rate; ev_mark_price := None |}
            else None
        | None => None end)) = []).
    { destruct (cursor !! f_instrument b) as [[pn pr]|]; [|done].
      destruct (odt_ltb pn next); [|done]. simpl. by rewrite filter_cons_False. }
    rewrite Hf. done.
Qed.

(** Successive minutes; the cursor is the loop's. *)
Fixpoint derive_minutes (cursor : Cursor) (minutes : list (list FundingBar))
  : list FundingEvent * Cursor :=
  match minutes with
  | [] => ([], cursor)
  | bars :: minutes' =>
      let '(es, cursor) := derive_events cursor bars in
      let '(es', cursor) := derive_minutes cursor minutes' in
      (es ++ es', cursor)
  end.

Lemma derive_events_app cursor a b :
  derive_events cursor (a ++ b) =
    let '(es, c) := derive_events cursor a in
    let '(es', c') := derive_events c b in (es ++ es', c').
Proof.
  revert cursor. induction a as [|x a IH]; intros cursor.
  - cbn [app derive_events]. by destruct (derive_events cursor b).
  - cbn [app derive_events]. destruct (derive_event cursor x) as [e c]. rewrite IH.
    destruct (derive_events c a) as [es c1]. destruct (derive_events c1 b) as [es' c2].
    by rewrite (assoc_L (++)).
Qed.

Lemma derive_minutes_concat cursor minutes :
  derive_minutes cursor minutes = derive_events cursor (concat minutes).
Proof.
  revert cursor. induction minutes as [|bars minutes IH]; intros cursor; [done|].
  cbn [derive_minutes concat]. rewrite derive_events_app.
  destruct (derive_events cursor bars) as [es c]. by rewrite IH.
Qed.

Lemma rollovers_elem o l : o ∈ rollovers l → o ∈ l.
Proof.
  induction l as [|o1 [|o2 l] IH]; [by intros ?%not_elem_of_nil..|]. rewrite rollovers_cons.
  intros [Ho|Ho]%elem_of_app; [|right; by apply IH].
  destruct (odt_ltb o1.1 o2.1); [|by apply not_elem_of_nil in Ho].
  apply list_elem_of_singleton in Ho as ->. left.
Qed.

Context {DLaws : DecimalLaws DL} {TLaws : TimeLaws TL}.

Definition not_later (a b : OffsetDateTime * Dec) : Prop :=
  unix_timestamp_nanos a.1 ≤ unix_timestamp_nanos b.1.
Definition earlier (a b : OffsetDateTime * Dec) : Prop :=
  unix_timestamp_nanos a.1 < unix_timestamp_nanos b.1.

Lemma rollovers_increasing l :
  StronglySorted not_later l → StronglySorted earlier (rollovers l).
Proof.
  induction l as [|o1 [|o2 l] IH]; intros Hs; [constructor|constructor|].
  apply StronglySorted_inv in Hs as [Hs Hle]. rewrite rollovers_cons.
  destruct (odt_ltb o1.1 o2.1) eqn:E; [|by apply IH]. cbn [app].
  constructor; [by apply IH|]. apply odt_ltb_spec in E.
  apply Forall_forall. intros o Ho%rollovers_elem. unfold earlier.
  apply StronglySorted_inv in Hs as [_ Hle2].
  apply elem_of_cons in Ho as [->|Ho]; [done|].
  rewrite Forall_forall in Hle2. specialize (Hle2 o Ho). unfold not_later in Hle2. lia.
Qed.

(** C18. Settlement events derived from the funding stream.  Over any run of
    minutes, in whatever batches the bars arrive, the events of an instrument
    are exactly the boundaries its own observations roll over: one for each
    observation whose successor names a later next settlement, dated at the old
    boundary and carrying the last rate predicted for it.  When the exchange
    never moves the next settlement back, their dates strictly increase, so no
    settlement is reported twice. *)
Theorem settlement_events_derived minutes i :
  let events := filter (λ e, ev_instrument e = i) (derive_minutes ∅ minutes).1 in
  let obs := observations i (concat minutes) in
  events = event_of i <$> rollovers obs
  ∧ (∀ e, e ∈ events ↔
       ∃ l1 o o' l2, obs = l1 ++ o :: o' :: l2
         ∧ unix_timestamp_nanos o.1 < unix_timestamp_nanos o'.1 ∧ e = event_of i o)
  ∧ (StronglySorted not_later obs →
     StronglySorted (λ e e', unix_timestamp_nanos (ev_settlement_ts e)
                             < unix_timestamp_nanos (ev_settlement_ts e')) events).
Proof.
  intros events obs.
  assert (He : events = event_of i <$> rollovers obs).
  { unfold events. rewrite derive_minutes_concat.
    destruct (derive_events_spec i (concat minutes) ∅) as [-> _]. by rewrite lookup_empty. }
  split; [done|]. rewrite He. clear He events. split.
  - intros e. rewrite list_elem_of_fmap. split.
    + intros (o & -> & Ho). induction obs as [|o1 [|o2 l] IH]; [by apply not_elem_of_nil in Ho..|].
      rewrite rollovers_cons in Ho. apply elem_of_app in Ho as [Ho|Ho].
      * destruct (odt_ltb o1.1 o2.1) eqn:E; [|by apply not_elem_of_nil in Ho].
        apply list_elem_of_singleton in Ho as ->. apply odt_ltb_spec in E.
        by exists [], o1, o2, l.
      * destruct (IH Ho) as (l1 & a & b & l2 & H1 & H2). exists (o1 :: l1), a, b, l2.
        by rewrite H1.
    + intros (l1 & o & o' & l2 & -> & Hlt & ->). exists o. split; [done|].
      assert (Hin : o ∈ rollovers (o :: o' :: l2)).
      { rewrite rollovers_cons. rewrite (proj2 (odt_ltb_spec _ _) Hlt). left. }
      clear Hlt. induction l1 as [|a l1 IH]; [done|].
      cbn [app]. destruct l1 as [|b l1]; cbn [app] in *; rewrite rollovers_cons;
        apply elem_of_app; by right.
  - intros Hs. apply rollovers_increasing in Hs. induction Hs as [|o l Hs IH Hf]; [constructor|].
    constructor; [done|]. apply Forall_fmap. eapply Forall_impl; [exact Hf|]. done.
Qed.

(** * The minute of a REST-only exchange *)

(** The bar one reading becomes: none when its instrument is unknown. *)
Definition minute_bar (ms : list InstrumentMeta) (p : InMemoryPriceProvider) (r : RawOi)
  : option OiSnapshot :=
  meta ← List.find (λ m, bool_decide (meta_id m = raw_instrument r)) ms;
  match enrich r meta (fst <$> price_usd_with_fallback p (raw_instrument r) (base_asset meta)
                                 (quote_asset meta) (raw_bucket_ts r)) with
  | Ret (Ok s) => Some (start_from_sample s)
  | _ => None
  end.

Lemma enrich_ok r meta price s :
  enrich r meta price = Ret (Ok s) →
  s_instrument s = raw_instrument r ∧ s_bucket_ts s = raw_bucket_ts r
  ∧ s_native_value s = raw_value r.
Proof.
  unfold enrich. destruct (negb _); [done|].
  destruct (to_coins _ _ _); [|done]. destruct (to_usd _ _ _ _); [|done].
  simpl. by intros [= <-].
Qed.

Lemma minute_bar_some ms p r b :
  minute_bar ms p r = Some b →
  instrument b = raw_instrument r ∧ bucket_ts b = raw_bucket_ts r ∧ samples b = 1
  ∧ native_open b = raw_value r ∧ native_high b = raw_value r
  ∧ native_low b = raw_value r ∧ native_close b = raw_value r.
Proof.
  unfold minute_bar. intros (meta & _ & H)%bind_Some.
  destruct (enrich _ _ _) as [[s|]|] eqn:E; try done. injection H as <-.
  apply enrich_ok in E as (Hi & Hb & Hv). simpl. by rewrite Hv.
Qed.

Lemma observe_raw_fresh ms p bars r bars' :
  bars !! raw_instrument r = None → observe_raw ms p bars r = Ret bars' →
  bars' = match minute_bar ms p r with
          | Some b => <[raw_instrument r := b]> bars
          | None => bars
          end.
Proof.
  intros Hn. unfold observe_raw, minute_bar. destruct (List.find _ ms) as [meta|]; simpl;
    [|by intros [= <-]].
  destruct (enrich _ _ _) as [[s|]|] eqn:E; simpl; try done; intros [= <-]; [|done].
  apply enrich_ok in E as (Hi & _). rewrite <- Hi in *. by apply agg_observe_fresh.
Qed.

Lemma observe_raws_fresh ms p raw bars bars' :
  NoDup (raw_instrument <$> raw) → (∀ r, r ∈ raw → bars !! raw_instrument r = None) →
  observe_raws ms p bars raw = Ret bars' →
  (map_to_list bars').*2 ≡ₚ omap (minute_bar ms p) raw ++ (map_to_list bars).*2.
Proof.
  revert bars. induction raw as [|r raw IH]; intros bars Hnd Hn; [by intros [= <-]|].
  apply NoDup_cons in Hnd as [Hr Hnd]. cbn [observe_raws].
  destruct (observe_raw ms p bars r) as [bars1|] eqn:E; [|done]. cbn [mbind run_bind].
  intros H. apply observe_raw_fresh in E; [|by apply Hn; left]. subst bars1.
  assert (Hnone : ∀ r', r' ∈ raw → raw_instrument r ≠ raw_instrument r').
  { intros r' Hr' He. apply Hr. rewrite He. apply list_elem_of_fmap. eauto. }
  cbn [omap list_omap]. destruct (minute_bar ms p r) as [b|].
  - apply IH in H; [|done|].
    + rewrite H, map_to_list_insert by (apply Hn; left). cbn [fmap list_fmap snd app].
      by rewrite Permutation_middle.
    + intros r' Hr'. rewrite lookup_insert_ne by (by apply Hnone). apply Hn. by right.
  - apply IH in H; [done|done|]. intros r' Hr'. apply Hn. by right.
Qed.

(** A run of readings panics only when a unit conversion overflows. *)
Lemma observe_raws_total ms p raw bars :
  (∀ x y : Dec, ∃ z, dec_mul x y = Ret z) → ∃ bars', observe_raws ms p bars raw = Ret bars'.
Proof.
  intros Hm. revert bars. induction raw as [|r raw IH]; intros bars; [by eexists|].
  cbn [observe_raws].
  assert (∃ b, observe_raw ms p bars r = Ret b) as [b ->]; [|apply IH].
  unfold observe_raw. destruct (List.find _ ms) as [meta|]; [|eauto].
  unfold enrich, to_coins, to_usd, opt_run. destruct (negb _); [simpl; eauto|].
  repeat (case_match; simpl; eauto);
    repeat match goal with
    | |- context [dec_mul ?x ?y] =>
        let z := fresh in let E := fresh in destruct (Hm x y) as [z E]; rewrite E; simpl
    end; eauto.
Qed.

Context {W : Type} (repo : OiRepository W).

(** The batch of a minute, from an empty aggregator. *)
Lemma minute_batch a order bucket st w raw st' w' :
  let p := match ad_fetch_prices a (active_ids (metas st)) with
           | Ok quotes => ingest (loop_prices st) quotes
           | Err _ => loop_prices st
           end in
  (∀ bars, iteration_of (order bars) bars) →
  loop_bars st = ∅ →
  ad_fetch_oi a (active_ids (metas st)) bucket = Ok raw →
  NoDup (raw_instrument <$> raw) → Forall (λ r, raw_bucket_ts r = bucket) raw →
  loop_iteration repo a order false bucket st w = Ret (st', w') →
  ∃ snaps,
    snaps ≡ₚ omap (minute_bar (metas st) p) raw
    ∧ Forall (λ b, bucket_ts b = bucket ∧ samples b = 1 ∧ native_open b = native_close b
                   ∧ native_high b = native_close b ∧ native_low b = native_close b) snaps
    ∧ (funding_cursor st', w')
      = funding_step repo (ad_fetch_funding a (active_ids (metas st)) bucket)
          (funding_cursor st) (upsert_snapshots repo snaps w).2
    ∧ loop_bars st' = ∅.
Proof.
  intros p Hord Hempty Hraw Hnd Hb. unfold loop_iteration. fold p. rewrite Hraw, Hempty.
  destruct (observe_raws _ _ _ _) as [bars|] eqn:Eo; [|done].
  cbn [mbind run_bind]. apply observe_raws_fresh in Eo; [|done|intros; apply lookup_empty].
  rewrite map_to_list_empty, app_nil_r in Eo.
  destruct (flush_through_bars (order bars) bars bucket (Hord bars)) as [H1 H2].
  assert (Hall : ∀ b, b ∈ (map_to_list bars).*2 → bucket_ts b = bucket ∧ samples b = 1
    ∧ native_open b = native_close b ∧ native_high b = native_close b
    ∧ native_low b = native_close b).
  { intros b Hin. rewrite Eo in Hin. apply list_elem_of_omap in Hin as (r & Hr & Hm).
    apply minute_bar_some in Hm as (_ & -> & -> & -> & -> & -> & ->).
    rewrite Forall_forall in Hb. by rewrite (Hb r Hr). }
  assert (Hle : ∀ k b, bars !! k = Some b → odt_leb (bucket_ts b) bucket = true).
  { intros k b Hk. destruct (Hall b) as [-> _].
    - apply list_elem_of_fmap. exists (k, b). split; [done|]. by apply elem_of_map_to_list.
    - by apply odt_leb_spec. }
  rewrite map_filter_id in H1 by done.
  assert (H3 : filter (λ kb : InstrumentId * OiSnapshot, ¬ odt_leb (bucket_ts kb.2) bucket = true) bars = ∅).
  { apply map_eq. intros k. rewrite lookup_empty. apply map_lookup_filter_None. right.
    intros b Hk Hn. apply Hn. by eapply Hle. }
  destruct (flush_through (order bars) bars bucket) as [snaps bars']. simpl in H1, H2.
  rewrite H2, H3. destruct (upsert_snapshots repo snaps w) as [res w1] eqn:Eu.
  destruct (funding_step _ _ _ _) as [cursor w2] eqn:Ef. simpl. intros [= <- <-].
  exists snaps. split; [by rewrite H1|]. split.
  { apply Forall_forall. intros b Hin. apply Hall. by rewrite <- H1. }
  split; [|done]. rewrite Eu. simpl. by rewrite Ef.
Qed.

(** A minute of a REST-only exchange, end to end.  From an empty aggregator,
    with one reading per instrument, all dated with the tick's minute, the
    iteration hands the repository exactly one batch: for each reading of a
    known instrument the flat one-sample bar of its enrichment, priced by the
    quotes fetched just before (or by another venue's); then the funding half
    runs, and the aggregator is empty again.  The iteration ends normally
    whenever decimal products do not overflow. *)
Theorem rest_minute_written a order bucket st w raw :
  let p := match ad_fetch_prices a (active_ids (metas st)) with
           | Ok quotes => ingest (loop_prices st) quotes
           | Err _ => loop_prices st
           end in
  (∀ bars, iteration_of (order bars) bars) →
  loop_bars st = ∅ →
  ad_fetch_oi a (active_ids (metas st)) bucket = Ok raw →
  NoDup (raw_instrument <$> raw) → Forall (λ r, raw_bucket_ts r = bucket) raw →
  ((∀ x y : Dec, ∃ z, dec_mul x y = Ret z) →
     ∃ r, loop_iteration repo a order false bucket st w = Ret r)
  ∧ ∀ st' w', loop_iteration repo a order false bucket st w = Ret (st', w') →
    ∃ snaps,
      snaps ≡ₚ omap (minute_bar (metas st) p) raw
      ∧ Forall (λ b, bucket_ts b = bucket ∧ samples b = 1 ∧ native_open b = native_close b
                     ∧ native_high b = native_close b ∧ native_low b = native_close b) snaps
      ∧ (funding_cursor st', w')
        = funding_step repo (ad_fetch_funding a (active_ids (metas st)) bucket)
            (funding_cursor st) (upsert_snapshots repo snaps w).2
      ∧ loop_bars st' = ∅.
Proof.
  intros p Hord Hempty Hraw Hnd Hb. unfold loop_iteration. fold p. rewrite Hraw, Hempty. split.
  - intros Hm. destruct (observe_raws_total (metas st) p raw ∅ Hm) as [bars ->].
    cbn [mbind run_bind]. destruct (flush_through _ _ _) as [snaps bars'].
    destruct (upsert_snapshots repo snaps w). destruct (funding_step _ _ _ _). simpl. eauto.
  - intros st' w' Hrun. apply (minute_batch a order bucket st w raw); try done.
    unfold loop_iteration. fold p. by rewrite Hraw, Hempty.
Qed.
End runner.

(** Funding stream of one instrument over three minutes, with one settlement. *)
Definition ex_funding (next rate : Z) : FundingBar (DL := z_decimal) (TL := z_time) :=
  mkFunding (DL := z_decimal) (TL := z_time) (mkId Binance "BTC") 0 0 rate (Some next) (Some 8).
Definition ex_minutes : list (list (FundingBar (DL := z_decimal) (TL := z_time))) :=
  [[ex_funding 100 3]; [ex_funding 100 4]; [ex_funding 200 5]].
Lemma settlement_events_derived_witness :
  filter (λ e, ev_instrument e = mkId Binance "BTC") (derive_minutes ∅ ex_minutes).1
    = [event_of (mkId Binance "BTC") (100, 4)]
  ∧ StronglySorted (λ e e' : FundingEvent (DL := z_decimal) (TL := z_time),
      @unix_timestamp_nanos z_time (ev_settlement_ts e)
      < @unix_timestamp_nanos z_time (ev_settlement_ts e'))
      (filter (λ e, ev_instrument e = mkId Binance "BTC") (derive_minutes ∅ ex_minutes).1).
Proof.
  destruct (settlement_events_derived (DL := z_decimal) (TL := z_time) ex_minutes
    (mkId Binance "BTC")) as (H1 & _ & H3).
  split; [rewrite H1; reflexivity|]. apply H3.
  repeat (constructor; [|repeat (constructor; [unfold not_later; vm_compute; discriminate|]); constructor]).
  constructor.
Defined.

Definition ex_adapter : ExchangeAdapter (DL := z_decimal) (TL := z_time) :=
  {| ad_exchange := Binance; ad_discover_instruments := Ok [];
     ad_fetch_oi _ bucket := Ok [mkRaw (DL := z_decimal) (TL := z_time) (mkId Binance "BTC") 7 Coins bucket 1 None];
     ad_fetch_prices _ := Ok [mkQuote (DL := z_decimal) (TL := z_time) (mkId Binance "BTC") 10 Mark 0];
     ad_fetch_funding _ _ := Ok []; ad_fetch_funding_history _ _ := Ret (Ok []) |}.
Definition ex_state : LoopState (DL := z_decimal) (TL := z_time) :=
  mkLoop (DL := z_decimal) (TL := z_time)
    [mkMeta (mkId Binance "BTC") "BTC" "USDT" true Coins None None None true]
    (with_tolerance 5) ∅ [] ∅.
(** A store that keeps what it is given. *)
Definition ex_repo : OiRepository (DL := z_decimal) (TL := z_time)
    (list (OiSnapshot (DL := z_decimal) (TL := z_time))) :=
  with_default_funding (λ l w, (Ok tt, w ++ l)) (λ _, mret tt) (λ _ _ _, mret []) (λ _, mret None).
Definition ex_final := (* the state and the store after the minute *)
  loop_iteration ex_repo ex_adapter map_to_list false 0 ex_state [].
Lemma rest_minute_written_witness :
  ∃ st' snaps,
    ex_final = Ret (st', snaps)
    ∧ (λ b : OiSnapshot (DL := z_decimal) (TL := z_time), native_close b) <$> snaps = [7]
    ∧ (λ b : OiSnapshot (DL := z_decimal) (TL := z_time), oi_usd_close b) <$> snaps = [Some 70]
    ∧ loop_bars st' = ∅.
Proof.
  destruct (rest_minute_written (DL := z_decimal) (TL := z_time) ex_repo ex_adapter map_to_list
    0 ex_state [] [mkRaw (DL := z_decimal) (TL := z_time) (mkId Binance "BTC") 7 Coins 0 1 None])
    as [_ H].
  - intros bars. unfold iteration_of. reflexivity.
  - reflexivity.
  - reflexivity.
  - apply NoDup_singleton.
  - apply Forall_singleton. reflexivity.
  - eexists _, _. split; [reflexivity|]. split; [reflexivity|]. split; [reflexivity|].
    destruct (H _ _ eq_refl) as (snaps & _ & _ & _ & Hb). exact Hb.
Defined.
