(* ===== verification/BarTypes.v ===== *)
(** The shape of a one-minute bar, as a type of the values that travel through
    the collector: what [OiSnapshot]'s fields always satisfy, decidable, and kept
    by every operation that makes, folds, moves or stores bars. *)

From Stdlib Require Import ZArith Lia String.
From stdpp Require Import base option list strings gmap.
From S2P Require Import Prelude Externals Concrete Domain Pricing Aggregator SharedBars.
From S2P Require Import Repository ClickHouse Adapter Runner.
Open Scope Z_scope.
Open Scope oi_scope.

Section types.
Context {DL : DecimalLib} {TL : TimeLib}.

#[global] Instance dec_leq_dec (a b : Dec) : Decision (dec_leq a b).
Proof. unfold dec_leq. apply _. Defined.

(** low ≤ open ≤ high and low ≤ close ≤ high *)
Definition ohlc_typed (o h l c : Dec) : Prop :=
  dec_leq l o ∧ dec_leq o h ∧ dec_leq l c ∧ dec_leq c h.
(** A derived column is there as a whole or not at all. *)
Definition group_typed (g : OptOhlc) : Prop :=
  match g with
  | (Some o, Some h, Some l, Some c) => ohlc_typed o h l c
  | (None, None, None, None) => True
  | _ => False
  end.
Definition coins_group (b : OiSnapshot) : OptOhlc :=
  (oi_coins_open b, oi_coins_high b, oi_coins_low b, oi_coins_close b).
Definition usd_group (b : OiSnapshot) : OptOhlc :=
  (oi_usd_open b, oi_usd_high b, oi_usd_low b, oi_usd_close b).

(** [samples] is a u32 that counts at least the first sample. *)
Definition bar_typed (b : OiSnapshot) : Prop :=
  ohlc_typed (native_open b) (native_high b) (native_low b) (native_close b)
  ∧ group_typed (coins_group b) ∧ group_typed (usd_group b)
  ∧ 1 ≤ samples b ≤ u32_max.
(** Each running bar is typed and filed under its own instrument. *)
Definition table_typed (bars : OiAggregator) : Prop :=
  map_Forall (λ k b, instrument b = k ∧ bar_typed b) bars.

#[global] Instance ohlc_typed_dec o h l c : Decision (ohlc_typed o h l c).
Proof. unfold ohlc_typed. apply _. Defined.
#[global] Instance group_typed_dec g : Decision (group_typed g).
Proof. destruct g as [[[[o|] [h|]] [l|]] [c|]]; simpl; apply _. Defined.
#[global] Instance bar_typed_dec b : Decision (bar_typed b).
Proof. unfold bar_typed. apply _. Defined.

Context {DLaws : DecimalLaws DL} {TLaws : TimeLaws TL}.

Lemma ohlc_typed_start v : ohlc_typed v v v v.
Proof. repeat split; apply dec_leq_refl. Qed.

Lemma ohlc_typed_fold o h l c v :
  ohlc_typed o h l c →
  ohlc_typed o (if dec_gtb v h then v else h) (if dec_ltb v l then v else l) v.
Proof.
  intros (Hlo & Hoh & Hlc & Hch).
  assert (Hh : dec_leq h (if dec_gtb v h then v else h)
               ∧ dec_leq v (if dec_gtb v h then v else h)).
  { destruct (dec_gtb v h) eqn:E; [apply dec_gtb_true_le in E|apply dec_gtb_false in E];
      split; first [done|apply dec_leq_refl]. }
  assert (Hl : dec_leq (if dec_ltb v l then v else l) l
               ∧ dec_leq (if dec_ltb v l then v else l) v).
  { destruct (dec_ltb v l) eqn:E; [apply dec_ltb_true_le in E|apply dec_ltb_false in E];
      split; first [done|apply dec_leq_refl]. }
  destruct Hh as [Hh1 Hh2], Hl as [Hl1 Hl2].
  split; [by apply (dec_leq_trans _ l)|]. split; [by apply (dec_leq_trans _ h)|]. done.
Qed.

Lemma group_typed_start o : group_typed (o, o, o, o).
Proof. destruct o; simpl; [apply ohlc_typed_start|done]. Qed.

Lemma group_typed_fold g o : group_typed g → group_typed (fold_optional g o).
Proof.
  intros Hg. destruct o as [v|]; [|done].
  destruct g as [[[[o|] [h|]] [l|]] [c|]]; try done; simpl.
  - apply (ohlc_typed_fold _ _ _ _ v) in Hg. by destruct (dec_gtb v h), (dec_ltb v l).
  - apply ohlc_typed_start.
Qed.

Lemma start_typed s : bar_typed (start_from_sample s).
Proof.
  split; [apply ohlc_typed_start|]. split; [apply group_typed_start|].
  split; [apply group_typed_start|done].
Qed.

Lemma observe_typed b s b' : bar_typed b → observe b s = Ok b' → bar_typed b'.
Proof.
  intros (Hn & Hc & Hu & Hs) Ho.
  pose proof (group_typed_fold _ (s_oi_coins s) Hc) as Hc'.
  pose proof (group_typed_fold _ (s_oi_usd s) Hu) as Hu'.
  apply (ohlc_typed_fold _ _ _ _ (s_native_value s)) in Hn.
  unfold observe in Ho. destruct (_ || _); [done|]. fold (coins_group b) (usd_group b) in Ho.
  destruct (fold_optional (coins_group b) _) as [[[]]],
           (fold_optional (usd_group b) _) as [[[]]].
  injection Ho as <-. split; [exact Hn|]. split; [exact Hc'|]. split; [exact Hu'|].
  simpl. unfold u32_saturating_add, u32_max in *. lia.
Qed.

Lemma table_insert bars k b :
  table_typed bars → instrument b = k → bar_typed b → table_typed (<[k := b]> bars).
Proof. intros Ht Hk Hb. by apply map_Forall_insert_2. Qed.

Lemma agg_observe_typed bars s :
  table_typed bars →
  bar_typed (agg_observe bars s).1 ∧ table_typed (agg_observe bars s).2.
Proof.
  intros Ht. unfold agg_observe.
  pose proof (start_typed s) as Hs.
  destruct (bars !! s_instrument s) as [b|] eqn:E.
  - destruct (Ht _ _ E) as [Hi Hb].
    destruct (odt_eqb _ _); [|split; [done|by apply table_insert]].
    destruct (_ && _); [done|].
    destruct (observe b s) as [b'|] eqn:Eo; [|done]. simpl.
    pose proof (observe_typed _ _ _ Hb Eo). destruct (observe_keys _ _ _ Eo) as (_ & Hi' & _).
    split; [done|]. apply table_insert; [done|congruence|done].
  - rewrite !odt_eqb_refl. simpl. split; [done|by apply table_insert].
Qed.

Lemma table_delete bars k : table_typed bars → table_typed (delete k bars).
Proof. apply map_Forall_delete. Qed.

Lemma remove_keys_typed bars keys :
  table_typed bars →
  Forall bar_typed (remove_keys bars keys).1 ∧ table_typed (remove_keys bars keys).2.
Proof.
  revert bars. induction keys as [|k keys IH]; intros bars Ht; [done|]. simpl.
  destruct (bars !! k) as [b|] eqn:E; [|by apply IH].
  destruct (IH _ (table_delete _ k Ht)) as [H1 H2].
  destruct (remove_keys (delete k bars) keys). simpl in *.
  split; [|done]. constructor; [by apply (Ht k b)|done].
Qed.

Lemma shared_step_typed a st st' :
  shared_step a st = Some st' → table_typed (bars st) → table_typed (bars st').
Proof.
  intros Hs Ht. destruct a; simpl in Hs;
    [injection Hs as <-; by apply agg_observe_typed|..];
    destruct (flush st) as [| |? [|k' ?] ?]; try done; injection Hs as <-; try done.
  simpl. destruct (bars st !! k'); [by apply table_delete|done].
Qed.

Lemma observe_raws_typed ms p raw bars bars' :
  table_typed bars → observe_raws ms p bars raw = Ret bars' → table_typed bars'.
Proof.
  revert bars. induction raw as [|r raw IH]; intros bars Ht Ho; simpl in Ho.
  { by injection Ho as <-. }
  destruct (observe_raw ms p bars r) as [bars1|] eqn:E; [|done]. simpl in Ho.
  eapply IH; [|exact Ho]. unfold observe_raw in E. destruct (List.find _ ms) as [m|];
    [|by injection E as <-].
  destruct (enrich _ _ _) as [[s|e]|]; simpl in E; [..|done]; injection E as <-;
    [by apply agg_observe_typed|done].
Qed.

(** Typing does not see how a decimal is written. *)
Lemma ohlc_typed_equiv o h l c o' h' l' c' :
  o ≡ o' → h ≡ h' → l ≡ l' → c ≡ c' → ohlc_typed o h l c → ohlc_typed o' h' l' c'.
Proof. unfold ohlc_typed. by intros -> -> -> ->. Qed.

Lemma group_typed_equiv (o h l c o' h' l' c' : option Dec) :
  o ≡ o' → h ≡ h' → l ≡ l' → c ≡ c' → group_typed (o, h, l, c) → group_typed (o', h', l', c').
Proof.
  intros [] [] [] []; simpl; try done. by apply ohlc_typed_equiv.
Qed.

#[global] Instance bar_typed_proper : Proper (equiv ==> flip impl) bar_typed.
Proof.
  intros a b (_ & _ & _ & _ & Hs & _ & Hd) (Hn & Hc & Hu & Hr).
  unfold ohlc_equiv, snap_decimals in Hd.
  repeat match goal with
  | H : Forall2 _ (_ :: _) (_ :: _) |- _ => apply Forall2_cons in H as [? H]
  | H : Some _ ≡ Some _ |- _ => apply (inj Some) in H
  end.
  split; [|split; [|split; [|by rewrite Hs]]];
    [eapply ohlc_typed_equiv; [..|exact Hn]|eapply group_typed_equiv; [..|exact Hc]
    |eapply group_typed_equiv; [..|exact Hu]]; symmetry; assumption.
Qed.

Lemma row_typed b b' :
  bar_typed b → row_to_snap (snap_to_row b) = Ok b' → bar_typed b'.
Proof.
  intros Hb Hr. destruct (snap_row_reads b) as (b1 & H1 & H2).
  assert (b1 = b') as -> by congruence. by rewrite H2.
Qed.

(** What the minute loop needs of a world [P] to hold between iterations. *)
Record keeps_typed {W} (repo : OiRepository W) (P : W → Prop) : Prop := {
  kt_snapshots snaps w : Forall bar_typed snaps → P w → P (upsert_snapshots repo snaps w).2;
  kt_instruments ms w : P w → P (upsert_instruments repo ms w).2;
  kt_funding bs w : P w → P (upsert_funding repo bs w).2;
  kt_events es w : P w → P (upsert_funding_events repo es w).2;
}.

Lemma funding_step_keeps {W} (repo : OiRepository W) P fetched cursor w :
  keeps_typed repo P → P w → P (funding_step repo fetched cursor w).2.
Proof.
  intros Hk Hw. unfold funding_step. destruct fetched as [[|f fs]|]; try done.
  destruct (derive_events _ _) as [[|e es] c]; simpl; apply (kt_funding _ _ Hk); [done|].
  by apply (kt_events _ _ Hk).
Qed.

Lemma loop_iteration_typed {W} (repo : OiRepository W) P a order due bucket st w st' w' :
  keeps_typed repo P → table_typed (loop_bars st) → P w →
  loop_iteration repo a order due bucket st w = Ret (st', w') →
  table_typed (loop_bars st') ∧ P w'.
Proof.
  intros Hk Ht Hw. unfold loop_iteration. destruct (ad_fetch_oi a _ _) as [raw|e];
    [|by intros [= <- <-]].
  destruct (observe_raws _ _ _ _) as [bars1|] eqn:Eo; [|done]. cbn [mbind run_bind].
  pose proof (observe_raws_typed _ _ _ _ _ Ht Eo) as Ht1.
  destruct (remove_keys_typed _ (flush_keys (order bars1) bucket) Ht1) as [Hs Ht2].
  fold (flush_through (order bars1) bars1 bucket) in Hs, Ht2.
  destruct (flush_through _ _ _) as [snaps bars2]. simpl in Hs, Ht2.
  pose proof (kt_snapshots _ _ Hk snaps w Hs Hw) as Hw1.
  destruct (upsert_snapshots repo snaps w) as [r1 w1]. simpl in Hw1.
  pose proof (funding_step_keeps repo P (ad_fetch_funding a (active_ids (metas st)) bucket)
                (funding_cursor st) w1 Hk Hw1) as Hw2.
  destruct (funding_step _ _ _ _) as [cursor w2]. simpl in Hw2. unfold refresh_step.
  destruct due; [|by intros [= <- <-]].
  destruct (ad_discover_instruments a) as [ms|e]; [|by intros [= <- <-]].
  pose proof (kt_instruments _ _ Hk ms w2 Hw2) as Hw3.
  destruct (upsert_instruments repo ms w2). by intros [= <- <-].
Qed.

(** C12. Bars are well typed everywhere: low ≤ open ≤ high and low ≤ close ≤
    high in the native column, the coins and the dollar columns whole or absent
    with the same order, a sample count between one and the u32 maximum.  A
    sample starts a typed bar; [observe] keeps a bar typed; every step of the
    concurrent aggregator keeps its map typed and filed by instrument, so what
    [flush_through] and [flush_all] return is typed; a row read back from the
    database is; and an iteration of the minute loop hands the storage layer
    typed bars only, whatever the exchange answered. *)
Theorem bars_well_typed {W} (repo : OiRepository W) (P : W → Prop) a order bars0 :
  keeps_typed repo P → table_typed bars0 →
  (∀ s, bar_typed (start_from_sample s))
  ∧ (∀ b s b', bar_typed b → observe b s = Ok b' → bar_typed b')
  ∧ (∀ act f st', shared_step act (mkShared bars0 f) = Some st' → table_typed (bars st'))
  ∧ (∀ l up_to, Forall bar_typed (flush_through l bars0 up_to).1
                ∧ Forall bar_typed (flush_all l bars0).1)
  ∧ (∀ b b', bar_typed b → row_to_snap (snap_to_row b) = Ok b' → bar_typed b')
  ∧ (∀ due bucket st w st' w', loop_bars st = bars0 → P w →
       loop_iteration repo a order due bucket st w = Ret (st', w') →
       table_typed (loop_bars st') ∧ P w').
Proof.
  intros Hk Ht. split; [apply start_typed|]. split; [apply observe_typed|].
  split; [intros act f st' Hs; by eapply shared_step_typed|].
  split; [intros l up_to; split; by apply remove_keys_typed|].
  split; [apply row_typed|]. intros due bucket st w st' w' <- Hw.
  by apply loop_iteration_typed.
Qed.
End types.

(** * Concrete bars *)

Example typed_bar : bool_decide (bar_typed (start_from_sample (ex_at 10 1 100))) = true.
Proof. reflexivity. Qed.
(** A bar whose high fell behind its close is not one. *)
Example untyped_bar : bool_decide (ohlc_typed (DL := z_decimal) 5 6 4 7) = false.
Proof. reflexivity. Qed.

Lemma ex_repo_keeps :
  keeps_typed (DL := z_decimal) (TL := z_time) Runner.ex_repo
    (λ w, Forall (bar_typed (DL := z_decimal) (TL := z_time)) w).
Proof. split; simpl; try done. intros. by apply Forall_app. Qed.

Lemma bars_well_typed_witness :
  table_typed (DL := z_decimal) (TL := z_time) (agg_observe ∅ (ex_at 10 1 100)).2
  ∧ ∃ st' w', ex_final = Ret (st', w')
    ∧ Forall (bar_typed (DL := z_decimal) (TL := z_time)) w' ∧ length w' = 1%nat.
Proof.
  assert (H0 : table_typed (DL := z_decimal) (TL := z_time) (loop_bars ex_state))
    by apply map_Forall_empty.
  destruct (bars_well_typed (DL := z_decimal) (TL := z_time) Runner.ex_repo _ ex_adapter
              map_to_list _ ex_repo_keeps H0) as (_ & _ & H1 & _ & _ & H).
  split; [exact (H1 (Observe (ex_at 10 1 100)) Idle _ eq_refl)|].
  eexists _, _. split; [reflexivity|]. split; [|reflexivity].
  exact (proj2 (H false 0 ex_state [] _ _ eq_refl (Forall_nil_2 _) eq_refl)).
Defined.
