(* ===== verification/Backfill.v ===== *)
(** The resync tool of [oi-collector/src/backfill.rs]: write the current open
    interest as the bars of one minute, or of the last few, with the adapter
    given; [Boot.resync_exchange] builds it first. *)

From Stdlib Require Import ZArith Lia String.
From stdpp Require Import base option list strings gmap.
From S2P Require Import Prelude Externals Concrete Domain Buckets Repository FanOut Adapter Runner.
Open Scope Z_scope.
Open Scope oi_scope.

(** The [anyhow] error of the tool. *)
Inductive ResyncError := RExchange (e : ExchangeError) | RCore (e : CoreError).

Section backfill.
Context {DL : DecimalLib} {TL : TimeLib} {W : Type} (repo : OiRepository W).

(** The two indexes: a later entry replaces an earlier one. *)
Definition price_by_inst (prices : list PriceQuote) : gmap InstrumentId PriceQuote :=
  foldl (λ m p, <[q_instrument p := p]> m) ∅ prices.
Definition meta_by_inst (ms : list InstrumentMeta) : gmap InstrumentId InstrumentMeta :=
  foldl (λ m x, <[meta_id x := x]> m) ∅ ms.

(** The body of [for r in raws]. *)
Definition resync_raw (ms : gmap InstrumentId InstrumentMeta) (ps : gmap InstrumentId PriceQuote)
    (r : RawOi) : run (option OiSnapshot) :=
  match ms !! raw_instrument r with
  | None => Ret None
  | Some meta =>
      let price := opt_or (q_price <$> raw_price_hint r) (q_price <$> ps !! raw_instrument r) in
      e ← enrich r meta price;
      Ret match e with Ok s => Some (start_from_sample s) | Err _ => None end
  end.
Fixpoint resync_raws (ms : gmap InstrumentId InstrumentMeta) (ps : gmap InstrumentId PriceQuote)
    (raws : list RawOi) : run (list OiSnapshot) :=
  match raws with
  | [] => Ret []
  | r :: raws' =>
      o ← resync_raw ms ps r; l ← resync_raws ms ps raws'; Ret (option_list o ++ l)
  end.

(** [resync_bucket]; the number of rows written. *)
Definition resync_bucket (a : ExchangeAdapter) (bucket : OffsetDateTime) (w : W)
  : run (result ResyncError Z * W) :=
  match ad_discover_instruments a with
  | Err e => Ret (Err (RExchange e), w)
  | Ok ms =>
      match upsert_instruments repo ms w with
      | (Err e, w) => Ret (Err (RCore e), w)
      | (Ok _, w) =>
          let ids := active_ids ms in
          let prices := unwrap_or [] (ad_fetch_prices a ids) in
          match ad_fetch_oi a ids bucket with
          | Err e => Ret (Err (RExchange e), w)
          | Ok raws =>
              snaps ← resync_raws (meta_by_inst ms) (price_by_inst prices) raws;
              match upsert_snapshots repo snaps w with
              | (Err e, w) => Ret (Err (RCore e), w)
              | (Ok _, w) => Ret (Ok (Z.of_nat (length snaps)), w)
              end
          end
      end
  end.

(** The loop of [resync_recent], from minute [i] on; [answers] are the
    exchange's answers during each minute's pass. *)
Fixpoint resync_loop (answers : nat → ExchangeAdapter) (start_min : OffsetDateTime)
    (left i : nat) (total : Z) (w : W) : run (Z * W) :=
  match left with
  | O => Ret (total, w)
  | S left' =>
      bucket ← odt_add start_min (dur_minutes (Z.of_nat i));
      rw ← resync_bucket (answers i) bucket w;
      let total := match rw.1 with Ok n => total + n | Err _ => total end in
      resync_loop answers start_min left' (S i) total rw.2
  end.
Definition resync_recent (answers : nat → ExchangeAdapter) (now : OffsetDateTime) (minutes : nat)
    (w : W) : run (Z * W) :=
  f ← backfill_floor now;
  start_min ← odt_sub f (dur_minutes (Z.of_nat minutes));
  resync_loop answers start_min minutes 0 0 w.

(** * Specification *)

(** The passes over [buckets], in order: what each wrote, and the worlds. *)
Inductive passes (answers : nat → ExchangeAdapter)
  : nat → list OffsetDateTime → W → list (result ResyncError Z) → W → Prop :=
| passes_nil i w : passes answers i [] w [] w
| passes_cons i b bs w r w1 rs w2 :
    resync_bucket (answers i) b w = Ret (r, w1) →
    passes answers (S i) bs w1 rs w2 → passes answers i (b :: bs) w (r :: rs) w2.

Definition rows_written (rs : list (result ResyncError Z)) : Z :=
  foldr (λ r acc, match r with Ok n => n + acc | Err _ => acc end) 0 rs.

(** The one-sample bar of a reading: every value is the reading's. *)
Definition flat_bar (b : OiSnapshot) : Prop :=
  samples b = 1 ∧ native_open b = native_close b ∧ native_high b = native_close b
  ∧ native_low b = native_close b ∧ oi_usd_open b = oi_usd_close b
  ∧ oi_coins_open b = oi_coins_close b.

Lemma resync_raws_spec ms ps raws snaps :
  resync_raws ms ps raws = Ret snaps →
  Forall (λ b, flat_bar b
    ∧ ∃ r, r ∈ raws ∧ instrument b = raw_instrument r ∧ bucket_ts b = raw_bucket_ts r
           ∧ native_close b = raw_value r) snaps
  ∧ (∀ r, r ∈ raws → is_Some (ms !! raw_instrument r) →
       (∀ i m, ms !! i = Some m → meta_id m = i) →
       ∃ b, b ∈ snaps ∧ instrument b = raw_instrument r).
Proof.
  revert snaps. induction raws as [|r raws IH]; intros snaps; cbn [resync_raws].
  { intros [= <-]. split; [constructor|]. intros r Hr. by apply not_elem_of_nil in Hr. }
  destruct (resync_raw ms ps r) as [o|] eqn:E; cbn [mbind run_bind]; [|done].
  destruct (resync_raws ms ps raws) as [l|]; cbn [mbind run_bind]; [|done]. intros [= <-].
  destruct (IH l eq_refl) as [IH1 IH2].
  assert (Ho : ∀ b, o = Some b → flat_bar b ∧ instrument b = raw_instrument r
    ∧ bucket_ts b = raw_bucket_ts r ∧ native_close b = raw_value r).
  { intros b ->. unfold resync_raw in E. destruct (ms !! _) as [meta|]; [|done].
    destruct (enrich _ _ _) as [[s|]|] eqn:Ee; cbn [mbind run_bind] in E; try done.
    injection E as <-. apply enrich_ok in Ee as (Hi & Hb & Hv). by repeat split. }
  split.
  - apply Forall_app. split.
    + destruct o as [b|]; simpl; [|constructor]. constructor; [|constructor].
      destruct (Ho b eq_refl) as (? & ? & ? & ?). split; [done|]. exists r. split; [left|done].
    + eapply Forall_impl; [exact IH1|]. intros b (Hf & r' & Hr' & H). split; [done|].
      exists r'. split; [by right|done].
  - intros r' [->|Hr']%elem_of_cons Hm Hid.
    + destruct o as [b|].
      * exists b. split; [left|by apply Ho].
      * exfalso. destruct Hm as [meta Hm]. unfold resync_raw in E. rewrite Hm in E.
        pose proof (Hid _ _ Hm) as Hmi. unfold enrich in E.
        rewrite (bool_decide_true (raw_instrument r = meta_id meta)) in E by done.
        simpl in E. destruct (to_coins _ _ _); [|done]. by destruct (to_usd _ _ _ _).
    + destruct (IH2 r' Hr' Hm Hid) as (b & Hb & ?). exists b. split; [|done].
      apply elem_of_app. by right.
Qed.

Lemma meta_by_inst_id ms i m : meta_by_inst ms !! i = Some m → meta_id m = i.
Proof.
  unfold meta_by_inst. induction ms as [|x ms IH] using rev_ind; [simpl; by rewrite lookup_empty|].
  rewrite foldl_snoc. intros [[<- <-]|[_ H]]%lookup_insert_Some; [done|by apply IH].
Qed.
Lemma meta_by_inst_some ms m : m ∈ ms → is_Some (meta_by_inst ms !! meta_id m).
Proof.
  unfold meta_by_inst. induction ms as [|x ms IH] using rev_ind; [by intros ?%not_elem_of_nil|].
  rewrite foldl_snoc. intros Hm. destruct (decide (meta_id x = meta_id m)) as [->|Hne].
  - rewrite lookup_insert_eq. eauto.
  - rewrite lookup_insert_ne by done. apply IH.
    apply elem_of_app in Hm as [?| ->%list_elem_of_singleton]; done.
Qed.

(** One resync pass.  When it reports [n] rows, exactly one batch of [n]
    bars went to the repository after the instruments: flat one-sample bars of
    the asked minute and of discovered active instruments, one for every reading
    the exchange returned.  When it fails, either no bar was handed over or the
    repository itself refused the batch. *)
Theorem resync_bucket_correct a {AC : AdapterContract a} bucket w r w' :
  resync_bucket a bucket w = Ret (r, w') →
  match r with
  | Ok n =>
      ∃ ms raws snaps w1,
        ad_discover_instruments a = Ok ms
        ∧ upsert_instruments repo ms w = (Ok tt, w1)
        ∧ ad_fetch_oi a (active_ids ms) bucket = Ok raws
        ∧ upsert_snapshots repo snaps w1 = (Ok tt, w') ∧ n = Z.of_nat (length snaps)
        ∧ Forall (λ b, flat_bar b ∧ bucket_ts b = bucket ∧ instrument b ∈ active_ids ms) snaps
        ∧ (∀ x, x ∈ raws → ∃ b, b ∈ snaps ∧ instrument b = raw_instrument x)
  | Err e =>
      w' = w ∨ (∃ ms r1, upsert_instruments repo ms w = (r1, w'))
      ∨ ∃ ms w1 snaps e1, upsert_instruments repo ms w = (Ok tt, w1)
          ∧ upsert_snapshots repo snaps w1 = (Err e1, w') ∧ e = RCore e1
  end.
Proof.
  unfold resync_bucket. destruct (ad_discover_instruments a) as [ms|e] eqn:Ed;
    [|intros [= <- <-]; by left].
  destruct (upsert_instruments repo ms w) as [[[]|e] w1] eqn:Eu;
    [|intros [= <- <-]; right; left; eauto].
  destruct (ad_fetch_oi a (active_ids ms) bucket) as [raws|e] eqn:Ef;
    [|intros [= <- <-]; right; left; eauto].
  destruct (resync_raws _ _ raws) as [snaps|] eqn:Er; cbn [mbind run_bind]; [|done].
  destruct (upsert_snapshots repo snaps w1) as [[[]|e] w2] eqn:Es; intros [= <- <-].
  2:{ right. right. by exists ms, w1, snaps, e. }
  exists ms, raws, snaps, w1. do 5 (split; [done|]).
  pose proof (contract_discover ms Ed) as Hd. rewrite Forall_forall in Hd.
  assert (Hids : Forall (λ i, exchange i = ad_exchange a) (active_ids ms)).
  { apply Forall_fmap, Forall_forall. intros m [_ Hm]%list_elem_of_filter. by apply Hd. }
  pose proof (contract_oi _ _ _ Hids Ef) as Ho. rewrite Forall_forall in Ho.
  destruct (resync_raws_spec _ _ _ _ Er) as [H1 H2]. split.
  - eapply Forall_impl; [exact H1|]. intros b (Hflat & x & Hx & -> & -> & _).
    destruct (Ho x Hx) as (? & ? & _). done.
  - intros x Hx. apply H2; [done| |intros; by apply meta_by_inst_id with ms].
    destruct (Ho x Hx) as (Hin & _). apply list_elem_of_fmap in Hin as (m & -> & Hm).
    apply list_elem_of_filter in Hm as [_ Hm]. by apply meta_by_inst_some.
Qed.

Context {TLaws : TimeLaws TL}.

Lemma resync_loop_passes answers start_min left i total w t w' :
  resync_loop answers start_min left i total w = Ret (t, w') →
  ∃ bs rs, passes answers i bs w rs w' ∧ length bs = left ∧ t = total + rows_written rs
    ∧ ∀ k b, bs !! k = Some b →
        unix_timestamp_nanos b
        = unix_timestamp_nanos start_min + dur_minutes (Z.of_nat (i + k)).
Proof.
  revert i total w. induction left as [|left IH]; intros i total w; cbn [resync_loop].
  { intros [= <- <-]. exists [], []. split; [constructor|]. split; [done|].
    split; [simpl; lia|done]. }
  destruct (odt_add start_min _) as [b|] eqn:Ea; cbn [mbind run_bind]; [|done].
  destruct (resync_bucket (answers i) b w) as [[r w1]|] eqn:Er; cbn [mbind run_bind fst snd]; [|done].
  intros (bs & rs & Hp & Hlen & -> & Hbs)%IH.
  exists (b :: bs), (r :: rs). split; [by econstructor|]. split; [simpl; lia|].
  split; [destruct r; simpl; lia|].
  intros [|k] b' Hk; simpl in Hk.
  - injection Hk as <-. rewrite Nat.add_0_r. by apply odt_add_ret.
  - rewrite (Hbs _ _ Hk). f_equal. f_equal. lia.
Qed.

(** The resync of the last [minutes] minutes makes one pass per minute,
    oldest first: the minutes are whole, consecutive, all before the current
    one, which is left to the collector; a failed pass does not stop the later
    ones; and the answer is the sum of the rows of the passes that succeeded. *)
Theorem resync_recent_correct answers now minutes w t w' :
  resync_recent answers now minutes w = Ret (t, w') →
  ∃ bs rs, passes answers 0 bs w rs w' ∧ length bs = minutes ∧ t = rows_written rs
    ∧ (∀ k b, bs !! k = Some b →
         unix_timestamp_nanos b
         = minute_start (unix_timestamp_nanos now) - (Z.of_nat minutes - Z.of_nat k) * nanos_per_min
         ∧ aligned b ∧ unix_timestamp_nanos b + nanos_per_min ≤ unix_timestamp_nanos now).
Proof.
  unfold resync_recent. rewrite backfill_floor_eq.
  destruct (floor_to_minute_run now) as (f & Hf & Hn). rewrite Hf. cbn [mbind run_bind].
  rewrite odt_sub_add. destruct (odt_add f _) as [s|] eqn:Es; cbn [mbind run_bind]; [|done].
  apply odt_add_ret in Es. intros (bs & rs & Hp & Hlen & Ht & Hbs)%resync_loop_passes.
  exists bs, rs. split; [done|]. split; [done|]. split; [lia|]. intros k b Hk.
  assert (Hlt : (k < minutes)%nat) by (rewrite <- Hlen; by eapply lookup_lt_Some).
  assert (Hb : unix_timestamp_nanos b = minute_start (unix_timestamp_nanos now)
    - (Z.of_nat minutes - Z.of_nat k) * nanos_per_min).
  { rewrite (Hbs _ _ Hk), Es, Hn. unfold dur_minutes. simpl (0 + k)%nat. lia. }
  split; [done|]. pose proof (minute_start_bounds (unix_timestamp_nanos now)) as Hbd.
  assert (0 < nanos_per_min) by done. split.
  - unfold aligned. rewrite Hb.
    apply Z.mod_divide; [lia|]. apply Z.divide_sub_r.
    + apply Z.mod_divide; [lia|]. apply minute_start_aligned.
    + apply Z.divide_factor_r.
  - rewrite Hb. nia.
Qed.
End backfill.

(** An exchange with one instrument that reads 7. *)
Definition ex_resync : ExchangeAdapter (DL := z_decimal) (TL := z_time) :=
  {| ad_exchange := Binance;
     ad_discover_instruments :=
       Ok [mkMeta (DL := z_decimal) (mkId Binance "BTC") "BTC" "USDT" true Coins None None None true];
     ad_fetch_oi insts bucket :=
       Ok ((λ i, mkRaw (DL := z_decimal) (TL := z_time) i 7 Coins bucket 1 None) <$> insts);
     ad_fetch_prices _ := Err (NotFound "down"); ad_fetch_funding _ _ := Ok [];
     ad_fetch_funding_history _ _ := Ret (Ok []) |}.
#[local] Instance ex_resync_contract : AdapterContract ex_resync.
Proof.
  split; simpl.
  - intros metas [= <-]. by apply Forall_singleton.
  - intros insts bucket out _ [= <-]. apply Forall_fmap, Forall_forall. done.
  - done.
  - intros insts bucket out _ [= <-]. done.
  - intros i since out _ [= <-]. done.
Qed.
Lemma resync_bucket_correct_witness :
  ∃ snaps, resync_bucket ex_repo ex_resync 0 [] = Ret (Ok 1, snaps)
    ∧ (λ b : OiSnapshot (DL := z_decimal) (TL := z_time), native_close b) <$> snaps = [7]
    ∧ ∃ n, n = 1 ∧ ∃ out, n = Z.of_nat (length out)
         ∧ Forall (flat_bar (DL := z_decimal) (TL := z_time)) out.
Proof.
  eexists. split; [reflexivity|]. split; [reflexivity|]. exists 1. split; [reflexivity|].
  destruct (resync_bucket_correct (DL := z_decimal) (TL := z_time) ex_repo ex_resync 0 [] (Ok 1) _
    eq_refl) as (ms & raws & snaps & w1 & _ & _ & _ & _ & Hn & Hf & _).
  exists snaps. split; [exact Hn|]. eapply Forall_impl; [exact Hf|]. intros b [Hb _]. exact Hb.
Defined.
Lemma resync_recent_correct_witness :
  ∃ w', resync_recent ex_repo (λ _, ex_resync) (5 * nanos_per_min + 7) 2 [] = Ret (2, w')
    ∧ ∃ bs : list Z, length bs = 2%nat
      ∧ ∀ k b, bs !! k = Some b → @unix_timestamp_nanos z_time b + nanos_per_min
                                  ≤ @unix_timestamp_nanos z_time (5 * nanos_per_min + 7).
Proof.
  eexists. split; [reflexivity|].
  destruct (resync_recent_correct (DL := z_decimal) (TL := z_time) ex_repo (λ _, ex_resync)
    (5 * nanos_per_min + 7) 2 [] 2 _ eq_refl) as (bs & rs & _ & Hl & _ & Hb).
  exists bs. split; [exact Hl|]. intros k b Hk. apply (Hb k b Hk).
Defined.
