(* ===== verification/Wiring.v ===== *)
(** How the programs are put together: the storage stack, the drainer and the
    tasks that [run_async] of [oi-collector/src/runner.rs] builds from its
    configuration, and the resync command of [oi-collector/src/main.rs]. *)

From Stdlib Require Import ZArith Lia String.
From stdpp Require Import base option list strings gmap.
From S2P Require Import Prelude Externals Concrete Domain Repository Wal Lease Cluster Config.
From S2P Require Import FanOut Adapter Adapters Runner Backfill.
Open Scope Z_scope.
Open Scope oi_scope.

Section collector.
Context {DL : DecimalLib} {TL : TimeLib} {SC : SnapCodec}.
Context {W : Type} (inner : OiRepository W) (lead : W → bool) (wal : FileWal)
        (conn : RedisConn (Disk * W)).

(** * The storage stack *)

Definition leader_gate_of (cfg : Config) : option (W → bool) :=
  if fo_enabled (cfg_failover cfg) then Some lead else None.
Definition gated_of (cfg : Config) : OiRepository W :=
  match leader_gate_of cfg with Some g => leader_gated inner g | None => inner end.
(** Without a log the calls go to the gated database, the directory beside. *)
Definition primary_of (cfg : Config) : OiRepository (Disk * W) :=
  if wal_enabled (cfg_wal cfg) then wal_backed (gated_of cfg) wal else snd_repo (gated_of cfg).
Definition collector_repo (cfg : Config) : OiRepository (Disk * W) :=
  let c := with_primary (primary_of cfg) conn in
  composite (match leader_gate_of cfg with
             | Some g => with_leader_gate c (λ dw, g dw.2)
             | None => c
             end).

(** One turn of the drainer, when there is one. *)
Definition collector_drainer (cfg : Config) : option (SE (Disk * W) CoreError unit) :=
  if wal_enabled (cfg_wal cfg)
  then Some (drainer_tick wal (gated_of cfg) (leader_gate_of cfg)
               ((λ s, s * 1000) <$> wal_follower_max_age_secs (cfg_wal cfg)))
  else None.
End collector.

(** * The tasks *)

Inductive Spawn := SpawnDrainer | SpawnLive (ex : Exchange) | SpawnSweep (ex : Exchange)
                 | SpawnLoop (ex : Exchange).

(** The live streams, in the order of their blocks. *)
Definition live_exchanges : list Exchange := [Bybit; Bitget; Hyperliquid; Okx].
Definition live_spawns (enabled : list Exchange) : list Spawn :=
  SpawnLive <$> filter (λ ex, ex ∈ enabled) live_exchanges.
(** The symbols a live task subscribes to, from its own discovery. *)
Definition live_symbols `{DL : DecimalLib, TL : TimeLib}
    (discovered : result ExchangeError (list InstrumentMeta)) : option (list string) :=
  match discovered with
  | Err _ => None
  | Ok metas => Some ((λ m, symbol (meta_id m)) <$> filter (λ m, active m = true) metas)
  end.

(** The loop over the enabled exchanges: the first adapter that cannot be built
    ends [run_async] with its error. *)
Fixpoint exchange_spawns (build : Exchange → result string unit) (enabled : list Exchange)
  : list Spawn * result string unit :=
  match enabled with
  | [] => ([], Ok tt)
  | ex :: rest =>
      match build ex with
      | Err e => ([], Err e)
      | Ok _ => let '(l, r) := exchange_spawns build rest in (SpawnSweep ex :: SpawnLoop ex :: l, r)
      end
  end.
Definition collector_spawns (build : Exchange → result string unit) (cfg : Config)
  : list Spawn * result string unit :=
  let enabled := enabled_exchanges (cfg_exchanges cfg) in
  let '(l, r) := exchange_spawns build enabled in
  ((if wal_enabled (cfg_wal cfg) then [SpawnDrainer] else []) ++ live_spawns enabled ++ l, r).

(** The exchange whose bars a task folds into or flushes. *)
Definition aggregator_of (s : Spawn) : option Exchange :=
  match s with SpawnLive ex | SpawnLoop ex => Some ex | SpawnSweep _ | SpawnDrainer => None end.

(** * The resync command *)

Inductive CliError :=
| Bail (message : string)
| ConfigError (message : string)
| ConnectError (message : string)
| ParseError (message : string)
| ResyncFailed (e : ResyncError).

Definition resync_exchanges (raw : string) : result string (list Exchange) :=
  if String.eqb (to_ascii_lowercase raw) "all"
  then Ok (filter (λ ex, is_production_ready ex = true) exchange_all)
  else let? ex := exchange_from_str raw in Ok [ex].

Section cli.
Context {DL : DecimalLib} {TL : TimeLib} {W : Type} (repo : OiRepository W).
(** An exchange's answers during its pass for the [i]th minute. *)
Context (answers : Exchange → nat → ExchangeAdapter) (now : Exchange → OffsetDateTime).

(** The body of the loop over the exchanges. *)
Definition resync_one (bucket : option string) (minutes : Z) (ex : Exchange) (w : W)
  : run (result CliError Z * W) :=
  match bucket with
  | Some text =>
      match rfc3339_parse text with
      | Err e => Ret (Err (ParseError e), w)
      | Ok ts => rw ← resync_bucket repo (answers ex 0) ts w;
                 Ret (map_err ResyncFailed rw.1, rw.2)
      end
  | None => rw ← resync_recent repo (answers ex) (now ex) (Z.to_nat minutes) w;
            Ret (Ok rw.1, rw.2)
  end.
Fixpoint resync_each (bucket : option string) (minutes : Z) (exs : list Exchange) (total : Z) (w : W)
  : run (result CliError Z * W) :=
  match exs with
  | [] => Ret (Ok total, w)
  | ex :: rest =>
      rw ← resync_one bucket minutes ex w;
      match rw.1 with
      | Err e => Ret (Err e, rw.2)
      | Ok n => resync_each bucket minutes rest (total + n) rw.2
      end
  end.

(** [config] and [connected] are the outcomes of loading the configuration and
    of reaching Redis. *)
Definition run_resync (exchange_raw : string) (bucket : option string) (minutes : option Z)
    (config : result string Config) (connected : result string unit) (w : W)
  : run (result CliError Z * W) :=
  match bucket, minutes with
  | None, None => Ret (Err (Bail "resync: must specify either --bucket or --minutes"), w)
  | Some _, Some _ =>
      Ret (Err (Bail "resync: --bucket and --minutes are mutually exclusive"), w)
  | _, _ =>
      match config with
      | Err e => Ret (Err (ConfigError e), w)
      | Ok _ =>
          match connected with
          | Err e => Ret (Err (ConnectError e), w)
          | Ok _ =>
              match resync_exchanges exchange_raw with
              | Err e => Ret (Err (ParseError e), w)
              | Ok exs => resync_each bucket (default 0 minutes) exs 0 w
              end
          end
      end
  end.

(** * Specification *)

(** The exchanges a command line names. *)
Definition names (raw : string) (exs : list Exchange) : Prop :=
  to_ascii_lowercase raw = "all"%string
    ∧ exs = filter (λ ex, is_production_ready ex = true) exchange_all
  ∨ ∃ ex, exs = [ex] ∧ to_ascii_lowercase raw = code ex.

(** One exchange's pass that writes [n] rows: the bucket asked for, or the last
    minutes; and one that fails, which only a bucket's can. *)
Inductive resynced (bucket : option string) (minutes : Z) (ex : Exchange) (w : W)
  : Z → W → Prop :=
| rs_bucket text ts n w1 : bucket = Some text → rfc3339_parse text = Ok ts →
    resync_bucket repo (answers ex 0) ts w = Ret (Ok n, w1) → resynced bucket minutes ex w n w1
| rs_minutes n w1 : bucket = None →
    resync_recent repo (answers ex) (now ex) (Z.to_nat minutes) w = Ret (n, w1) →
    resynced bucket minutes ex w n w1.
Definition resync_fails (bucket : option string) (ex : Exchange) (w : W) (e : ResyncError) (w1 : W)
  : Prop :=
  ∃ text ts, bucket = Some text ∧ rfc3339_parse text = Ok ts
  ∧ resync_bucket repo (answers ex 0) ts w = Ret (Err e, w1).

(** The exchanges in order, each starting from the world the one before left. *)
Inductive each_resynced (bucket : option string) (minutes : Z)
  : list Exchange → W → list Z → W → Prop :=
| each_nil w : each_resynced bucket minutes [] w [] w
| each_cons ex exs w n w1 ns w2 :
    resynced bucket minutes ex w n w1 →
    each_resynced bucket minutes exs w1 ns w2 →
    each_resynced bucket minutes (ex :: exs) w (n :: ns) w2.

Definition readable (bucket : option string) : Prop :=
  ∀ text, bucket = Some text → is_ok (rfc3339_parse text) = true.

Lemma resync_one_spec bucket minutes ex w r w1 :
  readable bucket → resync_one bucket minutes ex w = Ret (r, w1) →
  match r with
  | Ok n => resynced bucket minutes ex w n w1
  | Err e => ∃ e', e = ResyncFailed e' ∧ resync_fails bucket ex w e' w1
  end.
Proof.
  intros Hb. unfold resync_one. destruct bucket as [text|].
  - specialize (Hb text eq_refl). destruct (rfc3339_parse text) as [ts|] eqn:Ep; [|done].
    destruct (resync_bucket _ _ _ _) as [[[n|e] w2]|] eqn:E; cbn [mbind run_bind fst snd map_err];
      [| |done]; intros [= <- <-]; [by eapply rs_bucket|].
    exists e. split; [done|]. by exists text, ts.
  - destruct (resync_recent _ _ _ _ _) as [[n w2]|] eqn:E; cbn [mbind run_bind fst snd]; [|done].
    intros [= <- <-]. by apply rs_minutes.
Qed.

Lemma resync_each_spec bucket minutes exs : readable bucket → ∀ total w r w',
  resync_each bucket minutes exs total w = Ret (r, w') →
  match r with
  | Ok n => ∃ ns, each_resynced bucket minutes exs w ns w' ∧ n = total + foldr Z.add 0 ns
  | Err e => ∃ e' done ex rest ns w1, e = ResyncFailed e' ∧ exs = done ++ ex :: rest
      ∧ each_resynced bucket minutes done w ns w1 ∧ resync_fails bucket ex w1 e' w'
  end.
Proof.
  intros Hb. induction exs as [|ex exs IH]; intros total w r w'; cbn [resync_each].
  { intros [= <- <-]. exists []. split; [constructor|]. simpl. lia. }
  destruct (resync_one bucket minutes ex w) as [[x w1]|] eqn:E; cbn [mbind run_bind fst snd]; [|done].
  apply resync_one_spec in E; [|done]. destruct x as [n|e].
  - intros H. specialize (IH _ _ _ _ H). destruct r as [m|e].
    + destruct IH as (ns & Hns & ->). exists (n :: ns). split; [by econstructor|]. simpl. lia.
    + destruct IH as (e' & dn & x & rest & ns & w2 & -> & -> & Hns & Hx).
      exists e', (ex :: dn), x, rest, (n :: ns), w2. do 2 (split; [done|]). by split; [econstructor|].
  - intros [= <- <-]. destruct E as (e' & -> & Hf). exists e', [], ex, exs, [], w.
    do 2 (split; [done|]). by split; [constructor|].
Qed.

Lemma resync_exchanges_spec raw exs : resync_exchanges raw = Ok exs ↔ names raw exs.
Proof.
  unfold resync_exchanges, names. destruct (String.eqb_spec (to_ascii_lowercase raw) "all") as [E|E].
  - split; [intros [= <-]; by left|]. intros [[_ ->]|(ex & _ & H)]; [done|].
    rewrite E in H. by destruct ex.
  - split.
    + destruct (exchange_from_str raw) as [ex|] eqn:Ex; cbn; [|done]. intros [= <-]. right.
      exists ex. by apply exchange_from_str_iff in Ex.
    + intros [[? _]|(ex & -> & H)]; [done|]. apply exchange_from_str_iff in H. by rewrite H.
Qed.
Lemma names_some raw exs : names raw exs → exs ≠ [].
Proof. by intros [[_ ->]|(ex & -> & _)]. Qed.

(** With one of the two options and everything at hand, the loop runs. *)
Lemma resync_runs raw bucket minutes cfg connected w exs :
  ¬ (bucket = None ↔ minutes = None) → is_ok cfg = true → is_ok connected = true →
  resync_exchanges raw = Ok exs →
  run_resync raw bucket minutes cfg connected w = resync_each bucket (default 0 minutes) exs 0 w.
Proof.
  unfold run_resync. intros Hone Hcfg Hcon ->.
  destruct cfg, connected, bucket, minutes; done || by destruct Hone.
Qed.

Lemma resync_refused raw bucket minutes cfg connected w :
  is_ok cfg = false ∨ is_ok connected = false ∨ (∀ exs, ¬ names raw exs) ∨ ¬ readable bucket →
  ∃ e, run_resync raw bucket minutes cfg connected w = Ret (Err e, w).
Proof.
  unfold run_resync.
  destruct bucket as [text|], minutes as [m|]; [eauto| | |eauto];
    (destruct cfg; [|eauto]); (destruct connected; [|eauto]);
    (destruct (resync_exchanges raw) as [exs|] eqn:E; [|eauto]);
    apply resync_exchanges_spec in E; (intros [?|[?|[H|Hr]]]; [done|done|by destruct (H exs)|]).
  - apply names_some in E. destruct exs as [|ex exs]; [done|]. cbn [resync_each]. unfold resync_one.
    destruct (rfc3339_parse text) as [ts|] eqn:Ep; [|eexists; reflexivity].
    destruct Hr. intros text0 [= <-]. by rewrite Ep.
  - by destruct Hr.
Qed.

(** C37. The resync command does what its arguments say or nothing. Giving
    neither or both of --bucket and --minutes, a configuration that does not
    load, a Redis that cannot be reached, an exchange that is neither "all" nor
    a known code in any case, and an unreadable bucket time are each an error
    that writes nothing. With any other arguments the command is carried out:
    the exchanges named, every ready one once for "all" in any case and else
    exactly the one whose code was given, are resynced one after the other, each
    pass from what the one before wrote, and the total reported is the sum of
    the rows they wrote; or, with --bucket only, the first exchange whose pass
    fails ends the command with its error, after the passes before it and with
    the later ones untouched. With --minutes no exchange's failure is an
    error. (A pass that panics ends the process, and is no result here.) *)
Theorem resync_command raw bucket minutes cfg connected w :
  let run := run_resync raw bucket minutes cfg connected w in
  ((bucket = None ↔ minutes = None) → ∃ text, run = Ret (Err (Bail text), w))
  ∧ (is_ok cfg = false ∨ is_ok connected = false ∨ (∀ exs, ¬ names raw exs) ∨ ¬ readable bucket →
     ∃ e, run = Ret (Err e, w))
  ∧ (¬ (bucket = None ↔ minutes = None) → is_ok cfg = true → is_ok connected = true →
     readable bucket →
     ∀ exs, names raw exs → ∀ r w', run = Ret (r, w') →
     (∃ ns, each_resynced bucket (default 0 minutes) exs w ns w' ∧ r = Ok (foldr Z.add 0 ns))
     ∨ ∃ e done ex rest ns w1, r = Err (ResyncFailed e) ∧ minutes = None
         ∧ exs = done ++ ex :: rest
         ∧ each_resynced bucket (default 0 minutes) done w ns w1
         ∧ resync_fails bucket ex w1 e w').
Proof.
  cbv zeta. split; [|split].
  - destruct bucket, minutes; intros H; [eexists; reflexivity|naive_solver..|eexists; reflexivity].
  - apply resync_refused.
  - intros Hone Hcfg Hcon Hb exs Hn r w'. apply resync_exchanges_spec in Hn.
    rewrite (resync_runs _ _ _ _ _ _ _ Hone Hcfg Hcon Hn). intros H.
    apply resync_each_spec in H; [|done]. destruct r as [n|e].
    + left. destruct H as (ns & Hns & ->). by exists ns.
    + right. destruct H as (e' & dn & ex & rest & ns & w1 & -> & -> & Hns & Hf).
      exists e', dn, ex, rest, ns, w1. split; [done|]. split; [|done].
      destruct Hf as (text & _ & -> & _). destruct minutes; [|done]. destruct Hone. done.
Qed.
End cli.

(** * What is deployed *)

Section deployed.
Context {DL : DecimalLib} {TL : TimeLib} {SC : SnapCodec}.
Context {W : Type} (inner : OiRepository W) (lead : W → bool) (wal : FileWal)
        (conn : RedisConn (Disk * W)).

(** The four deployments.  A single node without a log writes straight to the
    database; with a log every batch goes through it and the drainer never
    waits for a lead; two nodes with a log run [node_stack] and a gated drainer;
    and two nodes without a log write on the leader only, a standby's batch
    being refused and kept nowhere. *)
Lemma storage_modes cfg snaps d w :
  let fo := fo_enabled (cfg_failover cfg) in
  let wl := wal_enabled (cfg_wal cfg) in
  let age := (λ s, s * 1000) <$> wal_follower_max_age_secs (cfg_wal cfg) in
  let drainer := collector_drainer inner lead wal cfg in
  let repo := collector_repo inner lead wal conn cfg in
  (fo = false → wl = false → drainer = None
     ∧ (upsert_snapshots repo snaps (d, w)).1 = (upsert_snapshots inner snaps w).1)
  ∧ (fo = false → wl = true → drainer = Some (drainer_tick wal inner None age)
     ∧ repo = composite (with_primary (wal_backed inner wal) conn))
  ∧ (fo = true → wl = true → drainer = Some (drainer_tick wal (leader_gated inner lead) (Some lead) age)
     ∧ repo = node_stack inner lead wal conn)
  ∧ (fo = true → wl = false → drainer = None
     ∧ (lead w = false → upsert_snapshots repo snaps (d, w) = (Err not_leader, (d, w)))).
Proof.
  unfold collector_drainer, collector_repo, primary_of, gated_of, leader_gate_of.
  destruct (fo_enabled _), (wal_enabled _); repeat split; try done; intros.
  - simpl. unfold composite_upsert. simpl. unfold se_snd, gated. simpl.
    destruct (lead w) eqn:E; [done|]. unfold composite_leads. simpl. by rewrite E.
  - simpl. unfold composite_upsert. simpl. unfold se_snd. simpl.
    destruct (upsert_snapshots inner snaps w) as [r w']. simpl.
    destruct (bulk_set_latest conn snaps (d, w')) as [? w2]. by destruct (publish conn snaps w2).
Qed.
End deployed.

Lemma exchange_spawns_ok build enabled :
  (∀ ex, build ex = Ok tt) →
  exchange_spawns build enabled
  = (enabled ≫= (λ ex, [SpawnSweep ex; SpawnLoop ex]), Ok tt).
Proof.
  intros Hb. induction enabled as [|ex l IH]; [done|]. simpl. by rewrite Hb, IH.
Qed.

Lemma exchange_spawns_elem enabled s :
  s ∈ (enabled ≫= λ ex, [SpawnSweep ex; SpawnLoop ex])
  ↔ ∃ ex, ex ∈ enabled ∧ (s = SpawnSweep ex ∨ s = SpawnLoop ex).
Proof.
  rewrite list_elem_of_bind. split.
  - intros (ex & [-> | ->%list_elem_of_singleton]%elem_of_cons & Hin); eauto.
  - intros (ex & Hin & [-> | ->]); exists ex; (split; [|done]); set_solver.
Qed.

Lemma exchange_spawns_nodup enabled :
  NoDup enabled → NoDup (enabled ≫= λ ex, [SpawnSweep ex; SpawnLoop ex]).
Proof.
  induction 1 as [|ex l Hex _ IH]; [apply NoDup_nil_2|]. cbn [mbind list_bind app].
  constructor; [|constructor; [|exact IH]].
  - rewrite elem_of_cons, exchange_spawns_elem. naive_solver.
  - rewrite exchange_spawns_elem. naive_solver.
Qed.

Lemma enabled_nodup l : NoDup l → NoDup (enabled_exchanges l).
Proof.
  intros H. destruct l; [|done]. refine (bool_decide_unpack _ _). vm_compute. exact I.
Qed.

(** Every enabled exchange is collected exactly once.  When the adapters
    can be built and the configured list repeats no exchange, the collector
    starts, without error and each once, a minute loop and a settlement sweep
    for exactly the enabled exchanges (all nine when the list is empty), a live
    stream for exactly the enabled ones that push, and a drainer exactly when
    the log is on; and every task that folds bars shares them with the minute
    loop that flushes them. *)
Theorem collector_tasks build cfg :
  (∀ ex, build ex = Ok tt) → NoDup (cfg_exchanges cfg) →
  let enabled := enabled_exchanges (cfg_exchanges cfg) in
  let '(l, r) := collector_spawns build cfg in
  r = Ok tt ∧ NoDup l
  ∧ (∀ ex, SpawnLoop ex ∈ l ↔ ex ∈ enabled) ∧ (∀ ex, SpawnSweep ex ∈ l ↔ ex ∈ enabled)
  ∧ (∀ ex, SpawnLive ex ∈ l ↔ ex ∈ enabled ∧ ex ∈ live_exchanges)
  ∧ (SpawnDrainer ∈ l ↔ wal_enabled (cfg_wal cfg) = true)
  ∧ (∀ s ex, s ∈ l → aggregator_of s = Some ex → SpawnLoop ex ∈ l)
  ∧ (cfg_exchanges cfg = [] → ∀ ex, ex ∈ enabled).
Proof.
  intros Hb Hnd. cbv zeta. unfold collector_spawns. rewrite exchange_spawns_ok by done.
  pose proof (enabled_nodup _ Hnd) as Hen.
  assert (Hall : cfg_exchanges cfg = [] → ∀ ex, ex ∈ enabled_exchanges (cfg_exchanges cfg)).
  { intros -> ex. apply list_elem_of_filter. split; [by destruct ex|apply exchange_all_complete]. }
  revert Hen Hall. generalize (enabled_exchanges (cfg_exchanges cfg)). intros en Hen Hall.
  set (dr := if wal_enabled (cfg_wal cfg) then [SpawnDrainer] else []).
  assert (Hdr : ∀ s, s ∈ dr ↔ s = SpawnDrainer ∧ wal_enabled (cfg_wal cfg) = true).
  { intros s. subst dr. destruct (wal_enabled _); set_solver. }
  assert (Hlive : ∀ s, s ∈ live_spawns en ↔ ∃ ex, s = SpawnLive ex ∧ ex ∈ en ∧ ex ∈ live_exchanges).
  { intros s. unfold live_spawns. rewrite list_elem_of_fmap.
    setoid_rewrite list_elem_of_filter. naive_solver. }
  assert (Hin : ∀ s, s ∈ dr ++ live_spawns en ++ (en ≫= λ ex, [SpawnSweep ex; SpawnLoop ex]) ↔
    (s = SpawnDrainer ∧ wal_enabled (cfg_wal cfg) = true)
    ∨ (∃ ex, s = SpawnLive ex ∧ ex ∈ en ∧ ex ∈ live_exchanges)
    ∨ ∃ ex, ex ∈ en ∧ (s = SpawnSweep ex ∨ s = SpawnLoop ex)).
  { intros s. by rewrite !elem_of_app, Hdr, Hlive, exchange_spawns_elem. }
  split; [done|]. split; [|repeat split; try (rewrite ?Hin; naive_solver); intros s ex; rewrite !Hin; naive_solver].
  apply NoDup_app. split; [|split].
  - subst dr. destruct (wal_enabled _); [apply NoDup_singleton|apply NoDup_nil_2].
  - intros s [-> _]%Hdr. rewrite elem_of_app, Hlive, exchange_spawns_elem. naive_solver.
  - apply NoDup_app. split; [|split; [|by apply exchange_spawns_nodup]].
    + apply NoDup_fmap_2; [by intros ?? [=]|]. apply NoDup_filter.
      refine (bool_decide_unpack _ _). vm_compute. exact I.
    + intros s. rewrite Hlive, exchange_spawns_elem. naive_solver.
Qed.

(** * Concrete runs *)

Definition ex_cfg : Config :=
  mkConfig (mkChCfg "http://ch" "oi" "default" "") (mkRedisCfg "redis://r") [Bybit; Mexc]
    (mkFailoverCfg true None None None None) (mkWalCfg true "/wal" 10 10 None) "0.0.0.0:9090".
Definition ex_failing : ExchangeAdapter (DL := z_decimal) (TL := z_time) :=
  {| ad_exchange := Binance; ad_discover_instruments := Err (NotFound "down");
     ad_fetch_oi _ _ := Ok []; ad_fetch_prices _ := Ok []; ad_fetch_funding _ _ := Ok [];
     ad_fetch_funding_history _ _ := Ret (Ok []) |}.
(** Binance and Bybit answer, every other exchange is down. *)
Definition ex_answers (ex : Exchange) (_ : nat) : ExchangeAdapter (DL := z_decimal) (TL := z_time) :=
  match ex with Domain.Binance | Domain.Bybit => ex_resync | _ => ex_failing end.

Lemma collector_tasks_witness :
  let '(l, r) := collector_spawns (λ _, Ok tt) ex_cfg in
  r = Ok tt ∧ NoDup l ∧ SpawnLive Bybit ∈ l ∧ length l = 6%nat.
Proof.
  pose proof (collector_tasks (λ _, Ok tt) ex_cfg (λ _, eq_refl)
    ltac:(refine (bool_decide_unpack _ _); vm_compute; exact I)) as H.
  cbv zeta in H. destruct (collector_spawns (λ _, Ok tt) ex_cfg) as [l r] eqn:E.
  destruct H as (H1 & H2 & _ & _ & H3 & _). split; [exact H1|]. split; [exact H2|]. split.
  - apply H3. split; [left|left].
  - apply pair_parts in E as [-> _]. reflexivity.
Defined.

(** "ALL" is every ready exchange; the third of them is down, so the rows of
    the first two are written and its error is returned. *)
Lemma resync_command_witness :
  ∃ w', run_resync ex_repo ex_answers (λ _, 0) "ALL" (Some "60000000000"%string) None (Ok ex_cfg) (Ok tt) []
      = Ret (Err (ResyncFailed (RExchange (NotFound "down"))), w')
    ∧ length w' = 2%nat
    ∧ ∃ e done ex rest ns w1, names "ALL" (done ++ ex :: rest)
        ∧ each_resynced (W := list OiSnapshot) ex_repo ex_answers (λ _, 0)
            (Some "60000000000"%string) 0 done [] ns w1
        ∧ resync_fails ex_repo ex_answers (Some "60000000000"%string) ex w1 e w'.
Proof.
  eexists. split; [reflexivity|]. split; [reflexivity|].
  destruct (resync_command (W := list OiSnapshot) ex_repo ex_answers (λ _, 0) "ALL"
    (Some "60000000000"%string) None (Ok ex_cfg) (Ok tt) []) as (_ & _ & H).
  assert (Hn : names "ALL" (filter (λ ex, is_production_ready ex = true) exchange_all))
    by (left; split; reflexivity).
  destruct (H ltac:(intros [_ Hno]; specialize (Hno eq_refl); discriminate) eq_refl eq_refl
              ltac:(intros text [= <-]; reflexivity) _ Hn _ _ eq_refl)
    as [(ns & _ & Hno)|(e & dn & ex & rest & ns & w1 & _ & _ & Hex & Hns & Hf)]; [discriminate Hno|].
  rewrite Hex in Hn.
  exists e, dn, ex, rest, ns, w1. split; [exact Hn|]. split; [exact Hns|exact Hf].
Defined.
