(* ===== verification/Boot.v ===== *)
(** Starting a collector: the client each adapter is built with, and the
    bring-up of [run_async] in [oi-collector/src/runner.rs] up to the point where
    every task runs, with the dispatch of [main.rs].  The world is the log's
    directory and the database; the tasks started are kept beside it.  What the
    environment answers is an argument. *)

From Stdlib Require Import ZArith Lia String.
From stdpp Require Import base option list strings gmap.
From S2P Require Import Prelude TextOrder Externals Concrete Domain Repository Wal Lease Config ClickHouse Schema Http FanOut Adapter Adapters Backfill Wiring.
Open Scope Z_scope.
Open Scope oi_scope.

(** * The adapters' clients *)

Section clients.
Context (build : string → result string unit) (version : string).

Definition binance_client : result ExchangeError RateLimitedClient :=
  client_new build version "binance" 30 40.
Definition bybit_client : result ExchangeError RateLimitedClient :=
  client_new build version "bybit" 20 40.
Definition hyperliquid_client : result ExchangeError RateLimitedClient :=
  client_new build version "hyperliquid" 5 10.
Definition okx_client : result ExchangeError RateLimitedClient :=
  client_new build version "okx" 8 16.
Definition bitget_client : result ExchangeError RateLimitedClient :=
  client_new build version "bitget" 8 16.
Definition mexc_client : result ExchangeError RateLimitedClient :=
  client_new build version "mexc" 8 16.
(** Aster holds a Binance adapter. *)
Definition aster_client : result ExchangeError RateLimitedClient := binance_client.
Definition bingx_client : result ExchangeError RateLimitedClient :=
  client_new build version "bingx" 5 10.
Definition kucoin_client : result ExchangeError RateLimitedClient :=
  client_new build version "kucoin" 3 6.

(** [X::new()] of each arm: all that can fail in it. *)
Definition client_for (ex : Exchange) : result ExchangeError RateLimitedClient :=
  match ex with
  | Domain.Binance => binance_client
  | Domain.Bybit => bybit_client
  | Domain.Hyperliquid => hyperliquid_client
  | Domain.Okx => okx_client
  | Domain.Bitget => bitget_client
  | Domain.Mexc => mexc_client
  | Domain.Aster => aster_client
  | Domain.BingX => bingx_client
  | Domain.KuCoin => kucoin_client
  end.
(** The venue a client reports to and names in its errors. *)
Definition client_venue (ex : Exchange) : Exchange :=
  match ex with Domain.Aster => Domain.Binance | _ => ex end.

Lemma client_for_spec ex :
  match client_for ex with
  | Ok c => client_code c = code (client_venue ex)
      ∧ user_agent c = agent_of version (code (client_venue ex))
      ∧ 0 < client_rps c ≤ client_burst c ∧ client_burst c ≤ 40
  | Err e => ∃ m, build (agent_of version (code (client_venue ex))) = Err m
      ∧ e = Unexpected ("http build: " +:+ m)
  end.
Proof.
  destruct ex; simpl; unfold aster_client, binance_client, bybit_client, hyperliquid_client,
    okx_client, bitget_client, mexc_client, bingx_client, kucoin_client;
    rewrite client_new_spec;
    (destruct (build _) as [[]|m]; [simpl; repeat split; lia|by exists m]).
Qed.
End clients.

(** ** The adapter of one resync *)

Section adapter.
Context {DL : DecimalLib} {TL : TimeLib} {JL : JsonLib}.
Context (build : string → result string unit) (version : string) (net : Adapters.Net).

Definition adapter_for (ex : Exchange) : result ExchangeError ExchangeAdapter :=
  let? _ := client_for build version ex in Ok (make_adapter net ex).

(** [backfill::resync_bucket], from the exchange's name on. *)
Definition resync_exchange {W} (repo : OiRepository W) (ex : Exchange) (bucket : OffsetDateTime)
    (w : W) : run (result ResyncError Z * W) :=
  match adapter_for ex with
  | Err e => Ret (Err (RExchange e), w)
  | Ok a => resync_bucket repo a bucket w
  end.

(** A client that cannot be built writes nothing; otherwise the adapter is the
    one the minute loop runs, with its contract. *)
Lemma resync_exchange_cases {W} (repo : OiRepository W) ex bucket w :
  (∃ m, build (agent_of version (code (client_venue ex))) = Err m
     ∧ resync_exchange repo ex bucket w
       = Ret (Err (RExchange (Unexpected ("http build: " +:+ m))), w))
  ∨ (resync_exchange repo ex bucket w = resync_bucket repo (make_adapter net ex) bucket w
     ∧ AdapterContract (make_adapter net ex) ∧ ad_exchange (make_adapter net ex) = ex).
Proof.
  unfold resync_exchange, adapter_for. pose proof (client_for_spec build version ex) as H.
  destruct (client_for _ _ _) as [c|e].
  - right. split; [done|]. split; [apply _|apply make_adapter_exchange].
  - left. destruct H as (m & Hm & ->). by exists m.
Qed.
End adapter.

(** * Bringing the collector up *)

Inductive BootError :=
| BConfig (message : string)
| BSchema (e : CoreError)
| BRedis (message : string)
| BLease (message : string)
| BWal (e : CoreError)
| BAdapter (ex : Exchange) (e : ExchangeError).

Inductive BootTask := LeaseTask (lc : LeaseConfig) | CollectorTask (s : Spawn).

(** What the process finds: the configuration file, the two Redis connections,
    the metrics address and its listener, a fresh node id and the HTTP stack. *)
Record CollectorEnv := mkCollectorEnv {
  ce_config : result string Config;
  ce_addr : string → result string unit;      (** [SocketAddr::from_str] *)
  ce_install : string → result string unit;   (** the Prometheus listener *)
  ce_redis : string → result string unit;
  ce_lease_redis : string → result string unit;
  ce_uuid : string;
  ce_build : string → result string unit;
  ce_version : string;
}.

(** What keeps running besides the tasks. *)
Record Started := mkStarted {
  st_config : Config;
  st_metrics : option string;   (** where the metrics are served, if anywhere *)
  st_lease : option LeaseConfig;
  st_wal : option FileWal;
}.

Section boot.
Context {W : Type} (execute : string → SE W string unit).
Abbreviation World := (list BootTask * (Disk * W))%type.

(** [tokio::spawn] *)
Definition start_task (t : BootTask) : SE World BootError unit := λ tw, (Ok tt, (tw.1 ++ [t], tw.2)).
Fixpoint start_tasks (l : list BootTask) : SE World BootError unit :=
  match l with [] => mret tt | t :: l' => _ ← start_task t; start_tasks l' end.

Definition metrics_endpoint (env : CollectorEnv) (cfg : Config) : option string :=
  let addr := cfg_metrics_addr cfg in
  match ce_addr env addr with
  | Err _ => None
  | Ok _ => match ce_install env addr with Ok _ => Some addr | Err _ => None end
  end.

(** The lease block: the handle, once its task runs. *)
Definition start_lease (env : CollectorEnv) (cfg : Config)
  : SE World BootError (option LeaseConfig) :=
  match lease_config_of (cfg_failover cfg) (rd_url (cfg_redis cfg)) (ce_uuid env) with
  | None => mret None
  | Some lc =>
      _ ← se_lift (map_err BLease (ce_lease_redis env (redis_url lc)));
      _ ← start_task (LeaseTask lc);
      mret (Some lc)
  end.
(** The log and its drainer. *)
Definition start_wal (cfg : Config) : SE World BootError (option FileWal) :=
  if wal_enabled (cfg_wal cfg) then
    wal ← se_map_err BWal
            (se_snd (se_fst (wal_open (wal_dir (cfg_wal cfg)) (wal_soft_max_files (cfg_wal cfg)))));
    _ ← start_task (CollectorTask SpawnDrainer);
    mret (Some wal)
  else mret None.
(** The loop over the enabled exchanges. *)
Fixpoint start_exchanges (env : CollectorEnv) (enabled : list Exchange) : SE World BootError unit :=
  match enabled with
  | [] => mret tt
  | ex :: rest =>
      _ ← se_lift (map_err (BAdapter ex) (client_for (ce_build env) (ce_version env) ex));
      _ ← start_tasks [CollectorTask (SpawnSweep ex); CollectorTask (SpawnLoop ex)];
      start_exchanges env rest
  end.

(** [run_async] up to [for h in handles]. *)
Definition run_async (env : CollectorEnv) : SE World BootError Started :=
  cfg ← se_lift (map_err BConfig (ce_config env));
  let metrics := metrics_endpoint env cfg in
  _ ← se_map_err BSchema (se_snd (se_snd (ensure_schema execute)));
  _ ← se_lift (map_err BRedis (ce_redis env (rd_url (cfg_redis cfg))));
  lease ← start_lease env cfg;
  wal ← start_wal cfg;
  let enabled := enabled_exchanges (cfg_exchanges cfg) in
  _ ← start_tasks (CollectorTask <$> live_spawns enabled);
  _ ← start_exchanges env enabled;
  mret (mkStarted cfg metrics lease wal).

(** ** Which tasks each stage starts *)

Definition lease_tasks (env : CollectorEnv) (cfg : Config) : list BootTask :=
  option_list (LeaseTask <$> lease_config_of (cfg_failover cfg) (rd_url (cfg_redis cfg)) (ce_uuid env)).
Definition wal_tasks (cfg : Config) : list BootTask :=
  if wal_enabled (cfg_wal cfg) then [CollectorTask SpawnDrainer] else [].
Definition live_tasks (cfg : Config) : list BootTask :=
  CollectorTask <$> live_spawns (enabled_exchanges (cfg_exchanges cfg)).
Definition venue_tasks (ex : Exchange) : list BootTask :=
  [CollectorTask (SpawnSweep ex); CollectorTask (SpawnLoop ex)].

Lemma start_tasks_run l ts x : start_tasks l (ts, x) = (Ok tt, (ts ++ l, x)).
Proof.
  revert ts. induction l as [|t l IH]; intros ts; [by rewrite app_nil_r|].
  simpl. unfold mbind, se_bind, start_task. simpl. by rewrite IH, <- (assoc_L (++)).
Qed.

Lemma start_lease_run env cfg ts x r tw :
  start_lease env cfg (ts, x) = (r, tw) →
  match r with
  | Ok lease => tw = (ts ++ lease_tasks env cfg, x)
      ∧ lease = lease_config_of (cfg_failover cfg) (rd_url (cfg_redis cfg)) (ce_uuid env)
  | Err e => tw = (ts, x) ∧ ∃ m, e = BLease m
  end.
Proof.
  unfold start_lease, lease_tasks. destruct (lease_config_of _ _ _) as [lc|].
  - unfold mbind, se_bind, se_lift, start_task.
    destruct (ce_lease_redis env (redis_url lc)) as [[]|m]; simpl; intros [= <- <-]; eauto.
  - intros [= <- <-]. simpl. by rewrite app_nil_r.
Qed.

Lemma start_wal_run cfg ts d w r tw :
  start_wal cfg (ts, (d, w)) = (r, tw) →
  ∃ d', match r with
        | Ok wal => tw = (ts ++ wal_tasks cfg, (d', w))
            ∧ wal = if wal_enabled (cfg_wal cfg)
                    then Some (mkWal (wal_dir (cfg_wal cfg)) (wal_soft_max_files (cfg_wal cfg)))
                    else None
        | Err e => tw = (ts, (d', w)) ∧ ∃ c, e = BWal c
        end.
Proof.
  unfold start_wal, wal_tasks. destruct (wal_enabled _).
  - unfold mbind at 1, se_bind at 1, se_map_err at 1, se_snd, se_fst. cbn [fst snd].
    unfold wal_open. unfold mbind at 1, se_bind at 1.
    destruct (se_map_err _ _ d) as [[[]|c] d']; simpl; intros [= <- <-]; eauto.
  - intros [= <- <-]. exists d. simpl. by rewrite app_nil_r.
Qed.

Lemma start_exchanges_run env l ts x r tw :
  start_exchanges env l (ts, x) = (r, tw) →
  match r with
  | Ok _ => tw = (ts ++ (l ≫= venue_tasks), x)
      ∧ Forall (λ ex, is_ok (client_for (ce_build env) (ce_version env) ex) = true) l
  | Err e => ∃ built ex rest c, l = built ++ ex :: rest ∧ e = BAdapter ex c
      ∧ client_for (ce_build env) (ce_version env) ex = Err c
      ∧ tw = (ts ++ (built ≫= venue_tasks), x)
  end.
Proof.
  revert ts. induction l as [|ex l IH]; intros ts; cbn [start_exchanges].
  { intros [= <- <-]. simpl. by rewrite app_nil_r. }
  unfold mbind at 1, se_bind at 1, se_lift.
  destruct (client_for _ _ ex) as [c|c] eqn:Ec; cbn [map_err].
  - unfold mbind at 1, se_bind at 1. rewrite start_tasks_run. intros H.
    apply IH in H. destruct r as [[]|e].
    + destruct H as [-> H]. split; [|constructor; [by rewrite Ec|done]].
      cbn [mbind list_bind]. by rewrite <- (assoc_L (++)).
    + destruct H as (built & ex' & rest & c' & -> & -> & Hc & ->).
      exists (ex :: built), ex', rest, c'. repeat split; [done|]. cbn [mbind list_bind].
      by rewrite <- (assoc_L (++)).
  - intros [= <- <-]. exists [], ex, l, c. simpl. by rewrite app_nil_r.
Qed.

(** Starting the tasks in stages starts the tasks of [Wiring]. *)
Lemma staged_tasks cfg :
  wal_tasks cfg ++ live_tasks cfg ++ (enabled_exchanges (cfg_exchanges cfg) ≫= venue_tasks)
  = CollectorTask <$> (collector_spawns (λ _, Ok tt) cfg).1.
Proof.
  unfold collector_spawns. rewrite exchange_spawns_ok by done. cbn [fst].
  rewrite !fmap_app. f_equal; [unfold wal_tasks; by destruct (wal_enabled _)|]. f_equal.
  induction (enabled_exchanges _) as [|ex l IH]; [done|]. cbn [mbind list_bind].
  rewrite IH. by rewrite fmap_app.
Qed.

Lemma lease_tasks_only env cfg s : CollectorTask s ∉ lease_tasks env cfg.
Proof.
  unfold lease_tasks. destruct (lease_config_of _ _ _); simpl; [|apply not_elem_of_nil].
  intros Hs. by apply list_elem_of_singleton in Hs.
Qed.

Lemma tasks_once env cfg :
  NoDup (cfg_exchanges cfg) →
  let ts := lease_tasks env cfg ++ (CollectorTask <$> (collector_spawns (λ _, Ok tt) cfg).1) in
  NoDup ts ∧ ∀ ex, CollectorTask (SpawnLoop ex) ∈ ts ↔ ex ∈ enabled_exchanges (cfg_exchanges cfg).
Proof.
  intros Hnd. cbv zeta.
  pose proof (collector_tasks (λ _, Ok tt) cfg (λ _, eq_refl) Hnd) as Ht. cbv zeta in Ht.
  destruct (collector_spawns _ cfg) as [l r']. destruct Ht as (_ & Hl & Hloop & _).
  assert (Hin : ∀ s, CollectorTask s ∈ lease_tasks env cfg ++ (CollectorTask <$> l) ↔ s ∈ l).
  { intros s. rewrite elem_of_app, list_elem_of_fmap. split.
    - intros [Hs|(s' & [= ->] & Hs)]; [by apply lease_tasks_only in Hs|done].
    - intros Hs. right. by exists s. }
  cbn [fst]. split; [|intros ex; by rewrite Hin].
  apply NoDup_app. split; [|split].
  - unfold lease_tasks. destruct (lease_config_of _ _ _); simpl;
      [apply NoDup_singleton|apply NoDup_nil_2].
  - intros t Ht (s & -> & _)%list_elem_of_fmap. by apply lease_tasks_only in Ht.
  - apply NoDup_fmap_2; [by intros ?? [=]|done].
Qed.

(** C36. A collector starts whole or says why not, and nothing that writes runs on
    an unfinished schema.  When [run_async] gets to waiting for its tasks, the
    configuration was read, every statement of the migration was executed in
    order, Redis was reached, every enabled exchange's client was built, and the
    tasks running are the lease's when failover is on, then exactly those of the
    configuration, none twice when it repeats no exchange; whether the metrics
    could be served makes no difference.  Otherwise the error names the stage:
    an unreadable configuration touches nothing, a failed migration or an
    unreachable Redis starts no task, a log that cannot be opened leaves at most
    the lease task, and a client that cannot be built (only the HTTP stack can
    refuse, never the quota) stops after the exchanges before it.  No drainer,
    live stream, sweep or loop is ever started before the whole migration ran. *)
Theorem collector_starts env d w r ts d' w' :
  run_async env ([], (d, w)) = (r, (ts, (d', w'))) →
  let migrated := executed execute (split_sql migration) w w' in
  match r with
  | Ok st =>
      let cfg := st_config st in
      let enabled := enabled_exchanges (cfg_exchanges cfg) in
      ce_config env = Ok cfg ∧ migrated ∧ ce_redis env (rd_url (cfg_redis cfg)) = Ok tt
      ∧ Forall (λ ex, is_ok (client_for (ce_build env) (ce_version env) ex) = true) enabled
      ∧ ts = lease_tasks env cfg ++ (CollectorTask <$> (collector_spawns (λ _, Ok tt) cfg).1)
      ∧ (NoDup (cfg_exchanges cfg) → NoDup ts
           ∧ ∀ ex, CollectorTask (SpawnLoop ex) ∈ ts ↔ ex ∈ enabled)
      ∧ st_metrics st = metrics_endpoint env cfg
  | Err (BConfig m) => ce_config env = Err m ∧ ts = [] ∧ d' = d ∧ w' = w
  | Err (BSchema _) => ts = [] ∧ d' = d
  | Err (BRedis _) | Err (BLease _) => ts = [] ∧ d' = d ∧ migrated
  | Err (BWal _) => migrated ∧ ∃ cfg, ce_config env = Ok cfg ∧ ts = lease_tasks env cfg
  | Err (BAdapter ex e) => migrated ∧ ∃ cfg built rest m, ce_config env = Ok cfg
      ∧ enabled_exchanges (cfg_exchanges cfg) = built ++ ex :: rest
      ∧ e = Unexpected ("http build: " +:+ m)
      ∧ ts = lease_tasks env cfg ++ wal_tasks cfg ++ live_tasks cfg ++ (built ≫= venue_tasks)
  end
  ∧ (∀ s, CollectorTask s ∈ ts → migrated).
Proof.
  intros H. cbv zeta. unfold run_async in H.
  pose proof (λ w r w', execute_all_spec execute (split_sql migration) w r w') as Hsql.
  change (execute_all execute (split_sql migration)) with (ensure_schema execute) in Hsql.
  revert H Hsql. generalize (ensure_schema execute), (split_sql migration). intros schema sql H Hsql.
  apply se_bind_inv in H as [(e & H & ->)|(cfg & tw & H & Hr)].
  { unfold se_lift in H. destruct (ce_config env); [done|]. simpl in H. simplify_eq.
    split; [done|]. intros s Hs. by apply not_elem_of_nil in Hs. }
  unfold se_lift in H. destruct (ce_config env) as [cfg0|] eqn:Ecfg; [|done].
  injection H as -> <-.
  apply se_bind_inv in Hr as [(e & H & ->)|([] & tw & H & Hr)];
    apply se_map_err_inv in H as (r0 & H & Er0);
    apply se_snd_inv in H as (dw & H & Etw); apply se_snd_inv in H as (w1 & H & ->).
  { destruct r0; [done|]. simpl in Er0. simplify_eq.
    split; [done|]. intros s Hs. by apply not_elem_of_nil in Hs. }
  subst tw. destruct r0; [|done]. apply Hsql in H.
  apply se_bind_inv in Hr as [(e & Hr & ->)|([] & tw & Hr & Hn)].
  { unfold se_lift in Hr. destruct (ce_redis env _); [done|]. by injection Hr as <- <- <- <-. }
  unfold se_lift in Hr. destruct (ce_redis env (rd_url (cfg_redis cfg))) as [[]|] eqn:Eredis; [|done].
  injection Hr as <-.
  apply se_bind_inv in Hn as [(e & Hn & ->)|(lease & tw & Hn & Hr)]; apply start_lease_run in Hn.
  { destruct Hn as (? & m & ->). by simplify_eq. }
  destruct Hn as [-> ->]. cbn [app] in Hr.
  apply se_bind_inv in Hr as [(e & Hn & ->)|(wal & tw & Hn & Hr)];
    apply start_wal_run in Hn as (d1 & Hn).
  { destruct Hn as (? & c & ->). simplify_eq. split; [by eauto|done]. }
  destruct Hn as [-> _]. cbv zeta in Hr.
  unfold mbind at 1, se_bind at 1 in Hr. rewrite start_tasks_run in Hr.
  fold (live_tasks cfg) in Hr.
  apply se_bind_inv in Hr as [(e & Hn & ->)|([] & tw & Hn & Hr)]; apply start_exchanges_run in Hn.
  - destruct Hn as (built & ex & rest & c & Hl & -> & Hc & ?). simplify_eq. split; [|done].
    pose proof (client_for_spec (ce_build env) (ce_version env) ex) as Hs. rewrite Hc in Hs.
    destruct Hs as (m & _ & ->). split; [done|]. exists cfg, built, rest, m.
    by rewrite <- !(assoc_L (++)).
  - destruct Hn as [-> Hok]. injection Hr as <- <- <- <-. cbn [st_config st_metrics].
    rewrite <- !(assoc_L (++)), staged_tasks. split; [|done].
    repeat split; [done|done|done|..]; by apply tasks_once.
Qed.
End boot.

(** * The command line *)

Inductive Cmd :=
| CRun
| CResync (exchange : string) (bucket : option string) (minutes : option Z) (config : string).
(** What [main] runs; no subcommand is [run]. *)
Definition main_dispatch {A} (run_collector : A)
    (run_resync : string → option string → option Z → string → A) (command : option Cmd) : A :=
  match default CRun command with
  | CRun => run_collector
  | CResync exchange bucket minutes config => run_resync exchange bucket minutes config
  end.

(** * Concrete runs *)

(** A database that takes every statement, and an HTTP stack that refuses one
    venue. *)
Definition ex_execute (s : string) : SE (list string) string unit := λ l, (Ok tt, l ++ [s]).
Definition ex_boot (refused : string) (cfg : result string Config) : CollectorEnv :=
  mkCollectorEnv cfg (λ _, Ok tt) (λ _, Err "address in use"%string) (λ _, Ok tt) (λ _, Ok tt)
    "node-1" (λ agent, if ends_with ("(" +:+ refused +:+ ")") agent then Err "no TLS"%string else Ok tt) "0.1.0".
Definition ex_disk : Disk := mkDisk ∅ None 1 0 (λ _, None) 0 (mkBack ∅ [] []).

Lemma collector_starts_witness :
  (run_async ex_execute (ex_boot "mexc" (Ok ex_cfg)) ([], (ex_disk, []))).1
    = Err (BAdapter Mexc (Unexpected "http build: no TLS"))
  ∧ ∃ r ts w', run_async ex_execute (ex_boot "" (Ok ex_cfg)) ([], (ex_disk, []))
      = (r, (ts, w')) ∧ is_ok r = true ∧ NoDup ts ∧ length ts = 7%nat.
Proof.
  split; [vm_compute; reflexivity|].
  destruct (run_async ex_execute (ex_boot "" (Ok ex_cfg)) ([], (ex_disk, []))) as [r [ts [d' w']]] eqn:E.
  exists r, ts, (d', w'). split; [done|].
  pose proof (collector_starts ex_execute _ _ _ _ _ _ _ E) as [H _].
  apply pair_parts in E as [E1 E2]. assert (Hok : is_ok r = true) by (subst r; vm_compute; reflexivity).
  split; [exact Hok|]. destruct r as [st|]; [|discriminate].
  destruct H as (Hcfg & _ & _ & _ & _ & Hnd & _). injection Hcfg as Hcfg. split.
  - apply Hnd. rewrite <- Hcfg. refine (bool_decide_unpack _ _). vm_compute. exact I.
  - assert (E3 : ts = (run_async ex_execute (ex_boot "" (Ok ex_cfg)) ([], (ex_disk, []))).2.1)
      by (by rewrite <- E2).
    rewrite E3. vm_compute. reflexivity.
Defined.
