(* ===== verification/Sweep.v ===== *)
(** The settlement-history sweep of [oi-collector/src/funding_sweep.rs].  The
    per-instrument tasks run concurrently: [latest] is what each task's cursor
    lookup answered, [sched] the order in which the tasks complete. *)

From Stdlib Require Import ZArith Lia String.
From stdpp Require Import base option list strings.
From S2P Require Import Prelude Externals Concrete Domain Repository FanOut Adapter.
Open Scope Z_scope.
Open Scope oi_scope.

Definition NOT_DUE_BEFORE : Z := dur_minutes 50.
Definition WAF_BAN_THRESHOLD : Z := 20.
Definition WAF_COOLDOWN : Z := dur_seconds (4 * 3600).

Record SweepStats := mkStats { events : Z; failures : Z; auth_failures : Z }.

Section sweep.
Context {DL : DecimalLib} {TL : TimeLib}.

(** The task [prime] builds; [now] is its own clock reading. *)
Definition prime (a : ExchangeAdapter) (latest : InstrumentId → result CoreError (option FundingEvent))
    (now : OffsetDateTime) (inst : InstrumentId) : run (result ExchangeError (list FundingEvent)) :=
  let since := match latest inst with
               | Ok (Some e) => Some (ev_settlement_ts e)
               | Ok None => None
               | Err _ => None
               end in
  match since with
  | Some s => if odt_diff now s <? NOT_DUE_BEFORE then Ret (Ok [])
              else ad_fetch_funding_history a inst since
  | None => ad_fetch_funding_history a inst since
  end.

(** The loop's variables: the counters and the batch not yet written. *)
Definition SweepState : Type := SweepStats * list FundingEvent.

Definition fail (s : SweepStats) : SweepStats := mkStats (events s) (failures s + 1) (auth_failures s).

Section world.
Context {W : Type} (repo : OiRepository W).

Definition write_batch (st : SweepState) (w : W) : SweepState * W :=
  let '(stats, batch) := st in
  let '(r, w) := upsert_funding_events repo batch w in
  ((match r with Ok _ => stats | Err _ => fail stats end, []), w).

(** One completed task. *)
Definition sweep_step (st : SweepState) (w : W) (joined : run (result ExchangeError (list FundingEvent)))
  : SweepState * W :=
  let '(stats, batch) := st in
  match joined with
  | Panic => ((fail stats, batch), w)
  | Ret (Err e) =>
      let stats := fail stats in
      let stats := match e with
                   | Auth _ => mkStats (events stats) (failures stats) (auth_failures stats + 1)
                   | _ => stats
                   end in
      ((stats, batch), w)
  | Ret (Ok []) => ((stats, batch), w)
  | Ret (Ok evs) =>
      let stats := mkStats (events stats + Z.of_nat (length evs)) (failures stats)
                     (auth_failures stats) in
      let batch := batch ++ evs in
      if (500 <=? length batch)%nat then write_batch (stats, batch) w else ((stats, batch), w)
  end.
Fixpoint sweep_loop (st : SweepState) (w : W)
    (joined : list (run (result ExchangeError (list FundingEvent)))) : SweepState * W :=
  match joined with
  | [] => (st, w)
  | j :: joined' => let '(st, w) := sweep_step st w j in sweep_loop st w joined'
  end.

Definition sweep_once (a : ExchangeAdapter)
    (latest : InstrumentId → result CoreError (option FundingEvent))
    (now : InstrumentId → OffsetDateTime) (sched : nat → nat) (concurrency : nat)
    (instruments : list InstrumentId) (w : W) : SweepStats * W :=
  let order := (fan_out sched concurrency instruments).1 in
  let '(st, w) := sweep_loop (mkStats 0 0 0, []) w
                    ((λ i, prime a latest (now i) i) <$> order) in
  match st.2 with
  | [] => (st.1, w)
  | _ => let '(st, w) := write_batch st w in (st.1, w)
  end.

(** One cycle of the task: the world and how long to sleep. *)
Definition sweep_cycle (is_leader : bool) (interval : Z) (sweep : W → SweepStats * W) (w : W)
  : Z * W :=
  if is_leader then
    let '(stats, w) := sweep w in
    (if WAF_BAN_THRESHOLD <=? auth_failures stats then WAF_COOLDOWN else interval, w)
  else (interval, w).

(** * Specification *)

(** The batches handed to the repository, in order, with the number refused. *)
Inductive batches : W → list (list FundingEvent) → Z → W → Prop :=
| batches_nil w : batches w [] 0 w
| batches_cons w b r w1 bs n w2 :
    upsert_funding_events repo b w = (r, w1) → batches w1 bs n w2 →
    batches w (b :: bs) (match r with Ok _ => n | Err _ => n + 1 end) w2.

Lemma batches_snoc w bs n w1 b r w2 :
  batches w bs n w1 → upsert_funding_events repo b w1 = (r, w2) →
  batches w (bs ++ [b]) (match r with Ok _ => n | Err _ => n + 1 end) w2.
Proof.
  intros H. revert b r w2. induction H as [w|w b0 r0 w1 bs n w3 Hb _ IH]; intros b r w2 Hu.
  - apply (batches_cons _ _ _ _ _ 0 _ Hu). constructor.
  - simpl. specialize (IH _ _ _ Hu).
    pose proof (batches_cons _ _ _ _ _ _ _ Hb IH) as H'.
    destruct r, r0; [exact H'| |exact H'|].
    + exact H'.
    + exact H'.
Qed.

Definition fetched (j : run (result ExchangeError (list FundingEvent))) : list FundingEvent :=
  match j with Ret (Ok evs) => evs | _ => [] end.
Definition is_failure (j : run (result ExchangeError (list FundingEvent))) : bool :=
  match j with Ret (Ok _) => false | _ => true end.
Definition is_auth_failure (j : run (result ExchangeError (list FundingEvent))) : bool :=
  match j with Ret (Err (Auth _)) => true | _ => false end.
Definition count {A} (f : A → bool) (l : list A) : Z := Z.of_nat (length (filter (λ x, f x = true) l)).

Lemma count_snoc {A} (f : A → bool) l x : count f (l ++ [x]) = count f l + if f x then 1 else 0.
Proof.
  unfold count. rewrite filter_app, length_app. destruct (f x) eqn:E.
  - rewrite filter_cons_True by done. simpl. lia.
  - rewrite filter_cons_False by (by rewrite E). simpl. lia.
Qed.

(** What holds after the tasks [js] have completed. *)
Definition sweep_inv (w0 : W) (js : list (run (result ExchangeError (list FundingEvent))))
    (st : SweepState) (w : W) : Prop :=
  ∃ bs n, batches w0 bs n w
    ∧ concat bs ++ st.2 = concat (fetched <$> js)
    ∧ Forall (λ b, (500 ≤ length b)%nat) bs ∧ (length st.2 < 500)%nat
    ∧ events st.1 = Z.of_nat (length (concat (fetched <$> js)))
    ∧ failures st.1 = count is_failure js + n
    ∧ auth_failures st.1 = count is_auth_failure js.

Lemma sweep_inv_step w0 js st w j :
  sweep_inv w0 js st w →
  sweep_inv w0 (js ++ [j]) (sweep_step st w j).1 (sweep_step st w j).2.
Proof.
  intros (bs & n & Hb & Hc & Hf & Hl & He & Hfl & Ha). destruct st as [stats batch].
  cbn [fst snd] in *. unfold sweep_inv. setoid_rewrite fmap_app. setoid_rewrite concat_app.
  setoid_rewrite count_snoc. cbn [fmap list_fmap concat].
  assert (Hskip : ∀ stats', fetched j = [] → events stats' = events stats →
    failures stats' = failures stats + (if is_failure j then 1 else 0) →
    auth_failures stats' = auth_failures stats + (if is_auth_failure j then 1 else 0) →
    ∃ bs n, batches w0 bs n w ∧ concat bs ++ batch = concat (fetched <$> js) ++ fetched j ++ []
      ∧ Forall (λ b, (500 ≤ length b)%nat) bs ∧ (length batch < 500)%nat
      ∧ events stats' = Z.of_nat (length (concat (fetched <$> js) ++ fetched j ++ []))
      ∧ failures stats' = count is_failure js + (if is_failure j then 1 else 0) + n
      ∧ auth_failures stats' = count is_auth_failure js + (if is_auth_failure j then 1 else 0)).
  { intros stats' -> -> -> ->. exists bs, n. rewrite !app_nil_r. repeat split; try done; lia. }
  destruct j as [[[|ev evs]|e]|]; unfold sweep_step.
  - apply Hskip; simpl; lia || done.
  - set (l := ev :: evs) in *. cbn [fetched is_failure is_auth_failure] in *. rewrite app_nil_r.
    assert (Hc' : concat bs ++ batch ++ l = concat (fetched <$> js) ++ l)
      by (rewrite <- Hc; by rewrite (assoc_L (++))).
    destruct (Nat.leb_spec 500 (length (batch ++ l))) as [H5|H5].
    + unfold write_batch. destruct (upsert_funding_events repo (batch ++ l) w) as [r w1] eqn:Eu.
      cbn [fst snd]. exists (bs ++ [batch ++ l]), (match r with Ok _ => n | Err _ => n + 1 end).
      split; [by eapply batches_snoc|].
      split; [by rewrite concat_app, app_nil_r; cbn [concat]; rewrite app_nil_r|].
      split; [apply Forall_app; by repeat constructor|]. split; [simpl; lia|].
      rewrite length_app. destruct r; unfold fail; cbn [events failures auth_failures];
        repeat split; lia.
    + cbn [fst snd events failures auth_failures]. exists bs, n.
      rewrite (length_app (concat _) l). repeat split; done || lia.
  - destruct e; apply Hskip; simpl; lia || done.
  - apply Hskip; simpl; lia || done.
Qed.

Lemma sweep_inv_loop w0 js0 js st w :
  sweep_inv w0 js0 st w →
  sweep_inv w0 (js0 ++ js) (sweep_loop st w js).1 (sweep_loop st w js).2.
Proof.
  revert js0 st w. induction js as [|j js IH]; intros js0 st w H; [by rewrite app_nil_r|].
  cbn [sweep_loop]. apply (sweep_inv_step _ _ _ _ j) in H.
  destruct (sweep_step st w j) as [st1 w1]. cbn [fst snd] in H.
  apply IH in H. by rewrite <- (assoc_L (++)) in H.
Qed.

(** C33. A sweep hands over everything it fetched.  For any completion order:
    the tasks that complete are a rearrangement of the instruments, with at most
    the configured number in flight; the events of all successful tasks reach
    the repository, in completion order, each exactly once, in batches of which
    all but the last hold at least 500; the counters are the number of events,
    of failed tasks plus refused batches, and of refusals by the exchange; and
    an instrument whose last stored settlement is less than 50 minutes old costs
    no request. *)
Theorem sweep_hands_over a latest now sched concurrency instruments w stats w' :
  (0 < concurrency)%nat →
  sweep_once a latest now sched concurrency instruments w = (stats, w') →
  ∃ order bs n,
    order ≡ₚ instruments ∧ ((fan_out sched concurrency instruments).2 ≤ concurrency)%nat
    ∧ let js := (λ i, prime a latest (now i) i) <$> order in
      batches w bs n w' ∧ concat bs = concat (fetched <$> js)
      ∧ Forall (λ b, b ≠ []) bs
      ∧ (∀ k b, bs !! k = Some b → (S k < length bs)%nat → (500 ≤ length b)%nat)
      ∧ events stats = Z.of_nat (length (concat bs))
      ∧ failures stats = count is_failure js + n
      ∧ auth_failures stats = count is_auth_failure js
      ∧ ∀ i e b, i ∈ order → latest i = Ok (Some e) →
          odt_diff (now i) (ev_settlement_ts e) < NOT_DUE_BEFORE →
          prime b latest (now i) i = Ret (Ok []).
Proof.
  intros Hc. unfold sweep_once. destruct (fan_out_complete sched concurrency instruments Hc) as [Hp Hk].
  set (order := (fan_out sched concurrency instruments).1) in *.
  set (js := (λ i, prime a latest (now i) i) <$> order).
  assert (H0 : sweep_inv w [] (mkStats 0 0 0, []) w).
  { exists [], 0. repeat split; simpl; try lia; constructor. }
  apply (sweep_inv_loop _ _ js) in H0. rewrite app_nil_l in H0.
  destruct (sweep_loop _ w js) as [[st batch] w1]. cbn [fst snd] in H0.
  destruct H0 as (bs & n & Hb & Hcc & Hf & Hl & He & Hfl & Ha). cbn [fst snd] in *.
  intros H. assert (Hdue : ∀ i e b, i ∈ order → latest i = Ok (Some e) →
    odt_diff (now i) (ev_settlement_ts e) < NOT_DUE_BEFORE →
    prime b latest (now i) i = Ret (Ok [])).
  { intros i e b _ Hi Hd. unfold prime. rewrite Hi. by rewrite (proj2 (Z.ltb_lt _ _) Hd). }
  assert (Hne : Forall (λ b : list FundingEvent, b ≠ []) bs).
  { eapply Forall_impl; [exact Hf|]. intros [|] ?; simpl in *; [lia|done]. }
  rewrite Forall_lookup in Hf. exists order. destruct batch as [|ev batch].
  - injection H as <- <-. rewrite app_nil_r in Hcc. exists bs, n. fold js. rewrite Hcc.
    repeat split; try done. intros k b Hkb _. by eapply Hf.
  - unfold write_batch in H.
    destruct (upsert_funding_events repo (ev :: batch) w1) as [r w2] eqn:Eu.
    cbn [fst] in H. injection H as <- <-. fold js.
    exists (bs ++ [ev :: batch]), (match r with Ok _ => n | Err _ => n + 1 end).
    rewrite concat_app. cbn [concat]. rewrite app_nil_r, Hcc.
    split; [done|]. split; [done|]. split; [by eapply batches_snoc|]. split; [done|].
    split; [apply Forall_app; by repeat constructor|]. split.
    + intros k b Hkb Hlt. rewrite length_app in Hlt. simpl in Hlt.
      rewrite lookup_app_l in Hkb by lia. by eapply Hf.
    + destruct r; unfold fail; cbn [events failures auth_failures]; repeat split; done || lia.
Qed.
End world.
End sweep.

(** Two instruments: one with two new events, one whose request is refused. *)
Definition ex_event (t : Z) : FundingEvent (DL := z_decimal) (TL := z_time) :=
  mkEvent (DL := z_decimal) (TL := z_time) (mkId Binance "A") t 1 None.
Definition ex_history : ExchangeAdapter (DL := z_decimal) (TL := z_time) :=
  {| ad_exchange := Binance; ad_discover_instruments := Ok []; ad_fetch_oi _ _ := Ok [];
     ad_fetch_prices _ := Ok []; ad_fetch_funding _ _ := Ok [];
     ad_fetch_funding_history i _ :=
       Ret (if bool_decide (symbol i = "A"%string) then Ok [ex_event 1; ex_event 2]
            else Err (Auth "403")) |}.
(** A store that keeps the funding events. *)
Definition ex_events_repo : OiRepository (DL := z_decimal) (TL := z_time)
    (list (FundingEvent (DL := z_decimal) (TL := z_time))) :=
  mkRepo (DL := z_decimal) (TL := z_time) (λ _, mret tt) (λ _, mret tt) (λ _ _ _, mret [])
    (λ _, mret None) (λ _, mret tt) (λ _ _ _, mret []) (λ _, mret None)
    (λ l w, (Ok tt, w ++ l)) (λ _ _ _, mret []) (λ _, mret None).
Definition ex_latest (_ : InstrumentId)
  : result CoreError (option (FundingEvent (DL := z_decimal) (TL := z_time))) := Ok None.
Lemma sweep_hands_over_witness :
  sweep_once (DL := z_decimal) (TL := z_time) ex_events_repo ex_history ex_latest (λ _, 0)
    (λ _, 0%nat) 8 [mkId Binance "A"; mkId Binance "B"] []
    = (mkStats 2 1 1, [ex_event 1; ex_event 2])
  ∧ ∃ bs : list (list (FundingEvent (DL := z_decimal) (TL := z_time))),
      2 = Z.of_nat (length (concat bs)).
Proof.
  split; [reflexivity|].
  destruct (sweep_hands_over (DL := z_decimal) (TL := z_time) ex_events_repo ex_history ex_latest
    (λ _, 0) (λ _, 0%nat) 8 [mkId Binance "A"; mkId Binance "B"] [] (mkStats 2 1 1)
    [ex_event 1; ex_event 2] ltac:(lia) eq_refl)
    as (order & bs & n & _ & _ & _ & _ & _ & _ & He & _).
  exists bs. exact He.
Defined.
