(* ===== verification/WsClient.v ===== *)
(** The WebSocket clients of the exchanges: the supervisor of
    [oi-exchanges/src/common/ws.rs] and the five handlers plugged into it.  The
    socket's sending half is a call on a world [W]; what the other end sends, the
    timers and the outcome of dialling are the events of a connection.  Outgoing
    texts are kept as the values that are serialised. *)

From Stdlib Require Import ZArith Lia String Ascii.
From stdpp Require Import base option list strings.
From S2P Require Import Prelude Externals Concrete.
Open Scope Z_scope.
Open Scope oi_scope.

(** * Text of bytes *)

(** [String::from_utf8_lossy]: the length of the longest prefix that starts a
    UTF-8 character (at least one byte), and whether it is a whole one. *)
Definition is_cont (lo hi : Z) (b : Z) : bool := (lo <=? b) && (b <=? hi).
Fixpoint conts (ranges : list (Z * Z)) (bytes : list Z) : nat * bool :=
  match ranges, bytes with
  | [], _ => (0%nat, true)
  | (lo, hi) :: ranges', b :: bytes' =>
      if is_cont lo hi b then let '(n, ok) := conts ranges' bytes' in (S n, ok) else (0%nat, false)
  | _, [] => (0%nat, false)
  end.
Definition utf8_char (b : Z) (rest : list Z) : nat * bool :=
  let c := (128, 191) in
  let '(n, ok) :=
    if b <? 128 then (0%nat, true)
    else if is_cont 194 223 b then conts [c] rest
    else if b =? 224 then conts [(160, 191); c] rest
    else if is_cont 225 236 b || is_cont 238 239 b then conts [c; c] rest
    else if b =? 237 then conts [(128, 159); c] rest
    else if b =? 240 then conts [(144, 191); c; c] rest
    else if is_cont 241 243 b then conts [c; c; c] rest
    else if b =? 244 then conts [(128, 143); c; c] rest
    else (0%nat, false) in
  (S n, ok).
Fixpoint lossy_fuel (fuel : nat) (bytes : list Z) : list Z :=
  match fuel, bytes with
  | S fuel', b :: rest =>
      let '(n, ok) := utf8_char b rest in
      (if ok then take n bytes else [239; 191; 189]) ++ lossy_fuel fuel' (drop n bytes)
  | _, _ => []
  end.
Definition text_of_bytes (bytes : list Z) : string :=
  string_of_list_ascii ((λ b, ascii_of_nat (Z.to_nat b)) <$> bytes).
Definition from_utf8_lossy (bytes : list Z) : string :=
  text_of_bytes (lossy_fuel (length bytes) bytes).
(** [str::as_bytes] and [String::into_bytes]. *)
Definition bytes_of_text (s : string) : list Z :=
  (λ c, Z.of_nat (nat_of_ascii c)) <$> list_ascii_of_string s.

Section ws.
Context {JL : JsonLib}.

(** [Frame] *)
Inductive Frame := Payload (v : Value) | Raw (bytes : list Z).

(** A message read from the socket; a close frame comes with its [Debug] text. *)
Inductive Message :=
| Text (t : string)
| Binary (b : list Z)
| Ping (b : list Z)
| Pong (b : list Z)
| Close (dbg : string).

(** A message handed to the socket. *)
Inductive OutMsg :=
| SubscribeMsg (channel : string) (args : list string)
| PlainText (t : string)
| JsonPing
| JsonPong
| ProtoPing
| ProtoPong (b : list Z).

Context {W : Type} (send : OutMsg → SE W string unit).

(** [for m in .. { sink.send(m).await?; }] *)
Fixpoint send_all (ms : list OutMsg) : SE W string unit :=
  match ms with [] => mret tt | m :: ms' => _ ← send m; send_all ms' end.

(** [slice::chunks]. *)
Fixpoint chunks_fuel {A} (fuel n : nat) (l : list A) : list (list A) :=
  match fuel, l with
  | O, _ | _, [] => []
  | S fuel', _ => take n l :: chunks_fuel fuel' n (drop n l)
  end.
Definition chunks {A} (n : nat) (l : list A) : list (list A) := chunks_fuel (length l) n l.

(** [WsHandler] *)
Record WsHandler := mkHandler {
  h_url : string;
  on_connect : SE W string unit;
  on_message : Message → SE W string (option Frame);
  ping_interval : Z;
  idle_timeout : Z;
}.
Definition default_ping_interval : Z := dur_seconds 20.
Definition default_idle_timeout : Z := dur_seconds 60.

(** [serde_json::from_str(&t)?], the error's text left to the library. *)
Definition parse_json (t : string) : result string Value :=
  match json_from_str t with Some v => Ok v | None => Err "json"%string end.

(** * The venues *)

Definition OKX_MAX_ARGS_PER_SUB : nat := 40.
Definition BITGET_MAX_ARGS_PER_SUB : nat := 50.
Definition BYBIT_MAX_ARGS_PER_SUB : nat := 10.

(** OKX and Bitget share the shape of their messages. *)
Definition event_or_arg (m : Message) : SE W string (option Frame) :=
  match m with
  | Text t =>
      if String.eqb t "pong" then mret None
      else if String.eqb t "ping" then _ ← send (PlainText "pong"); mret None
      else
        value ← se_lift (parse_json t);
        if bool_decide (is_Some (json_get value "event")) then mret None
        else if bool_decide (is_Some (json_get value "arg")) then mret (Some (Payload value))
        else mret None
  | _ => mret None
  end.

Definition okx_ws (inst_ids : list string) : WsHandler := {|
  h_url := "wss://ws.okx.com:8443/ws/v5/public";
  on_connect := send_all (SubscribeMsg "open-interest" <$> chunks OKX_MAX_ARGS_PER_SUB inst_ids);
  on_message := event_or_arg;
  ping_interval := dur_seconds 20;
  idle_timeout := dur_seconds 60 |}.

Definition bitget_ws (inst_ids : list string) : WsHandler := {|
  h_url := "wss://ws.bitget.com/v2/ws/public";
  on_connect := send_all (SubscribeMsg "ticker" <$> chunks BITGET_MAX_ARGS_PER_SUB inst_ids);
  on_message := event_or_arg;
  ping_interval := dur_seconds 25;
  idle_timeout := dur_seconds 60 |}.

Definition bybit_topics (symbols : list string) : list string :=
  (λ s, "tickers." +:+ s) <$> symbols.

Definition bybit_message (m : Message) : SE W string (option Frame) :=
  let go (text : string) : SE W string (option Frame) :=
    value ← se_lift (map_err (λ e, "bybit ws decode: " +:+ e) (parse_json text));
    let data :=
      if bool_decide (is_Some (json_get value "topic")) then mret (Some (Payload value))
      else mret (Some (Raw (bytes_of_text text))) in
    match get_str value "op" with
    | Some op =>
        if String.eqb op "ping" then _ ← send JsonPong; mret None
        else if String.eqb op "pong" || String.eqb op "subscribe"
                || String.eqb op "unsubscribe" || String.eqb op "auth" then mret None
        else data
    | None => data
    end in
  match m with
  | Text t => go t
  | Binary b => go (from_utf8_lossy b)
  | _ => mret None
  end.

Definition bybit_ws (symbols : list string) : WsHandler := {|
  h_url := "wss://stream.bybit.com/v5/public/linear";
  on_connect := send_all (SubscribeMsg "" <$> chunks BYBIT_MAX_ARGS_PER_SUB (bybit_topics symbols));
  on_message := bybit_message;
  ping_interval := dur_seconds 20;
  idle_timeout := dur_seconds 60 |}.

Definition hyperliquid_message (m : Message) : SE W string (option Frame) :=
  match m with
  | Text t =>
      value ← se_lift (parse_json t);
      let channel := get_str value "channel" in
      match channel with
      | Some c =>
          if String.eqb c "pong" || String.eqb c "subscriptionResponse" || String.eqb c "error"
          then mret None
          else if bool_decide (get_str value "method" = Some "ping"%string)
          then _ ← send JsonPong; mret None
          else mret (Some (Payload value))
      | None =>
          if bool_decide (get_str value "method" = Some "ping"%string)
          then _ ← send JsonPong; mret None
          else mret None
      end
  | _ => mret None
  end.

Definition hyperliquid_ws (coins : list string) : WsHandler := {|
  h_url := "wss://api.hyperliquid.xyz/ws";
  on_connect := send_all (((λ c, SubscribeMsg "activeAssetCtx" [c]) <$> coins) ++ [JsonPing]);
  on_message := hyperliquid_message;
  ping_interval := dur_seconds 20;
  idle_timeout := dur_seconds 60 |}.

Definition binance_ws : WsHandler := {|
  h_url := "wss://fstream.binance.com/stream?streams=!markPrice@arr@1s";
  on_connect := mret tt;
  on_message := λ m,
    match m with
    | Text t => value ← se_lift (parse_json t); mret (Some (Payload value))
    | Binary b => value ← se_lift (parse_json (text_of_bytes b)); mret (Some (Payload value))
    | _ => mret None
    end;
  ping_interval := default_ping_interval;
  idle_timeout := dur_seconds 30 |}.

(** * The supervisor *)

(** What the read half yields. *)
Inductive ReadOutcome := Ended | ReadError (e : string) | Got (m : Message).

(** The branch the [select!] of a connection takes; [consumer] is whether the
    receiver of the frames is still there when a frame is handed over. *)
Inductive ConnEvent := PingTick | IdleElapsed | Next (r : ReadOutcome) (consumer : bool).

(** One poll of the [select!]: when the task is polled, what the read half has
    by then, which of the two branches is tried first, and when the handling of
    the chosen branch is over. *)
Record Poll := mkPoll {
  polled : Z; arrived : option ReadOutcome; read_first : bool; handled : Z; receiver : bool }.

(** Each turn of the loop makes a new [timeout(idle, ..)], at [start]; the ping
    interval keeps its own next instant, [tick], from turn to turn. *)
Definition read_branch (idle start : Z) (p : Poll) : option ConnEvent :=
  match arrived p with
  | Some r => Some (Next r (receiver p))
  | None => if start + idle <=? polled p then Some IdleElapsed else None
  end.
Definition tick_branch (tick : Z) (p : Poll) : option ConnEvent :=
  if tick <=? polled p then Some PingTick else None.
Definition select (idle start tick : Z) (p : Poll) : option ConnEvent :=
  if read_first p
  then match read_branch idle start p with Some e => Some e | None => tick_branch tick p end
  else match tick_branch tick p with Some e => Some e | None => read_branch idle start p end.

(** The state the next poll finds: a taken tick moves the interval on by one
    period; a branch that was taken ends the turn, and with it the timeout. *)
Definition after_poll (period start tick : Z) (chosen : option ConnEvent) (p : Poll) : Z * Z :=
  match chosen with
  | None => (start, tick)
  | Some PingTick => (handled p, tick + period)
  | Some _ => (handled p, tick)
  end.

(** The branches a connection takes, poll by poll. *)
Fixpoint branches (period idle start tick : Z) (polls : list Poll) : list ConnEvent :=
  match polls with
  | [] => []
  | p :: polls' =>
      let e := select idle start tick p in
      let '(start', tick') := after_poll period start tick e p in
      option_list e ++ branches period idle start' tick' polls'
  end.

(** How a connection ended, or that it is still open after the events given. *)
Inductive Outcome := StillOpen | Disconnected (reason : string) | Failed (error : string).

Fixpoint connect_loop (h : WsHandler) (events : list ConnEvent) (w : W)
  : list Frame * Outcome * W :=
  match events with
  | [] => ([], StillOpen, w)
  | PingTick :: events' =>
      match send ProtoPing w with
      | (Err e, w) => ([], Disconnected ("ping send failed: " +:+ e), w)
      | (Ok _, w) => connect_loop h events' w
      end
  | IdleElapsed :: _ => ([], Disconnected "idle timeout", w)
  | Next r consumer :: events' =>
      match r with
      | Ended => ([], Disconnected "stream ended", w)
      | ReadError e => ([], Failed ("ws read error: " +:+ e), w)
      | Got (Ping p) => let '(_, w) := send (ProtoPong p) w in connect_loop h events' w
      | Got (Pong _) => connect_loop h events' w
      | Got (Close c) => ([], Disconnected ("close frame: " +:+ c), w)
      | Got other =>
          match on_message h other w with
          | (Err e, w) => ([], Failed e, w)
          | (Ok None, w) => connect_loop h events' w
          | (Ok (Some frame), w) =>
              if negb consumer then ([], Disconnected "consumer dropped", w)
              else let '(frames, o, w) := connect_loop h events' w in (frame :: frames, o, w)
          end
      end
  end.

(** One turn of the supervisor: whether the consumer is gone when it starts, how
    dialling ends (within ten seconds), when the loop starts, and the polls of
    the connection. *)
Record Attempt := mkAttempt {
  tx_closed : bool; dialled : result string unit; opened : Z; met : list Poll }.

(** The interval's immediate first tick is consumed before the loop. *)
Definition events_of (h : WsHandler) (a : Attempt) : list ConnEvent :=
  branches (ping_interval h) (idle_timeout h) (opened a) (opened a + ping_interval h) (met a).

Definition connect_once (h : WsHandler) (a : Attempt) (w : W) : list Frame * Outcome * W :=
  match dialled a with
  | Err e => ([], Failed e, w)
  | Ok _ =>
      match on_connect h w with
      | (Err e, w) => ([], Failed e, w)
      | (Ok _, w) => connect_loop h (events_of h a) w
      end
  end.

(** What the supervisor has done: the frames handed over, how each connection
    ended and the delays it slept; [true] when it has shut down. *)
Record Supervised := mkSupervised {
  delivered : list Frame; outcomes : list Outcome; delays : list Z; stopped : bool }.

(** [backoff n] is the [n]-th value of the backoff iterator. *)
Fixpoint run_supervisor (h : WsHandler) (backoff : nat → option Z) (turn : nat)
    (attempts : list Attempt) (w : W) : Supervised * W :=
  match attempts with
  | [] => (mkSupervised [] [] [] false, w)
  | a :: attempts' =>
      if tx_closed a then (mkSupervised [] [] [] true, w)
      else
        let '(frames, o, w) := connect_once h a w in
        let delay := default (dur_seconds 30) (backoff turn) in
        let '(s, w) := run_supervisor h backoff (S turn) attempts' w in
        (mkSupervised (frames ++ delivered s) (o :: outcomes s) (delay :: delays s) (stopped s), w)
  end.
End ws.

(** * Chunks *)

Lemma chunks_concat {A} n (l : list A) : (0 < n)%nat → concat (chunks n l) = l.
Proof.
  intros Hn. unfold chunks.
  enough (H : ∀ fuel (l : list A), (length l ≤ fuel)%nat → concat (chunks_fuel fuel n l) = l)
    by (apply H; lia).
  intros fuel. induction fuel as [|fuel IH]; intros l' H; [destruct l'; simpl in *; [done|lia]|].
  destruct l' as [|x l']; [done|]. cbn [chunks_fuel concat].
  rewrite IH, take_drop; [done|]. rewrite length_drop. simpl in *. lia.
Qed.

Lemma chunks_bound {A} n (l : list A) : Forall (λ c, (length c ≤ n)%nat) (chunks n l).
Proof.
  unfold chunks. generalize (length l) at 1. intros fuel. revert l.
  induction fuel as [|fuel IH]; intros [|x l]; simpl; [constructor..|].
  constructor; [rewrite length_take; lia|apply IH].
Qed.

Section ws_lemmas.
Context {JL : JsonLib} {W : Type} (send : OutMsg → SE W string unit).

Lemma send_all_total ms w :
  (∀ m w, (send m w).1 = Ok tt) → (send_all send ms w).1 = Ok tt.
Proof.
  intros H. revert w. induction ms as [|m ms IH]; intros w; [done|].
  cbn [send_all]. unfold mbind, se_bind. pose proof (H m w) as Hm.
  destruct (send m w) as [r w']. simpl in Hm. subst r. apply IH.
Qed.

(** A handler whose reading of a message depends on the message alone. *)
Definition reads_alike (h : WsHandler (W:=W)) : Prop :=
  (∀ w, (on_connect h w).1 = Ok tt)
  ∧ ∀ m w w', (on_message h m w).1 = (on_message h m w').1.

(** The handlers of the venues. *)
Inductive venue_handler : WsHandler (W:=W) → Prop :=
| vh_okx ids : venue_handler (okx_ws send ids)
| vh_bitget ids : venue_handler (bitget_ws send ids)
| vh_bybit symbols : venue_handler (bybit_ws send symbols)
| vh_hyperliquid coins : venue_handler (hyperliquid_ws send coins)
| vh_binance : venue_handler binance_ws.

Lemma after_send {A} (m : OutMsg) (a : A) w :
  (∀ m w, (send m w).1 = Ok tt) →
  ((_ ← send m; mret a : SE W string A) w).1 = Ok a.
Proof.
  intros H. unfold mbind, se_bind. pose proof (H m w) as Hm.
  destruct (send m w) as [r w']. simpl in Hm. by subst r.
Qed.

Lemma lift_alike {A B} (r : result string A) (k : A → SE W string B) w w' :
  (∀ a w w', (k a w).1 = (k a w').1) → ((se_lift r ≫= k) w).1 = ((se_lift r ≫= k) w').1.
Proof. intros H. unfold mbind, se_bind, se_lift. destruct r; [apply H|done]. Qed.

Lemma event_or_arg_alike m w w' :
  (∀ m w, (send m w).1 = Ok tt) → (event_or_arg send m w).1 = (event_or_arg send m w').1.
Proof.
  intros H. destruct m as [t|b|b|b|c]; try done. unfold event_or_arg.
  destruct (String.eqb t "pong"); [done|].
  destruct (String.eqb t "ping"); [by rewrite !after_send|].
  apply lift_alike. intros v w1 w2. by repeat case_bool_decide.
Qed.

Lemma bybit_alike m w w' :
  (∀ m w, (send m w).1 = Ok tt) → (bybit_message send m w).1 = (bybit_message send m w').1.
Proof.
  intros H. destruct m as [t|b|b|b|c]; try done; unfold bybit_message;
    apply lift_alike; intros v w1 w2;
    (destruct (get_str v "op") as [op|]; [|by case_bool_decide]);
    (destruct (String.eqb op "ping"); [by rewrite !after_send|]);
    (destruct (_ || _ || _ || _); [done|by case_bool_decide]).
Qed.

Lemma hyperliquid_alike m w w' :
  (∀ m w, (send m w).1 = Ok tt) →
  (hyperliquid_message send m w).1 = (hyperliquid_message send m w').1.
Proof.
  intros H. destruct m as [t|b|b|b|c]; try done. unfold hyperliquid_message.
  apply lift_alike. intros v w1 w2. destruct (get_str v "channel") as [ch|].
  - destruct (_ || _ || _); [done|]. case_bool_decide; [by rewrite !after_send|done].
  - case_bool_decide; [by rewrite !after_send|done].
Qed.

Lemma venues_read_alike h :
  (∀ m w, (send m w).1 = Ok tt) → venue_handler h → reads_alike h.
Proof.
  intros H [ids|ids|symbols|coins|]; split; intros; simpl.
  - by apply send_all_total.
  - by apply event_or_arg_alike.
  - by apply send_all_total.
  - by apply event_or_arg_alike.
  - by apply send_all_total.
  - by apply bybit_alike.
  - by apply send_all_total.
  - by apply hyperliquid_alike.
  - done.
  - by destruct m; try done; apply lift_alike.
Qed.
End ws_lemmas.

(** * Specification of the supervisor *)

Section ws_claims.
Context {JL : JsonLib} {W : Type} (send : OutMsg → SE W string unit).

(** [read m] is the handler's reading of a data message. *)
Definition ends_connection (read : Message → result string (option Frame)) (e : ConnEvent) : bool :=
  match e with
  | PingTick => false
  | IdleElapsed => true
  | Next (Ended | ReadError _) _ | Next (Got (Close _)) _ => true
  | Next (Got (Ping _ | Pong _)) _ => false
  | Next (Got m) consumer =>
      match read m with Err _ => true | Ok None => false | Ok (Some _) => negb consumer end
  end.

(** The events before the first that ends the connection. *)
Fixpoint while_open (read : Message → result string (option Frame)) (events : list ConnEvent)
  : list ConnEvent :=
  match events with
  | [] => []
  | e :: events' => if ends_connection read e then [] else e :: while_open read events'
  end.

Definition frame_of (read : Message → result string (option Frame)) (e : ConnEvent)
  : option Frame :=
  match e with
  | Next (Got ((Text _ as m) | (Binary _ as m))) _ =>
      match read m with Ok (Some f) => Some f | _ => None end
  | _ => None
  end.

(** The frames one connection hands over. *)
Definition connection_frames (h : WsHandler (W:=W)) (read : Message → result string (option Frame))
    (a : Attempt) : list Frame :=
  if is_ok (dialled a) then omap (frame_of read) (while_open read (events_of h a)) else [].

(** A connection whose task is polled in time: the clock goes forward, and no
    poll comes later than the slack between the two timeouts after the ping
    tick was due (or after the turn began, when the tick was due before). *)
Fixpoint prompt (period idle start tick : Z) (polls : list Poll) : Prop :=
  match polls with
  | [] => True
  | p :: polls' =>
      start ≤ polled p ≤ handled p ∧ polled p < Z.max start tick + (idle - period)
      ∧ let '(start', tick') := after_poll period start tick (select idle start tick p) p in
        prompt period idle start' tick' polls'
  end.
Definition timely (h : WsHandler (W:=W)) (a : Attempt) : Prop :=
  prompt (ping_interval h) (idle_timeout h) (opened a) (opened a + ping_interval h) (met a).

(** A new timeout at every turn: the tick always comes first. *)
Lemma no_idle period idle start tick polls :
  0 ≤ period → tick ≤ start + period → prompt period idle start tick polls →
  (IdleElapsed ∉ branches period idle start tick polls)
  ∧ (Forall (λ p, arrived p = None) polls →
     Forall (eq PingTick) (branches period idle start tick polls)).
Proof.
  intros Hp. revert start tick. induction polls as [|p polls IH]; intros start tick Ht Hall.
  { split; [apply not_elem_of_nil|constructor]. }
  cbn [prompt branches] in *. destruct Hall as (Hc & Hlate & Hall).
  assert (Hidle : (start + idle <=? polled p) = false) by (apply Z.leb_gt; lia).
  assert (Hsel : select idle start tick p
                 = if read_first p
                   then match arrived p with Some r => Some (Next r (receiver p))
                        | None => tick_branch tick p end
                   else if tick <=? polled p then Some PingTick
                        else (λ r, Next r (receiver p)) <$> arrived p).
  { unfold select, read_branch, tick_branch. rewrite Hidle.
    by destruct (read_first p), (arrived p), (tick <=? polled p). }
  assert (Hstep : match select idle start tick p with
                  | None => True | Some PingTick => tick ≤ polled p
                  | Some IdleElapsed => False | Some (Next _ _) => arrived p ≠ None end).
  { rewrite Hsel. unfold tick_branch.
    by destruct (read_first p), (arrived p), (Z.leb_spec tick (polled p)). }
  clear Hsel. destruct (select idle start tick p) as [[| |r c]|]; cbn [after_poll option_list] in *;
    [| |destruct (IH (handled p) tick)|destruct (IH start tick)]; try done; try lia.
  - destruct (IH (handled p) (tick + period)) as [H1 H2]; [lia|done|].
    split; [by apply not_elem_of_cons|]. intros [_ Hn]%Forall_cons_1.
    constructor; [done|by apply H2].
  - split; [by apply not_elem_of_cons|]. by intros [? _]%Forall_cons_1.
  - split; [done|]. intros [_ Hn]%Forall_cons_1. auto.
Qed.

(** The turns until the consumer is gone. *)
Fixpoint turns (attempts : list Attempt) : list Attempt :=
  match attempts with
  | [] => []
  | a :: attempts' => if tx_closed a then [] else a :: turns attempts'
  end.

Definition still_open (o : Outcome) : bool := match o with StillOpen => true | _ => false end.

Lemma connect_loop_spec h w0 events w :
  (∀ m w, (send m w).1 = Ok tt) → reads_alike h →
  let read m := (on_message h m w0).1 in
  let '(frames, o, w') := connect_loop send h events w in
  frames = omap (frame_of read) (while_open read events)
  ∧ still_open o = negb (existsb (ends_connection read) events).
Proof.
  intros Hs [Hc Hr]. cbv zeta. revert w.
  induction events as [|e events IH]; intros w; [done|].
  destruct e as [| |[|e|m] consumer]; cbn [connect_loop]; try done.
  - pose proof (Hs ProtoPing w) as Hp. destruct (send ProtoPing w) as [r w1].
    simpl in Hp. subst r. exact (IH w1).
  - assert (Hdata : ∀ m', (∀ b, m' ≠ Ping b) → (∀ b, m' ≠ Pong b) → (∀ c, m' ≠ Close c) →
      (∃ t, m' = Text t) ∨ ∃ b, m' = Binary b) by (intros []; naive_solver).
    assert (Hgo : ∀ m', (∃ t, m' = Text t) ∨ (∃ b, m' = Binary b) →
      let '(frames, o, _) :=
        match on_message h m' w with
        | (Err e, w) => ([], Failed e, w)
        | (Ok None, w) => connect_loop send h events w
        | (Ok (Some frame), w) =>
            if negb consumer then ([], Disconnected "consumer dropped", w)
            else let '(frames, o, w) := connect_loop send h events w in (frame :: frames, o, w)
        end in
      frames = omap (frame_of (λ m, (on_message h m w0).1))
                 (while_open (λ m, (on_message h m w0).1) (Next (Got m') consumer :: events))
      ∧ still_open o = negb (existsb (ends_connection (λ m, (on_message h m w0).1))
                               (Next (Got m') consumer :: events))).
    { intros m' Hm. pose proof (Hr m' w w0) as Hread.
      destruct (on_message h m' w) as [r w1]. cbn [fst] in Hread.
      destruct Hm as [[t ->]|[b ->]]; cbn [while_open existsb ends_connection];
        rewrite <- Hread; (destruct r as [[f|]|e]; [destruct consumer| |done]); cbn [negb];
        try done.
      all: specialize (IH w1); destruct (connect_loop send h events w1) as [[fs o] w2];
        destruct IH as [-> ->]; cbn [omap list_omap frame_of]; by rewrite <- Hread. }
    destruct m as [t|b|b|b|c]; [apply (Hgo (Text t)); eauto|apply (Hgo (Binary b)); eauto| | |done].
    + destruct (send (ProtoPong b) w) as [r w1]. exact (IH w1).
    + exact (IH w).
Qed.

Lemma connect_once_spec h w0 a w :
  (∀ m w, (send m w).1 = Ok tt) → reads_alike h →
  let read m := (on_message h m w0).1 in
  let '(frames, o, w') := connect_once send h a w in
  frames = connection_frames h read a
  ∧ still_open o = is_ok (dialled a) && negb (existsb (ends_connection read) (events_of h a)).
Proof.
  intros Hs Hr. cbv zeta. unfold connect_once, connection_frames.
  destruct (dialled a) as [u|e]; [|done]. simpl. destruct Hr as [Hc Hr].
  pose proof (Hc w) as Hcw. destruct (on_connect h w) as [r w1]. simpl in Hcw. subst r.
  exact (connect_loop_spec h w0 (events_of h a) w1 Hs (conj Hc Hr)).
Qed.

Lemma venue_slack h :
  venue_handler send h → 0 ≤ ping_interval h ∧ dur_seconds 10 ≤ idle_timeout h - ping_interval h.
Proof. by intros [ids|ids|symbols|coins|]. Qed.

Lemma run_supervisor_spec h backoff attempts w0 :
  (∀ m w, (send m w).1 = Ok tt) → reads_alike h →
  let read m := (on_message h m w0).1 in
  ∀ w turn, let s := (run_supervisor send h backoff turn attempts w).1 in
  delivered s = concat (connection_frames h read <$> turns attempts)
  ∧ stopped s = existsb tx_closed attempts
  ∧ still_open <$> outcomes s
    = (λ a, is_ok (dialled a) && negb (existsb (ends_connection read) (events_of h a)))
        <$> turns attempts
  ∧ delays s = (λ k, default (dur_seconds 30) (backoff k)) <$> seq turn (length (turns attempts)).
Proof.
  intros Hs Hr. cbv zeta. induction attempts as [|a attempts IH]; intros w turn; [done|].
  cbn [run_supervisor turns existsb]. destruct (tx_closed a); [done|].
  pose proof (connect_once_spec h w0 a w Hs Hr) as Hone. cbv zeta in Hone.
  destruct (connect_once send h a w) as [[frames o] w1].
  destruct Hone as [-> Ho]. specialize (IH w1 (S turn)).
  destruct (run_supervisor send h backoff (S turn) attempts w1) as [s w2].
  cbn [fst delivered outcomes delays stopped] in *. destruct IH as (-> & -> & IHo & ->).
  cbn [fmap list_fmap concat length seq]. by rewrite Ho, IHo.
Qed.

(** C26. What the WebSocket supervisor guarantees for every venue, as long as
    writes to the socket go through. Over any sequence of connections the frames
    handed to the consumer are, in order and across reconnects, the frames the
    handler reads from the data messages that arrived before the event that ended
    their connection (the end of the stream, a read error, a close frame, a text
    that is not JSON, a dropped consumer found when handing over a frame, an idle
    timeout). Only a dropped consumer stops the supervisor, not a dropped join
    handle; every other end leads to another connection, the [k]th after the
    [k]th backoff delay, however healthy the connections before were: the
    backoff is never reset. And the idle timeout does not end a connection:
    every venue's timeout is at least ten seconds longer than its ping interval
    and starts anew with every tick, so while the task is polled within that
    slack of its timers it never elapses, and a connection that has gone silent
    takes nothing but ping ticks and stays open. *)
Theorem supervisor_delivers h backoff attempts w w0 :
  (∀ m w, (send m w).1 = Ok tt) → venue_handler send h →
  let read m := (on_message h m w0).1 in
  let s := (run_supervisor send h backoff 0 attempts w).1 in
  delivered s = concat (connection_frames h read <$> turns attempts)
  ∧ stopped s = existsb tx_closed attempts
  ∧ still_open <$> outcomes s
    = (λ a, is_ok (dialled a) && negb (existsb (ends_connection read) (events_of h a)))
        <$> turns attempts
  ∧ delays s = (λ k, default (dur_seconds 30) (backoff k)) <$> seq 0 (length (turns attempts))
  ∧ dur_seconds 10 ≤ idle_timeout h - ping_interval h
  ∧ (∀ a, timely h a →
       (IdleElapsed ∉ events_of h a)
       ∧ (Forall (λ p, arrived p = None) (met a) → Forall (eq PingTick) (events_of h a))).
Proof.
  intros Hs Hv. pose proof (venues_read_alike send h Hs Hv) as Hr. cbv zeta.
  destruct (run_supervisor_spec h backoff attempts w0 Hs Hr w 0%nat) as (? & ? & ? & ?).
  destruct (venue_slack h Hv) as [Hp Hslack]. do 5 (split; [done|]).
  intros a Ha. apply no_idle; [done|lia|exact Ha].
Qed.
End ws_claims.

(** * Concrete run *)

(** A socket that records what is written to it. *)
Definition ex_send (m : OutMsg) : SE (list OutMsg) string unit := λ sent, (Ok tt, sent ++ [m]).

(** OKX asks for a heartbeat and closes; a dial is refused; then nothing arrives
    any more and the third connection is polled at its ticks, for minutes. *)
Definition ex_silent (k : nat) : Poll :=
  let t := dur_seconds (20 * Z.of_nat (S k)) in mkPoll t None true t true.
Definition ex_attempts : list Attempt :=
  [mkAttempt false (Ok tt) 0
     [mkPoll 5 (Some (Got (Text "ping"))) true 6 true; mkPoll 8 (Some Ended) true 8 true];
   mkAttempt false (Err "refused"%string) 0 [];
   mkAttempt false (Ok tt) 0 (ex_silent <$> seq 0 12);
   mkAttempt true (Ok tt) 0 []].

Lemma supervisor_delivers_witness :
  let h := okx_ws (JL := tree_json) ex_send ["BTC"]%string in
  let s := (run_supervisor ex_send h (λ k, Some (Z.of_nat k)) 0 ex_attempts []).1 in
  stopped s = true ∧ delays s = [0; 1; 2] ∧ delivered s = []
  ∧ still_open <$> outcomes s = [false; false; true]
  ∧ Forall (eq PingTick) (events_of h (mkAttempt false (Ok tt) 0 (ex_silent <$> seq 0 12))).
Proof.
  intros h s. subst s.
  destruct (supervisor_delivers (JL := tree_json) ex_send h (λ k, Some (Z.of_nat k))
    ex_attempts [] []) as (H1 & H2 & H3 & H4 & _ & H5); [done|apply vh_okx|].
  rewrite H1, H2, H3, H4. split; [reflexivity|]. split; [reflexivity|]. split; [reflexivity|].
  split; [reflexivity|]. apply H5; [|repeat constructor].
  vm_compute. repeat split; discriminate.
Defined.
