(* ===== verification/ApiAuth.v ===== *)
(** Authentication of the API server: [oi-api/src/auth.rs], the check of the
    WebSocket upgrade in [ws.rs] and where [server.rs] applies them.  A header is
    [None] when it is absent or not printable text. *)

From Stdlib Require Import ZArith Lia String Ascii.
From stdpp Require Import base option list strings.
From S2P Require Import Prelude.
Open Scope Z_scope.

(** [AuthState] *)
Definition AuthState : Type := list string.

(** [str::as_bytes]. *)
Definition as_bytes (s : string) : list Z := (λ c, Z.of_nat (nat_of_ascii c)) <$> list_ascii_of_string s.

Definition ct_eq (a b : list Z) : bool :=
  if negb (length a =? length b)%nat then false
  else foldl (λ diff xy, Z.lor diff (Z.lxor xy.1 xy.2)) 0 (zip a b) =? 0.

Definition accepts (tokens : AuthState) (presented : string) : bool :=
  existsb (λ valid, ct_eq (as_bytes valid) (as_bytes presented)) tokens.

Definition extract_bearer (header_value : option string) : option string :=
  header_value ≫= strip_prefix "Bearer ".

Definition is_public_path (path : string) : bool :=
  String.eqb path "/health" || starts_with "/health/" path || String.eqb path "/metrics"
  || starts_with "/ws/" path.

(** What the middleware does with a request. *)
Inductive Verdict := Forwarded | Unauthenticated.

Definition rest_auth_middleware (tokens : AuthState) (path : string) (header : option string)
  : Verdict :=
  if is_public_path path then Forwarded
  else match extract_bearer header with
       | None => Unauthenticated
       | Some token => if accepts tokens token then Forwarded else Unauthenticated
       end.

(** The gRPC status message of a refusal. *)
Definition grpc_auth_interceptor (tokens : AuthState) (authorization : option string)
  : result string unit :=
  match extract_bearer authorization with
  | None => Err "missing bearer token"%string
  | Some token => if accepts tokens token then Ok tt else Err "invalid bearer token"%string
  end.

(** The check at the head of [ws_subscribe_handler]. *)
Definition ws_auth (auth : option AuthState) (token : option string) : bool :=
  match auth with
  | None => true
  | Some tokens => match token with Some t => accepts tokens t | None => false end
  end.

(** * The server's endpoints *)

(** A request as it reaches the process, with its credentials. *)
Inductive ApiRequest :=
| RestRequest (path : string) (header : option string)
| WsSubscribe (header : option string) (query_token : option string)
| GrpcCall (authorization : option string).

Definition WS_PATH : string := "/ws/v1/oi/subscribe".

(** Whether the request's handler gets to serve data: the layers [run_async]
    stacks when [auth.enabled], and none otherwise. *)
Definition served (enabled : bool) (tokens : AuthState) (r : ApiRequest) : bool :=
  match r with
  | RestRequest path header =>
      if enabled then
        match rest_auth_middleware tokens path header with Forwarded => true | _ => false end
      else true
  | WsSubscribe header token =>
      (if enabled then
         match rest_auth_middleware tokens WS_PATH header with Forwarded => true | _ => false end
       else true)
      && ws_auth (if enabled then Some tokens else None) token
  | GrpcCall authorization =>
      if enabled then is_ok (grpc_auth_interceptor tokens authorization) else true
  end.

(** The token a request presents, where its kind looks for it. *)
Definition presents (r : ApiRequest) (t : string) : Prop :=
  match r with
  | RestRequest _ header => header = Some (String.append "Bearer " t)
  | WsSubscribe _ token => token = Some t
  | GrpcCall authorization => authorization = Some (String.append "Bearer " t)
  end.

(** A REST path that needs no credentials. *)
Definition probe_request (r : ApiRequest) : Prop :=
  match r with
  | RestRequest path _ =>
      path = "/health"%string ∨ path = "/metrics"%string
      ∨ (∃ rest, path = String.append "/health/" rest)
      ∨ (∃ rest, path = String.append "/ws/" rest)
  | _ => False
  end.

Lemma lor_zero_iff d l :
  0 ≤ d → Forall (λ xy : Z * Z, 0 ≤ xy.1 ∧ 0 ≤ xy.2) l →
  foldl (λ diff xy, Z.lor diff (Z.lxor xy.1 xy.2)) d l = 0 ↔
  d = 0 ∧ Forall (λ xy, xy.1 = xy.2) l.
Proof.
  revert d. induction l as [|[x y] l IH]; intros d Hd Hl; simpl; [naive_solver|].
  apply Forall_cons in Hl as [[Hx Hy] Hl]. simpl in Hx, Hy.
  assert (0 ≤ Z.lxor x y) by (apply Z.lxor_nonneg; split; done).
  rewrite IH by (done || apply Z.lor_nonneg; done).
  rewrite Z.lor_eq_0_iff, Z.lxor_eq_0_iff, Forall_cons. simpl. naive_solver.
Qed.

Lemma ct_eq_spec a b :
  Forall (λ x, 0 ≤ x) a → Forall (λ x, 0 ≤ x) b → ct_eq a b = true ↔ a = b.
Proof.
  intros Ha Hb. unfold ct_eq. destruct (Nat.eqb_spec (length a) (length b)) as [Hl|Hl]; simpl;
    [|split; [done|intros ->; done]].
  rewrite Z.eqb_eq, lor_zero_iff; [|done|].
  - split; [|intros ->; split; [done|]].
    + intros [_ H]. revert b Hb Hl H. clear Ha. induction a as [|x a IH]; intros [|y b] Hb Hl H;
        try done. simpl in *. apply Forall_cons in H as [? H]. simpl in *. subst.
      f_equal. apply IH; [by apply Forall_cons in Hb as []|lia|done].
    + clear. induction b; simpl; constructor; done.
  - clear Hl. revert b Hb. induction Ha as [|x a Hx Ha IH]; intros b Hb; [constructor|].
    destruct Hb as [|y b Hy Hb]; simpl; constructor; [done|by apply IH].
Qed.

Lemma as_bytes_nonneg s : Forall (λ x, 0 ≤ x) (as_bytes s).
Proof. unfold as_bytes. apply Forall_fmap, Forall_forall. intros c _. simpl. lia. Qed.

Lemma as_bytes_inj s t : as_bytes s = as_bytes t → s = t.
Proof.
  unfold as_bytes. intros H.
  assert (Hl : list_ascii_of_string s = list_ascii_of_string t).
  { revert H. generalize (list_ascii_of_string s), (list_ascii_of_string t).
    induction l as [|x l IH]; intros [|y l'] H; try done. simpl in H.
    injection H as Hxy H. f_equal; [|by apply IH].
    rewrite <- (ascii_nat_embedding x), <- (ascii_nat_embedding y). f_equal. lia. }
  rewrite <- (string_of_list_ascii_of_string s), Hl. apply string_of_list_ascii_of_string.
Qed.

Lemma accepts_spec tokens p : accepts tokens p = true ↔ p ∈ tokens.
Proof.
  unfold accepts. rewrite existsb_exists. setoid_rewrite ct_eq_spec; [|apply as_bytes_nonneg..].
  split.
  - intros (v & Hv & H). apply as_bytes_inj in H as ->. by apply list_elem_of_In.
  - intros H. exists p. split; [by apply list_elem_of_In|done].
Qed.

Lemma extract_bearer_spec h t : extract_bearer h = Some t ↔ h = Some (String.append "Bearer " t).
Proof.
  unfold extract_bearer. destruct h as [v|]; [|done]. cbn [mbind option_bind].
  rewrite strip_prefix_spec. naive_solver.
Qed.

(** The Bearer check the REST middleware and the gRPC interceptor share. *)
Lemma bearer_accepted tokens h :
  match extract_bearer h with Some t => accepts tokens t | None => false end = true ↔
  ∃ t, h = Some (String.append "Bearer " t) ∧ t ∈ tokens.
Proof.
  destruct (extract_bearer h) as [t|] eqn:E.
  - apply extract_bearer_spec in E as ->. rewrite accepts_spec. split; [eauto|].
    intros (t' & H & Ht). assert (t = t') as -> by (by inversion H). done.
  - split; [done|]. intros (t' & H & _). apply extract_bearer_spec in H. congruence.
Qed.

Lemma public_spec path h : is_public_path path = true ↔ probe_request (RestRequest path h).
Proof.
  unfold is_public_path, probe_request.
  rewrite !orb_true_iff, !String.eqb_eq, !starts_with_spec. tauto.
Qed.

(** Access control of all endpoints.  The byte comparison that does not
    short-circuit accepts exactly the listed tokens, so with authentication
    enabled a request's handler runs exactly when the request presents a listed
    token in the place its kind uses (the Bearer header, the gRPC metadata, or
    the query of the WebSocket upgrade), or it is a REST request for [/health],
    [/metrics] or something below [/health/] or [/ws/]; no data path is among
    those and the one WebSocket endpoint checks its token itself. *)
Theorem access_control tokens r :
  (served true tokens r = true ↔ (∃ t, presents r t ∧ t ∈ tokens) ∨ probe_request r)
  ∧ (∀ rest header, ¬ probe_request (RestRequest (String.append "/v1/" rest) header))
  ∧ (∀ p, accepts tokens p = true ↔ p ∈ tokens).
Proof.
  split; [|split; [|apply accepts_spec]].
  - destruct r as [path header|header token|authorization]; unfold served, presents.
    + rewrite <- bearer_accepted, <- (public_spec path header). unfold rest_auth_middleware.
      destruct (is_public_path path); [tauto|].
      destruct (extract_bearer header) as [t|]; [destruct (accepts tokens t)|]; naive_solver.
    + assert (rest_auth_middleware tokens WS_PATH header = Forwarded) as -> by done.
      destruct token as [t|]; simpl; rewrite ?accepts_spec; naive_solver.
    + rewrite <- bearer_accepted. unfold grpc_auth_interceptor, probe_request.
      destruct (extract_bearer authorization) as [t|]; [destruct (accepts tokens t)|];
        naive_solver.
  - intros rest header. rewrite <- public_spec. unfold is_public_path. simpl.
    by destruct rest.
Qed.
