(* ===== verification/ApiRest.v ===== *)
(** The REST facade: [oi-api/src/rest.rs].  A response is the value handed to the
    JSON serialiser or a text; routing and the serialiser itself are the web
    framework's.  The repository's reads are calls on a world [W]; the tasks of a
    batch complete in an order the scheduler [sched] chooses. *)

From Stdlib Require Import ZArith Lia String.
From stdpp Require Import base option list strings.
From S2P Require Import Prelude Externals Concrete Domain Repository FanOut.
Open Scope Z_scope.
Open Scope oi_scope.

(** * Error texts (error.rs) *)

(** [Debug] of [std::time::Duration]: the largest unit that leaves an integer
    part, then the fraction without trailing zeros. *)
Fixpoint frac_digits (fuel : nat) (frac div : Z) : string :=
  match fuel with
  | O => EmptyString
  | S fuel' => if frac =? 0 then EmptyString
               else int_to_string (frac / div) +:+ frac_digits fuel' (frac mod div) (div / 10)
  end.
Definition fmt_decimal (int frac div : Z) (suffix : string) : string :=
  int_to_string int +:+ (if frac =? 0 then EmptyString else "." +:+ frac_digits 9 frac div)
  +:+ suffix.
Definition debug_duration (ns : Z) : string :=
  if nanos_per_sec <=? ns then fmt_decimal (ns / nanos_per_sec) (ns mod nanos_per_sec) 100000000 "s"
  else if 1000000 <=? ns then fmt_decimal (ns / 1000000) (ns mod 1000000) 100000 "ms"
  else if 1000 <=? ns then fmt_decimal (ns / 1000) (ns mod 1000) 100 "µs"
  else fmt_decimal ns 0 1 "ns".

Definition display_exchange_error (e : ExchangeError) : string :=
  match e with
  | Transient kind m => "transient error (" +:+ kind +:+ "): " +:+ m
  | RateLimited ra =>
      "rate limited; retry_after=" +:+
      match ra with None => "None" | Some d => "Some(" +:+ debug_duration d +:+ ")" end
  | Auth m => "auth error: " +:+ m
  | Schema m => "schema drift: " +:+ m
  | NotFound m => "instrument not found: " +:+ m
  | Unexpected m => "unexpected: " +:+ m
  end.

Definition display_core_error (e : CoreError) : string :=
  match e with
  | CExchange e => display_exchange_error e
  | CStorage m => "storage error: " +:+ m
  | CConfig m => "config error: " +:+ m
  | CIo m => "io: " +:+ m
  | COther m => "other: " +:+ m
  end.

(** * Responses *)

Inductive StatusCode := BAD_REQUEST | NOT_FOUND | INTERNAL_SERVER_ERROR.

(** A body with status 200, or a text with the status given. *)
Inductive Response (P : Type) :=
| JsonBody (p : P)
| TextBody (status : StatusCode) (text : string).
Arguments JsonBody {P} p.
Arguments TextBody {P} status text.

(** The readiness probe: [None] is a downstream that is not configured.  The
    result is whether the status is 200, and the report. *)
Definition probe_report (p : option (result CoreError unit)) : bool * string :=
  match p with
  | None => (true, "skipped"%string)
  | Some (Ok _) => (true, "ok"%string)
  | Some (Err e) => (false, display_core_error e)
  end.
Definition ready (clickhouse redis : option (result CoreError unit)) : bool * (string * string) :=
  let '(ch_ok, ch_msg) := probe_report clickhouse in
  let '(rs_ok, rs_msg) := probe_report redis in
  (ch_ok && rs_ok, (ch_msg, rs_msg)).

Section rest.
Context {DL : DecimalLib} {TL : TimeLib}.

Definition ts_rfc3339 (t : OffsetDateTime) : string :=
  match rfc3339_format t with Ok s => s | Err _ => odt_to_string t end.

Definition unit_text (u : UnitKind) : string :=
  match u with Coins => "coins" | Contracts => "contracts" | Usd => "usd" end.

(** * Row payloads *)

Record BarDto := mkBarDto {
  d_exchange : string;
  d_symbol : string;
  d_bucket_ts : string;
  d_first_recv_ts : string;
  d_last_recv_ts : string;
  d_samples : Z;
  d_native_unit : string;
  d_native_open : string;
  d_native_high : string;
  d_native_low : string;
  d_native_close : string;
  d_oi_coins_open : option string;
  d_oi_coins_high : option string;
  d_oi_coins_low : option string;
  d_oi_coins_close : option string;
  d_oi_usd_open : option string;
  d_oi_usd_high : option string;
  d_oi_usd_low : option string;
  d_oi_usd_close : option string;
  d_price_used_close : option string;
}.

Definition BarDto_from (s : OiSnapshot) : BarDto :=
  {| d_exchange := code (exchange (instrument s));
     d_symbol := symbol (instrument s);
     d_bucket_ts := ts_rfc3339 (bucket_ts s);
     d_first_recv_ts := ts_rfc3339 (first_recv_ts s);
     d_last_recv_ts := ts_rfc3339 (last_recv_ts s);
     d_samples := samples s;
     d_native_unit := unit_text (native_unit s);
     d_native_open := dec_to_string (native_open s);
     d_native_high := dec_to_string (native_high s);
     d_native_low := dec_to_string (native_low s);
     d_native_close := dec_to_string (native_close s);
     d_oi_coins_open := dec_to_string <$> oi_coins_open s;
     d_oi_coins_high := dec_to_string <$> oi_coins_high s;
     d_oi_coins_low := dec_to_string <$> oi_coins_low s;
     d_oi_coins_close := dec_to_string <$> oi_coins_close s;
     d_oi_usd_open := dec_to_string <$> oi_usd_open s;
     d_oi_usd_high := dec_to_string <$> oi_usd_high s;
     d_oi_usd_low := dec_to_string <$> oi_usd_low s;
     d_oi_usd_close := dec_to_string <$> oi_usd_close s;
     d_price_used_close := dec_to_string <$> price_used_close s |}.

Record FundingDto := mkFundingDto {
  fd_exchange : string;
  fd_symbol : string;
  fd_bucket_ts : string;
  fd_recv_ts : string;
  fd_rate : string;
  fd_next_funding_ts : option string;
  fd_interval_hours : option Z;
}.

Definition FundingDto_from (b : FundingBar) : FundingDto :=
  {| fd_exchange := code (exchange (f_instrument b));
     fd_symbol := symbol (f_instrument b);
     fd_bucket_ts := ts_rfc3339 (f_bucket_ts b);
     fd_recv_ts := ts_rfc3339 (f_recv_ts b);
     fd_rate := dec_to_string (f_rate b);
     fd_next_funding_ts := ts_rfc3339 <$> f_next_funding_ts b;
     fd_interval_hours := f_interval_hours b |}.

Record FundingEventDto := mkFundingEventDto {
  ed_exchange : string;
  ed_symbol : string;
  ed_settlement_ts : string;
  ed_rate : string;
  ed_mark_price : option string;
}.

Definition FundingEventDto_from (e : FundingEvent) : FundingEventDto :=
  {| ed_exchange := code (exchange (ev_instrument e));
     ed_symbol := symbol (ev_instrument e);
     ed_settlement_ts := ts_rfc3339 (ev_settlement_ts e);
     ed_rate := dec_to_string (ev_rate e);
     ed_mark_price := dec_to_string <$> ev_mark_price e |}.

(** * Columnar payloads *)

(** [t.unix_timestamp_nanos() / 1_000_000) as i64]. *)
Definition col_ts (t : OffsetDateTime) : Z := as_i64 (to_millis t).

Record OiColumns := mkOiColumns {
  c_fmt : string;
  c_n : nat;
  c_ts : list Z;
  c_native_open : list string;
  c_native_high : list string;
  c_native_low : list string;
  c_native_close : list string;
  c_oi_coins_open : option (list (option string));
  c_oi_coins_high : option (list (option string));
  c_oi_coins_low : option (list (option string));
  c_oi_coins_close : option (list (option string));
  c_oi_usd_open : option (list (option string));
  c_oi_usd_high : option (list (option string));
  c_oi_usd_low : option (list (option string));
  c_oi_usd_close : option (list (option string));
}.

Definition OiColumns_default : OiColumns :=
  mkOiColumns "" 0 [] [] [] [] [] None None None None None None None None.

Definition has_coins (s : OiSnapshot) : bool :=
  bool_decide (is_Some (oi_coins_open s)) || bool_decide (is_Some (oi_coins_high s))
  || bool_decide (is_Some (oi_coins_low s)) || bool_decide (is_Some (oi_coins_close s)).
Definition has_usd (s : OiSnapshot) : bool :=
  bool_decide (is_Some (oi_usd_open s)) || bool_decide (is_Some (oi_usd_high s))
  || bool_decide (is_Some (oi_usd_low s)) || bool_decide (is_Some (oi_usd_close s)).

(** The first pass, with its early exit. *)
Fixpoint detect_axes (has_co has_uo : bool) (snaps : list OiSnapshot) : bool * bool :=
  match snaps with
  | [] => (has_co, has_uo)
  | s :: snaps' =>
      let has_co := if negb has_co && has_coins s then true else has_co in
      let has_uo := if negb has_uo && has_usd s then true else has_uo in
      if has_co && has_uo then (has_co, has_uo) else detect_axes has_co has_uo snaps'
  end.

(** [if let Some(v) = column.as_mut() { v.push(x) }]. *)
Definition push_opt {A} (column : option (list A)) (x : A) : option (list A) :=
  (λ v, v ++ [x]) <$> column.

Definition push_row (out : OiColumns) (s : OiSnapshot) : OiColumns :=
  {| c_fmt := c_fmt out;
     c_n := c_n out;
     c_ts := c_ts out ++ [col_ts (bucket_ts s)];
     c_native_open := c_native_open out ++ [dec_to_string (native_open s)];
     c_native_high := c_native_high out ++ [dec_to_string (native_high s)];
     c_native_low := c_native_low out ++ [dec_to_string (native_low s)];
     c_native_close := c_native_close out ++ [dec_to_string (native_close s)];
     c_oi_coins_open := push_opt (c_oi_coins_open out) (dec_to_string <$> oi_coins_open s);
     c_oi_coins_high := push_opt (c_oi_coins_high out) (dec_to_string <$> oi_coins_high s);
     c_oi_coins_low := push_opt (c_oi_coins_low out) (dec_to_string <$> oi_coins_low s);
     c_oi_coins_close := push_opt (c_oi_coins_close out) (dec_to_string <$> oi_coins_close s);
     c_oi_usd_open := push_opt (c_oi_usd_open out) (dec_to_string <$> oi_usd_open s);
     c_oi_usd_high := push_opt (c_oi_usd_high out) (dec_to_string <$> oi_usd_high s);
     c_oi_usd_low := push_opt (c_oi_usd_low out) (dec_to_string <$> oi_usd_low s);
     c_oi_usd_close := push_opt (c_oi_usd_close out) (dec_to_string <$> oi_usd_close s) |}.

Definition OiColumns_from_snapshots (snaps : list OiSnapshot) : OiColumns :=
  let '(has_co, has_uo) := detect_axes false false snaps in
  let co := if has_co then Some [] else None in
  let uo := if has_uo then Some [] else None in
  foldl push_row
    (mkOiColumns "col" (length snaps) [] [] [] [] [] co co co co uo uo uo uo) snaps.

Record FundingColumns := mkFundingColumns {
  fc_fmt : string;
  fc_n : nat;
  fc_ts : list Z;
  fc_rate : list string;
  fc_next_funding_ts : option (list (option Z));
  fc_interval_hours : option (list (option Z));
}.

Definition FundingColumns_default : FundingColumns := mkFundingColumns "" 0 [] [] None None.

Definition push_bar (out : FundingColumns) (b : FundingBar) : FundingColumns :=
  {| fc_fmt := fc_fmt out;
     fc_n := fc_n out;
     fc_ts := fc_ts out ++ [col_ts (f_bucket_ts b)];
     fc_rate := fc_rate out ++ [dec_to_string (f_rate b)];
     fc_next_funding_ts := push_opt (fc_next_funding_ts out) (col_ts <$> f_next_funding_ts b);
     fc_interval_hours := push_opt (fc_interval_hours out) (f_interval_hours b) |}.

Definition FundingColumns_from_bars (bars : list FundingBar) : FundingColumns :=
  let nft := if existsb (λ b, bool_decide (is_Some (f_next_funding_ts b))) bars
             then Some [] else None in
  let ih := if existsb (λ b, bool_decide (is_Some (f_interval_hours b))) bars
            then Some [] else None in
  foldl push_bar (mkFundingColumns "col" (length bars) [] [] nft ih) bars.

(** * Requests *)

Definition parse_id (ex sym : string) : result string InstrumentId :=
  let? ex := exchange_from_str ex in Ok (mkId ex sym).
Definition parse_rfc3339 (s : string) : result string OffsetDateTime :=
  map_err (λ e, "rfc3339: " +:+ e) (rfc3339_parse s).

(** [matches!(fmt.as_deref(), Some("col"))]. *)
Definition is_columnar (fmt : option string) : bool := bool_decide (fmt = Some "col"%string).

(** The two shapes an OI answer and a funding answer can have. *)
Inductive OiPayload := OiCols (c : OiColumns) | OiRows (bars : list BarDto).
Inductive FundingPayload := FundingCols (c : FundingColumns) | FundingRows (bars : list FundingDto).

Definition internal {P} (e : CoreError) : Response P :=
  TextBody INTERNAL_SERVER_ERROR (display_core_error e).

Context {W : Type} (repo : OiRepository W).

(** * Single-instrument handlers *)

Definition rest_latest (ex sym : string) (w : W) : Response BarDto * W :=
  match parse_id ex sym with
  | Err e => (TextBody BAD_REQUEST e, w)
  | Ok id =>
      match latest repo id w with
      | (Ok (Some s), w) => (JsonBody (BarDto_from s), w)
      | (Ok None, w) => (TextBody NOT_FOUND "no data", w)
      | (Err e, w) => (internal e, w)
      end
  end.

Definition rest_range (ex sym from to : string) (fmt : option string) (w : W)
  : Response OiPayload * W :=
  match parse_id ex sym with
  | Err e => (TextBody BAD_REQUEST e, w)
  | Ok id =>
  match parse_rfc3339 from with
  | Err e => (TextBody BAD_REQUEST e, w)
  | Ok from =>
  match parse_rfc3339 to with
  | Err e => (TextBody BAD_REQUEST e, w)
  | Ok to =>
      let columnar := is_columnar fmt in
      match range repo id from to w with
      | (Ok snaps, w) =>
          (JsonBody (if columnar then OiCols (OiColumns_from_snapshots snaps)
                     else OiRows (BarDto_from <$> snaps)), w)
      | (Err e, w) => (internal e, w)
      end
  end end end.

Definition rest_funding_latest (ex sym : string) (w : W) : Response FundingDto * W :=
  match parse_id ex sym with
  | Err e => (TextBody BAD_REQUEST e, w)
  | Ok id =>
      match latest_funding repo id w with
      | (Ok (Some b), w) => (JsonBody (FundingDto_from b), w)
      | (Ok None, w) => (TextBody NOT_FOUND "no funding data", w)
      | (Err e, w) => (internal e, w)
      end
  end.

Definition rest_funding_range (ex sym from to : string) (fmt : option string) (w : W)
  : Response FundingPayload * W :=
  match parse_id ex sym with
  | Err e => (TextBody BAD_REQUEST e, w)
  | Ok id =>
  match parse_rfc3339 from with
  | Err e => (TextBody BAD_REQUEST e, w)
  | Ok from =>
  match parse_rfc3339 to with
  | Err e => (TextBody BAD_REQUEST e, w)
  | Ok to =>
      let columnar := is_columnar fmt in
      match funding_range repo id from to w with
      | (Ok bars, w) =>
          (JsonBody (if columnar then FundingCols (FundingColumns_from_bars bars)
                     else FundingRows (FundingDto_from <$> bars)), w)
      | (Err e, w) => (internal e, w)
      end
  end end end.

Definition rest_funding_event_latest (ex sym : string) (w : W) : Response FundingEventDto * W :=
  match parse_id ex sym with
  | Err e => (TextBody BAD_REQUEST e, w)
  | Ok id =>
      match latest_funding_event repo id w with
      | (Ok (Some e), w) => (JsonBody (FundingEventDto_from e), w)
      | (Ok None, w) => (TextBody NOT_FOUND "no settlement events", w)
      | (Err e, w) => (internal e, w)
      end
  end.

Definition rest_funding_event_range (ex sym from to : string) (w : W)
  : Response (list FundingEventDto) * W :=
  match parse_id ex sym with
  | Err e => (TextBody BAD_REQUEST e, w)
  | Ok id =>
  match parse_rfc3339 from with
  | Err e => (TextBody BAD_REQUEST e, w)
  | Ok from =>
  match parse_rfc3339 to with
  | Err e => (TextBody BAD_REQUEST e, w)
  | Ok to =>
      match funding_events_range repo id from to w with
      | (Ok events, w) => (JsonBody (FundingEventDto_from <$> events), w)
      | (Err e, w) => (internal e, w)
      end
  end end end.

(** * Batch handlers *)

Definition BATCH_MAX_ITEMS : nat := 128.
Definition BATCH_CONCURRENCY : nat := 16.

Record RangeBatchItem := mkItem {
  it_exchange : string;
  it_symbol : string;
  it_from : string;
  it_to : string;
}.

Record RangeBatchRequest := mkBatch {
  items : list RangeBatchItem;
  batch_fmt : option string;
}.

Record BatchEntry (P : Type) := mkEntry {
  be_exchange : string;
  be_symbol : string;
  be_error : option string;
  payload : P;
}.
Arguments mkEntry {P}.
Arguments be_exchange {P}.
Arguments be_symbol {P}.
Arguments be_error {P}.
Arguments payload {P}.

Definition BatchItem : Type := InstrumentId * OffsetDateTime * OffsetDateTime.

Definition item_path (i : nat) : string := "items[" +:+ int_to_string (Z.of_nat i) +:+ "]".

Definition parse_item (i : nat) (it : RangeBatchItem) : result (StatusCode * string) BatchItem :=
  let? id := map_err (λ e, (BAD_REQUEST, item_path i +:+ ": " +:+ e))
                     (parse_id (it_exchange it) (it_symbol it)) in
  let? from := map_err (λ e, (BAD_REQUEST, item_path i +:+ ".from: " +:+ e))
                       (parse_rfc3339 (it_from it)) in
  let? to := map_err (λ e, (BAD_REQUEST, item_path i +:+ ".to: " +:+ e))
                     (parse_rfc3339 (it_to it)) in
  Ok (id, from, to).

Fixpoint parse_items (i : nat) (its : list RangeBatchItem)
  : result (StatusCode * string) (list BatchItem) :=
  match its with
  | [] => Ok []
  | it :: its' =>
      let? p := parse_item i it in
      let? parsed := parse_items (S i) its' in
      Ok (p :: parsed)
  end.

Definition parse_batch (req : RangeBatchRequest)
  : result (StatusCode * string) (list BatchItem) :=
  if (length (items req) =? 0)%nat then Err (BAD_REQUEST, "items: empty"%string)
  else if (BATCH_MAX_ITEMS <? length (items req))%nat then
    Err (BAD_REQUEST, "items: " +:+ int_to_string (Z.of_nat (length (items req)))
                      +:+ " exceeds max " +:+ int_to_string (Z.of_nat BATCH_MAX_ITEMS))
  else parse_items 0 (items req).

(** The answer of one task. *)
Definition batch_entry {T P} (finalize : list T → P) (default : P) (item : BatchItem)
    (out : result CoreError (list T)) : BatchEntry P :=
  let id := item.1.1 in
  match out with
  | Ok rows => mkEntry (code (exchange id)) (symbol id) None (finalize rows)
  | Err e => mkEntry (code (exchange id)) (symbol id) (Some (display_core_error e)) default
  end.

(** The completion loop: each completed task fills the slot of its index. *)
Fixpoint fill_slots {T P} (query : InstrumentId → OffsetDateTime → OffsetDateTime →
                                   SE W CoreError (list T))
    (finalize : list T → P) (default : P) (order : list (nat * BatchItem))
    (results : list (option (BatchEntry P))) (w : W) : list (option (BatchEntry P)) * W :=
  match order with
  | [] => (results, w)
  | (idx, item) :: order' =>
      let '(id, from, to) := item in
      let '(out, w) := query id from to w in
      fill_slots query finalize default order'
        (<[idx := Some (batch_entry finalize default item out)]> results) w
  end.

(** [o.expect("batch slot")]. *)
Fixpoint expect_slots {A} (l : list (option A)) : run (list A) :=
  match l with
  | [] => Ret []
  | None :: _ => Panic
  | Some a :: l' => (a ::.) <$> expect_slots l'
  end.

Definition run_batch {T P} (sched : nat → nat)
    (query : InstrumentId → OffsetDateTime → OffsetDateTime → SE W CoreError (list T))
    (finalize : list T → P) (default : P) (its : list BatchItem) (w : W)
  : run (list (BatchEntry P)) * W :=
  let order := (fan_out sched BATCH_CONCURRENCY (imap pair its)).1 in
  let '(results, w) := fill_slots query finalize default order (replicate (length its) None) w in
  (expect_slots results, w).

Definition respond {P} (r : run (list (BatchEntry P)) * W)
  : run (Response (list (BatchEntry P))) * W := (JsonBody <$> r.1, r.2).

Definition range_batch (sched : nat → nat) (req : RangeBatchRequest) (w : W)
  : run (Response (list (BatchEntry OiPayload))) * W :=
  match parse_batch req with
  | Err (status, msg) => (Ret (TextBody status msg), w)
  | Ok its =>
      if is_columnar (batch_fmt req) then
        respond (run_batch sched (range repo) (λ snaps, OiCols (OiColumns_from_snapshots snaps))
                   (OiCols OiColumns_default) its w)
      else
        respond (run_batch sched (range repo) (λ rows, OiRows (BarDto_from <$> rows))
                   (OiRows []) its w)
  end.

Definition funding_range_batch (sched : nat → nat) (req : RangeBatchRequest) (w : W)
  : run (Response (list (BatchEntry FundingPayload))) * W :=
  match parse_batch req with
  | Err (status, msg) => (Ret (TextBody status msg), w)
  | Ok its =>
      if is_columnar (batch_fmt req) then
        respond (run_batch sched (funding_range repo)
                   (λ bars, FundingCols (FundingColumns_from_bars bars))
                   (FundingCols FundingColumns_default) its w)
      else
        respond (run_batch sched (funding_range repo) (λ rows, FundingRows (FundingDto_from <$> rows))
                   (FundingRows []) its w)
  end.

Definition funding_event_range_batch (sched : nat → nat) (req : RangeBatchRequest) (w : W)
  : run (Response (list (BatchEntry (list FundingEventDto)))) * W :=
  match parse_batch req with
  | Err (status, msg) => (Ret (TextBody status msg), w)
  | Ok its =>
      respond (run_batch sched (funding_events_range repo) (fmap FundingEventDto_from) [] its w)
  end.
End rest.

Arguments mkEntry {P}.
Arguments be_exchange {P}.
Arguments be_symbol {P}.
Arguments be_error {P}.
Arguments payload {P}.

(** * Reading a columnar payload back *)

Section columns.
Context {DL : DecimalLib} {TL : TimeLib}.

(** A client's view of row [i]: an omitted column reads as absent values. *)
Definition col_at {A} (column : option (list (option A))) (i : nat) : option A :=
  v ← column; x ← v !! i; x.

Record ColRow := mkColRow {
  r_ts : Z;
  r_native : list string;
  r_coins : list (option string);
  r_usd : list (option string);
}.

Definition row_at (c : OiColumns) (i : nat) : option ColRow :=
  ts ← c_ts c !! i;
  o ← c_native_open c !! i; h ← c_native_high c !! i;
  l ← c_native_low c !! i; cl ← c_native_close c !! i;
  Some (mkColRow ts [o; h; l; cl]
    [col_at (c_oi_coins_open c) i; col_at (c_oi_coins_high c) i;
     col_at (c_oi_coins_low c) i; col_at (c_oi_coins_close c) i]
    [col_at (c_oi_usd_open c) i; col_at (c_oi_usd_high c) i;
     col_at (c_oi_usd_low c) i; col_at (c_oi_usd_close c) i]).

(** What the columnar format keeps of a bar: its bucket in whole milliseconds,
    and the twelve texts the row format shows for the native, coin and dollar
    values. *)
Definition row_of (s : OiSnapshot) : ColRow :=
  let d := BarDto_from s in
  mkColRow (to_millis (bucket_ts s))
    [d_native_open d; d_native_high d; d_native_low d; d_native_close d]
    [d_oi_coins_open d; d_oi_coins_high d; d_oi_coins_low d; d_oi_coins_close d]
    [d_oi_usd_open d; d_oi_usd_high d; d_oi_usd_low d; d_oi_usd_close d].

Lemma push_opt_app {A} (column : option (list A)) x l :
  (λ v, v ++ l) <$> push_opt column x = (λ v, v ++ x :: l) <$> column.
Proof. destruct column as [v|]; [|done]. simpl. by rewrite <- (assoc_L (++)). Qed.

Lemma option_fmap_app_nil {A} (column : option (list A)) : (λ v, v ++ []) <$> column = column.
Proof. destruct column; simpl; [|done]. by rewrite app_nil_r. Qed.

Lemma push_rows c l :
  foldl push_row c l = {|
    c_fmt := c_fmt c;
    c_n := c_n c;
    c_ts := c_ts c ++ ((λ s, col_ts (bucket_ts s)) <$> l);
    c_native_open := c_native_open c ++ ((λ s, dec_to_string (native_open s)) <$> l);
    c_native_high := c_native_high c ++ ((λ s, dec_to_string (native_high s)) <$> l);
    c_native_low := c_native_low c ++ ((λ s, dec_to_string (native_low s)) <$> l);
    c_native_close := c_native_close c ++ ((λ s, dec_to_string (native_close s)) <$> l);
    c_oi_coins_open := (λ v, v ++ ((λ s, dec_to_string <$> oi_coins_open s) <$> l)) <$> c_oi_coins_open c;
    c_oi_coins_high := (λ v, v ++ ((λ s, dec_to_string <$> oi_coins_high s) <$> l)) <$> c_oi_coins_high c;
    c_oi_coins_low := (λ v, v ++ ((λ s, dec_to_string <$> oi_coins_low s) <$> l)) <$> c_oi_coins_low c;
    c_oi_coins_close := (λ v, v ++ ((λ s, dec_to_string <$> oi_coins_close s) <$> l)) <$> c_oi_coins_close c;
    c_oi_usd_open := (λ v, v ++ ((λ s, dec_to_string <$> oi_usd_open s) <$> l)) <$> c_oi_usd_open c;
    c_oi_usd_high := (λ v, v ++ ((λ s, dec_to_string <$> oi_usd_high s) <$> l)) <$> c_oi_usd_high c;
    c_oi_usd_low := (λ v, v ++ ((λ s, dec_to_string <$> oi_usd_low s) <$> l)) <$> c_oi_usd_low c;
    c_oi_usd_close := (λ v, v ++ ((λ s, dec_to_string <$> oi_usd_close s) <$> l)) <$> c_oi_usd_close c |}.
Proof.
  revert c. induction l as [|s l IH]; intros c; [|simpl; rewrite IH]; simpl.
  - rewrite !app_nil_r, !option_fmap_app_nil. by destruct c.
  - by rewrite !push_opt_app, <- !(assoc_L (++)).
Qed.

Lemma detect_axes_spec a b l :
  detect_axes a b l = (a || existsb has_coins l, b || existsb has_usd l).
Proof.
  revert a b. induction l as [|s l IH]; intros a b; simpl; [by rewrite !orb_false_r|].
  destruct a, b, (has_coins s), (has_usd s); simpl; rewrite ?IH; simpl;
    rewrite ?orb_true_r; done.
Qed.

(** A column that is omitted when no row has a value still reads correctly. *)
Lemma col_at_omitted {A B} (present : bool) (f : A → option B) (l : list A) i :
  (present = false → ∀ s, s ∈ l → f s = None) →
  col_at ((λ v, v ++ (f <$> l)) <$> (if present then Some [] else None)) i = l !! i ≫= f.
Proof.
  intros H. unfold col_at. destruct present; simpl.
  - rewrite list_lookup_fmap. by destruct (l !! i).
  - destruct (l !! i) as [s|] eqn:E; [|done]. simpl.
    symmetry. apply H; [done|]. by eapply list_elem_of_lookup_2.
Qed.

Lemma existsb_none {A} (p : A → bool) l : existsb p l = false → ∀ s, s ∈ l → p s = false.
Proof.
  intros H s Hs. destruct (p s) eqn:E; [|done].
  assert (existsb p l = true); [|congruence].
  apply existsb_exists. exists s. split; [by apply list_elem_of_In|done].
Qed.

(** Rows without a value on an axis show nothing in its four columns. *)
Lemma no_coins l : existsb has_coins l = false → ∀ s, s ∈ l →
  oi_coins_open s = None ∧ oi_coins_high s = None ∧ oi_coins_low s = None
  ∧ oi_coins_close s = None.
Proof.
  intros H s Hs. pose proof (existsb_none _ _ H s Hs) as Hn. unfold has_coins in Hn.
  rewrite !orb_false_iff, !bool_decide_eq_false, <- !eq_None_not_Some in Hn. naive_solver.
Qed.
Lemma no_usd l : existsb has_usd l = false → ∀ s, s ∈ l →
  oi_usd_open s = None ∧ oi_usd_high s = None ∧ oi_usd_low s = None ∧ oi_usd_close s = None.
Proof.
  intros H s Hs. pose proof (existsb_none _ _ H s Hs) as Hn. unfold has_usd in Hn.
  rewrite !orb_false_iff, !bool_decide_eq_false, <- !eq_None_not_Some in Hn. naive_solver.
Qed.

(** Milliseconds of a date-time always fit the [i64] cast. *)
Lemma col_ts_exact `{!TimeLaws TL} t : col_ts t = to_millis t.
Proof.
  unfold col_ts. apply as_i64_small. unfold to_millis.
  pose proof (odt_nanos_range t) as H. unfold odt_in_range in H.
  revert H. generalize (unix_timestamp_nanos t). clear t. intros z H.
  unfold odt_min_nanos, odt_max_nanos, nanos_per_sec in H.
 unfold i64_min, i64_max.
  split; Z.to_euclidean_division_equations; lia.
Qed.

(** The columns are a function of the kept rows. *)
Definition columns_of (rows : list ColRow) : OiColumns :=
  let text n r := default EmptyString (r_native r !! n) in
  let axis (f : ColRow → list (option string)) n :=
    if existsb (λ r, existsb (λ o, bool_decide (is_Some o)) (f r)) rows
    then Some ((λ r, mjoin (f r !! n)) <$> rows) else None in
  mkOiColumns "col" (length rows) (r_ts <$> rows)
    (text 0%nat <$> rows) (text 1%nat <$> rows) (text 2%nat <$> rows) (text 3%nat <$> rows)
    (axis r_coins 0%nat) (axis r_coins 1%nat) (axis r_coins 2%nat) (axis r_coins 3%nat)
    (axis r_usd 0%nat) (axis r_usd 1%nat) (axis r_usd 2%nat) (axis r_usd 3%nat).

Lemma has_coins_row s :
  existsb (λ o, bool_decide (is_Some o)) (r_coins (row_of s)) = has_coins s.
Proof.
  unfold has_coins, row_of. simpl.
  by destruct (oi_coins_open s), (oi_coins_high s), (oi_coins_low s), (oi_coins_close s).
Qed.
Lemma has_usd_row s :
  existsb (λ o, bool_decide (is_Some o)) (r_usd (row_of s)) = has_usd s.
Proof.
  unfold has_usd, row_of. simpl.
  by destruct (oi_usd_open s), (oi_usd_high s), (oi_usd_low s), (oi_usd_close s).
Qed.
Lemma existsb_fmap {A B} (p : B → bool) (q : A → bool) (f : A → B) l :
  (∀ x, p (f x) = q x) → existsb p (f <$> l) = existsb q l.
Proof. intros H. induction l as [|x l IH]; [done|]. cbn [fmap list_fmap existsb]. by rewrite H, IH. Qed.
Lemma column_shown {A B} (present : bool) (l : list A) (f : A → B) :
  (λ v, v ++ (f <$> l)) <$> (if present then Some [] else None)
  = if present then Some (f <$> l) else None.
Proof. by destruct present. Qed.

Lemma columns_of_rows `{!TimeLaws TL} snaps :
  OiColumns_from_snapshots snaps = columns_of (row_of <$> snaps).
Proof.
  unfold OiColumns_from_snapshots. rewrite detect_axes_spec, push_rows. simpl.
  rewrite !column_shown. unfold columns_of. cbv beta zeta.
  rewrite (existsb_fmap (λ r, existsb (λ o, bool_decide (is_Some o)) (r_coins r)) has_coins row_of snaps has_coins_row),
    (existsb_fmap (λ r, existsb (λ o, bool_decide (is_Some o)) (r_usd r)) has_usd row_of snaps has_usd_row).
  rewrite length_fmap, <- !list_fmap_compose. f_equal.
  apply list_fmap_ext. intros i s _. apply col_ts_exact.
Qed.

(** C30. The columnar format shows the bars' buckets and values and nothing else.
    Reading row [i] of the payload, an omitted column as absent values, gives for
    bar [i] its bucket in milliseconds (no [i64] cast wraps) and exactly the texts
    the row format shows for the native, coin and dollar values; there are as
    many rows as bars, and the four columns of an axis are sent together, if and
    only if some bar has a value on it. The row format's other fields (the
    receive times, the number of samples, the native unit, the price used) are
    not in it: bars that agree on what is kept give the same payload. *)
Theorem columns_read_back `{!TimeLaws TL} (snaps : list OiSnapshot) :
  let c := OiColumns_from_snapshots snaps in
  c_n c = length snaps
  ∧ (∀ i, row_at c i = row_of <$> snaps !! i)
  ∧ Forall (λ column, is_Some column ↔ ∃ s, s ∈ snaps ∧ has_coins s = true)
      [c_oi_coins_open c; c_oi_coins_high c; c_oi_coins_low c; c_oi_coins_close c]
  ∧ Forall (λ column, is_Some column ↔ ∃ s, s ∈ snaps ∧ has_usd s = true)
      [c_oi_usd_open c; c_oi_usd_high c; c_oi_usd_low c; c_oi_usd_close c]
  ∧ (∀ snaps', row_of <$> snaps' = row_of <$> snaps → OiColumns_from_snapshots snaps' = c).
Proof.
  assert (Hex : ∀ (p : OiSnapshot → bool),
    is_Some (if existsb p snaps then Some ([] : list (option string)) else None) ↔ ∃ s, s ∈ snaps ∧ p s = true).
  { intros p. setoid_rewrite list_elem_of_In. rewrite <- existsb_exists.
    by destruct (existsb p snaps). }
  cbv zeta. split_and!;
    [..|by intros snaps' H; rewrite !columns_of_rows, H];
    unfold OiColumns_from_snapshots; rewrite detect_axes_spec, push_rows; simpl; [done| | |].
  - intros i. unfold row_at. simpl.
    rewrite !col_at_omitted by (intros H s Hs;
      (destruct (no_coins _ H s Hs) as (?&?&?&?) || destruct (no_usd _ H s Hs) as (?&?&?&?));
      by simplify_option_eq).
    rewrite !list_lookup_fmap. destruct (snaps !! i) as [s|]; [|done]. simpl.
    unfold row_of. by rewrite col_ts_exact.
  - repeat (apply Forall_cons_2; [by rewrite fmap_is_Some|]). apply Forall_nil_2.
  - repeat (apply Forall_cons_2; [by rewrite fmap_is_Some|]). apply Forall_nil_2.
Qed.
End columns.

(** * Batches *)

Section batch.
Context {DL : DecimalLib} {TL : TimeLib} {W T P : Type}.
Context (query : InstrumentId → OffsetDateTime → OffsetDateTime → SE W CoreError (list T)).
Context (finalize : list T → P) (default : P).

Definition ask (it : BatchItem) : SE W CoreError (list T) := query it.1.1 it.1.2 it.2.

(** [inv] is what the reads keep true of the world. *)
Lemma fill_slots_spec (inv : W → Prop) order results w :
  (∀ it w, inv w → inv (ask it w).2) → inv w → NoDup order.*1 →
  (∀ p, p ∈ order → (p.1 < length results)%nat) →
  let '(results', w') := fill_slots query finalize default order results w in
  inv w' ∧ length results' = length results
  ∧ (∀ i it, (i, it) ∈ order → ∃ wi, inv wi
       ∧ results' !! i = Some (Some (batch_entry finalize default it (ask it wi).1)))
  ∧ (∀ i, i ∉ order.*1 → results' !! i = results !! i).
Proof.
  intros Hq. revert results w. induction order as [|[i [[id f] t]] order IH]; intros results w Hw Hnd Hlt.
  { simpl. split_and!; [done..| |done]. intros i it Hin. by apply not_elem_of_nil in Hin. }
  cbn [fill_slots]. pose proof (Hq (id, f, t) w Hw) as Hw1. unfold ask in Hw1. simpl in Hw1.
  destruct (query id f t w) as [out w1] eqn:Eq. cbn [fst snd] in *.
  apply NoDup_cons in Hnd as [Hni Hnd].
  specialize (IH (<[i:=Some (batch_entry finalize default (id, f, t) out)]> results) w1 Hw1 Hnd).
  rewrite length_insert in IH.
  specialize (IH ltac:(intros p Hp; apply Hlt; by apply list_elem_of_further)).
  destruct (fill_slots _ _ _ order _ w1) as [results' w']. destruct IH as (Hw' & Hl & Hin & Hout).
  split_and!; [done|done| |].
  - intros j it [Hj|Hj]%elem_of_cons; [|by apply Hin]. injection Hj as -> ->.
    exists w. split; [done|]. rewrite Hout by done. rewrite list_lookup_insert_eq.
    + unfold ask. simpl. by rewrite Eq.
    + apply (Hlt (i, (id, f, t))). by left.
  - intros j [Hj Hj']%not_elem_of_cons. rewrite Hout by done. by apply list_lookup_insert_ne.
Qed.

Lemma expect_slots_full {A} (l : list (option A)) :
  (∀ i, (i < length l)%nat → ∃ a, l !! i = Some (Some a)) →
  ∃ l', expect_slots l = Ret l' ∧ l = Some <$> l'.
Proof.
  induction l as [|o l IH]; intros H; [by exists []|].
  destruct (H 0%nat) as [a Ha]; [simpl; lia|]. injection Ha as ->.
  destruct IH as (l' & Hl' & ->).
  { intros i Hi. apply (H (S i)). simpl. lia. }
  exists (a :: l'). simpl. by rewrite Hl'.
Qed.

Lemma imap_pair_fst {A} (l : list A) : (imap pair l).*1 = seq 0 (length l).
Proof.
  apply list_eq. intros i. rewrite list_lookup_fmap, list_lookup_imap.
  destruct (decide (i < length l)%nat) as [Hi|Hi].
  - destruct (lookup_lt_is_Some_2 l i Hi) as [a ->]. simpl. symmetry. by apply lookup_seq_lt.
  - rewrite (lookup_ge_None_2 l) by lia. symmetry. apply lookup_seq_ge. lia.
Qed.

(** The completion loop fills every slot with the answer to its item, whatever
    the order of completion. *)
Lemma run_batch_spec sched (inv : W → Prop) its w :
  (∀ it w, inv w → inv (ask it w).2) → inv w →
  ∃ entries w', run_batch sched query finalize default its w = (Ret entries, w') ∧ inv w'
    ∧ length entries = length its
    ∧ ∀ i it, its !! i = Some it → ∃ wi, inv wi
        ∧ entries !! i = Some (batch_entry finalize default it (ask it wi).1).
Proof.
  intros Hq Hw. unfold run_batch.
  destruct (fan_out_complete sched BATCH_CONCURRENCY (imap pair its)) as [Hp _];
    [unfold BATCH_CONCURRENCY; lia|].
  set (order := (fan_out sched BATCH_CONCURRENCY (imap pair its)).1) in *. clearbody order.
  assert (Hseq : order.*1 ≡ₚ seq 0 (length its)) by (by rewrite Hp, imap_pair_fst).
  pose proof (fill_slots_spec inv order (replicate (length its) None) w Hq Hw) as Hf.
  rewrite length_replicate in Hf.
  specialize (Hf ltac:(rewrite Hseq; apply NoDup_seq)).
  specialize (Hf ltac:(intros p Hpin; apply (list_elem_of_fmap_2 fst) in Hpin;
    rewrite Hseq in Hpin; apply elem_of_seq in Hpin; lia)).
  destruct (fill_slots _ _ _ order _ w) as [results w'].
  destruct Hf as (Hw' & Hl & Hin & _).
  assert (Hall : ∀ i it, its !! i = Some it → ∃ wi, inv wi
    ∧ results !! i = Some (Some (batch_entry finalize default it (ask it wi).1))).
  { intros i it Hi. apply Hin. rewrite Hp. apply elem_of_lookup_imap. eauto. }
  destruct (expect_slots_full results) as (entries & -> & ->).
  { intros i Hi. rewrite Hl in Hi. destruct (lookup_lt_is_Some_2 its i Hi) as [it Hit].
    destruct (Hall i it Hit) as (wi & _ & ->). eauto. }
  rewrite length_fmap in Hl. exists entries, w'. split_and!; [done..|].
  intros i it Hi. destruct (Hall i it Hi) as (wi & Hwi & He). exists wi. split; [done|].
  rewrite list_lookup_fmap in He. destruct (entries !! i); simpl in He; congruence.
Qed.
End batch.

Section batch_claims.
Context {DL : DecimalLib} {TL : TimeLib} {W : Type} (repo : OiRepository W).

Definition parsed_as (it : RangeBatchItem) (p : BatchItem) : Prop :=
  parse_id (it_exchange it) (it_symbol it) = Ok p.1.1
  ∧ parse_rfc3339 (it_from it) = Ok p.1.2 ∧ parse_rfc3339 (it_to it) = Ok p.2.

Lemma parse_item_spec i it :
  match parse_item i it with
  | Ok p => parsed_as it p
  | Err (status, _) => status = BAD_REQUEST ∧ ¬ ∃ p, parsed_as it p
  end.
Proof.
  unfold parse_item, parsed_as.
  destruct (parse_id _ _) as [id|e]; simpl; [|split; [done|naive_solver]].
  destruct (parse_rfc3339 (it_from it)) as [f|e]; simpl; [|split; [done|naive_solver]].
  destruct (parse_rfc3339 (it_to it)) as [t|e]; simpl; [done|split; [done|naive_solver]].
Qed.

Lemma parse_items_spec i its :
  match parse_items i its with
  | Ok ps => Forall2 parsed_as its ps
  | Err (status, _) => status = BAD_REQUEST ∧ ∃ it, it ∈ its ∧ ¬ ∃ p, parsed_as it p
  end.
Proof.
  revert i. induction its as [|it its IH]; intros i; cbn [parse_items]; [constructor|].
  pose proof (parse_item_spec i it) as H. destruct (parse_item i it) as [p|[st m]].
  - specialize (IH (S i)). destruct (parse_items (S i) its) as [ps|[st m]]; [by constructor|].
    destruct IH as (-> & it' & Hin & Hno). split; [done|]. exists it'. split; [by right|done].
  - destruct H as [-> Hno]. split; [done|]. exists it. split; [by left|done].
Qed.

Lemma parse_batch_spec req :
  match parse_batch req with
  | Ok ps => (1 ≤ length (items req) ≤ BATCH_MAX_ITEMS)%nat ∧ Forall2 parsed_as (items req) ps
  | Err (status, _) => status = BAD_REQUEST
      ∧ ¬ ((1 ≤ length (items req) ≤ BATCH_MAX_ITEMS)%nat
           ∧ ∀ it, it ∈ items req → ∃ p, parsed_as it p)
  end.
Proof.
  unfold parse_batch.
  destruct (Nat.eqb_spec (length (items req)) 0) as [H0|H0]; [split; [done|lia]|].
  destruct (Nat.ltb_spec BATCH_MAX_ITEMS (length (items req))) as [H1|H1]; [split; [done|lia]|].
  pose proof (parse_items_spec 0 (items req)) as H.
  destruct (parse_items 0 (items req)) as [ps|[st m]]; [split; [lia|done]|].
  destruct H as (-> & it & Hin & Hno). split; [done|]. intros [_ Hall]. by apply Hno, Hall.
Qed.

(** The GET request an item corresponds to. *)
Definition single (it : RangeBatchItem) (fmt : option string) (w : W) : Response OiPayload :=
  (rest_range repo (it_exchange it) (it_symbol it) (it_from it) (it_to it) fmt w).1.

(** The payload of an entry that failed. *)
Definition empty_payload (columnar : bool) : OiPayload :=
  if columnar then OiCols OiColumns_default else OiRows [].

(** A batch entry says what a GET answered. *)
Definition entry_says (columnar : bool) (e : BatchEntry OiPayload) (r : Response OiPayload) : Prop :=
  match r with
  | JsonBody p => be_error e = None ∧ payload e = p
  | TextBody INTERNAL_SERVER_ERROR t => be_error e = Some t ∧ payload e = empty_payload columnar
  | TextBody _ _ => False
  end.

Lemma single_parsed it p fmt w :
  parsed_as it p →
  single it fmt w =
    match (range repo p.1.1 p.1.2 p.2 w).1 with
    | Ok snaps => JsonBody (if is_columnar fmt then OiCols (OiColumns_from_snapshots snaps)
                            else OiRows (BarDto_from <$> snaps))
    | Err e => internal e
    end.
Proof.
  intros (H1 & H2 & H3). unfold single, rest_range. rewrite H1, H2, H3.
  by destruct (range repo p.1.1 p.1.2 p.2 w) as [[snaps|e] w'].
Qed.

(** The columnar and the row branch of [range_batch] as one call. *)
Lemma range_batch_accepted sched req ps w :
  parse_batch req = Ok ps →
  range_batch repo sched req w =
    respond (run_batch sched (range repo)
      (λ snaps, if is_columnar (batch_fmt req) then OiCols (OiColumns_from_snapshots snaps)
                else OiRows (BarDto_from <$> snaps))
      (empty_payload (is_columnar (batch_fmt req))) ps w).
Proof. intros H. unfold range_batch. rewrite H. by destruct (is_columnar (batch_fmt req)). Qed.

(** C19. A batch is its single requests.  Whatever order the concurrent reads
    complete in, a batch over a repository whose range reads change nothing
    never panics; it is refused with 400 exactly when it is empty, has more than
    128 items or an item whose single GET would be a bad request, and otherwise
    answers with one entry per item, in the order of the items, each saying what
    that item's own GET in the same format answers: the same bars, or the same
    error text with an empty payload.  At most 16 reads run at once. *)
Theorem batch_agrees_with_single sched req w :
  (∀ i f t w, (range repo i f t w).2 = w) →
  (∃ msg, range_batch repo sched req w = (Ret (TextBody BAD_REQUEST msg), w)
     ∧ ¬ ((1 ≤ length (items req) ≤ 128)%nat
          ∧ ∀ it, it ∈ items req → ∀ t, single it (batch_fmt req) w ≠ TextBody BAD_REQUEST t))
  ∨ (∃ entries, range_batch repo sched req w = (Ret (JsonBody entries), w)
     ∧ (1 ≤ length (items req) ≤ 128)%nat ∧ length entries = length (items req)
     ∧ (∀ i it, items req !! i = Some it → ∃ e, entries !! i = Some e
          ∧ be_symbol e = it_symbol it ∧ exchange_from_str (it_exchange it) = exchange_from_str (be_exchange e)
          ∧ entry_says (is_columnar (batch_fmt req)) e (single it (batch_fmt req) w))
     ∧ (∀ its : list (nat * BatchItem), ((fan_out sched BATCH_CONCURRENCY its).2 ≤ 16)%nat)).
Proof.
  intros Hro. pose proof (parse_batch_spec req) as Hp.
  destruct (parse_batch req) as [ps|[status msg]] eqn:E; [right|left].
  - destruct Hp as [Hn Hps]. pose proof (range_batch_accepted sched req ps w E) as Hb.
    destruct (run_batch_spec (range repo)
      (λ snaps, if is_columnar (batch_fmt req) then OiCols (OiColumns_from_snapshots snaps)
                else OiRows (BarDto_from <$> snaps))
      (empty_payload (is_columnar (batch_fmt req))) sched (λ w', w' = w) ps w)
      as (entries & w' & Hr & -> & Hl & Hat); [by intros it ? ->; apply Hro|done|].
    rewrite Hr in Hb. exists entries. split; [done|]. split; [done|].
    split; [by rewrite Hl, (Forall2_length _ _ _ Hps)|].
    split; [|intros its; apply fan_out_complete; unfold BATCH_CONCURRENCY; lia].
    intros i it Hi. destruct (Forall2_lookup_l _ _ _ _ _ Hps Hi) as (p & Hpi & Hpa).
    destruct (Hat i p Hpi) as (wi & -> & He). eexists. split; [exact He|].
    rewrite (single_parsed it p) by done. destruct Hpa as (Hid & _ & _).
    unfold parse_id in Hid. destruct (exchange_from_str (it_exchange it)) as [ex|] eqn:Ex; [|done].
    injection Hid as Hid. unfold ask, batch_entry. rewrite <- Hid.
    destruct (range repo _ _ _ w) as [[snaps|e] w']; simpl; by rewrite code_from_str.
  - destruct Hp as [-> Hno]. exists msg. unfold range_batch. rewrite E. split; [done|].
    intros [Hn Hall]. apply Hno. split; [done|]. intros it Hin. specialize (Hall it Hin).
    revert Hall. unfold single, rest_range, parsed_as.
    destruct (parse_id _ _) as [id|e]; [|by intros H; destruct (H e)].
    destruct (parse_rfc3339 (it_from it)) as [f|e]; [|by intros H; destruct (H e)].
    destruct (parse_rfc3339 (it_to it)) as [t|e]; [|by intros H; destruct (H e)].
    intros _. by exists (id, f, t).
Qed.
End batch_claims.

(** A repository that answers nothing but an error for one symbol. *)
Definition ex_batch_repo : OiRepository (DL := z_decimal) (TL := z_time) unit :=
  with_default_funding (DL := z_decimal) (TL := z_time) (λ _, mret tt) (λ _, mret tt)
    (λ i _ _, if String.eqb (symbol i) "ETH" then se_fail (CStorage "down") else mret [])
    (λ _, mret None).

Lemma batch_agrees_with_single_witness :
  (∀ i f t w, (range ex_batch_repo i f t w).2 = w) ∧
  let req := mkBatch [mkItem "Binance" "BTC" "0" "60"; mkItem "okx" "ETH" "0" "60"] None in
  ∃ entries, range_batch ex_batch_repo (λ _, 1%nat) req tt = (Ret (JsonBody entries), tt)
    ∧ length entries = 2%nat.
Proof.
  assert (Hro : ∀ i f t w, (range ex_batch_repo i f t w).2 = w).
  { intros i f t w. unfold ex_batch_repo. simpl. by destruct (String.eqb (symbol i) "ETH"). }
  split; [done|]. intros req.
  destruct (batch_agrees_with_single (DL := z_decimal) (TL := z_time) ex_batch_repo
    (λ _, 1%nat) req tt Hro) as [(msg & Hb & _)|(entries & Hb & _ & Hl & _)]; [|by exists entries].
  exfalso. revert Hb. discriminate.
Defined.

Definition ex_bar : OiSnapshot (DL := z_decimal) (TL := z_time) :=
  mkSnapshot (DL := z_decimal) (TL := z_time) (mkId Binance "BTC") 60000000000 60 61 1 Coins
    5 7 4 6 (Some 5) (Some 7) (Some 4) (Some 6) None None None None None.

(** The same bar after one more sample, received later: the same columns. *)
Definition ex_bar_later : OiSnapshot (DL := z_decimal) (TL := z_time) :=
  mkSnapshot (DL := z_decimal) (TL := z_time) (mkId Binance "BTC") 60000000000 60 65 2 Coins
    5 7 4 6 (Some 5) (Some 7) (Some 4) (Some 6) None None None None (Some 3).

Lemma columns_read_back_witness :
  TimeLaws z_time ∧
  row_at (OiColumns_from_snapshots (DL := z_decimal) (TL := z_time) [ex_bar]) 0 =
    Some (mkColRow 60000 ["5"; "7"; "4"; "6"]
            [Some "5"; Some "7"; Some "4"; Some "6"] [None; None; None; None])%string
  ∧ OiColumns_from_snapshots [ex_bar_later] = OiColumns_from_snapshots [ex_bar]
  ∧ BarDto_from ex_bar_later ≠ BarDto_from ex_bar.
Proof.
  split; [apply z_time_laws|].
  destruct (columns_read_back (DL := z_decimal) (TL := z_time) [ex_bar]) as (_ & Hrow & _ & _ & Hsame).
  split; [rewrite Hrow; reflexivity|]. split; [apply Hsame; reflexivity|discriminate].
Defined.
