(* ===== verification/ApiGrpc.v ===== *)
(** The gRPC service: [oi-api/src/grpc.rs].  Requests and answers are the
    messages of [proto/oi.proto]; the transport is the framework's, so a server
    stream is the list of messages handed to it (a client that disconnects
    receives a prefix). *)

From Stdlib Require Import ZArith Lia String.
From stdpp Require Import base option list strings gmap.
From S2P Require Import Prelude Externals Concrete Domain Repository ApiRest.
Open Scope Z_scope.
Open Scope oi_scope.

Inductive Status :=
| InvalidArgument (message : string)
| Internal (message : string)
| Unavailable (message : string).

Record PbInst := mkInst { pi_exchange : string; pi_symbol : string }.
Record Timestamp := mkTs { seconds : Z; nanos : Z }.

Record Bar := mkBar {
  b_instrument : option PbInst;
  b_bucket_ts : option Timestamp;
  b_first_recv_ts : option Timestamp;
  b_last_recv_ts : option Timestamp;
  b_samples : Z;
  b_native_unit : Z;
  b_native_open : string;
  b_native_high : string;
  b_native_low : string;
  b_native_close : string;
  b_oi_coins_open : string;
  b_oi_coins_high : string;
  b_oi_coins_low : string;
  b_oi_coins_close : string;
  b_oi_usd_open : string;
  b_oi_usd_high : string;
  b_oi_usd_low : string;
  b_oi_usd_close : string;
  b_price_used_close : string;
}.

Record PbFunding := mkPbFunding {
  pf_instrument : option PbInst;
  pf_bucket_ts : option Timestamp;
  pf_recv_ts : option Timestamp;
  pf_rate : string;
  pf_next_funding_ts : option Timestamp;
  pf_interval_hours : Z;
}.

Record PbFundingEvent := mkPbEvent {
  pe_instrument : option PbInst;
  pe_settlement_ts : option Timestamp;
  pe_rate : string;
  pe_mark_price : string;
}.

Record PbRangeRequest := mkRangeReq {
  rq_instrument : option PbInst; rq_from : option Timestamp; rq_to : option Timestamp }.

Section grpc.
Context {DL : DecimalLib} {TL : TimeLib}.

(** * Conversions *)

Definition as_i32 (z : Z) : Z := (z + 2 ^ 31) mod 2 ^ 32 - 2 ^ 31.

Definition ts_to_pb (t : OffsetDateTime) : Timestamp :=
  let nanos_total := unix_timestamp_nanos t in
  {| seconds := as_i64 (nanos_total ÷ nanos_per_sec);
     nanos := as_i32 (Z.rem nanos_total nanos_per_sec) |}.

Definition pb_ts (t : option Timestamp) : result Status OffsetDateTime :=
  match t with
  | None => Err (InvalidArgument "timestamp required")
  | Some t =>
      map_err (λ e, InvalidArgument ("timestamp: " +:+ e))
        (from_unix_timestamp_nanos (seconds t * nanos_per_sec + nanos t))
  end.

Definition pb_to_id (pi : PbInst) : result Status InstrumentId :=
  let? ex := map_err (λ e, InvalidArgument ("exchange: " +:+ e))
                     (exchange_from_str (pi_exchange pi)) in
  Ok (mkId ex (pi_symbol pi)).

(** [unit_to_pb], as the number of the message's enumeration. *)
Definition unit_to_pb (u : UnitKind) : Z :=
  match u with Coins => 1 | Contracts => 2 | Usd => 3 end.

Definition id_to_pb (i : InstrumentId) : PbInst := mkInst (code (exchange i)) (symbol i).

(** [o.map(|d| d.to_string()).unwrap_or_default()]. *)
Definition opt_text (o : option Dec) : string := default EmptyString (dec_to_string <$> o).

Definition snap_to_bar (s : OiSnapshot) : Bar :=
  {| b_instrument := Some (id_to_pb (instrument s));
     b_bucket_ts := Some (ts_to_pb (bucket_ts s));
     b_first_recv_ts := Some (ts_to_pb (first_recv_ts s));
     b_last_recv_ts := Some (ts_to_pb (last_recv_ts s));
     b_samples := samples s;
     b_native_unit := unit_to_pb (native_unit s);
     b_native_open := dec_to_string (native_open s);
     b_native_high := dec_to_string (native_high s);
     b_native_low := dec_to_string (native_low s);
     b_native_close := dec_to_string (native_close s);
     b_oi_coins_open := opt_text (oi_coins_open s);
     b_oi_coins_high := opt_text (oi_coins_high s);
     b_oi_coins_low := opt_text (oi_coins_low s);
     b_oi_coins_close := opt_text (oi_coins_close s);
     b_oi_usd_open := opt_text (oi_usd_open s);
     b_oi_usd_high := opt_text (oi_usd_high s);
     b_oi_usd_low := opt_text (oi_usd_low s);
     b_oi_usd_close := opt_text (oi_usd_close s);
     b_price_used_close := opt_text (price_used_close s) |}.

Definition funding_to_pb (b : FundingBar) : PbFunding :=
  {| pf_instrument := Some (id_to_pb (f_instrument b));
     pf_bucket_ts := Some (ts_to_pb (f_bucket_ts b));
     pf_recv_ts := Some (ts_to_pb (f_recv_ts b));
     pf_rate := dec_to_string (f_rate b);
     pf_next_funding_ts := ts_to_pb <$> f_next_funding_ts b;
     pf_interval_hours := default 0 (f_interval_hours b) |}.

Definition funding_event_to_pb (e : FundingEvent) : PbFundingEvent :=
  {| pe_instrument := Some (id_to_pb (ev_instrument e));
     pe_settlement_ts := Some (ts_to_pb (ev_settlement_ts e));
     pe_rate := dec_to_string (ev_rate e);
     pe_mark_price := opt_text (ev_mark_price e) |}.

(** * Unary calls *)

Context {W : Type} (repo : OiRepository W).

(** The loop of [latest], over the instruments not asked yet. *)
Fixpoint latest_loop {A B} (call : InstrumentId → SE W CoreError (option A)) (to_pb : A → B)
    (bars : list B) (insts : list PbInst) (w : W) : result Status (list B) * W :=
  match insts with
  | [] => (Ok bars, w)
  | pi :: insts' =>
      match pb_to_id pi with
      | Err e => (Err e, w)
      | Ok id =>
          match call id w with
          | (Ok (Some s), w) => latest_loop call to_pb (bars ++ [to_pb s]) insts' w
          | (Ok None, w) => latest_loop call to_pb bars insts' w
          | (Err e, w) => (Err (Internal (display_core_error e)), w)
          end
      end
  end.

Definition grpc_latest (insts : list PbInst) (w : W) : result Status (list Bar) * W :=
  latest_loop (latest repo) snap_to_bar [] insts w.
Definition grpc_latest_funding (insts : list PbInst) (w : W)
  : result Status (list PbFunding) * W :=
  latest_loop (latest_funding repo) funding_to_pb [] insts w.
Definition grpc_latest_funding_event (insts : list PbInst) (w : W)
  : result Status (list PbFundingEvent) * W :=
  latest_loop (latest_funding_event repo) funding_event_to_pb [] insts w.

(** * Server streams *)

(** The argument checks the range calls share. *)
Definition range_args (req : PbRangeRequest)
  : result Status (InstrumentId * OffsetDateTime * OffsetDateTime) :=
  match rq_instrument req with
  | None => Err (InvalidArgument "instrument required")
  | Some pi =>
      let? id := pb_to_id pi in
      let? from := pb_ts (rq_from req) in
      let? to := pb_ts (rq_to req) in
      Ok (id, from, to)
  end.

Definition range_stream {A B} (call : InstrumentId → OffsetDateTime → OffsetDateTime →
                                      SE W CoreError (list A)) (to_pb : A → B)
    (req : PbRangeRequest) (w : W) : result Status (list B) * W :=
  match range_args req with
  | Err e => (Err e, w)
  | Ok (id, from, to) =>
      match call id from to w with
      | (Ok rows, w) => (Ok (to_pb <$> rows), w)
      | (Err e, w) => (Err (Internal (display_core_error e)), w)
      end
  end.

Definition grpc_range : PbRangeRequest → W → result Status (list Bar) * W :=
  range_stream (range repo) snap_to_bar.
Definition grpc_funding_range : PbRangeRequest → W → result Status (list PbFunding) * W :=
  range_stream (funding_range repo) funding_to_pb.
Definition grpc_funding_event_range : PbRangeRequest → W → result Status (list PbFundingEvent) * W :=
  range_stream (funding_events_range repo) funding_event_to_pb.

(** [subscribe]: the messages streamed to the client while the firehose delivers
    [payloads]; [connected] is the outcome of the Redis subscription. *)
Definition wanted_by (filter_set : gset InstrumentId) (s : OiSnapshot) : bool :=
  negb (negb (bool_decide (filter_set = ∅)) && negb (bool_decide (instrument s ∈ filter_set))).

Fixpoint subscribe_loop (filter_set : gset InstrumentId) (snaps : list OiSnapshot)
  : list (result Status Bar) :=
  match snaps with
  | [] => []
  | snap :: snaps' =>
      if negb (wanted_by filter_set snap) then subscribe_loop filter_set snaps'
      else Ok (snap_to_bar snap) :: subscribe_loop filter_set snaps'
  end.

Definition grpc_subscribe {SC : SnapCodec} (connected : result CoreError unit)
    (insts : list PbInst) (payloads : list (list Z)) : result Status (list (result Status Bar)) :=
  let? filters := list_traverse pb_to_id insts in
  let filter_set : gset InstrumentId := list_to_set filters in
  Ok match connected with
     | Err e => [Err (Unavailable ("pubsub: " +:+ display_core_error e))]
     | Ok _ => subscribe_loop filter_set (subscribe_stream payloads)
     end.
End grpc.

(** * The two transports agree *)

Section grpc_claims.
Context {DL : DecimalLib} {TL : TimeLib} {W : Type} (repo : OiRepository W).

(** A gRPC bar and a REST bar that say the same, an absent value being the empty
    text in the message. *)
Definition shows (b : Bar) (d : BarDto) : Prop :=
  b_instrument b = Some (mkInst (d_exchange d) (d_symbol d)) ∧ b_samples b = d_samples d ∧
  (∃ s, b_bucket_ts b = Some (ts_to_pb (bucket_ts s)) ∧ d_bucket_ts d = ts_rfc3339 (bucket_ts s)) ∧
  b_native_open b = d_native_open d ∧
  b_native_high b = d_native_high d ∧
  b_native_low b = d_native_low d ∧
  b_native_close b = d_native_close d ∧
  b_oi_coins_open b = default EmptyString (d_oi_coins_open d) ∧
  b_oi_coins_high b = default EmptyString (d_oi_coins_high d) ∧
  b_oi_coins_low b = default EmptyString (d_oi_coins_low d) ∧
  b_oi_coins_close b = default EmptyString (d_oi_coins_close d) ∧
  b_oi_usd_open b = default EmptyString (d_oi_usd_open d) ∧
  b_oi_usd_high b = default EmptyString (d_oi_usd_high d) ∧
  b_oi_usd_low b = default EmptyString (d_oi_usd_low d) ∧
  b_oi_usd_close b = default EmptyString (d_oi_usd_close d) ∧
  b_price_used_close b = default EmptyString (d_price_used_close d).

Lemma snap_shows s : shows (snap_to_bar s) (BarDto_from s).
Proof. unfold shows. simpl. split_and!; try done. by exists s. Qed.

(** What gRPC makes of a REST answer. *)
Definition answer_of (r : Response BarDto) : result Status (option BarDto) :=
  match r with
  | JsonBody d => Ok (Some d)
  | TextBody NOT_FOUND _ => Ok None
  | TextBody BAD_REQUEST t => Err (InvalidArgument ("exchange: " +:+ t))
  | TextBody INTERNAL_SERVER_ERROR t => Err (Internal t)
  end.

Definition rest_answer (w : W) (pi : PbInst) : result Status (option BarDto) :=
  answer_of (rest_latest repo (pi_exchange pi) (pi_symbol pi) w).1.

Lemma latest_loop_step bars pi insts w :
  (∀ i w, (latest repo i w).2 = w) →
  match rest_answer w pi with
  | Err e => latest_loop (latest repo) snap_to_bar bars (pi :: insts) w = (Err e, w)
  | Ok o => ∃ b, latest_loop (latest repo) snap_to_bar bars (pi :: insts) w
                 = latest_loop (latest repo) snap_to_bar (bars ++ option_list b) insts w
                 ∧ option_Forall2 shows b o
  end.
Proof.
  intros Hro. unfold rest_answer, rest_latest, parse_id. cbn [latest_loop]. unfold pb_to_id.
  destruct (exchange_from_str (pi_exchange pi)) as [ex|e]; [|done]. simpl.
  pose proof (Hro (mkId ex (pi_symbol pi)) w) as Hw.
  destruct (latest repo (mkId ex (pi_symbol pi)) w) as [[[s|]|e] w']; simpl in Hw; subst w'; simpl.
  - exists (Some (snap_to_bar s)). split; [done|]. constructor. apply snap_shows.
  - exists None. simpl. rewrite app_nil_r. split; [done|constructor].
  - done.
Qed.

(** gRPC [Latest] and the REST route answer alike.  When reading the latest
    bar changes nothing, a gRPC request for a list of instruments ends with the
    first instrument whose REST answer is an error, translated (a bad exchange
    name to an invalid argument with the same text, a repository failure to an
    internal error), and otherwise returns, in the order asked, one message for
    each instrument REST has a bar for, with the same instrument, minute, sample
    count and value texts. *)
Theorem grpc_latest_matches_rest insts w :
  (∀ i w, (latest repo i w).2 = w) →
  match list_traverse (rest_answer w) insts with
  | Err e => grpc_latest repo insts w = (Err e, w)
  | Ok answers => ∃ bars, grpc_latest repo insts w = (Ok bars, w)
                          ∧ Forall2 shows bars (omap (λ o, o) answers)
  end.
Proof.
  intros Hro. unfold grpc_latest.
  enough (Hgen : ∀ bars, match list_traverse (rest_answer w) insts with
    | Err e => latest_loop (latest repo) snap_to_bar bars insts w = (Err e, w)
    | Ok answers => ∃ bars', latest_loop (latest repo) snap_to_bar bars insts w
                             = (Ok (bars ++ bars'), w)
                             ∧ Forall2 shows bars' (omap (λ o, o) answers)
    end) by apply Hgen.
  induction insts as [|pi insts IH]; intros bars.
  { exists []. simpl. rewrite app_nil_r. split; [done|constructor]. }
  pose proof (latest_loop_step bars pi insts w Hro) as Hs. cbn [list_traverse].
  destruct (rest_answer w pi) as [o|e]; [|exact Hs].
  destruct Hs as (b & -> & Hb). specialize (IH (bars ++ option_list b)).
  destruct (list_traverse (rest_answer w) insts) as [answers|e]; [|exact IH].
  destruct IH as (bars' & -> & Hf). exists (option_list b ++ bars').
  rewrite (assoc_L (++)). split; [done|].
  destruct Hb; simpl; [by constructor|done].
Qed.
End grpc_claims.

(** * Timestamps *)

Section timestamps.
Context {TL : TimeLib} {TLaws : TimeLaws TL}.

(** Timestamps survive the wire.  Encoding any date-time never wraps the
    [i64] and [i32] fields and decoding gives the same instant back; a decoded
    request is rejected exactly when its instant is not a representable
    date-time, whatever its two fields are.  The nanosecond field of an instant
    before 1970 that is not a whole second is negative, which the protobuf
    definition of the type forbids. *)
Theorem timestamps_survive_the_wire t :
  (∃ t', pb_ts (Some (ts_to_pb t)) = Ok t' ∧ t' ≡ t)
  ∧ i64_min ≤ seconds (ts_to_pb t) ≤ i64_max ∧ - 10 ^ 9 < nanos (ts_to_pb t) < 10 ^ 9
  ∧ (nanos (ts_to_pb t) < 0 ↔
     unix_timestamp_nanos t < 0 ∧ unix_timestamp_nanos t mod nanos_per_sec ≠ 0)
  ∧ ∀ s n, (∃ e, pb_ts (Some (mkTs s n)) = Err (InvalidArgument e))
           ↔ ¬ odt_in_range (s * nanos_per_sec + n).
Proof.
  pose proof (odt_nanos_range t) as Hr. set (z := unix_timestamp_nanos t) in *.
  assert (Hz : - 377705116800 * 10 ^ 9 ≤ z < 253402300800 * 10 ^ 9)
    by (unfold odt_in_range, odt_min_nanos, odt_max_nanos, nanos_per_sec in Hr; lia).
  assert (Hs : seconds (ts_to_pb t) = z ÷ nanos_per_sec).
  { unfold ts_to_pb. simpl. fold z. apply as_i64_small. unfold nanos_per_sec, i64_min, i64_max.
    Z.to_euclidean_division_equations; lia. }
  assert (Hn : nanos (ts_to_pb t) = Z.rem z nanos_per_sec).
  { unfold ts_to_pb. simpl. fold z. unfold as_i32, nanos_per_sec. rewrite Z.mod_small; [lia|].
    Z.to_euclidean_division_equations; lia. }
  rewrite Hs, Hn. unfold i64_min, i64_max. split; [|split; [|split; [|split]]].
  - unfold pb_ts. rewrite Hs, Hn, (Z.mul_comm (z ÷ nanos_per_sec)), <- (Z.quot_rem z) by done.
    destruct (from_nanos_in z Hr) as (t' & -> & Ht'). by exists t'.
  - unfold nanos_per_sec. Z.to_euclidean_division_equations; lia.
  - unfold nanos_per_sec. Z.to_euclidean_division_equations; lia.
  - unfold nanos_per_sec. split; Z.to_euclidean_division_equations; lia.
  - intros s n. unfold pb_ts. simpl. split.
    + intros [e He] Hin. destruct (from_nanos_in _ Hin) as (t' & Hf & _). by rewrite Hf in He.
    + intros Hout. destruct (from_nanos_out _ Hout) as (e & ->). by eexists.
Qed.
End timestamps.

(** * Concrete runs *)

Definition ex_repo : OiRepository (DL := z_decimal) (TL := z_time) unit :=
  with_default_funding (DL := z_decimal) (TL := z_time) (λ _, mret tt) (λ _, mret tt)
    (λ _ _ _, mret [])
    (λ i, if String.eqb (symbol i) "BTC" then mret (Some ex_bar) else mret None).

Lemma grpc_latest_matches_rest_witness :
  (∀ i w, (latest ex_repo i w).2 = w) ∧
  ∃ bars, grpc_latest ex_repo [mkInst "Binance" "BTC"; mkInst "okx" "X"] tt = (Ok bars, tt)
    ∧ length bars = 1%nat.
Proof.
  assert (Hro : ∀ i w, (latest ex_repo i w).2 = w).
  { intros i w. unfold ex_repo. simpl. by destruct (String.eqb (symbol i) "BTC"). }
  split; [exact Hro|].
  destruct (grpc_latest_matches_rest (DL := z_decimal) (TL := z_time) ex_repo
    [mkInst "Binance" "BTC"; mkInst "okx" "X"] tt Hro) as (bars & Hb & Hf).
  exists bars. split; [exact Hb|]. rewrite (Forall2_length _ _ _ Hf). reflexivity.
Defined.

Lemma timestamps_survive_the_wire_witness :
  TimeLaws z_time ∧ nanos (ts_to_pb (TL := z_time) (-1)) < 0.
Proof.
  split; [apply z_time_laws|].
  destruct (timestamps_survive_the_wire (TL := z_time) (-1)) as (_ & _ & _ & H & _).
  apply H. vm_compute. split; [done|discriminate].
Defined.
