(* ===== verification/ApiWs.v ===== *)
(** The browser stream: [oi-api/src/ws.rs].  The filter of the upgrade request
    and the event loop of a connection.  Which branch of the [select!] fires, and
    what the socket, the broadcast ring and the timers do, are the events of the
    loop; the JSON serialiser is a parameter. *)

From Stdlib Require Import ZArith Lia String Ascii.
From stdpp Require Import base option list strings gmap.
From S2P Require Import Prelude Externals Concrete Domain Repository ApiRest ApiGrpc.
Open Scope Z_scope.
Open Scope oi_scope.

(** [str::split(c)]: always at least one piece. *)
Fixpoint split_on (c : ascii) (s : string) : list string :=
  match s with
  | EmptyString => [EmptyString]
  | String x s' =>
      if Ascii.eqb x c then EmptyString :: split_on c s'
      else match split_on c s' with
           | [] => [String x EmptyString]
           | p :: ps => String x p :: ps
           end
  end.

(** [str::splitn(2, c)] when it gives two pieces. *)
Fixpoint split_once (c : ascii) (s : string) : option (string * string) :=
  match s with
  | EmptyString => None
  | String x s' =>
      if Ascii.eqb x c then Some (EmptyString, s')
      else '(a, b) ← split_once c s'; Some (String x a, b)
  end.

Definition parse_instrument (s : string) : option InstrumentId :=
  '(ex, sym) ← split_once ":" s;
  exchange ← result_ok (exchange_from_str ex);
  Some (mkId exchange sym).

(** The filter [ws_subscribe_handler] builds from the query. *)
Definition ws_filter (instruments : string) : gset InstrumentId :=
  list_to_set (omap parse_instrument
    (filter (λ s, negb (String.eqb s EmptyString)) (split_on "," instruments))).

(** * The connection *)

(** A frame read from the client. *)
Inductive ClientMsg := CEnd | CErr | CClose | COther.
(** What becomes of a frame handed to the socket. *)
Inductive Flush := Flushed | SendError | SendTimeout.

Section socket.
Context {DL : DecimalLib} {TL : TimeLib} (to_json : OiSnapshot → option string).

Inductive SnapRecv := Lagged (skipped : Z) | Closed | Received (snap : OiSnapshot).

Inductive Event :=
| FromClient (m : ClientMsg)
| HeartbeatTick (ping : Flush)
| Broadcast (r : SnapRecv) (send : Flush).

(** What the connection has done: the texts that reached the socket, whether it
    is closed, and the metrics. *)
Record Conn := mkConnection {
  texts : list string;
  closed : bool;
  frames_sent : Z;
  frames_counter : Z;
  lagged : Z;
}.
Definition conn_new : Conn := mkConnection [] false 0 0 0.
Definition close (c : Conn) : Conn :=
  mkConnection (texts c) true (frames_sent c) (frames_counter c) (lagged c).

(** One turn of the loop. *)
Definition on_event (filter : gset InstrumentId) (c : Conn) (e : Event) : Conn :=
  match e with
  | FromClient (CEnd | CErr | CClose) => close c
  | FromClient COther => c
  | HeartbeatTick SendTimeout => close c
  | HeartbeatTick _ => c
  | Broadcast (Lagged skipped) _ =>
      mkConnection (texts c) (closed c) (frames_sent c) (frames_counter c) (lagged c + skipped)
  | Broadcast Closed _ => close c
  | Broadcast (Received snap) send =>
      if negb (bool_decide (filter = ∅)) && negb (bool_decide (instrument snap ∈ filter)) then c
      else match to_json snap with
           | None => c
           | Some payload =>
               match send with
               | SendTimeout | SendError => close c
               | Flushed =>
                   let n := frames_sent c + 1 in
                   mkConnection (texts c ++ [payload]) (closed c) n
                     (if n mod 100 =? 0 then frames_counter c + 100 else frames_counter c)
                     (lagged c)
               end
           end
  end.

Fixpoint handle_socket (filter : gset InstrumentId) (c : Conn) (events : list Event) : Conn :=
  match events with
  | [] => c
  | e :: events' =>
      let c := on_event filter c e in
      if closed c then c else handle_socket filter c events'
  end.

(** * Specification *)

(** Whether an event ends the connection. *)
Definition ends (filter : gset InstrumentId) (e : Event) : bool :=
  match e with
  | FromClient COther => false
  | FromClient _ => true
  | HeartbeatTick f => match f with SendTimeout => true | _ => false end
  | Broadcast Closed _ => true
  | Broadcast (Lagged _) _ => false
  | Broadcast (Received snap) send =>
      wanted_by filter snap && bool_decide (is_Some (to_json snap))
      && match send with Flushed => false | _ => true end
  end.

(** The events up to the first that ends the connection. *)
Fixpoint served_events (filter : gset InstrumentId) (events : list Event) : list Event :=
  match events with
  | [] => []
  | e :: events' => if ends filter e then [] else e :: served_events filter events'
  end.

Definition received (events : list Event) : list OiSnapshot :=
  omap (λ e, match e with Broadcast (Received snap) _ => Some snap | _ => None end) events.
Definition skipped_total (events : list Event) : Z :=
  foldr Z.add 0 (omap (λ e, match e with Broadcast (Lagged n) _ => Some n | _ => None end) events).

(** The texts of the wanted snapshots. *)
Definition wanted_texts (f : gset InstrumentId) (snaps : list OiSnapshot) : list string :=
  omap to_json (filter (λ s, wanted_by f s = true) snaps).

Lemma wanted_texts_cons f s snaps :
  wanted_texts f (s :: snaps) =
  (if wanted_by f s then option_list (to_json s) else []) ++ wanted_texts f snaps.
Proof.
  unfold wanted_texts. destruct (wanted_by f s) eqn:E.
  - rewrite filter_cons_True by done. simpl. by destruct (to_json s).
  - by rewrite filter_cons_False by (by rewrite E).
Qed.

Lemma wanted_texts_one f s send :
  wanted_texts f (received [Broadcast (Received s) send]) =
  if wanted_by f s then option_list (to_json s) else [].
Proof.
  change (received [Broadcast (Received s) send]) with [s]. rewrite wanted_texts_cons.
  unfold wanted_texts. simpl. by rewrite app_nil_r.
Qed.

Lemma skipped_cons e es : skipped_total (e :: es) = skipped_total [e] + skipped_total es.
Proof. destruct e as [m|fl|[n| |s] send]; [done..| |done|done]. unfold skipped_total. cbn. lia. Qed.

(** The metrics are a function of the frames sent. *)
Definition counter_ok (c : Conn) : Prop :=
  frames_sent c = Z.of_nat (length (texts c))
  ∧ frames_counter c = frames_sent c / 100 * 100.

Lemma on_event_spec f c e :
  closed c = false → counter_ok c →
  let c' := on_event f c e in
  counter_ok c' ∧ closed c' = ends f e
  ∧ (ends f e = true → texts c' = texts c ∧ lagged c' = lagged c)
  ∧ (ends f e = false → texts c' = texts c ++ wanted_texts f (received [e])
       ∧ lagged c' = lagged c + skipped_total [e]).
Proof.
  intros Hc Hok. destruct e as [m|fl|r send].
  - by destruct m; simpl; rewrite ?app_nil_r, ?Z.add_0_r.
  - by destruct fl; simpl; rewrite ?app_nil_r, ?Z.add_0_r.
  - destruct r as [n| |s].
    { unfold skipped_total. simpl. rewrite app_nil_r, Z.add_0_r. done. }
    { done. }
    rewrite wanted_texts_one. simpl. rewrite ?Z.add_0_r. unfold wanted_by.
    destruct (negb (bool_decide (f = ∅)) && negb (bool_decide (instrument s ∈ f))); simpl;
      [by rewrite app_nil_r|].
    destruct (to_json s) as [p|]; simpl; [|by rewrite app_nil_r].
    destruct send; simpl; try done. destruct Hok as [Hn Hm].
    split; [|done]. unfold counter_ok. simpl. rewrite length_app. simpl. split; [lia|].
    destruct (Z.eqb_spec ((frames_sent c + 1) mod 100) 0) as [E|E]; rewrite Hm;
      clear Hm Hn; revert E; generalize (frames_sent c); intros z E;
      Z.to_euclidean_division_equations; lia.
Qed.

Lemma handle_socket_spec f c events :
  closed c = false → counter_ok c →
  let c' := handle_socket f c events in
  texts c' = texts c ++ wanted_texts f (received (served_events f events))
  ∧ lagged c' = lagged c + skipped_total (served_events f events)
  ∧ closed c' = existsb (ends f) events ∧ counter_ok c'.
Proof.
  revert c. induction events as [|e events IH]; intros c Hc Hok; cbn [handle_socket].
  { simpl. by rewrite app_nil_r, Z.add_0_r. }
  destruct (on_event_spec f c e Hc Hok) as (Hok' & Hcl & Hend & Hgo). cbv zeta. rewrite Hcl.
  cbn [served_events existsb]. destruct (ends f e).
  - destruct (Hend eq_refl) as [-> ->]. simpl. by rewrite app_nil_r, Z.add_0_r.
  - destruct (Hgo eq_refl) as [Ht Hl]. destruct (IH _ Hcl Hok') as (-> & -> & -> & ?).
    rewrite Ht, Hl. split_and!; [|by rewrite (skipped_cons e (served_events f events)), Z.add_assoc|done..].
    rewrite <- (assoc_L (++)). f_equal. unfold received.
    destruct e as [m|fl|[n| |s] send]; simpl; rewrite ?wanted_texts_cons; try done.
    unfold wanted_texts at 2. simpl. by rewrite app_nil_r.
Qed.

(** What a browser receives.  Over any sequence of events the texts on the
    socket are, in order, the JSON of the wanted snapshots the broadcast
    delivered before the first event that ends the connection (the client
    leaving, the broadcast closing, a ping that times out, a wanted frame that
    cannot be flushed); a lag loses what the ring dropped and nothing else, a
    snapshot that does not serialise is skipped, and the frame counter is the
    number of frames sent rounded down to a hundred. *)
Theorem browser_receives_wanted f events :
  let c := handle_socket f conn_new events in
  texts c = wanted_texts f (received (served_events f events))
  ∧ closed c = existsb (ends f) events
  ∧ lagged c = skipped_total (served_events f events)
  ∧ frames_counter c = Z.of_nat (length (texts c)) / 100 * 100.
Proof.
  cbv zeta. destruct (handle_socket_spec f conn_new events) as (H1 & H2 & H3 & H4 & H5);
    [done|done|]. rewrite H1, H2, H3. split_and!; [done..|]. by rewrite H5, H4, H1.
Qed.
End socket.

(** * Filters *)

(** What a client asks for: the text of an exchange and a symbol. *)
Definition Asked : Type := string * string.
(** One entry of the query, and the query that joins them. *)
Definition entry_of (p : Asked) : string := p.1 +:+ ":" +:+ p.2.
Fixpoint query_of (asked : list Asked) : string :=
  match asked with
  | [] => EmptyString
  | [p] => entry_of p
  | p :: asked' => entry_of p +:+ String "," (query_of asked')
  end.
(** The same as a gRPC message. *)
Definition message_of (p : Asked) : PbInst := mkInst p.1 p.2.
(** The instrument an entry names, when its exchange is known. *)
Definition asked_id (p : Asked) : option InstrumentId :=
  (λ e, mkId e p.2) <$> result_ok (exchange_from_str p.1).

(** The character does not occur in the text. *)
Fixpoint free_of (c : ascii) (s : string) : bool :=
  match s with EmptyString => true | String x s' => negb (Ascii.eqb x c) && free_of c s' end.

Lemma free_of_app c a b : free_of c (a +:+ b) = free_of c a && free_of c b.
Proof.
  induction a as [|x a IH]; [done|]. rewrite string_app_cons. simpl.
  by rewrite IH, andb_assoc.
Qed.

Lemma split_once_app c a b :
  free_of c a = true → split_once c (a +:+ String c b) = Some (a, b).
Proof.
  induction a as [|x a IH]; intros H.
  - change (EmptyString +:+ String c b) with (String c b). simpl. by rewrite Ascii.eqb_refl.
  - simpl in H. apply andb_true_iff in H as [Hx Ha]. rewrite string_app_cons. simpl.
    apply negb_true_iff in Hx. by rewrite Hx, IH.
Qed.

Lemma split_on_free c a : free_of c a = true → split_on c a = [a].
Proof.
  induction a as [|x a IH]; intros H; [done|]. simpl in *.
  apply andb_true_iff in H as [Hx Ha]. apply negb_true_iff in Hx. by rewrite Hx, IH.
Qed.

Lemma split_on_app c a b :
  free_of c a = true → split_on c (a +:+ String c b) = a :: split_on c b.
Proof.
  induction a as [|x a IH]; intros H.
  - change (EmptyString +:+ String c b) with (String c b). simpl. by rewrite Ascii.eqb_refl.
  - simpl in H. apply andb_true_iff in H as [Hx Ha]. rewrite string_app_cons. simpl.
    apply negb_true_iff in Hx. by rewrite Hx, IH.
Qed.

(** An exchange text that holds no separator, and a symbol without a comma. *)
Definition plain (p : Asked) : Prop :=
  free_of "," p.1 = true ∧ free_of ":" p.1 = true ∧ free_of "," p.2 = true.

Lemma parse_entry p : plain p → parse_instrument (entry_of p) = asked_id p.
Proof.
  intros (_ & H & _). unfold parse_instrument, entry_of, asked_id.
  change (p.1 +:+ ":" +:+ p.2) with (p.1 +:+ String ":" p.2).
  rewrite split_once_app by done. simpl. by destruct (exchange_from_str p.1).
Qed.

Lemma entry_free p : plain p → free_of "," (entry_of p) = true.
Proof. intros (H1 & _ & H2). unfold entry_of. by rewrite !free_of_app, H1, H2. Qed.
Lemma entry_nonempty p : String.eqb (entry_of p) EmptyString = false.
Proof. by destruct p as [[|c ex] sym]. Qed.

Lemma query_pieces asked :
  Forall plain asked → asked ≠ [] → split_on "," (query_of asked) = entry_of <$> asked.
Proof.
  induction 1 as [|p asked Hp Hasked IH]; intros Hne; [done|]. destruct asked as [|q asked].
  - apply split_on_free. by apply entry_free.
  - change (query_of (p :: q :: asked)) with (entry_of p +:+ String "," (query_of (q :: asked))).
    rewrite split_on_app by (by apply entry_free). by rewrite IH.
Qed.

Lemma ws_filter_query asked :
  Forall plain asked → ws_filter (query_of asked) = list_to_set (omap asked_id asked).
Proof.
  intros H. unfold ws_filter. destruct (decide (asked = [])) as [->|Hne]; [done|].
  rewrite query_pieces by done. f_equal. clear Hne.
  induction H as [|p asked Hp H IH]; [done|].
  cbn [fmap list_fmap]. rewrite filter_cons_True by (by rewrite entry_nonempty).
  cbn [omap list_omap]. by rewrite parse_entry, IH.
Qed.

Lemma ws_filter_nothing q :
  Forall (λ s, parse_instrument s = None) (split_on "," q) → ws_filter q = ∅.
Proof.
  intros H. unfold ws_filter.
  enough (omap parse_instrument
            (filter (λ s, negb (String.eqb s EmptyString)) (split_on "," q)) = []) as -> by done.
  induction H as [|s l Hs _ IH]; [done|]. rewrite filter_cons. case_decide; [|done].
  cbn [omap list_omap]. by rewrite Hs.
Qed.

Section filters.
Context {DL : DecimalLib} {TL : TimeLib} {SC : SnapCodec}.

Lemma subscribe_loop_filter (f : gset InstrumentId) (snaps : list OiSnapshot) :
  subscribe_loop f snaps = (λ s, Ok (snap_to_bar s)) <$> filter (λ s, wanted_by f s = true) snaps.
Proof.
  induction snaps as [|s snaps IH]; [done|]. cbn [subscribe_loop].
  destruct (wanted_by f s) eqn:E; simpl.
  - by rewrite filter_cons_True, IH.
  - by rewrite filter_cons_False, IH by (by rewrite E).
Qed.

(** The message is refused at its first unknown exchange. *)
Lemma list_traverse_asked (asked : list Asked) :
  match list_traverse pb_to_id (message_of <$> asked) with
  | Ok ids => ids = omap asked_id asked ∧ Forall (λ p, is_Some (asked_id p)) asked
  | Err _ => Exists (λ p, asked_id p = None) asked
  end.
Proof.
  induction asked as [|p asked IH]; [done|]. cbn [fmap list_fmap list_traverse omap list_omap].
  unfold pb_to_id, message_of, asked_id in *. cbn [pi_exchange pi_symbol].
  destruct (exchange_from_str p.1) as [e|] eqn:E; cbn; [|left; by rewrite E].
  destruct (list_traverse _ _) as [ids|]; cbn.
  - destruct IH as [-> ?]. split; [done|]. constructor; [|done]. rewrite E. by eexists.
  - by right.
Qed.

Lemma wanted_by_list (ids : list InstrumentId) (snaps : list OiSnapshot) :
  filter (λ s, wanted_by (list_to_set ids) s = true) snaps
  = filter (λ s, ids = [] ∨ instrument s ∈ ids) snaps.
Proof.
  apply list_filter_iff. intros s. unfold wanted_by. destruct ids as [|i ids]; [naive_solver|].
  assert (Hne : (list_to_set (i :: ids) : gset InstrumentId) ≠ ∅) by set_solver.
  rewrite (bool_decide_false _ Hne). simpl. rewrite negb_involutive, bool_decide_eq_true.
  set_solver.
Qed.

(** C31. The two subscription protocols select the same bars. A client asks for
    a list of exchange texts, in any letter case and known or not, and symbols
    (no comma in either, no colon in an exchange's text), as the entries of a
    WebSocket query or as the messages of a gRPC request. When every exchange is
    known, both stream exactly the bars of those instruments, in order, and all
    bars for the empty list. When some exchange is unknown, the gRPC request is
    refused, and the WebSocket one goes on with the entries it could read; if
    that leaves none - whatever the query's text was - it streams everything. A
    WebSocket connection streams what it receives until it ends: one that lags
    misses the skipped bars, and one that is closed the rest. *)
Theorem subscriptions_agree (asked : list Asked) (payloads : list (list Z)) to_json events :
  Forall plain asked →
  let ids := omap asked_id asked in
  let selected := filter (λ s, ids = [] ∨ instrument s ∈ ids) in
  let browser q := texts (handle_socket to_json (ws_filter q) conn_new events) in
  let heard q := received (served_events to_json (ws_filter q) events) in
  browser (query_of asked) = omap to_json (selected (heard (query_of asked)))
  ∧ (Forall (λ p, is_Some (asked_id p)) asked →
     grpc_subscribe (Ok tt) (message_of <$> asked) payloads
     = Ok ((λ s, Ok (snap_to_bar s)) <$> selected (subscribe_stream payloads)))
  ∧ (Exists (λ p, asked_id p = None) asked →
     ∃ e, grpc_subscribe (Ok tt) (message_of <$> asked) payloads = Err e)
  ∧ (∀ q, Forall (λ s, parse_instrument s = None) (split_on "," q) →
     browser q = omap to_json (heard q)).
Proof.
  intros Hasked. cbv zeta. pose proof (list_traverse_asked asked) as Ht.
  split; [|split; [|split]].
  - destruct (handle_socket_spec to_json (ws_filter (query_of asked)) conn_new events)
      as (-> & _); [done|done|]. unfold wanted_texts.
    by rewrite (ws_filter_query asked Hasked), wanted_by_list.
  - intros Hall. unfold grpc_subscribe. destruct (list_traverse _ _) as [ids|e].
    + destruct Ht as [-> _]. simpl. by rewrite subscribe_loop_filter, wanted_by_list.
    + apply Exists_exists in Ht as (p & Hp & Hn). rewrite Forall_forall in Hall.
      destruct (Hall p Hp). congruence.
  - intros Hex. unfold grpc_subscribe. destruct (list_traverse _ _) as [ids|e]; [|by exists e].
    destruct Ht as [_ Hall]. apply Exists_exists in Hex as (p & Hp & Hn).
    rewrite Forall_forall in Hall. destruct (Hall p Hp). congruence.
  - intros q Hq. destruct (handle_socket_spec to_json (ws_filter q) conn_new events)
      as (-> & _); [done|done|]. unfold wanted_texts. rewrite (ws_filter_nothing q Hq).
    simpl. f_equal. induction (received _) as [|s snaps IH]; [done|].
    by rewrite filter_cons_True, IH.
Qed.
End filters.

(** * Concrete run *)

Definition ex_other : OiSnapshot :=
  start_from_sample (mkSample (mkId Bybit "ETHUSDT") 0 1 7 Coins (Some 7) None None).
Definition ex_events : list Event :=
  [Broadcast (Received (Repository.ex_bar 1)) Flushed;
   Broadcast (Received ex_other) Flushed;
   Broadcast (Received (Repository.ex_bar 2)) Flushed].

(** One known entry in capitals and one unknown: the browser gets the known one's
    bars, the gRPC request is refused; with only the unknown one the browser
    gets everything. *)
Lemma subscriptions_agree_witness :
  let json s := Some (int_to_string (native_close s)) in
  let browser q := texts (handle_socket json (ws_filter q) conn_new ex_events) in
  browser "OKX:BTC-USDT-SWAP,binanc:BTC"%string = ["1"; "2"]%string
  ∧ (∃ e, grpc_subscribe (SC := ex_codec) (Ok tt) [mkInst "OKX" "BTC-USDT-SWAP"; mkInst "binanc" "BTC"]
            [[0]; [9]; [1]] = Err e)
  ∧ browser "binanc:BTC"%string = ["1"; "7"; "2"]%string.
Proof.
  destruct (subscriptions_agree (SC := ex_codec) [("OKX", "BTC-USDT-SWAP"); ("binanc", "BTC")]%string
    [[0]; [9]; [1]] (λ s, Some (int_to_string (native_close s))) ex_events)
    as (H1 & _ & H2 & H3).
  - repeat constructor.
  - split; [exact H1|]. split; [apply H2; right; left; reflexivity|].
    apply H3. repeat constructor.
Defined.
