(* ===== verification/ApiMetrics.v ===== *)
(** The API's handlers with their metrics: the latest handlers of
    [oi-api/src/rest.rs] and [grpc.rs], the readiness probe, the subscription
    streams and the browser connection of [ws.rs] once more, with every call to
    the recorder.  Responses are those of [ApiRest], [ApiGrpc] and [ApiWs]; the
    counters say what was answered, and the connection gauge how many sockets are
    open, however the connections interleave. *)

From Stdlib Require Import ZArith Lia String.
From stdpp Require Import base option list strings gmap.
From S2P Require Import Prelude Externals Concrete Domain Repository Metrics ApiAuth ApiRest ApiGrpc ApiWs.
Open Scope Z_scope.
Open Scope oi_scope.

Section metered.
Context {DL : DecimalLib} {TL : TimeLib}.

(** * Requests *)

(** The [method] labels of the REST handlers that count. *)
Definition REST_Ready : string := "REST_Ready".
Definition REST_Latest : string := "REST_Latest".
Definition REST_FundingLatest : string := "REST_FundingLatest".
Definition REST_FundingEventLatest : string := "REST_FundingEventLatest".

Definition m_ready (clickhouse redis : option (result CoreError unit)) (cs : Calls)
  : bool * (string * string) * Calls :=
  let '(ch_ok, ch_msg) := probe_report clickhouse in
  let '(rs_ok, rs_msg) := probe_report redis in
  let cs := if ch_ok && rs_ok then cs ++ [inc_request REST_Ready "ok"]
            else cs ++ [inc_request REST_Ready "service_unavailable"] in
  (ch_ok && rs_ok, (ch_msg, rs_msg), cs ++ [timer_drop REST_Ready]).

Section handlers.
Context {W : Type} (repo : OiRepository W).

Definition m_rest_latest (ex sym : string) (cs : Calls) (w : W) : Response BarDto * Calls * W :=
  let '(response, cs, w) :=
    match parse_id ex sym with
    | Err e => (TextBody BAD_REQUEST e, cs ++ [inc_request REST_Latest "bad_request"], w)
    | Ok id =>
        match latest repo id w with
        | (Ok (Some s), w) => (JsonBody (BarDto_from s), cs ++ [inc_request REST_Latest "ok"], w)
        | (Ok None, w) =>
            (TextBody NOT_FOUND "no data", cs ++ [inc_request REST_Latest "not_found"], w)
        | (Err e, w) => (internal e, cs ++ [inc_request REST_Latest "internal"], w)
        end
    end in
  (response, cs ++ [timer_drop REST_Latest], w).

Definition m_rest_funding_latest (ex sym : string) (cs : Calls) (w : W)
  : Response FundingDto * Calls * W :=
  let '(response, cs, w) :=
    match parse_id ex sym with
    | Err e => (TextBody BAD_REQUEST e, cs ++ [inc_request REST_FundingLatest "bad_request"], w)
    | Ok id =>
        match latest_funding repo id w with
        | (Ok (Some b), w) =>
            (JsonBody (FundingDto_from b), cs ++ [inc_request REST_FundingLatest "ok"], w)
        | (Ok None, w) =>
            (TextBody NOT_FOUND "no funding data",
             cs ++ [inc_request REST_FundingLatest "not_found"], w)
        | (Err e, w) => (internal e, cs ++ [inc_request REST_FundingLatest "internal"], w)
        end
    end in
  (response, cs ++ [timer_drop REST_FundingLatest], w).

Definition m_rest_funding_event_latest (ex sym : string) (cs : Calls) (w : W)
  : Response FundingEventDto * Calls * W :=
  let '(response, cs, w) :=
    match parse_id ex sym with
    | Err e =>
        (TextBody BAD_REQUEST e, cs ++ [inc_request REST_FundingEventLatest "bad_request"], w)
    | Ok id =>
        match latest_funding_event repo id w with
        | (Ok (Some e), w) =>
            (JsonBody (FundingEventDto_from e), cs ++ [inc_request REST_FundingEventLatest "ok"], w)
        | (Ok None, w) =>
            (TextBody NOT_FOUND "no settlement events",
             cs ++ [inc_request REST_FundingEventLatest "not_found"], w)
        | (Err e, w) => (internal e, cs ++ [inc_request REST_FundingEventLatest "internal"], w)
        end
    end in
  (response, cs ++ [timer_drop REST_FundingEventLatest], w).

(** The three unary gRPC calls, under the labels [Latest], [LatestFunding] and
    [LatestFundingEvent]. *)
Fixpoint m_latest_loop {A B} (method : string) (call : InstrumentId → SE W CoreError (option A))
    (to_pb : A → B) (bars : list B) (insts : list PbInst) (cs : Calls) (w : W)
  : result Status (list B) * Calls * W :=
  match insts with
  | [] => (Ok bars, cs ++ [inc_request method "ok"], w)
  | pi :: insts' =>
      match pb_to_id pi with
      | Err e => (Err e, cs ++ [inc_request method "bad_request"], w)
      | Ok id =>
          match call id w with
          | (Ok (Some s), w) => m_latest_loop method call to_pb (bars ++ [to_pb s]) insts' cs w
          | (Ok None, w) => m_latest_loop method call to_pb bars insts' cs w
          | (Err e, w) =>
              (Err (Internal (display_core_error e)), cs ++ [inc_request method "internal"], w)
          end
      end
  end.
Definition m_unary {A B} (method : string) (call : InstrumentId → SE W CoreError (option A))
    (to_pb : A → B) (insts : list PbInst) (cs : Calls) (w : W)
  : result Status (list B) * Calls * W :=
  let '(r, cs, w) := m_latest_loop method call to_pb [] insts cs w in
  (r, cs ++ [timer_drop method], w).
Definition m_grpc_latest := m_unary "Latest" (latest repo) snap_to_bar.
Definition m_grpc_latest_funding := m_unary "LatestFunding" (latest_funding repo) funding_to_pb.
Definition m_grpc_latest_funding_event :=
  m_unary "LatestFundingEvent" (latest_funding_event repo) funding_event_to_pb.

(** The label a status goes by. *)
Definition rest_label {P} (r : Response P) : string :=
  match r with
  | JsonBody _ => "ok"
  | TextBody BAD_REQUEST _ => "bad_request"
  | TextBody NOT_FOUND _ => "not_found"
  | TextBody INTERNAL_SERVER_ERROR _ => "internal"
  end.
Definition grpc_label {P} (r : result Status P) : string :=
  match r with Ok _ => "ok" | Err (InvalidArgument _) => "bad_request" | Err _ => "internal" end.

(** A response with the calls of its request. *)
Definition counted {P} (method label : string) (cs : Calls) (bare : P * W) : P * Calls * W :=
  (bare.1, cs ++ [inc_request method label; timer_drop method], bare.2).

Lemma counted_snoc {P} method label cs (p : P) w :
  (p, (cs ++ [inc_request method label]) ++ [timer_drop method], w)
  = counted method label cs (p, w).
Proof. unfold counted. by rewrite <- app_assoc. Qed.

Lemma latest_counted ex sym cs w :
  m_rest_latest ex sym cs w
  = let o := rest_latest repo ex sym w in counted REST_Latest (rest_label o.1) cs o.
Proof.
  unfold m_rest_latest, rest_latest. destruct (parse_id ex sym) as [id|e]; [|apply counted_snoc].
  destruct (latest repo id w) as [[[s|]|e] w']; apply counted_snoc.
Qed.
Lemma funding_latest_counted ex sym cs w :
  m_rest_funding_latest ex sym cs w
  = let o := rest_funding_latest repo ex sym w in counted REST_FundingLatest (rest_label o.1) cs o.
Proof.
  unfold m_rest_funding_latest, rest_funding_latest.
  destruct (parse_id ex sym) as [id|e]; [|apply counted_snoc].
  destruct (latest_funding repo id w) as [[[s|]|e] w']; apply counted_snoc.
Qed.
Lemma event_latest_counted ex sym cs w :
  m_rest_funding_event_latest ex sym cs w
  = let o := rest_funding_event_latest repo ex sym w in
    counted REST_FundingEventLatest (rest_label o.1) cs o.
Proof.
  unfold m_rest_funding_event_latest, rest_funding_event_latest.
  destruct (parse_id ex sym) as [id|e]; [|apply counted_snoc].
  destruct (latest_funding_event repo id w) as [[[s|]|e] w']; apply counted_snoc.
Qed.

Lemma pb_to_id_refuses pi e : pb_to_id pi = Err e → ∃ m, e = InvalidArgument m.
Proof. unfold pb_to_id. destruct (exchange_from_str _); simpl; [done|]. intros [= <-]. eauto. Qed.

Lemma latest_loop_counted {A B} method (call : InstrumentId → SE W CoreError (option A)) (to_pb : A → B)
    bars insts cs w :
  m_latest_loop method call to_pb bars insts cs w
  = let o := latest_loop call to_pb bars insts w in
    (o.1, cs ++ [inc_request method (grpc_label o.1)], o.2).
Proof.
  revert bars w. induction insts as [|pi insts IH]; intros bars w; [done|].
  cbn [m_latest_loop latest_loop]. destruct (pb_to_id pi) as [id|e] eqn:E.
  - destruct (call id w) as [[[a|]|e] w']; [apply IH|apply IH|done].
  - by destruct (pb_to_id_refuses _ _ E) as [m ->].
Qed.
Lemma unary_counted {A B} method (call : InstrumentId → SE W CoreError (option A)) (to_pb : A → B)
    insts cs w :
  m_unary method call to_pb insts cs w
  = let o := latest_loop call to_pb [] insts w in counted method (grpc_label o.1) cs o.
Proof. unfold m_unary. rewrite latest_loop_counted. apply counted_snoc. Qed.
End handlers.

(** * Streams *)

(** The gRPC subscription: one count per bar handed to the client. *)
Fixpoint m_subscribe_loop (filter_set : gset InstrumentId) (snaps : list OiSnapshot) (cs : Calls)
  : list (result Status Bar) * Calls :=
  match snaps with
  | [] => ([], cs)
  | snap :: snaps' =>
      if negb (wanted_by filter_set snap) then m_subscribe_loop filter_set snaps' cs
      else let '(out, cs) := m_subscribe_loop filter_set snaps' (cs ++ [inc_subscribe_frame]) in
           (Ok (snap_to_bar snap) :: out, cs)
  end.

Definition subscribe_frames_key : Key := ("oi_api_subscribe_frames_total"%string, []).
Lemma subscribe_counted f snaps cs :
  let o := m_subscribe_loop f snaps cs in
  o.1 = subscribe_loop f snaps
  ∧ total subscribe_frames_key o.2 = total subscribe_frames_key cs + Z.of_nat (length o.1).
Proof.
  revert cs. induction snaps as [|s snaps IH]; intros cs; cbn [m_subscribe_loop subscribe_loop].
  { simpl. split; [done|lia]. }
  destruct (negb (wanted_by f s)); [apply IH|].
  destruct (IH (cs ++ [inc_subscribe_frame])) as [H1 H2].
  destruct (m_subscribe_loop f snaps _) as [out cs']. cbn [fst snd length] in *. rewrite H1.
  split; [done|]. rewrite H2, total_snoc. simpl. rewrite H1. lia.
Qed.

(** * Browser connections *)

(** The head of [ws_subscribe_handler]. *)
Definition m_ws_upgrade (auth : option AuthState) (token : option string) (cs : Calls)
  : bool * Calls :=
  if ws_auth auth token then (true, cs ++ [inc_request "WS_Subscribe" "ok"])
  else (false, cs ++ [inc_request "WS_Subscribe" "unauthorized"]).

Section sockets.
Context (to_json : OiSnapshot → option string).

(** The calls of one turn of the loop. *)
Definition event_calls (f : gset InstrumentId) (c : Conn) (e : Event) : Calls :=
  match e with
  | Broadcast (Lagged skipped) _ => [inc_ws_lagged skipped]
  | Broadcast (Received snap) send =>
      if negb (bool_decide (f = ∅)) && negb (bool_decide (instrument snap ∈ f)) then []
      else match to_json snap, send with
           | Some _, Flushed =>
               if (frames_sent c + 1) mod 100 =? 0 then [inc_ws_frames_sent 100] else []
           | _, _ => []
           end
  | _ => []
  end.
(** The loop; the guard's drop runs when it returns. *)
Fixpoint m_socket_loop (f : gset InstrumentId) (c : Conn) (cs : Calls) (events : list Event)
  : Conn * Calls :=
  match events with
  | [] => (c, cs)
  | e :: events' =>
      let cs := cs ++ event_calls f c e in
      let c := on_event to_json f c e in
      if closed c then (c, cs ++ [dec_ws_connections]) else m_socket_loop f c cs events'
  end.
Definition m_handle_socket (f : gset InstrumentId) (events : list Event) : Conn * Calls :=
  m_socket_loop f conn_new [inc_ws_connections] events.

Definition connections_key : Key := ("oi_api_ws_connections"%string, []).
Definition frames_key : Key := ("oi_api_ws_frames_sent_total"%string, []).
Definition lagged_key : Key := ("oi_api_ws_lagged_total"%string, []).

Lemma level_app k cs1 cs2 : level k (cs1 ++ cs2) = level k cs1 + level k cs2.
Proof. induction cs1 as [|c cs1 IH]; [done|]. simpl. lia. Qed.

Lemma event_counted f c e :
  total frames_key (event_calls f c e) = frames_counter (on_event to_json f c e) - frames_counter c
  ∧ total lagged_key (event_calls f c e) = lagged (on_event to_json f c e) - lagged c
  ∧ level connections_key (event_calls f c e) = 0.
Proof.
  destruct e as [[]|[]|[n| |s] send]; simpl; try (split_and!; lia).
  destruct (_ && _); [split_and!; simpl; lia|].
  destruct (to_json s) as [p|]; [|split_and!; simpl; lia].
  destruct send; simpl; try (split_and!; lia). destruct (_ =? 0); split_and!; simpl; lia.
Qed.

Lemma socket_counted f c cs events :
  closed c = false →
  let o := m_socket_loop f c cs events in
  o.1 = handle_socket to_json f c events
  ∧ total frames_key o.2 = total frames_key cs + (frames_counter o.1 - frames_counter c)
  ∧ total lagged_key o.2 = total lagged_key cs + (lagged o.1 - lagged c)
  ∧ level connections_key o.2 = level connections_key cs + (if closed o.1 then -1 else 0).
Proof.
  revert c cs. induction events as [|e events IH]; intros c cs Hc; cbn [m_socket_loop handle_socket].
  { cbn [fst snd]. rewrite Hc. split; [done|]. lia. }
  destruct (event_counted f c e) as (H1 & H2 & H3).
  destruct (closed (on_event to_json f c e)) eqn:E.
  - cbn [fst snd]. rewrite !total_snoc, level_snoc, !total_app, level_app, H1, H2, H3, E.
    split; [done|]. simpl. split; [lia|]. split; lia.
  - destruct (IH _ (cs ++ event_calls f c e) E) as (I1 & I2 & I3 & I4).
    rewrite I2, I3, I4, !total_app, level_app, H1, H2, H3.
    split; [done|]. split; [lia|]. split; lia.
Qed.

Lemma total_perm k cs cs' : cs ≡ₚ cs' → total k cs = total k cs'.
Proof. induction 1; simpl; lia. Qed.
Lemma level_perm k cs cs' : cs ≡ₚ cs' → level k cs = level k cs'.
Proof. induction 1; simpl; lia. Qed.

Definition sum (l : list Z) : Z := foldr Z.add 0 l.
(** What a process has done for its connections: each has had some events. *)
Definition Sockets : Type := list (gset InstrumentId * list Event).
Definition conn_of (s : gset InstrumentId * list Event) : Conn := handle_socket to_json s.1 conn_new s.2.
Definition is_open (c : Conn) : Z := if closed c then 0 else 1.

Lemma sockets_counted (socks : Sockets) cs :
  cs ≡ₚ concat ((λ s, (m_handle_socket s.1 s.2).2) <$> socks) →
  level connections_key cs = sum (is_open ∘ conn_of <$> socks)
  ∧ total frames_key cs = sum (frames_counter ∘ conn_of <$> socks)
  ∧ total lagged_key cs = sum (lagged ∘ conn_of <$> socks).
Proof.
  intros Hp. rewrite (level_perm _ _ _ Hp), !(total_perm _ _ _ Hp). clear cs Hp.
  induction socks as [|[f events] socks (I1 & I2 & I3)]; [done|].
  rewrite !fmap_cons. cbn [concat]. rewrite level_app, !total_app, I1, I2, I3.
  unfold m_handle_socket at 1 2 3. cbn [fst snd].
  destruct (socket_counted f conn_new [inc_ws_connections] events eq_refl) as (H1 & H2 & H3 & H4).
  rewrite H2, H3, H4, H1. unfold conn_of, is_open, compose, sum. cbn [foldr fst snd].
  change (level connections_key [inc_ws_connections]) with 1.
  change (total _ [inc_ws_connections]) with 0. cbn [frames_counter lagged conn_new].
  split; [destruct (closed (handle_socket to_json f conn_new events)); lia|]. split; lia.
Qed.
End sockets.

(** C32. The API's metrics say what was answered.  With its metrics, every
    counting handler (the latest calls of both transports and the readiness
    probe) gives the response of the bare one and makes exactly two calls: one
    request counted under the label of the response's status, and the timer; an
    upgrade is counted as the authentication decides.  And whatever the
    connections' events were and however their calls interleave, the connection
    gauge is the number of sockets open, the lag counter what the ring dropped for
    them, and the frame counter the sum of the frames sent, each connection's
    rounded down to a hundred. *)
Theorem api_metrics_account {W} (repo : OiRepository W) to_json :
  (∀ ex sym cs w,
     m_rest_latest repo ex sym cs w
     = (let o := rest_latest repo ex sym w in counted REST_Latest (rest_label o.1) cs o)
     ∧ m_rest_funding_latest repo ex sym cs w
       = (let o := rest_funding_latest repo ex sym w in
          counted REST_FundingLatest (rest_label o.1) cs o)
     ∧ m_rest_funding_event_latest repo ex sym cs w
       = (let o := rest_funding_event_latest repo ex sym w in
          counted REST_FundingEventLatest (rest_label o.1) cs o))
  ∧ (∀ insts cs w,
       m_grpc_latest repo insts cs w
       = (let o := grpc_latest repo insts w in counted "Latest" (grpc_label o.1) cs o)
       ∧ m_grpc_latest_funding repo insts cs w
         = (let o := grpc_latest_funding repo insts w in counted "LatestFunding" (grpc_label o.1) cs o)
       ∧ m_grpc_latest_funding_event repo insts cs w
         = (let o := grpc_latest_funding_event repo insts w in
            counted "LatestFundingEvent" (grpc_label o.1) cs o))
  ∧ (∀ clickhouse redis cs,
       let o := ready clickhouse redis in
       m_ready clickhouse redis cs
       = (o, cs ++ [inc_request REST_Ready (if o.1 then "ok" else "service_unavailable");
                    timer_drop REST_Ready]))
  ∧ (∀ auth token cs, m_ws_upgrade auth token cs
       = (ws_auth auth token,
          cs ++ [inc_request "WS_Subscribe" (if ws_auth auth token then "ok" else "unauthorized")]))
  ∧ ∀ (socks : Sockets) cs,
      cs ≡ₚ concat ((λ s, (m_handle_socket to_json s.1 s.2).2) <$> socks) →
      level connections_key cs = sum (is_open ∘ conn_of to_json <$> socks)
      ∧ total lagged_key cs
        = sum ((λ s, skipped_total (served_events to_json s.1 s.2)) <$> socks)
      ∧ total frames_key cs
        = sum ((λ s, Z.of_nat (length (texts (conn_of to_json s))) / 100 * 100) <$> socks).
Proof.
  split; [intros; split; [apply latest_counted|]; split;
          [apply funding_latest_counted|apply event_latest_counted]|].
  split; [intros; split; [apply unary_counted|]; split; apply unary_counted|].
  split.
  { intros clickhouse redis cs. unfold m_ready, ready.
    destruct (probe_report clickhouse) as [[] cm], (probe_report redis) as [[] rm];
      simpl; by rewrite <- app_assoc. }
  split; [intros auth token cs; unfold m_ws_upgrade; by destruct (ws_auth auth token)|].
  intros socks cs (H1 & H2 & H3)%sockets_counted. rewrite H1, H2, H3.
  assert (Hc : ∀ s : gset InstrumentId * list Event,
    lagged (conn_of to_json s) = skipped_total (served_events to_json s.1 s.2)
    ∧ frames_counter (conn_of to_json s) = Z.of_nat (length (texts (conn_of to_json s))) / 100 * 100).
  { intros [f events]. destruct (handle_socket_spec to_json f conn_new events eq_refl)
      as (_ & Hl & _ & Hn & Hf); [done|]. unfold conn_of. cbn [fst snd].
    split; [exact Hl|]. by rewrite Hf, Hn. }
  split; [done|]. split; f_equal; apply list_fmap_ext; intros i s _; apply Hc.
Qed.
End metered.

(** * Two concrete connections *)

(** One that has received a bar, and one whose browser left after a lag. *)
Definition ex_socks : Sockets (DL := z_decimal) (TL := z_time) :=
  [(∅, [Broadcast (Received ex_bar) Flushed]);
   (∅, [Broadcast (Lagged 7) Flushed; FromClient CEnd])].
(** Their calls, the second connection's first. *)
Definition ex_calls : Calls :=
  [inc_ws_connections; inc_ws_lagged 7; inc_ws_connections; dec_ws_connections].

Lemma api_metrics_account_witness :
  level connections_key ex_calls = 1 ∧ total lagged_key ex_calls = 7
  ∧ (m_rest_latest ex_repo "nyse" "X" [] tt).1.2
    = [inc_request REST_Latest "bad_request"; timer_drop REST_Latest].
Proof.
  destruct (api_metrics_account (DL := z_decimal) (TL := z_time) ex_repo (λ _, Some "{}"%string))
    as (Hr & _ & _ & _ & Hs).
  destruct (Hs ex_socks ex_calls) as (H1 & H2 & _).
  { change (ex_calls ≡ₚ [inc_ws_connections] ++ [inc_ws_connections; inc_ws_lagged 7; dec_ws_connections]).
    unfold ex_calls. simpl. constructor. apply perm_swap. }
  split; [exact H1|]. split; [exact H2|]. rewrite (proj1 (Hr "nyse"%string "X"%string [] tt)). reflexivity.
Defined.
