(* ===== verification/Hub.v ===== *)
(** The API's stream hub: the one Redis subscriber of a process
    ([spawn_pubsub_broadcaster] of [oi-api/src/ws.rs]), the broadcast channel it
    feeds and the WebSocket connections that read from it, as tasks whose steps
    interleave.  The channel is [tokio::sync::broadcast], a parameter with its
    documented behaviour; [ApiWs] models one connection. *)

From Stdlib Require Import ZArith Lia String.
From stdpp Require Import base option list strings gmap.
From S2P Require Import Prelude Externals Concrete Domain Repository ApiAuth ApiRest ApiGrpc ApiWs.
Open Scope Z_scope.
Open Scope oi_scope.

(** * The broadcast channel *)

(** What [Receiver::recv] gives: nothing yet, the next value, or the number of
    values the ring has overwritten. *)
Inductive RecvResult (T : Type) := Pending | Got (v : T) | Lag (skipped : Z).
Arguments Pending {T}.
Arguments Got {T}.
Arguments Lag {T}.

Class BroadcastChan (T : Type) := {
  Chan : Type;
  chan_new : Z → Chan;
  chan_send : T → Chan → Chan;
  chan_subscribe : nat → Chan → Chan;
  chan_recv : nat → Chan → RecvResult T * Chan;
}.

(** [chan_log] is everything sent so far and [chan_next] a receiver's position
    in it.  A receiver starts after the last value sent, sees the values in
    order, and skips only what lies more than the capacity behind. *)
Class BroadcastLaws {T} (BC : BroadcastChan T) := {
  chan_log : Chan → list T;
  chan_next : Chan → nat → option nat;
  chan_cap : Chan → Z;
  new_law cap : chan_log (chan_new cap) = [] ∧ chan_cap (chan_new cap) = cap
    ∧ ∀ id, chan_next (chan_new cap) id = None;
  send_law v ch : chan_log (chan_send v ch) = chan_log ch ++ [v]
    ∧ chan_cap (chan_send v ch) = chan_cap ch
    ∧ ∀ id, chan_next (chan_send v ch) id = chan_next ch id;
  subscribe_law id ch : chan_next ch id = None →
    chan_log (chan_subscribe id ch) = chan_log ch
    ∧ chan_cap (chan_subscribe id ch) = chan_cap ch
    ∧ chan_next (chan_subscribe id ch) id = Some (length (chan_log ch))
    ∧ ∀ id', id' ≠ id → chan_next (chan_subscribe id ch) id' = chan_next ch id';
  recv_law id ch r ch' n : chan_recv id ch = (r, ch') → chan_next ch id = Some n →
    chan_log ch' = chan_log ch ∧ chan_cap ch' = chan_cap ch
    ∧ (∀ id', id' ≠ id → chan_next ch' id' = chan_next ch id')
    ∧ match r with
      | Pending => n = length (chan_log ch) ∧ ch' = ch
      | Got v => chan_log ch !! n = Some v ∧ chan_next ch' id = Some (S n)
      | Lag k => 0 < k ∧ chan_cap ch < Z.of_nat (length (chan_log ch)) - Z.of_nat n
          ∧ Z.of_nat n + k ≤ Z.of_nat (length (chan_log ch))
          ∧ chan_next ch' id = Some (n + Z.to_nat k)%nat
      end;
}.

(** * The hub *)

Definition BROADCAST_CAPACITY : Z := 4096.

Section hub.
Context {DL : DecimalLib} {TL : TimeLib} {SC : SnapCodec}.
Context {BC : BroadcastChan OiSnapshot} (to_json : OiSnapshot → option string).
(** [WsState.auth] *)
Context (auth : option AuthState).

(** The subscriber's loop: asleep or connecting, or reading its stream, with the
    messages Redis has handed to the connection and the loop has not read. *)
Inductive Bus := Down | Up (inflight : list (list Z)).

(** A connection with its filter; [cl_from], [cl_next] and [cl_got] (where it
    joined, how far it has read and what it was handed) are history. *)
Record Client := mkClient {
  cl_filter : gset InstrumentId;
  cl_conn : Conn;
  cl_from : nat;
  cl_next : nat;
  cl_got : list OiSnapshot;
}.

(** [hub_heard] (the payloads the loop has read) is history. *)
Record Hub := mkHub {
  hub_bus : Bus;
  hub_chan : Chan;
  hub_clients : gmap nat Client;
  hub_heard : list (list Z);
}.

(** The branch of a connection's [select!] that fires. *)
Inductive Turn := ReadFrame (m : ClientMsg) | Beat (ping : Flush) | Recv (send : Flush).

Inductive HubAction :=
| Subscribed
| SubscribeFailed
| Delivered (payload : list Z)
| Forward
| StreamEnded
| Join (id : nat) (token : option string) (instruments : string)
| Take (id : nat) (t : Turn).

(** The event a turn gives the connection; [None] when its branch cannot fire. *)
Definition turn_event (id : nat) (t : Turn) (ch : Chan) : option (Event * Chan) :=
  match t with
  | ReadFrame m => Some (FromClient m, ch)
  | Beat ping => Some (HeartbeatTick ping, ch)
  | Recv send =>
      match chan_recv id ch with
      | (Pending, _) => None
      | (Got v, ch') => Some (Broadcast (Received v) send, ch')
      | (Lag k, ch') => Some (Broadcast (Lagged k) send, ch')
      end
  end.

Definition client_turn (e : Event) (cl : Client) : Client :=
  let c := on_event to_json (cl_filter cl) (cl_conn cl) e in
  if closed c then mkClient (cl_filter cl) c (cl_from cl) (cl_next cl) (cl_got cl)
  else mkClient (cl_filter cl) c (cl_from cl)
         (cl_next cl + length (received [e]) + Z.to_nat (skipped_total [e]))
         (cl_got cl ++ received [e]).

(** [tx_clone.send] of a payload that decodes. *)
Definition forward (payload : list Z) (ch : Chan) : Chan :=
  match mp_decode payload with Ok snap => chan_send snap ch | Err _ => ch end.

Definition hub_step (a : HubAction) (h : Hub) : option Hub :=
  match a, hub_bus h with
  | Subscribed, Down => Some (mkHub (Up []) (hub_chan h) (hub_clients h) (hub_heard h))
  | SubscribeFailed, Down => Some h
  | Delivered p, Up q => Some (mkHub (Up (q ++ [p])) (hub_chan h) (hub_clients h) (hub_heard h))
  | Forward, Up (p :: q) =>
      Some (mkHub (Up q) (forward p (hub_chan h)) (hub_clients h) (hub_heard h ++ [p]))
  | StreamEnded, Up _ => Some (mkHub Down (hub_chan h) (hub_clients h) (hub_heard h))
  | Join id token instruments, b =>
      if ws_auth auth token then
        match hub_clients h !! id with
        | Some _ => None
        | None =>
            Some (mkHub b (chan_subscribe id (hub_chan h))
                    (<[id := mkClient (ws_filter instruments) conn_new
                               (length (subscribe_stream (hub_heard h)))
                               (length (subscribe_stream (hub_heard h))) []]> (hub_clients h))
                    (hub_heard h))
        end
      else Some h
  | Take id t, b =>
      match hub_clients h !! id with
      | Some cl =>
          if closed (cl_conn cl) then None
          else '(e, ch) ← turn_event id t (hub_chan h);
               Some (mkHub b ch (<[id := client_turn e cl]> (hub_clients h)) (hub_heard h))
      | None => None
      end
  | _, _ => None
  end.

Fixpoint hub_run (acts : list HubAction) (h : Hub) : option Hub :=
  match acts with
  | [] => Some h
  | a :: acts => h' ← hub_step a h; hub_run acts h'
  end.

Definition hub_init : Hub := mkHub Down (chan_new BROADCAST_CAPACITY) ∅ [].

(** * The invariant *)

Context {BL : BroadcastLaws BC}.

(** The values sent between two positions. *)
Definition between (from until : nat) (log : list OiSnapshot) : list OiSnapshot :=
  take (until - from) (drop from log).

(** A connection: what it was handed is an ordered part of what was sent since
    it joined, the rest was counted as lagged, and the texts on its socket are
    those of the wanted snapshots among them. *)
Definition client_ok (ch : Chan) (id : nat) (cl : Client) : Prop :=
  (cl_from cl ≤ cl_next cl ≤ length (chan_log ch))%nat
  ∧ (closed (cl_conn cl) = false → chan_next ch id = Some (cl_next cl))
  ∧ cl_got cl `sublist_of` between (cl_from cl) (cl_next cl) (chan_log ch)
  ∧ lagged (cl_conn cl) = Z.of_nat (cl_next cl - cl_from cl) - Z.of_nat (length (cl_got cl))
  ∧ texts (cl_conn cl) = wanted_texts to_json (cl_filter cl) (cl_got cl)
  ∧ counter_ok (cl_conn cl).

Record hub_ok (h : Hub) : Prop := {
  hub_sent : chan_log (hub_chan h) = subscribe_stream (hub_heard h);
  hub_capacity : chan_cap (hub_chan h) = BROADCAST_CAPACITY;
  hub_fresh id : hub_clients h !! id = None → chan_next (hub_chan h) id = None;
  hub_client id cl : hub_clients h !! id = Some cl → client_ok (hub_chan h) id cl;
}.

Lemma subscribe_stream_snoc l p :
  subscribe_stream (l ++ [p]) = subscribe_stream l ++ option_list (result_ok (mp_decode p)).
Proof. apply (omap_snoc (λ b, result_ok (mp_decode b))). Qed.

Lemma between_grow from until log v :
  (until ≤ length log)%nat → between from until (log ++ [v]) = between from until log.
Proof.
  intros H. unfold between. destruct (decide (from ≤ length log)%nat) as [Hf|Hf].
  - rewrite drop_app_le by lia. apply take_app_le. rewrite length_drop. lia.
  - replace (until - from)%nat with 0%nat by lia. by rewrite !take_0.
Qed.

Lemma between_extend from n k log :
  (from ≤ n)%nat →
  between from (n + k) log = between from n log ++ between n (n + k) log.
Proof.
  intros H. unfold between. replace (n + k - from)%nat with ((n - from) + k)%nat by lia.
  replace (n + k - n)%nat with k by lia.
  rewrite <- take_take_drop, drop_drop. by replace (from + (n - from))%nat with n by lia.
Qed.

Lemma between_one n log v : log !! n = Some v → between n (n + 1) log = [v].
Proof.
  intros H. unfold between. replace (n + 1 - n)%nat with 1%nat by lia.
  by rewrite (drop_S log v n) by done.
Qed.

Lemma length_between from until log :
  (until ≤ length log)%nat → length (between from until log) = (until - from)%nat.
Proof. intros H. unfold between. rewrite length_take, length_drop. lia. Qed.

(** A connection is untouched by what others do with the channel. *)
Lemma client_ok_frame ch ch' id cl :
  (∃ l, chan_log ch' = chan_log ch ++ l ∧ (length l ≤ 1)%nat) →
  chan_next ch' id = chan_next ch id → client_ok ch id cl → client_ok ch' id cl.
Proof.
  intros (l & Hl & Hlen) Hn (H1 & H2 & H3 & H4). unfold client_ok. rewrite Hl, Hn, length_app.
  split; [lia|]. split; [done|]. split; [|done].
  destruct l as [|v [|]]; simpl in Hlen; [by rewrite app_nil_r| |lia].
  by rewrite between_grow by lia.
Qed.

Lemma send_log p ch :
  ∃ l, chan_log (forward p ch) = chan_log ch ++ l ∧ l = option_list (result_ok (mp_decode p))
  ∧ chan_cap (forward p ch) = chan_cap ch
  ∧ ∀ id, chan_next (forward p ch) id = chan_next ch id.
Proof.
  unfold forward. destruct (mp_decode p) as [s|]; simpl.
  - destruct (send_law s ch) as (H1 & H2 & H3). by exists [s].
  - exists []. by rewrite app_nil_r.
Qed.

(** A connection's turn: what the event did to the channel and what it says. *)
Lemma turn_event_spec id t ch e ch' n :
  turn_event id t ch = Some (e, ch') → chan_next ch id = Some n → (n ≤ length (chan_log ch))%nat →
  let m := (n + length (received [e]) + Z.to_nat (skipped_total [e]))%nat in
  chan_log ch' = chan_log ch ∧ chan_cap ch' = chan_cap ch
  ∧ (∀ id', id' ≠ id → chan_next ch' id' = chan_next ch id')
  ∧ chan_next ch' id = Some m ∧ (n ≤ m ≤ length (chan_log ch))%nat ∧ 0 ≤ skipped_total [e]
  ∧ received [e] `sublist_of` between n m (chan_log ch).
Proof.
  intros He Hn Hle. assert (Hstay : ∀ k, k = 0%nat → Some n = Some (n + k)%nat) by (intros; subst; f_equal; lia).
  destruct t as [m|f|send]; simpl in He.
  - injection He as <- <-. simpl. rewrite !Nat.add_0_r.
    repeat split; try done; try lia. apply sublist_nil_l.
  - injection He as <- <-. simpl. rewrite !Nat.add_0_r.
    repeat split; try done; try lia. apply sublist_nil_l.
  - destruct (chan_recv id ch) as [r c] eqn:Er.
    destruct (recv_law _ _ _ _ _ Er Hn) as (Hl & Hc & Ho & Hr).
    destruct r as [|v|k]; [done|..]; injection He as <- <-.
    + destruct Hr as [Hv Hnx]. pose proof (lookup_lt_Some _ _ _ Hv).
      change (skipped_total [_]) with 0. cbn [received omap list_omap length Z.to_nat].
      rewrite Nat.add_0_r. split; [done|]. split; [done|]. split; [done|].
      rewrite Hnx. split; [f_equal; lia|]. split; [lia|]. split; [lia|].
      by rewrite (between_one _ _ _ Hv).
    + destruct Hr as (Hk & _ & Hle' & Hnx).
      assert (skipped_total [Broadcast (Lagged k) send] = k) as -> by (unfold skipped_total; cbn; lia).
      cbn [received omap list_omap length]. rewrite Nat.add_0_r.
      split; [done|]. split; [done|]. split; [done|]. split; [done|].
      split; [lia|]. split; [lia|]. apply sublist_nil_l.
Qed.

Lemma wanted_texts_app f a b :
  wanted_texts to_json f (a ++ b) = wanted_texts to_json f a ++ wanted_texts to_json f b.
Proof. unfold wanted_texts. by rewrite filter_app, omap_app. Qed.

Lemma client_turn_ok ch id cl t e ch' :
  client_ok ch id cl → closed (cl_conn cl) = false → turn_event id t ch = Some (e, ch') →
  client_ok ch' id (client_turn e cl)
  ∧ chan_log ch' = chan_log ch ∧ chan_cap ch' = chan_cap ch
  ∧ (∀ id', id' ≠ id → chan_next ch' id' = chan_next ch id').
Proof.
  intros (Hb & Hn & Hg & Hlag & Ht & Hc) Hcl He. specialize (Hn Hcl).
  destruct (turn_event_spec _ _ _ _ _ _ He Hn) as (H1 & H2 & H3 & H4 & H5 & H6 & H7); [lia|].
  split; [|done].
  destruct (on_event_spec to_json (cl_filter cl) (cl_conn cl) e Hcl Hc) as (Hc' & Hcl' & Hend & Hgo).
  unfold client_turn. rewrite Hcl'. unfold client_ok. destruct (ends _ _ e) eqn:Ee; cbn [cl_from cl_next cl_got cl_conn cl_filter].
  - destruct (Hend eq_refl) as [-> ->]. rewrite H1, Hcl'.
    split; [lia|]. split; [done|]. split; [done|]. split; [done|]. split; [done|]. done.
  - destruct (Hgo eq_refl) as [-> ->]. rewrite H1.
    split; [lia|]. split; [done|]. split; [|split; [|split; [|done]]].
    + rewrite <- Nat.add_assoc, between_extend by lia. rewrite Nat.add_assoc.
      by apply sublist_app.
    + rewrite length_app. lia.
    + by rewrite wanted_texts_app, Ht.
Qed.

Lemma hub_ok_bus b h :
  hub_ok h → hub_ok (mkHub b (hub_chan h) (hub_clients h) (hub_heard h)).
Proof. by intros []. Qed.

Lemma hub_step_ok a h h' : hub_step a h = Some h' → hub_ok h → hub_ok h'.
Proof.
  intros Hs Hok. pose proof Hok as [Hl Hcap Hf Hc].
  destruct a as [| |p| | |id tok ins|id t]; simpl in Hs;
    [destruct (hub_bus h); [injection Hs as <-; by apply hub_ok_bus|done]
    |destruct (hub_bus h); [by injection Hs as <-|done]
    |destruct (hub_bus h); [done|injection Hs as <-; by apply hub_ok_bus]
    | |destruct (hub_bus h); [done|injection Hs as <-; by apply hub_ok_bus] | |].
  - destruct (hub_bus h) as [|[|p q]]; try done. injection Hs as <-.
    destruct (send_log p (hub_chan h)) as (l & H1 & El & H2 & H3).
    split; simpl; [by rewrite H1, Hl, El, subscribe_stream_snoc|by rewrite H2| |].
    + intros id Hid. rewrite H3. by apply Hf.
    + intros id cl Hid. eapply client_ok_frame; [|by apply H3|by apply Hc].
      exists l. split; [done|]. rewrite El. destruct (result_ok (mp_decode p)); simpl; lia.
  - destruct (ws_auth auth tok); [|by injection Hs as <-].
    destruct (hub_clients h !! id) eqn:Ei; [done|]. injection Hs as <-.
    destruct (subscribe_law _ _ (Hf id Ei)) as (H1 & H2 & H3 & H4).
    split; simpl; [by rewrite H1|by rewrite H2| |].
    + intros id' Hid'. apply lookup_insert_None in Hid' as [Hid' Hne].
      rewrite H4 by done. by apply Hf.
    + intros id' cl Hid'. apply lookup_insert_Some in Hid' as [[<- <-]|[Hne Hid']].
      * unfold client_ok. cbn. rewrite H1, Hl, H3, Hl.
        split; [lia|]. split; [done|]. split; [apply sublist_nil_l|]. by rewrite Nat.sub_diag.
      * eapply client_ok_frame; [|by apply H4|by apply Hc].
        exists []. rewrite app_nil_r. split; [done|simpl; lia].
  - destruct (hub_clients h !! id) as [cl|] eqn:Ei; [|done].
    destruct (closed (cl_conn cl)) eqn:Ecl; [done|].
    destruct (turn_event id t (hub_chan h)) as [[e ch]|] eqn:Ee; [|done]. injection Hs as <-.
    destruct (client_turn_ok _ _ _ _ _ _ (Hc _ _ Ei) Ecl Ee) as (Hcl & H1 & H2 & H3).
    split; simpl; [by rewrite H1|by rewrite H2| |].
    + intros id' Hid'. apply lookup_insert_None in Hid' as [Hid' Hne].
      rewrite H3 by done. by apply Hf.
    + intros id' cl' Hid'. apply lookup_insert_Some in Hid' as [[<- <-]|[Hne Hid']]; [done|].
      eapply client_ok_frame; [|by apply H3|by apply Hc].
      exists []. rewrite app_nil_r. split; [done|simpl; lia].
Qed.

Lemma hub_run_ok acts h h' : hub_run acts h = Some h' → hub_ok h → hub_ok h'.
Proof.
  revert h. induction acts as [|a acts IH]; intros h Hr Hok; simpl in Hr; [by injection Hr as <-|].
  destruct (hub_step a h) as [h1|] eqn:E; [|done]. eapply IH; [done|]. by eapply hub_step_ok.
Qed.

Lemma hub_init_ok : hub_ok hub_init.
Proof.
  destruct (new_law BROADCAST_CAPACITY) as (H1 & H2 & H3).
  split; simpl; [done|done|by intros|by intros id cl ?%lookup_empty_Some].
Qed.

(** * Delivery *)

Lemma sublist_full {A} (l1 l2 : list A) : l1 `sublist_of` l2 → length l1 = length l2 → l1 = l2.
Proof.
  induction 1 as [|x l1 l2 _ IH|x l1 l2 Hs IH]; simpl; intros Hlen; [done| |].
  - f_equal. apply IH. lia.
  - apply sublist_length in Hs. lia.
Qed.

Lemma delivered_run q q0 acts ch cls heard :
  hub_run ((Delivered <$> q) ++ acts) (mkHub (Up q0) ch cls heard)
  = hub_run acts (mkHub (Up (q0 ++ q)) ch cls heard).
Proof.
  revert q0. induction q as [|p q IH]; intros q0; [by rewrite app_nil_r|].
  simpl. rewrite IH. by rewrite <- app_assoc.
Qed.

Lemma forward_run q ch cls heard acts :
  hub_run (replicate (length q) Forward ++ acts) (mkHub (Up q) ch cls heard)
  = hub_run acts (mkHub (Up []) (foldl (flip forward) ch q) cls (heard ++ q)).
Proof.
  revert ch heard. induction q as [|p q IH]; intros ch heard; [by rewrite app_nil_r|].
  simpl. rewrite IH. by rewrite <- app_assoc.
Qed.

(** A connection that is behind by no more than the capacity reads the next value. *)
Lemma recv_next h id cl :
  hub_ok h → hub_clients h !! id = Some cl → closed (cl_conn cl) = false →
  (cl_next cl < length (chan_log (hub_chan h)))%nat →
  Z.of_nat (length (chan_log (hub_chan h))) - Z.of_nat (cl_next cl) ≤ BROADCAST_CAPACITY →
  ∃ v h' cl', hub_step (Take id (Recv Flushed)) h = Some h'
    ∧ chan_log (hub_chan h) !! cl_next cl = Some v
    ∧ chan_log (hub_chan h') = chan_log (hub_chan h)
    ∧ hub_clients h' !! id = Some cl'
    ∧ cl_filter cl' = cl_filter cl ∧ closed (cl_conn cl') = false
    ∧ cl_next cl' = S (cl_next cl)
    ∧ texts (cl_conn cl') = texts (cl_conn cl) ++ wanted_texts to_json (cl_filter cl) [v].
Proof.
  intros Hok Hid Hcl Hlt Hcap. destruct (hub_client _ Hok _ _ Hid) as (_ & Hn & _ & _ & _ & Hc).
  specialize (Hn Hcl). destruct (chan_recv id (hub_chan h)) as [r ch'] eqn:Er.
  destruct (recv_law _ _ _ _ _ Er Hn) as (Hl & _ & _ & Hr). rewrite (hub_capacity _ Hok) in Hr.
  destruct r as [|v|k]; [lia| |lia]. destruct Hr as [Hv _].
  set (e := Broadcast (Received v) Flushed).
  destruct (on_event_spec to_json (cl_filter cl) (cl_conn cl) e Hcl Hc) as (_ & Hcl' & _ & Hgo).
  assert (Ee : ends to_json (cl_filter cl) e = false) by (simpl; by rewrite andb_false_r).
  rewrite Ee in Hcl'. destruct (Hgo Ee) as [Ht _].
  exists v. eexists _, (client_turn e cl). simpl. rewrite Hid, Hcl, Er. simpl.
  split; [done|]. split; [done|]. split; [done|]. split; [apply lookup_insert_eq|].
  unfold client_turn. rewrite Hcl'. cbn [cl_filter cl_conn cl_next].
  split; [done|]. split; [done|]. split; [|by rewrite Ht].
  change (skipped_total [e]) with 0. cbn. lia.
Qed.

Lemma recv_run k h id cl :
  hub_ok h → hub_clients h !! id = Some cl → closed (cl_conn cl) = false →
  (cl_next cl + k)%nat = length (chan_log (hub_chan h)) → Z.of_nat k ≤ BROADCAST_CAPACITY →
  ∃ h' cl', hub_run (replicate k (Take id (Recv Flushed))) h = Some h'
    ∧ hub_clients h' !! id = Some cl' ∧ closed (cl_conn cl') = false
    ∧ texts (cl_conn cl') = texts (cl_conn cl)
        ++ wanted_texts to_json (cl_filter cl) (drop (cl_next cl) (chan_log (hub_chan h))).
Proof.
  revert h cl. induction k as [|k IH]; intros h cl Hok Hid Hcl Hk Hcap.
  { exists h, cl. simpl. rewrite drop_ge by lia. unfold wanted_texts. simpl.
    by rewrite app_nil_r. }
  destruct (recv_next h id cl Hok Hid Hcl) as (v & h1 & cl1 & Hs & Hv & Hl & Hid1 & Hf & Hcl1 & Hn & Ht);
    [lia..|].
  destruct (IH h1 cl1) as (h' & cl' & Hr & Hid' & Hcl' & Ht');
    [by eapply hub_step_ok|done|done|rewrite Hl; lia|lia|].
  exists h', cl'. cbn [replicate hub_run]. rewrite Hs. split; [done|]. split; [done|]. split; [done|].
  rewrite Ht', Ht, Hf, Hl, Hn, (drop_S _ _ _ Hv), <- app_assoc, <- wanted_texts_app. done.
Qed.

(** C20. Every browser gets its part of the stream.  In any interleaving of the
    Redis subscription (with its failures and reconnects), the messages, the
    upgrades and the connections' turns: what a connection was handed is, in
    order and without repetition, part of the bars the process read from Redis
    between its joining and its position, and everything of it when the lag
    counter is zero; the counter is exactly the number skipped; the texts on
    the socket are those of the wanted bars among them; a turn of one connection
    changes neither the stream nor any other connection; and an upgrade whose
    token is refused changes nothing. *)
Theorem every_browser_served acts h :
  hub_run acts hub_init = Some h →
  (∀ id cl, hub_clients h !! id = Some cl →
     let part := between (cl_from cl) (cl_next cl) (subscribe_stream (hub_heard h)) in
     cl_got cl `sublist_of` part
     ∧ (lagged (cl_conn cl) = 0 → cl_got cl = part)
     ∧ lagged (cl_conn cl) + Z.of_nat (length (cl_got cl)) = Z.of_nat (length part)
     ∧ texts (cl_conn cl) = wanted_texts to_json (cl_filter cl) (cl_got cl))
  ∧ (∀ id t h', hub_step (Take id t) h = Some h' →
       hub_heard h' = hub_heard h ∧ hub_bus h' = hub_bus h
       ∧ chan_log (hub_chan h') = chan_log (hub_chan h)
       ∧ ∀ id', id' ≠ id → hub_clients h' !! id' = hub_clients h !! id')
  ∧ (∀ id token instruments, ws_auth auth token = false →
       hub_step (Join id token instruments) h = Some h).
Proof.
  intros Hr. pose proof (hub_run_ok _ _ _ Hr hub_init_ok) as Hok. split; [|split].
  - intros id cl Hid. destruct (hub_client _ Hok _ _ Hid) as (Hb & _ & Hg & Hl & Ht & _).
    rewrite (hub_sent _ Hok) in Hb, Hg.
    pose proof (length_between (cl_from cl) (cl_next cl) _ (proj2 Hb)) as Hlen.
    split; [done|]. split; [|split; [rewrite Hlen; lia|done]].
    intros H0. apply sublist_full; [done|]. rewrite Hlen. lia.
  - intros id t h' Hs. simpl in Hs. destruct (hub_clients h !! id) as [cl|] eqn:Ei; [|done].
    destruct (closed (cl_conn cl)) eqn:Ecl; [done|].
    destruct (turn_event id t (hub_chan h)) as [[e ch]|] eqn:Ee; [|done]. injection Hs as <-.
    destruct (client_turn_ok _ _ _ _ _ _ (hub_client _ Hok _ _ Ei) Ecl Ee) as (_ & H1 & _).
    split; [done|]. split; [done|]. split; [done|]. intros id' Hne. by apply lookup_insert_ne.
  - intros id token ins Ha. simpl. by rewrite Ha.
Qed.

(** Payloads that Redis hands to a hub whose connection [id] has read everything
    so far and has room in the ring reach that connection. *)
Lemma payloads_reach_browser acts h id cl q :
  hub_run acts hub_init = Some h → hub_bus h = Up [] →
  hub_clients h !! id = Some cl → closed (cl_conn cl) = false →
  cl_next cl = length (subscribe_stream (hub_heard h)) →
  Z.of_nat (length (subscribe_stream q)) ≤ BROADCAST_CAPACITY →
  ∃ h' cl', hub_run ((Delivered <$> q) ++ replicate (length q) Forward
         ++ replicate (length (subscribe_stream q)) (Take id (Recv Flushed))) h = Some h'
    ∧ hub_clients h' !! id = Some cl' ∧ closed (cl_conn cl') = false
    ∧ texts (cl_conn cl')
      = texts (cl_conn cl) ++ wanted_texts to_json (cl_filter cl) (subscribe_stream q).
Proof.
  intros Hr Hbus Hid Hcl Hnext Hcap. pose proof (hub_run_ok _ _ _ Hr hub_init_ok) as Hok.
  set (h1 := mkHub (Up []) (foldl (flip forward) (hub_chan h) q) (hub_clients h) (hub_heard h ++ q)).
  assert (Hpre : ∀ rest, hub_run ((Delivered <$> q) ++ replicate (length q) Forward ++ rest) h
                         = hub_run rest h1).
  { intros rest. destruct h as [b ch cls heard]. simpl in Hbus. subst b.
    by rewrite delivered_run, forward_run. }
  assert (Hok1 : hub_ok h1).
  { eapply (hub_run_ok ((Delivered <$> q) ++ replicate (length q) Forward ++ [])); [|exact Hok].
    by rewrite Hpre. }
  assert (Hlog : chan_log (hub_chan h1) = subscribe_stream (hub_heard h) ++ subscribe_stream q).
  { rewrite (hub_sent _ Hok1). simpl. apply omap_app. }
  destruct (recv_run (length (subscribe_stream q)) h1 id cl Hok1 Hid Hcl)
    as (h' & cl' & Hrun & Hid' & Hcl' & Ht); [rewrite Hlog, length_app; lia|done|].
  exists h', cl'. split; [by rewrite Hpre|]. split; [done|]. split; [done|].
  rewrite Ht, Hlog, Hnext. by rewrite drop_app_length.
Qed.

Context {CL : CodecLaws SC} {W : Type} (conn : RedisConn W) (view : W → gmap string (list Z))
        (sent : W → list (string * list Z)) {RL : RedisLaws conn view sent}.

(** From the collector to the browser.  When a publication of the collector
    succeeds and Redis hands its messages to a hub whose connection has read
    everything so far and has room in the ring, the subscriber forwards them and
    the connection's turns put exactly the texts of the wanted bars of the batch
    on the socket, in order. *)
Theorem published_bars_reach_browser acts h id cl snaps w w' :
  hub_run acts hub_init = Some h → hub_bus h = Up [] →
  hub_clients h !! id = Some cl → closed (cl_conn cl) = false →
  cl_next cl = length (subscribe_stream (hub_heard h)) →
  Z.of_nat (length snaps) ≤ BROADCAST_CAPACITY →
  publish conn snaps w = (Ok tt, w') →
  ∃ msgs h' cl', sent w' = sent w ++ msgs
    ∧ hub_run ((Delivered <$> on_channel FIREHOSE_CHANNEL msgs)
         ++ replicate (length (on_channel FIREHOSE_CHANNEL msgs)) Forward
         ++ replicate (length snaps) (Take id (Recv Flushed))) h = Some h'
    ∧ hub_clients h' !! id = Some cl' ∧ closed (cl_conn cl') = false
    ∧ texts (cl_conn cl') = texts (cl_conn cl) ++ wanted_texts to_json (cl_filter cl) snaps.
Proof.
  intros Hr Hbus Hid Hcl Hnext Hcap Hpub.
  destruct (publish_sent conn view sent _ _ _ Hpub) as (_ & msgs & Hsent & <- & _).
  destruct (payloads_reach_browser acts h id cl (on_channel FIREHOSE_CHANNEL msgs) Hr Hbus Hid Hcl
    Hnext Hcap) as (h' & cl' & H). by exists msgs, h', cl'.
Qed.
End hub.

(** * A ring, and concrete runs *)

(** Each receiver with the number of values it has not read. *)
Record Ring (T : Type) := mkRing { rg_cap : Z; rg_log : list T; rg_unread : gmap nat nat }.
Arguments mkRing {T}.
Arguments rg_cap {T}.
Arguments rg_log {T}.
Arguments rg_unread {T}.

Definition ring_recv {T} (id : nat) (r : Ring T) : RecvResult T * Ring T :=
  match rg_unread r !! id with
  | None => (Pending, r)
  | Some u =>
      let unread := Nat.min u (length (rg_log r)) in
      let room := Z.to_nat (rg_cap r) in
      let with_unread k := mkRing (rg_cap r) (rg_log r) (<[id := k]> (rg_unread r)) in
      if (room <? unread)%nat then (Lag (Z.of_nat (unread - room)), with_unread room)
      else match rg_log r !! (length (rg_log r) - unread)%nat with
           | Some v => (Got v, with_unread (pred unread))
           | None => (Pending, r)
           end
  end.

#[export] Instance ring_chan (T : Type) : BroadcastChan T := {|
  Chan := Ring T;
  chan_new cap := mkRing cap [] ∅;
  chan_send v r := mkRing (rg_cap r) (rg_log r ++ [v]) (S <$> rg_unread r);
  chan_subscribe id r := mkRing (rg_cap r) (rg_log r) (<[id := 0%nat]> (rg_unread r));
  chan_recv := ring_recv;
|}.

#[export] Instance ring_laws (T : Type) : BroadcastLaws (ring_chan T).
Proof.
  refine {| chan_log := rg_log; chan_cap := rg_cap;
            chan_next r id := (λ u, length (rg_log r) - u)%nat <$> rg_unread r !! id |}; simpl.
  - intros cap. split; [done|]. split; [done|]. intros id. by rewrite lookup_empty.
  - intros v r. split; [done|]. split; [done|]. intros id. rewrite lookup_fmap, length_app. simpl.
    destruct (rg_unread r !! id); simpl; [f_equal; lia|done].
  - intros id r _. split; [done|]. split; [done|]. rewrite lookup_insert_eq. simpl.
    split; [f_equal; lia|]. intros id' Hne. by rewrite lookup_insert_ne by done.
  - intros id r x r' n Hr Hn. unfold ring_recv in Hr.
    destruct (rg_unread r !! id) as [u|] eqn:Eu; [|done]. simpl in Hn. injection Hn as <-.
    set (unread := Nat.min u (length (rg_log r))) in Hr.
    assert (Hu : (length (rg_log r) - u = length (rg_log r) - unread)%nat) by lia.
    assert (unread ≤ length (rg_log r))%nat by lia. rewrite Hu. clearbody unread. clear Hu.
    destruct (Nat.ltb_spec (Z.to_nat (rg_cap r)) unread) as [Hlt|Hge].
    + injection Hr as <- <-. simpl. split; [done|]. split; [done|].
      split; [intros id' Hne; by rewrite lookup_insert_ne by done|].
      rewrite lookup_insert_eq. simpl. split; [lia|]. split; [lia|]. split; [lia|]. f_equal. lia.
    + destruct (rg_log r !! _) as [v|] eqn:Ev; injection Hr as <- <-.
      * pose proof (lookup_lt_Some _ _ _ Ev). simpl. split; [done|]. split; [done|].
        split; [intros id' Hne; by rewrite lookup_insert_ne by done|].
        rewrite lookup_insert_eq. simpl. split; [done|]. f_equal. lia.
      * apply lookup_ge_None in Ev. simpl. repeat split; try done. lia.
Defined.

Definition ex_text (s : OiSnapshot (DL := z_decimal) (TL := z_time)) : option string :=
  Some (int_to_string (native_close s)).
(** One browser that wants another instrument and leaves, one that wants all. *)
Definition ex_hub_acts : list HubAction :=
  [SubscribeFailed; Subscribed; Join 1 None "binance:X"; Join 2 None ""; Delivered [0]; Delivered [9];
   Forward; Forward; Take 2 (Recv Flushed); Delivered [1]; Take 1 (ReadFrame CClose); Forward;
   Take 2 (Beat Flushed); Take 2 (Recv Flushed)].
Definition ex_hub_init : Hub (BC := ring_chan _) := hub_init.
Definition ex_hub (acts : list HubAction) : Hub (BC := ring_chan _) :=
  default ex_hub_init (hub_run (SC := Repository.ex_codec) ex_text None acts ex_hub_init).
Definition ex_texts (h : Hub (BC := ring_chan _)) (id : nat) : option (list string) :=
  (λ cl, texts (cl_conn cl)) <$> hub_clients h !! id.

Lemma ex_hub_run acts :
  bool_decide (is_Some (hub_run (SC := Repository.ex_codec) ex_text None acts ex_hub_init)) = true →
  hub_run (SC := Repository.ex_codec) ex_text None acts hub_init = Some (ex_hub acts).
Proof. intros [x Hx]%bool_decide_eq_true. unfold ex_hub. by rewrite Hx. Qed.

Lemma every_browser_served_witness :
  ex_texts (ex_hub ex_hub_acts) 2 = Some ["1"; "2"]%string
  ∧ ex_texts (ex_hub ex_hub_acts) 1 = Some []
  ∧ ∀ id cl, hub_clients (ex_hub ex_hub_acts) !! id = Some cl →
      texts (cl_conn cl) = wanted_texts ex_text (cl_filter cl) (cl_got cl).
Proof.
  split; [vm_compute; reflexivity|]. split; [vm_compute; reflexivity|].
  intros id cl Hid.
  destruct (every_browser_served (SC := Repository.ex_codec) ex_text None ex_hub_acts
              (ex_hub ex_hub_acts) (ex_hub_run ex_hub_acts ltac:(vm_compute; reflexivity))) as (H & _).
  exact (proj2 (proj2 (proj2 (H id cl Hid)))).
Defined.

Definition ex_client : Client := mkClient ∅ conn_new 0 0 [].

Lemma published_bars_reach_browser_witness :
  let h := ex_hub [Subscribed; Join 2 None ""] in
  ∃ acts h', hub_run (SC := Repository.ex_codec) ex_text None acts h = Some h'
    ∧ ex_texts h' 2 = Some ["1"; "2"]%string.
Proof.
  destruct (published_bars_reach_browser (SC := Repository.ex_codec) ex_text None ex_conn st_view st_sent
              [Subscribed; Join 2 None ""] (ex_hub [Subscribed; Join 2 None ""]) 2 ex_client
              [Repository.ex_bar 1; Repository.ex_bar 2] (ex_world true) _
              (ex_hub_run [Subscribed; Join 2 None ""] ltac:(vm_compute; reflexivity)) eq_refl eq_refl eq_refl eq_refl
              ltac:(by vm_compute) eq_refl) as (msgs & h' & cl' & _ & Hr & Hid & _ & Ht).
  eexists _, h'. split; [exact Hr|]. unfold ex_texts. rewrite Hid. simpl. rewrite Ht.
  reflexivity.
Defined.
