(* ===== verification/Server.v ===== *)
(** The API server as a whole: the routes of [rest::router] and [ws::router],
    the bearer layer around them and the endpoints that [run_async] of
    [oi-api/src/server.rs] starts from its configuration.  axum's matcher is
    modelled as far as the route table uses it: literal segments, [:param]
    segments that match one non-empty piece, one method per route; decoding the
    percent escapes of a parameter is axum's. *)

From Stdlib Require Import ZArith Lia String Ascii.
From stdpp Require Import base option list strings.
From S2P Require Import Prelude Domain Config Repository ApiAuth ApiRest ApiWs Schema.
Open Scope Z_scope.
Open Scope oi_scope.

(** * Routes *)

Inductive Method := GET | HEAD | POST | OtherMethod.

Inductive Handler :=
| Health | HealthLive | HealthReady
| OiLatest | OiRange | FundingLatest | FundingRange | FundingEventLatest | FundingEventRange
| OiRangeBatch | FundingRangeBatch | FundingEventRangeBatch
| SystemMetricsRoute
| WsSubscribeRoute.

(** A piece of a route: literal text, or a parameter. *)
Inductive Seg := Lit (s : string) | Param.
Record Route := mkRoute { rt_method : Method; rt_pattern : list Seg; rt_handler : Handler }.

Definition api_routes : list Route :=
  let v1 := Lit "v1" in let by_instrument := [Param; Param] in
  [mkRoute GET [Lit "health"] Health;
   mkRoute GET [Lit "health"; Lit "live"] HealthLive;
   mkRoute GET [Lit "health"; Lit "ready"] HealthReady;
   mkRoute GET ([v1; Lit "oi"; Lit "latest"] ++ by_instrument) OiLatest;
   mkRoute GET ([v1; Lit "oi"; Lit "range"] ++ by_instrument) OiRange;
   mkRoute GET ([v1; Lit "funding"; Lit "latest"] ++ by_instrument) FundingLatest;
   mkRoute GET ([v1; Lit "funding"; Lit "range"] ++ by_instrument) FundingRange;
   mkRoute GET ([v1; Lit "funding"; Lit "events"; Lit "latest"] ++ by_instrument) FundingEventLatest;
   mkRoute GET ([v1; Lit "funding"; Lit "events"; Lit "range"] ++ by_instrument) FundingEventRange;
   mkRoute POST [v1; Lit "oi"; Lit "range"; Lit "batch"] OiRangeBatch;
   mkRoute POST [v1; Lit "funding"; Lit "range"; Lit "batch"] FundingRangeBatch;
   mkRoute POST [v1; Lit "funding"; Lit "events"; Lit "range"; Lit "batch"] FundingEventRangeBatch;
   mkRoute GET [v1; Lit "system"; Lit "metrics"] SystemMetricsRoute].
Definition ws_routes : list Route :=
  [mkRoute GET [Lit "ws"; Lit "v1"; Lit "oi"; Lit "subscribe"] WsSubscribeRoute].

(** The parameters of a path that matches. *)
Fixpoint match_pattern (pattern : list Seg) (segments : list string) : option (list string) :=
  match pattern, segments with
  | [], [] => Some []
  | Lit s :: pattern, x :: segments => if String.eqb s x then match_pattern pattern segments else None
  | Param :: pattern, x :: segments =>
      if String.eqb EmptyString x then None else cons x <$> match_pattern pattern segments
  | _, _ => None
  end.
Fixpoint find_route (routes : list Route) (segments : list string) : option (Route * list string) :=
  match routes with
  | [] => None
  | r :: routes =>
      match match_pattern (rt_pattern r) segments with
      | Some params => Some (r, params)
      | None => find_route routes segments
      end
  end.

Inductive Routed := NotFound | MethodNotAllowed | To (h : Handler) (params : list string).

(** A [get] route answers HEAD as well. *)
Definition method_ok (m allowed : Method) : bool :=
  match m, allowed with GET, GET | HEAD, GET | POST, POST => true | _, _ => false end.

Definition route (m : Method) (path : string) : Routed :=
  match split_on "/" path with
  | EmptyString :: segments =>
      match find_route (api_routes ++ ws_routes) segments with
      | Some (r, params) =>
          if method_ok m (rt_method r) then To (rt_handler r) params else MethodNotAllowed
      | None => NotFound
      end
  | _ => NotFound
  end.

(** * A request *)

Record HttpRequest := mkRequest {
  rq_method : Method; rq_path : string; rq_header : option string; rq_token : option string }.

Inductive Answer := Unauthorized | Routed_ (r : Routed).

(** The merged router inside the bearer layer; the subscribe handler looks at
    its own query parameter first. The request is one whose extractors succeed:
    a query or a body that cannot be read, or a subscribe request that is not an
    upgrade (a HEAD request never is), is rejected by axum with an error status
    before the handler runs, and that rejection is not modelled. *)
Definition http_answer (auth : AuthCfg) (rq : HttpRequest) : Answer :=
  let admitted :=
    if auth_enabled auth then rest_auth_middleware (auth_tokens auth) (rq_path rq) (rq_header rq)
    else Forwarded in
  match admitted with
  | Unauthenticated => Unauthorized
  | Forwarded =>
      match route (rq_method rq) (rq_path rq) with
      | To WsSubscribeRoute params =>
          if ws_auth (if auth_enabled auth then Some (auth_tokens auth) else None) (rq_token rq)
          then Routed_ (To WsSubscribeRoute params) else Unauthorized
      | r => Routed_ r
      end
  end.

(** * Start-up *)

Record ApiEnv := mkApiEnv {
  env_config : result string ApiConfig;
  env_redis : result string unit;
  env_addr : string → result string unit;   (* [SocketAddr::from_str] *)
  env_pem : string → result string unit;    (* reading and parsing a PEM file *)
  env_bind : string → result string unit }. (* listening *)

Record Endpoint := mkEndpoint { ep_addr : string; ep_tls : option (string * string); ep_auth : option AuthState }.
(** The two server tasks; a task that cannot start ends with its error, and the
    first task to end ends the process. *)
Record Running := mkRunning {
  run_grpc : result string Endpoint; run_rest : result string Endpoint; run_ws : option AuthState }.

Definition auth_of (cfg : ApiConfig) : option AuthState :=
  if auth_enabled (api_auth cfg) then Some (auth_tokens (api_auth cfg)) else None.
Definition tls_identity (env : ApiEnv) (cfg : ApiConfig) : result string (option (string * string)) :=
  let t := api_tls cfg in
  if tls_enabled t then
    let? _ := env_pem env (tls_cert_path t) in
    let? _ := env_pem env (tls_key_path t) in
    Ok (Some (tls_cert_path t, tls_key_path t))
  else Ok None.
(** Both tasks build the endpoint in the same way. *)
Definition serve_task (env : ApiEnv) (cfg : ApiConfig) (addr : string) : result string Endpoint :=
  let? identity := tls_identity env cfg in
  let? _ := env_bind env addr in
  Ok (mkEndpoint addr identity (auth_of cfg)).

Definition api_run (env : ApiEnv) : result string Running :=
  let? cfg := env_config env in
  let? _ := env_redis env in
  let? _ := env_addr env (api_grpc_addr cfg) in
  let? _ := env_addr env (api_rest_addr cfg) in
  Ok (mkRunning (serve_task env cfg (api_grpc_addr cfg)) (serve_task env cfg (api_rest_addr cfg))
        (auth_of cfg)).

(** * Readiness *)

(** The [ready] handler of the running server: it asks both stores. *)
Definition ready_handler {W} (execute : string → SE W string unit) (ping : SE W string string)
  (w : W) : bool * (string * string) * W :=
  let '(clickhouse, w) := ch_probe execute w in
  let '(redis, w) := redis_probe ping w in
  (ready (Some clickhouse) (Some redis), w).

(** 200 exactly when ClickHouse executed the probe's statement and Redis said
    PONG; a store that answered is reported as ok, and one that did not never. *)
Lemma ready_spec {W} (execute : string → SE W string unit) (ping : SE W string string) w :
  let '(c, w1) := execute "SELECT 1" w in
  let '(p, w2) := ping w1 in
  let '(status, report, w') := ready_handler execute ping w in
  w' = w2 ∧ (status = true ↔ c = Ok tt ∧ p = Ok "PONG"%string)
  ∧ (c = Ok tt ↔ report.1 = "ok"%string) ∧ (p = Ok "PONG"%string ↔ report.2 = "ok"%string).
Proof.
  unfold ready_handler, ch_probe, redis_probe, se_map_err, mbind, se_bind.
  destruct (execute "SELECT 1" w) as [[[]|e] w1]; destruct (ping w1) as [[pong|e'] w2]; simpl;
    try destruct (String.eqb_spec pong "PONG") as [->|Hne]; simpl; naive_solver.
Qed.

(** * What the server guards *)

(** The handlers that give away data, and where each looks for the token. *)
Definition serves_data (h : Handler) : bool :=
  match h with Health | HealthLive | HealthReady => false | _ => true end.
Definition shows_token (rq : HttpRequest) (h : Handler) (t : string) : Prop :=
  match h with
  | WsSubscribeRoute => rq_token rq = Some t
  | _ => rq_header rq = Some (String.append "Bearer " t)
  end.

Lemma split_on_two c s p q rest :
  split_on c s = p :: q :: rest → ∃ s', s = p +:+ String c s' ∧ split_on c s' = q :: rest.
Proof.
  revert p. induction s as [|x s IH]; intros p H; simpl in H; [done|].
  destruct (Ascii.eqb_spec x c) as [->|_].
  - injection H as <- H. by exists s.
  - destruct (split_on c s) as [|p1 ps] eqn:E; [done|]. injection H as <- H. subst ps.
    destruct (IH p1 eq_refl) as (s' & -> & Hs). by exists s'.
Qed.

Lemma split_on_some c s : split_on c s ≠ [].
Proof. destruct s as [|x s]; simpl; [done|]. by destruct (Ascii.eqb x c), (split_on c s). Qed.

Lemma split_on_one c s p : split_on c s = [p] → s = p.
Proof.
  revert p. induction s as [|x s IH]; intros p H; simpl in H; [by injection H as <-|].
  destruct (Ascii.eqb x c).
  - injection H as _ H. by apply split_on_some in H.
  - destruct (split_on c s) as [|p1 ps] eqn:E; [by apply split_on_some in E|].
    injection H as <- ->. by rewrite (IH p1).
Qed.

Lemma path_prefix path a b rest :
  split_on "/" path = EmptyString :: a :: b :: rest → ∃ s, path = "/" +:+ a +:+ String "/" s.
Proof.
  intros H. apply split_on_two in H as (s1 & -> & H). apply split_on_two in H as (s2 & -> & _).
  by exists s2.
Qed.

Lemma find_route_elem routes segments r params :
  find_route routes segments = Some (r, params) →
  r ∈ routes ∧ match_pattern (rt_pattern r) segments = Some params.
Proof.
  induction routes as [|r0 routes IH]; simpl; [done|].
  destruct (match_pattern (rt_pattern r0) segments) as [ps|] eqn:E.
  - intros [= <- <-]. split; [left|done].
  - intros H. destruct (IH H). split; [by right|done].
Qed.

(** Where the routes of the table lie. *)
Definition route_head (r : Route) : bool :=
  match rt_pattern r, rt_handler r with
  | [Lit a], Health => String.eqb a "health"
  | Lit a :: _ :: _, (HealthLive | HealthReady) => String.eqb a "health"
  | Lit a :: _ :: _, WsSubscribeRoute => String.eqb a "ws"
  | Lit a :: _ :: _, Health => false
  | Lit a :: _ :: _, _ => String.eqb a "v1"
  | _, _ => false
  end.
Lemma all_heads : Forall (λ r, route_head r = true) (api_routes ++ ws_routes).
Proof. refine (bool_decide_unpack _ _). vm_compute. exact I. Qed.

(** The bearer layer lets the probes and the upgrade pass, and no data route. *)
Lemma routed_public m path h params :
  route m path = To h params →
  is_public_path path = match h with
                        | Health | HealthLive | HealthReady | WsSubscribeRoute => true
                        | _ => false
                        end.
Proof.
  unfold route. destruct (split_on "/" path) as [|[|] segments] eqn:Es; [done| |done].
  destruct (find_route _ segments) as [[r ps]|] eqn:E; [|done].
  destruct (method_ok m (rt_method r)); [|done]. intros [= <- <-].
  apply find_route_elem in E as [Hin Hm].
  pose proof (proj1 (Forall_forall _ _) all_heads r Hin) as Hh. unfold route_head in Hh.
  destruct r as [rm pat hd]. cbn [rt_pattern rt_handler] in *.
  destruct pat as [|[a|] [|seg pat]]; try done.
  - destruct hd; try done. apply String.eqb_eq in Hh as ->.
    destruct segments as [|x [|y segments]]; cbn [match_pattern] in Hm; [done| |].
    + destruct (String.eqb_spec "health" x) as [<-|]; [|done].
      apply split_on_two in Es as (s' & -> & Es). by apply split_on_one in Es as ->.
    + by destruct (String.eqb "health" x).
  - destruct segments as [|x [|y segments]]; cbn [match_pattern] in Hm; [done| |].
    { destruct (String.eqb a x); [|done]. by destruct seg. }
    destruct (String.eqb_spec a x) as [<-|]; [|done]. apply path_prefix in Es as [s ->].
    destruct hd; try done; apply String.eqb_eq in Hh as ->; by destruct s.
Qed.

(** The check a handler's request has to pass. *)
Definition guard (tokens : AuthState) (rq : HttpRequest) (h : Handler) : bool :=
  match h with
  | Health | HealthLive | HealthReady => true
  | WsSubscribeRoute => ws_auth (Some tokens) (rq_token rq)
  | _ => match extract_bearer (rq_header rq) with Some t => accepts tokens t | None => false end
  end.

Lemma guard_spec tokens rq h :
  guard tokens rq h = true ↔
  serves_data h = false ∨ ∃ t, t ∈ tokens ∧ shows_token rq h t.
Proof.
  pose proof (bearer_accepted tokens (rq_header rq)) as Hb.
  assert (Hd : ∀ P : Prop, (true = false ∨ P) ↔ P) by (intros P; split; [by intros [|]|by right]).
  destruct h; cbn [guard serves_data shows_token]; try (split; [by left|done]);
    rewrite Hd; try (rewrite Hb; split; intros (t & ? & ?); by exists t).
  destruct (rq_token rq) as [x|]; cbn [ws_auth].
  - rewrite accepts_spec. split; [by exists x|]. intros (t & Ht & [= ->]). done.
  - split; [done|]. by intros (t & _ & ?).
Qed.

Lemma answer_guard auth rq h params :
  auth_enabled auth = true → route (rq_method rq) (rq_path rq) = To h params →
  http_answer auth rq
  = if guard (auth_tokens auth) rq h then Routed_ (To h params) else Unauthorized.
Proof.
  intros Ha Hr. unfold http_answer, rest_auth_middleware. rewrite Ha, (routed_public _ _ _ _ Hr), Hr.
  destruct h; cbn [guard]; try done; destruct (extract_bearer (rq_header rq)) as [t|]; try done;
    by destruct (accepts _ t).
Qed.

Lemma answer_unrouted auth rq h params :
  http_answer auth rq = Routed_ (To h params) → route (rq_method rq) (rq_path rq) = To h params.
Proof.
  unfold http_answer. destruct (if auth_enabled auth then _ else _); [|done].
  destruct (route _ _) as [| |h' ps]; [done..|].
  destruct h'; try (by intros [= <- <-]). by destruct (ws_auth _ _); [intros [= <- <-]|].
Qed.

Lemma api_run_parts env r cfg :
  api_run env = Ok r → env_config env = Ok cfg →
  r = mkRunning (serve_task env cfg (api_grpc_addr cfg)) (serve_task env cfg (api_rest_addr cfg))
        (auth_of cfg).
Proof.
  unfold api_run. intros H Hc. rewrite Hc in H. cbn in H.
  destruct (env_redis env); [|done]. cbn in H. destruct (env_addr env (api_grpc_addr cfg)); [|done].
  cbn in H. destruct (env_addr env (api_rest_addr cfg)); [|done]. cbn in H. by injection H as <-.
Qed.

Lemma serve_task_parts env cfg addr ep :
  serve_task env cfg addr = Ok ep →
  ep_auth ep = auth_of cfg
  ∧ ep_tls ep = if tls_enabled (api_tls cfg)
                then Some (tls_cert_path (api_tls cfg), tls_key_path (api_tls cfg)) else None.
Proof.
  unfold serve_task, tls_identity. intros H. destruct (tls_enabled (api_tls cfg)); cbn in H.
  - destruct (env_pem env (tls_cert_path _)); [|done]. cbn in H.
    destruct (env_pem env (tls_key_path _)); [|done]. cbn in H.
    destruct (env_bind env addr); [|done]. cbn in H. by injection H as <-.
  - destruct (env_bind env addr); [|done]. cbn in H. by injection H as <-.
Qed.

(** C21. No data leaves the server without a listed token.  With authentication
    enabled, a request of any method, path, header and query runs a handler
    exactly when the route table leads there and the handler is a probe or the
    request shows a listed token where that handler looks for it (the Bearer
    header, or the query of the WebSocket upgrade); and whatever endpoints the
    start-up brings up, gRPC included, carry the configured tokens, and TLS with
    the configured files exactly when it is enabled.  (Where a handler would run,
    an extractor of axum may still reject the request without data.) *)
Theorem no_data_without_token env r cfg :
  api_run env = Ok r → env_config env = Ok cfg → auth_enabled (api_auth cfg) = true →
  (∀ rq h params, http_answer (api_auth cfg) rq = Routed_ (To h params) ↔
     route (rq_method rq) (rq_path rq) = To h params
     ∧ (serves_data h = false ∨ ∃ t, t ∈ auth_tokens (api_auth cfg) ∧ shows_token rq h t))
  ∧ run_ws r = Some (auth_tokens (api_auth cfg))
  ∧ ∀ ep, run_grpc r = Ok ep ∨ run_rest r = Ok ep →
      ep_auth ep = Some (auth_tokens (api_auth cfg))
      ∧ (tls_enabled (api_tls cfg) = true →
           ep_tls ep = Some (tls_cert_path (api_tls cfg), tls_key_path (api_tls cfg)))
      ∧ (tls_enabled (api_tls cfg) = false → ep_tls ep = None).
Proof.
  intros Hrun Hcfg Hauth. rewrite (api_run_parts _ _ _ Hrun Hcfg). cbn [run_ws run_grpc run_rest].
  unfold auth_of. rewrite Hauth. split; [|split; [done|]].
  - intros rq h params. rewrite <- guard_spec. split.
    + intros Ha. pose proof (answer_unrouted _ _ _ _ Ha) as Hr. split; [done|].
      rewrite (answer_guard _ _ _ _ Hauth Hr) in Ha. by destruct (guard _ _ _).
    + intros [Hr Hg]. by rewrite (answer_guard _ _ _ _ Hauth Hr), Hg.
  - intros ep Hep.
    assert (∃ addr, serve_task env cfg addr = Ok ep) as [addr H] by (destruct Hep; eauto).
    destruct (serve_task_parts _ _ _ _ H) as [-> ->]. unfold auth_of. rewrite Hauth.
    split; [done|]. by destruct (tls_enabled (api_tls cfg)).
Qed.

(** * A concrete server *)

Definition ex_api_cfg : ApiConfig :=
  mkApiConfig (mkChCfg "http://ch" default_db default_user "") (mkRedisCfg "redis://r")
    default_grpc_addr default_rest_addr default_api_metrics_addr tls_default (mkAuthCfg true ["s3cret"]).
Definition ex_api_env : ApiEnv :=
  mkApiEnv (Ok ex_api_cfg) (Ok tt) (λ _, Ok tt) (λ _, Ok tt) (λ _, Ok tt).
Definition ex_api_running : Running :=
  match api_run ex_api_env with Ok r => r | Err _ => mkRunning (Err ""%string) (Err ""%string) None end.

Lemma no_data_without_token_witness :
  http_answer (api_auth ex_api_cfg)
    (mkRequest GET "/v1/oi/latest/okx/BTC-USDT-SWAP" (Some "Bearer s3cret"%string) None)
    = Routed_ (To OiLatest ["okx"; "BTC-USDT-SWAP"]%string)
  ∧ http_answer (api_auth ex_api_cfg) (mkRequest GET "/v1/oi/latest/okx/B" (Some "Bearer x"%string) None)
    = Unauthorized
  ∧ http_answer (api_auth ex_api_cfg) (mkRequest GET "/ws/v1/oi/subscribe" None None) = Unauthorized
  ∧ http_answer (api_auth ex_api_cfg) (mkRequest HEAD "/health/ready" None None)
    = Routed_ (To HealthReady [])
  ∧ run_ws ex_api_running = Some ["s3cret"]%string.
Proof.
  destruct (no_data_without_token ex_api_env ex_api_running ex_api_cfg) as (H & Hw & _);
    [reflexivity..|].
  split; [apply H; split; [reflexivity|right; exists "s3cret"%string; split; [left|reflexivity]]|].
  split; [reflexivity|]. split; [reflexivity|].
  split; [apply H; split; [reflexivity|by left]|exact Hw].
Defined.
