(* ===== verification/Live.v ===== *)
(** Sub-minute streaming: [oi-collector/src/live.rs].  Each shard receives the
    frames of its WebSocket connection with the time it reads them, folds every
    change into the aggregator it shares with the REST loop and publishes the
    bar in progress when this node may publish.  A panic ends the shard's task. *)

From Stdlib Require Import ZArith Lia String.
From stdpp Require Import base option list strings gmap.
From S2P Require Import Prelude Externals Concrete Domain Buckets Aggregator Repository WsClient.
From S2P Require Bybit Okx Bitget Hyperliquid.
Open Scope Z_scope.
Open Scope oi_scope.

(** The shards each venue's spawn function starts a task for: none without
    instruments. *)
Definition bybit_shards (symbols : list string) : list (list string) := chunks 400 symbols.
Definition okx_shards (inst_ids : list string) : list (list string) := chunks 200 inst_ids.
Definition bitget_shards (inst_ids : list string) : list (list string) := chunks 150 inst_ids.
Definition hyperliquid_shards (coins : list string) : list (list string) :=
  if bool_decide (coins = []) then [] else [coins].

Section live.
Context {DL : DecimalLib} {TL : TimeLib} {JL : JsonLib} {SC : SnapCodec}.
Context {W : Type} (publisher : RedisConn W) (lease : option (W → bool)).

Definition may_publish (w : W) : bool :=
  match lease with None => true | Some is_leader => is_leader w end.

(** The end of every handler: fold, and publish when allowed. *)
Definition fold_sample (st : OiAggregator * W) (sample : OiSample) : OiAggregator * W :=
  let '(agg, w) := st in
  let '(bar, agg) := agg_observe agg sample in
  if negb (may_publish w) then (agg, w)
  else let '(_, w) := publish publisher [bar] w in (agg, w).

(** [last] of the OKX, Bitget and Hyperliquid handlers, and the rest of the
    world they change. *)
Record LiveState := mkLive { last_oi : gmap string Dec; live_world : OiAggregator * W }.

Definition changed (last : gmap string Dec) (k : string) (new_value : Dec) : bool :=
  match last !! k with
  | Some v => if dec_eqb v new_value then false else true
  | None => true
  end.

Definition okx_frame (st : LiveState) (nf : OffsetDateTime * Frame) : run LiveState :=
  let '(now, frame) := nf in
  match frame with
  | Raw _ => Ret st
  | Payload value =>
      match Okx.extract_oi_update value with
      | None => Ret st
      | Some (inst_id, new_value) =>
          if negb (changed (last_oi st) inst_id new_value) then Ret st
          else
            let last := <[inst_id := new_value]> (last_oi st) in
            raw ← Okx.to_raw inst_id new_value now;
            let sample := Okx.enrich_okx raw in
            Ret (mkLive last (fold_sample (live_world st) sample))
      end
  end.

Definition bitget_frame (st : LiveState) (nf : OffsetDateTime * Frame) : run LiveState :=
  let '(now, frame) := nf in
  match frame with
  | Raw _ => Ret st
  | Payload value =>
      match Bitget.extract_oi_update value with
      | None => Ret st
      | Some (inst_id, new_value, price) =>
          if negb (changed (last_oi st) inst_id new_value) then Ret st
          else
            let last := <[inst_id := new_value]> (last_oi st) in
            raw ← Bitget.to_raw inst_id new_value price now;
            sample ← Bitget.enrich_bitget raw;
            Ret (mkLive last (fold_sample (live_world st) sample))
      end
  end.

Definition hyperliquid_frame (st : LiveState) (nf : OffsetDateTime * Frame) : run LiveState :=
  let '(now, frame) := nf in
  match frame with
  | Raw _ => Ret st
  | Payload value =>
      match Hyperliquid.extract_oi_update value with
      | None => Ret st
      | Some (coin, new_value, price) =>
          if negb (changed (last_oi st) coin new_value) then Ret st
          else
            let last := <[coin := new_value]> (last_oi st) in
            raw ← Hyperliquid.to_raw coin new_value price now;
            sample ← Hyperliquid.enrich_hyperliquid raw;
            Ret (mkLive last (fold_sample (live_world st) sample))
      end
  end.

(** The [while let Some(frame) = rx.recv().await] loops. *)
Fixpoint recv_loop {S} (handle : S → OffsetDateTime * Frame → run S) (st : S)
    (frames : list (OffsetDateTime * Frame)) : run S :=
  match frames with
  | [] => Ret st
  | f :: frames' => st' ← handle st f; recv_loop handle st' frames'
  end.

Definition run_okx_shard (world : OiAggregator * W) := recv_loop okx_frame (mkLive ∅ world).
Definition run_bitget_shard (world : OiAggregator * W) := recv_loop bitget_frame (mkLive ∅ world).
Definition run_hyperliquid (world : OiAggregator * W) :=
  recv_loop hyperliquid_frame (mkLive ∅ world).

(** Bybit keeps the merge state of each symbol. *)
Record BybitLive := mkBybitLive {
  bybit_state : gmap string Bybit.SymbolState; bybit_world : OiAggregator * W }.

Definition bybit_frame (st : BybitLive) (nf : OffsetDateTime * Frame) : run BybitLive :=
  let '(now, frame) := nf in
  match frame with
  | Raw _ => Ret st
  | Payload value =>
      match Bybit.classify_frame value with
      | None => Ret st
      | Some (ty, symbol) =>
          match json_get value "data" with
          | None => Ret st
          | Some data =>
              bucket ← live_floor now;
              let entry := default Bybit.state_default (bybit_state st !! symbol) in
              let '(entry, emitted) := Bybit.merge entry ty data in
              let state := <[symbol := entry]> (bybit_state st) in
              sample_opt ←
                match emitted with
                | Some _ => opt_run Bybit.enrich_bybit (Bybit.to_raw entry symbol bucket now)
                | None => Ret None
                end;
              match sample_opt with
              | None => Ret (mkBybitLive state (bybit_world st))
              | Some sample => Ret (mkBybitLive state (fold_sample (bybit_world st) sample))
              end
          end
      end
  end.

Definition run_bybit_shard (world : OiAggregator * W) :=
  recv_loop bybit_frame (mkBybitLive ∅ world).
End live.

(** * Specification: the changes of each instrument *)

Section changes.
Context {DL : DecimalLib} {TL : TimeLib} {JL : JsonLib}.

(** What a frame says: the instrument, its value, and the sample it makes. *)
Definition Update : Type := string * Dec * run OiSample.
Definition Reader : Type := OffsetDateTime * Frame → option Update.

Definition okx_update : Reader := λ nf,
  match nf.2 with
  | Raw _ => None
  | Payload value =>
      '(i, v) ← Okx.extract_oi_update value;
      Some (i, v, Okx.enrich_okx <$> Okx.to_raw i v nf.1)
  end.
Definition bitget_update : Reader := λ nf,
  match nf.2 with
  | Raw _ => None
  | Payload value =>
      '(i, v, p) ← Bitget.extract_oi_update value;
      Some (i, v, Bitget.to_raw i v p nf.1 ≫= Bitget.enrich_bitget)
  end.
Definition hyperliquid_update : Reader := λ nf,
  match nf.2 with
  | Raw _ => None
  | Payload value =>
      '(i, v, p) ← Hyperliquid.extract_oi_update value;
      Some (i, v, Hyperliquid.to_raw i v p nf.1 ≫= Hyperliquid.enrich_hyperliquid)
  end.

(** The value the latest frame for [k] carried. *)
Definition last_value (rd : Reader) (k : string) (seen : list (OffsetDateTime * Frame))
  : option Dec :=
  last (omap (λ nf, '(i, v, _) ← rd nf; if String.eqb i k then Some v else None) seen).

(** The samples of the frames whose value differs from the one the instrument's
    previous frame carried, or that are its first. *)
Fixpoint changes (rd : Reader) (seen frames : list (OffsetDateTime * Frame))
  : list (run OiSample) :=
  match frames with
  | [] => []
  | nf :: frames' =>
      match rd nf with
      | Some (k, v, sample) =>
          match last_value rd k seen with
          | Some v0 => if dec_eqb v0 v then [] else [sample]
          | None => [sample]
          end
      | None => []
      end ++ changes rd (seen ++ [nf]) frames'
  end.

(** A Bybit frame as its symbol, its kind and its data. *)
Definition ticker_of (value : Value) : option (string * Bybit.FrameType * Value) :=
  '(ty, symbol) ← Bybit.classify_frame value;
  data ← json_get value "data";
  Some (symbol, ty, data).
Definition ticks (symbol : string) (seen : list (OffsetDateTime * Frame))
  : list (Bybit.FrameType * Value) :=
  omap (λ nf, match nf.2 with
              | Raw _ => None
              | Payload value =>
                  '(s, ty, data) ← ticker_of value;
                  if String.eqb s symbol then Some (ty, data) else None
              end) seen.
(** The last readable value of every field. *)
Definition fields_of (fs : list (Bybit.FrameType * Value)) : Bybit.SymbolState :=
  Bybit.mkState (Bybit.latest "openInterest" fs) (Bybit.latest "markPrice" fs)
    (Bybit.latest "lastPrice" fs).

(** The sample of a Bybit frame that comes after [seen]: a frame whose open
    interest differs from the last one its symbol's frames carried, with the
    prices those frames carried last. *)
Definition bybit_sample (seen : list (OffsetDateTime * Frame)) (nf : OffsetDateTime * Frame)
  : run (option OiSample) :=
  match nf.2 with
  | Raw _ => Ret None
  | Payload value =>
      match ticker_of value with
      | None => Ret None
      | Some (symbol, ty, data) =>
          let before := ticks symbol seen in
          bucket ← live_floor nf.1;
          match Bybit.pick_decimal data "openInterest" with
          | None => Ret None
          | Some v =>
              if match Bybit.latest "openInterest" before with
                 | Some a => dec_eqb a v
                 | None => false
                 end then Ret None
              else opt_run Bybit.enrich_bybit
                     (Bybit.to_raw (fields_of (before ++ [(ty, data)])) symbol bucket nf.1)
          end
      end
  end.
Fixpoint bybit_samples (seen frames : list (OffsetDateTime * Frame))
  : list (run (option OiSample)) :=
  match frames with
  | [] => []
  | nf :: frames' => bybit_sample seen nf :: bybit_samples (seen ++ [nf]) frames'
  end.

Definition present (l : list (option OiSample)) : list OiSample := omap id l.

(** All the samples, unless computing one panics. *)
Fixpoint all_ret {A} (l : list (run A)) : run (list A) :=
  match l with
  | [] => Ret []
  | r :: l' => a ← r; (a ::.) <$> all_ret l'
  end.
End changes.


Section live_lemmas.
Context {DL : DecimalLib} {TL : TimeLib} {JL : JsonLib} {SC : SnapCodec}.
Context {W : Type} (publisher : RedisConn W) (lease : option (W → bool)).

(** The three handlers that keep the last value, in terms of their readers. *)
Definition change_frame (rd : Reader) (st : LiveState (W:=W)) (nf : OffsetDateTime * Frame)
  : run LiveState :=
  match rd nf with
  | None => Ret st
  | Some (k, v, sample) =>
      if negb (changed (last_oi st) k v) then Ret st
      else s ← sample;
           Ret (mkLive (<[k := v]> (last_oi st)) (fold_sample publisher lease (live_world st) s))
  end.

Lemma okx_frame_reads st nf : okx_frame publisher lease st nf = change_frame okx_update st nf.
Proof.
  destruct nf as [now [value|bytes]]; [|done]. unfold okx_frame, change_frame, okx_update. simpl.
  destruct (Okx.extract_oi_update value) as [[i v]|]; [|done]. simpl.
  destruct (changed (last_oi st) i v); [|done]. simpl. by destruct (Okx.to_raw i v now).
Qed.
Lemma bitget_frame_reads st nf :
  bitget_frame publisher lease st nf = change_frame bitget_update st nf.
Proof.
  destruct nf as [now [value|bytes]]; [|done].
  unfold bitget_frame, change_frame, bitget_update. simpl.
  destruct (Bitget.extract_oi_update value) as [[[i v] p]|]; [|done]. simpl.
  destruct (changed (last_oi st) i v); [|done]. simpl. by destruct (Bitget.to_raw i v p now).
Qed.
Lemma hyperliquid_frame_reads st nf :
  hyperliquid_frame publisher lease st nf = change_frame hyperliquid_update st nf.
Proof.
  destruct nf as [now [value|bytes]]; [|done].
  unfold hyperliquid_frame, change_frame, hyperliquid_update. simpl.
  destruct (Hyperliquid.extract_oi_update value) as [[[i v] p]|]; [|done]. simpl.
  destruct (changed (last_oi st) i v); [|done]. simpl. by destruct (Hyperliquid.to_raw i v p now).
Qed.

Lemma recv_loop_ext {S} (h h' : S → OffsetDateTime * Frame → run S) st fs :
  (∀ st nf, h st nf = h' st nf) → recv_loop h st fs = recv_loop h' st fs.
Proof.
  intros H. revert st. induction fs as [|f fs IH]; intros st; simpl; [done|].
  rewrite H. destruct (h' st f); simpl; [apply IH|done].
Qed.

Lemma last_value_snoc rd k seen nf :
  last_value rd k (seen ++ [nf]) =
  match rd nf with
  | Some (i, v, _) => if String.eqb i k then Some v else last_value rd k seen
  | None => last_value rd k seen
  end.
Proof.
  unfold last_value. rewrite omap_app. simpl.
  destruct (rd nf) as [[[i v] s]|]; simpl; [|by rewrite app_nil_r].
  destruct (String.eqb i k); simpl; [by rewrite last_snoc|by rewrite app_nil_r].
Qed.

Context {DLaws : DecimalLaws DL}.

Lemma dec_eqb_equiv (a b : Dec) : dec_eqb a b = true ↔ a ≡ b.
Proof. unfold dec_eqb, equiv, dec_equiv. destruct (dec_cmp a b); naive_solver. Qed.

(** The map of last values agrees with the frames seen so far: it may hold an
    older text of the same value. *)
Definition tracks (rd : Reader) (m : gmap string Dec) (seen : list (OffsetDateTime * Frame))
  : Prop := ∀ k, m !! k ≡ last_value rd k seen.

Lemma changed_tracks rd m seen k v :
  tracks rd m seen →
  changed m k v = match last_value rd k seen with Some v0 => negb (dec_eqb v0 v) | None => true end.
Proof.
  intros H. unfold changed. specialize (H k).
  destruct (last_value rd k seen) as [v0|]; inversion H as [a b Hab|]; [|done].
  destruct (dec_eqb a v) eqn:Ea, (dec_eqb v0 v) eqn:Eb; try done; exfalso; subst.
  - apply dec_eqb_equiv in Ea. enough (dec_eqb v0 v = true) by congruence.
    apply dec_eqb_equiv. by rewrite <- Hab.
  - apply dec_eqb_equiv in Eb. enough (dec_eqb a v = true) by congruence.
    apply dec_eqb_equiv. by rewrite Hab.
Qed.

Lemma change_loop_spec rd frames seen st :
  tracks rd (last_oi st) seen →
  live_world <$> recv_loop (change_frame rd) st frames =
  foldl (fold_sample publisher lease) (live_world st) <$> all_ret (changes rd seen frames).
Proof.
  revert seen st. induction frames as [|nf frames IH]; intros seen st Ht; [done|].
  cbn [recv_loop changes]. change (change_frame rd st nf) with
    (match rd nf with
     | None => Ret st
     | Some (k, v, sample) =>
         if negb (changed (last_oi st) k v) then Ret st
         else s ← sample;
              Ret (mkLive (<[k := v]> (last_oi st)) (fold_sample publisher lease (live_world st) s))
     end).
  destruct (rd nf) as [[[k v] sample]|] eqn:E.
  - rewrite (changed_tracks _ _ _ k v Ht). pose proof (Ht k) as Hk.
    assert (Hins : ∀ m : gmap string Dec, m !! k ≡ Some v →
      (∀ k', k' ≠ k → m !! k' = last_oi st !! k') → tracks rd m (seen ++ [nf])).
    { intros m Hm Hne k'. rewrite last_value_snoc, E.
      destruct (String.eqb_spec k k') as [<-|]; [done|]. by rewrite Hne by congruence. }
    destruct (last_value rd k seen) as [v0|] eqn:Ev; [destruct (dec_eqb v0 v) eqn:Ed|];
      cbn [negb app mbind run_bind].
    + apply IH, Hins; [|done]. rewrite Hk. constructor. by apply dec_eqb_equiv.
    + cbn [all_ret]. destruct sample as [s|]; simpl; [|done].
      rewrite (IH (seen ++ [nf])); [simpl; by destruct (all_ret _)|].
      apply Hins; simpl; [by rewrite lookup_insert_eq|by intros; rewrite lookup_insert_ne].
    + cbn [all_ret]. destruct sample as [s|]; simpl; [|done].
      rewrite (IH (seen ++ [nf])); [simpl; by destruct (all_ret _)|].
      apply Hins; simpl; [by rewrite lookup_insert_eq|by intros; rewrite lookup_insert_ne].
  - cbn [mbind run_bind app]. apply IH. intros k. by rewrite last_value_snoc, E.
Qed.

Lemma ticks_snoc symbol seen nf :
  ticks symbol (seen ++ [nf]) =
  ticks symbol seen ++
    match nf.2 with
    | Raw _ => []
    | Payload value =>
        match ticker_of value with
        | Some (s, ty, data) => if String.eqb s symbol then [(ty, data)] else []
        | None => []
        end
    end.
Proof.
  unfold ticks. rewrite omap_app. f_equal. simpl. destruct nf.2 as [value|]; [|done].
  destruct (ticker_of value) as [[[s ty] data]|]; simpl; [|done]. by destruct (String.eqb s symbol).
Qed.

(** The merged state of every symbol is what its own frames carried last. *)
Definition merges (m : gmap string Bybit.SymbolState) (seen : list (OffsetDateTime * Frame)) : Prop :=
  ∀ symbol, default Bybit.state_default (m !! symbol) = fields_of (ticks symbol seen).

Lemma fields_merge fs ty data :
  (Bybit.merge (fields_of fs) ty data).1 = fields_of (fs ++ [(ty, data)]).
Proof. rewrite Bybit.merge_fields. unfold fields_of. by rewrite !Bybit.latest_snoc. Qed.

Lemma fields_emit fs ty data :
  (Bybit.merge (fields_of fs) ty data).2 =
  (v ← Bybit.pick_decimal data "openInterest";
   if match Bybit.latest "openInterest" fs with Some a => dec_eqb a v | None => false end
   then None else Some v).
Proof.
  rewrite Bybit.merge_emits, fields_merge. unfold fields_of.
  cbn [Bybit.open_interest]. rewrite Bybit.latest_snoc.
  destruct (Bybit.pick_decimal data "openInterest"); [done|]. simpl.
  destruct (Bybit.latest "openInterest" fs) as [a|]; simpl; [|done].
  by rewrite (proj2 (dec_eqb_equiv a a)).
Qed.

Lemma bybit_frame_spec m seen world nf :
  merges m seen →
  ∃ m', merges m' (seen ++ [nf])
    ∧ bybit_frame publisher lease (mkBybitLive m world) nf =
      s ← bybit_sample seen nf;
      Ret (mkBybitLive m' (from_option (fold_sample publisher lease world) world s)).
Proof.
  intros Hm. unfold bybit_frame, bybit_sample. destruct nf as [now [value|bytes]]; cbn [fst snd].
  2: { exists m. split; [|done]. intros symbol. rewrite ticks_snoc. simpl. rewrite app_nil_r. apply Hm. }
  unfold merges. setoid_rewrite ticks_snoc. cbn [fst snd]. unfold ticker_of.
  destruct (Bybit.classify_frame value) as [[ty symbol]|]; cbn [mbind option_bind].
  2: { exists m. split; [|done]. intros symbol. rewrite app_nil_r. apply Hm. }
  destruct (json_get value "data") as [data|]; cbn [mbind option_bind].
  2: { exists m. split; [|done]. intros s. rewrite app_nil_r. apply Hm. }
  cbn [bybit_state bybit_world]. rewrite (Hm symbol). pose proof (fields_merge (ticks symbol seen) ty data) as Hf.
  pose proof (fields_emit (ticks symbol seen) ty data) as He.
  destruct (Bybit.merge (fields_of (ticks symbol seen)) ty data) as [st out].
  cbn [fst snd] in Hf, He. subst st out.
  exists (<[symbol := fields_of (ticks symbol seen ++ [(ty, data)])]> m). split.
  - intros s. destruct (String.eqb_spec symbol s) as [<-|Hne]; [by rewrite lookup_insert_eq|].
    rewrite lookup_insert_ne, app_nil_r by done. apply Hm.
  - destruct (live_floor now) as [bucket|]; simpl; [|done].
    destruct (Bybit.pick_decimal data "openInterest") as [v|]; simpl; [|done].
    destruct (match Bybit.latest _ _ with Some a => _ | None => _ end); simpl; [done|].
    destruct (opt_run _ _) as [[s|]|]; simpl; done.
Qed.

Lemma bybit_loop_spec frames seen m world :
  merges m seen →
  bybit_world <$> recv_loop (bybit_frame publisher lease) (mkBybitLive m world) frames =
  foldl (fold_sample publisher lease) world ∘ present <$> all_ret (bybit_samples seen frames).
Proof.
  revert seen m world. induction frames as [|nf frames IH]; intros seen m world Hm; [done|].
  cbn [recv_loop bybit_samples all_ret].
  destruct (bybit_frame_spec m seen world nf Hm) as (m' & Hm' & ->).
  destruct (bybit_sample seen nf) as [s|]; cbn [mbind run_bind]; [|done].
  rewrite (IH _ _ _ Hm'). destruct (all_ret _); [|done]. simpl. by destruct s.
Qed.

Lemma fold_sample_parts agg w s :
  fold_sample publisher lease (agg, w) s =
  ((agg_observe agg s).2,
   if may_publish lease w then (publish publisher [(agg_observe agg s).1] w).2 else w).
Proof.
  unfold fold_sample. destruct (agg_observe agg s) as [bar agg'].
  destruct (may_publish lease w); cbn [negb fst snd]; [|done].
  by destruct (publish publisher [bar] w).
Qed.

(** The aggregator's share of [fold_sample] does not depend on publishing. *)
Lemma fold_samples_agg samples agg w :
  (foldl (fold_sample publisher lease) (agg, w) samples).1 =
  foldl (λ agg s, (agg_observe agg s).2) agg samples.
Proof.
  revert agg w. induction samples as [|s samples IH]; intros agg w; [done|].
  cbn [foldl]. by rewrite fold_sample_parts, IH.
Qed.
Lemma fold_samples_silent samples agg w :
  may_publish lease w = false → (foldl (fold_sample publisher lease) (agg, w) samples).2 = w.
Proof.
  intros Hl. revert agg. induction samples as [|s samples IH]; intros agg; [done|].
  cbn [foldl]. by rewrite fold_sample_parts, Hl, IH.
Qed.

(** The bars in progress after each sample. *)
Fixpoint bars_after (agg : OiAggregator) (samples : list OiSample) : list OiSnapshot :=
  match samples with
  | [] => []
  | s :: samples' => let '(bar, agg) := agg_observe agg s in bar :: bars_after agg samples'
  end.

(** What the firehose's subscribers receive while every publish succeeds. *)
Lemma fold_samples_published {CL : CodecLaws SC} (view : W → gmap string (list Z)) sent
    {RL : RedisLaws publisher view sent} samples agg w :
  (∀ w, may_publish lease w = true) →
  (∀ b w, b ∈ bars_after agg samples → (publish publisher [b] w).1 = Ok tt) →
  ∃ new, sent (foldl (fold_sample publisher lease) (agg, w) samples).2 = sent w ++ new
    ∧ subscribe_stream (on_channel FIREHOSE_CHANNEL new) = bars_after agg samples.
Proof.
  intros Hl. revert agg w. induction samples as [|s samples IH]; intros agg w Hp.
  { exists []. by rewrite app_nil_r. }
  cbn [foldl bars_after]. rewrite fold_sample_parts, Hl.
  cbn [bars_after] in Hp. destruct (agg_observe agg s) as [bar agg'] eqn:Eo. cbn [fst snd].
  pose proof (Hp bar w ltac:(left)) as Hok. destruct (publish publisher [bar] w) as [r w1] eqn:Ep.
  cbn [fst snd] in *. subst r.
  destruct (publish_sent publisher view sent _ _ _ Ep) as (_ & new1 & Hs1 & Hn1 & _).
  destruct (IH agg' w1 ltac:(intros; apply Hp; by right)) as (new2 & -> & Hn2). exists (new1 ++ new2).
  rewrite Hs1, (assoc_L (++)). split; [done|].
  unfold subscribe_stream in *. by rewrite on_channel_app, omap_app, Hn1, Hn2.
Qed.
End live_lemmas.

Section live_claims.
Context {DL : DecimalLib} {TL : TimeLib} {JL : JsonLib} {SC : SnapCodec}.
Context {DLaws : DecimalLaws DL} {CL : CodecLaws SC}.
Context {W : Type} (publisher : RedisConn W) (view : W → gmap string (list Z)).
Context (sent : W → list (string * list Z)) {RL : RedisLaws publisher view sent}.

(** A shard that starts on the shared world [(agg, w)] and makes [samples]. *)
Definition shard_folds (lease : option (W → bool)) agg w (samples : run (list OiSample))
    (result : run (OiAggregator * W)) : Prop :=
  match samples with
  | Panic => result = Panic
  | Ret samples =>
      ∃ w', result = Ret (foldl (λ agg s, (agg_observe agg s).2) agg samples, w')
        ∧ (lease = Some (λ _, false) → w' = w)
        ∧ (lease = None → (∀ b w, b ∈ bars_after agg samples → (publish publisher [b] w).1 = Ok tt) →
           ∃ new, sent w' = sent w ++ new
             ∧ subscribe_stream (on_channel FIREHOSE_CHANNEL new) = bars_after agg samples)
  end.

Lemma fold_world_folds lease agg w samples :
  shard_folds lease agg w samples (foldl (fold_sample publisher lease) (agg, w) <$> samples).
Proof.
  destruct samples as [samples|]; [|done]. simpl.
  exists (foldl (fold_sample publisher lease) (agg, w) samples).2.
  rewrite <- (fold_samples_agg publisher lease samples agg w), <- surjective_pairing.
  split; [done|]. split; intros ->; [by apply fold_samples_silent|].
  intros Hp. by apply (fold_samples_published publisher None view sent).
Qed.

(** The four venues with a live stream: the samples a shard's frames make, and
    the shard. *)
Inductive LiveVenue := LiveOkx | LiveBitget | LiveHyperliquid | LiveBybit.
Definition venue_samples (ven : LiveVenue) (frames : list (OffsetDateTime * Frame))
  : run (list OiSample) :=
  match ven with
  | LiveOkx => all_ret (changes okx_update [] frames)
  | LiveBitget => all_ret (changes bitget_update [] frames)
  | LiveHyperliquid => all_ret (changes hyperliquid_update [] frames)
  | LiveBybit => present <$> all_ret (bybit_samples [] frames)
  end.
Definition run_shard (ven : LiveVenue) (lease : option (W → bool)) (world : OiAggregator * W)
    (frames : list (OffsetDateTime * Frame)) : run (OiAggregator * W) :=
  match ven with
  | LiveOkx => live_world <$> run_okx_shard publisher lease world frames
  | LiveBitget => live_world <$> run_bitget_shard publisher lease world frames
  | LiveHyperliquid => live_world <$> run_hyperliquid publisher lease world frames
  | LiveBybit => bybit_world <$> run_bybit_shard publisher lease world frames
  end.

Lemma shard_spec ven lease agg w frames :
  run_shard ven lease (agg, w) frames
  = foldl (fold_sample publisher lease) (agg, w) <$> venue_samples ven frames.
Proof.
  assert (Hc : ∀ rd frame, (∀ st nf, frame st nf = change_frame publisher lease rd st nf) →
    live_world <$> recv_loop frame (mkLive ∅ (agg, w)) frames
    = foldl (fold_sample publisher lease) (agg, w) <$> all_ret (changes rd [] frames)).
  { intros rd frame H. rewrite (recv_loop_ext _ _ _ _ H).
    apply (change_loop_spec publisher lease rd frames []).
    intros k. simpl. rewrite lookup_empty. constructor. }
  destruct ven; cbn [run_shard venue_samples].
  - apply Hc, okx_frame_reads.
  - apply Hc, bitget_frame_reads.
  - apply Hc, hyperliquid_frame_reads.
  - unfold run_bybit_shard. rewrite (bybit_loop_spec publisher lease frames [] ∅).
    + by destruct (all_ret _).
    + intros symbol. by rewrite lookup_empty.
Qed.

(** C25. A live shard folds into the shared aggregator exactly the changes of its
    frames, in order.  On OKX, Bitget and Hyperliquid those are the samples of
    the frames whose value differs from what the same instrument's previous
    frame carried (or that are its first); on Bybit, whose frames are deltas,
    those whose open interest differs from the last one the symbol's frames
    carried, priced with the mark or else the last price its frames carried
    last, however the symbols' frames interleave.  Repeated values, price-only
    and unreadable frames leave no trace, and the task dies exactly when a
    computation for one of its frames overflows.  A node that is not the leader
    does the same folding and sends nothing; a node without a lease, while its
    publishes succeed, shows the firehose's subscribers the bar in progress
    after every change. *)
Theorem live_shards_fold_changes ven (lease : option (W → bool)) agg w frames :
  shard_folds lease agg w (venue_samples ven frames) (run_shard ven lease (agg, w) frames).
Proof. rewrite shard_spec. apply fold_world_folds. Qed.
End live_claims.

(** * Subscriptions *)

Section subscriptions.
Context {JL : JsonLib} {W : Type} (send : OutMsg → SE W string unit) (sent : W → list OutMsg).

(** The messages a socket that accepted everything has been given. *)
Definition records_sends : Prop :=
  ∀ m w w', send m w = (Ok tt, w') → sent w' = sent w ++ [m].

(** Messages that subscribe to exactly [names] on a channel, some names in each
    and at most [limit]. *)
Definition covers (channel : string) (limit : nat) (names : list string) (ms : list OutMsg) : Prop :=
  ∃ batches, ms = SubscribeMsg channel <$> batches ∧ concat batches = names
    ∧ Forall (λ b, (1 ≤ length b ≤ limit)%nat) batches.

(** The shards split the instruments, none is larger than [conn_limit], and
    whenever a connection of a shard comes up its messages cover the shard. *)
Definition fully_subscribed (shards : list (list string)) (conn_limit : nat)
    (handler : list string → WsHandler (W:=W)) (covered : list string → list OutMsg → Prop)
    (ids : list string) : Prop :=
  concat shards = ids
  ∧ Forall (λ shard, (length shard ≤ conn_limit)%nat
      ∧ ∀ w w', on_connect (handler shard) w = (Ok tt, w') →
          ∃ ms, sent w' = sent w ++ ms ∧ covered shard ms) shards.

Context (Hsend : records_sends).

Lemma send_all_records ms w w' :
  send_all send ms w = (Ok tt, w') → sent w' = sent w ++ ms.
Proof.
  revert w. induction ms as [|m ms IH]; intros w; cbn [send_all].
  - intros [= <-]. by rewrite app_nil_r.
  - intros [(e & _ & ?)|(u & w1 & H1 & H2)]%se_bind_inv; [done|]. destruct u.
    rewrite (IH _ H2), (Hsend _ _ _ H1). by rewrite <- (assoc_L (++)).
Qed.

Lemma chunks_nonempty {A} n (l : list A) : (0 < n)%nat →
  Forall (λ c, (1 ≤ length c ≤ n)%nat) (chunks n l).
Proof.
  intros Hn. unfold chunks. generalize (length l) at 1. intros fuel. revert l.
  induction fuel as [|fuel IH]; intros [|x l]; simpl; [constructor..|].
  constructor; [|apply IH]. rewrite length_take. simpl. lia.
Qed.

Lemma chunks_cover channel n names w w' :
  (0 < n)%nat → send_all send (SubscribeMsg channel <$> chunks n names) w = (Ok tt, w') →
  ∃ ms, sent w' = sent w ++ ms ∧ covers channel n names ms.
Proof.
  intros Hn H. eexists. split; [by apply send_all_records|].
  exists (chunks n names). split; [done|]. split; [by apply chunks_concat|by apply chunks_nonempty].
Qed.

Lemma concat_singles {A} (l : list A) : concat ((λ c, [c]) <$> l) = l.
Proof. induction l as [|x l IH]; [done|]. cbn. by rewrite IH. Qed.

(** C27. Every instrument is subscribed on every connection.  The shards of a
    venue split its instruments and respect the venue's limit of channels per
    connection; whenever a connection of a shard comes up, after a reconnect as
    well, the messages it has sent name exactly the shard's instruments once, in
    order, in messages that are never empty and never larger than the venue's
    limit (one message per coin and a ping on Hyperliquid), and each Bybit topic
    leads back to its symbol. *)
Theorem every_instrument_subscribed ids :
  fully_subscribed (okx_shards ids) 200 (okx_ws send) (covers "open-interest" 40) ids
  ∧ fully_subscribed (bitget_shards ids) 150 (bitget_ws send) (covers "ticker" 50) ids
  ∧ fully_subscribed (bybit_shards ids) 400 (bybit_ws send)
      (λ shard, covers "" 10 (bybit_topics shard)) ids
  ∧ fully_subscribed (hyperliquid_shards ids) (length ids) (hyperliquid_ws send)
      (λ shard ms, ∃ subs, ms = subs ++ [JsonPing] ∧ covers "activeAssetCtx" 1 shard subs) ids
  ∧ ∀ s, strip_prefix "tickers." (String.append "tickers." s) = Some s.
Proof.
  assert (Hsh : ∀ n (P : list string → Prop), (∀ shard, P shard) →
    Forall (λ shard, (length shard ≤ n)%nat ∧ P shard) (chunks n ids)).
  { intros n P HP. eapply Forall_impl; [apply chunks_bound|]. by intros. }
  split_and!; [..|intros s; by apply strip_prefix_spec].
  - split; [by apply chunks_concat; lia|]. apply Hsh. intros shard w w' H.
    apply (chunks_cover _ OKX_MAX_ARGS_PER_SUB) in H; [done|unfold OKX_MAX_ARGS_PER_SUB; lia].
  - split; [by apply chunks_concat; lia|]. apply Hsh. intros shard w w' H.
    apply (chunks_cover _ BITGET_MAX_ARGS_PER_SUB) in H; [done|unfold BITGET_MAX_ARGS_PER_SUB; lia].
  - split; [by apply chunks_concat; lia|]. apply Hsh. intros shard w w' H.
    apply (chunks_cover _ BYBIT_MAX_ARGS_PER_SUB) in H; [done|unfold BYBIT_MAX_ARGS_PER_SUB; lia].
  - unfold fully_subscribed, hyperliquid_shards. case_bool_decide as Hids; [by subst ids|].
    simpl. rewrite app_nil_r. split; [done|]. constructor; [|constructor]. split; [done|].
    intros w w' H. apply send_all_records in H. eexists. split; [exact H|].
    eexists. split; [reflexivity|]. exists ((λ c, [c]) <$> ids).
    split; [by rewrite <- list_fmap_compose|]. split.
    + apply concat_singles.
    + apply Forall_fmap, Forall_forall. intros c _. simpl. lia.
Qed.
End subscriptions.

(** * Concrete run *)

Definition ex_push (coins : string) : Frame (JL := tree_json) :=
  Payload (JL := tree_json) (JObj
    [("arg", JObj [("channel", JStr "open-interest")]);
     ("data", JArr [JObj [("instId", JStr "BTC"); ("oiCcy", JStr coins)]])]%string).
Definition ex_frames : list (OffsetDateTime (TimeLib := z_time) * Frame (JL := tree_json)) :=
  [(1, ex_push "5"); (2, ex_push "05"); (3, Raw (JL := tree_json) [1]); (4, ex_push "6")].

Definition ex_tick (symbol ty : string) (fields : list (string * jvalue)) : Frame (JL := tree_json) :=
  Payload (JL := tree_json) (JObj
    [("topic", JStr (String.append "tickers." symbol)); ("type", JStr ty); ("data", JObj fields)]%string).
Definition ex_ticks : list (OffsetDateTime (TimeLib := z_time) * Frame (JL := tree_json)) :=
  [(1, ex_tick "A" "snapshot" [("openInterest", JStr "5"); ("markPrice", JStr "2")]);
   (2, ex_tick "B" "snapshot" [("openInterest", JStr "7")]);
   (3, ex_tick "A" "delta" [("markPrice", JStr "3")]);
   (4, ex_tick "A" "delta" [("openInterest", JStr "6")])]%string.

(** Only the two changes are folded, and on Bybit the last one at the last price. *)
Lemma live_shards_fold_changes_witness :
  (∃ agg' w',
    live_world <$> run_okx_shard (DL := z_decimal) (TL := z_time) (JL := tree_json) (SC := ex_codec)
      ex_conn (Some (λ _, false)) (∅, ex_world false) ex_frames
    = Ret (agg', w')
    ∧ (samples <$> agg' !! mkId Okx "BTC") = Some 2
    ∧ (native_close <$> agg' !! mkId Okx "BTC") = Some 6 ∧ w' = ex_world false)
  ∧ ∃ agg' w',
    bybit_world <$> run_bybit_shard (DL := z_decimal) (TL := z_time) (JL := tree_json) (SC := ex_codec)
      ex_conn (Some (λ _, false)) (∅, ex_world false) ex_ticks
    = Ret (agg', w')
    ∧ (samples <$> agg' !! mkId Bybit "A") = Some 2
    ∧ (oi_usd_close <$> agg' !! mkId Bybit "A") = Some (Some 18) ∧ w' = ex_world false.
Proof.
  split.
  - destruct (live_shards_fold_changes (DL := z_decimal) (TL := z_time) (JL := tree_json)
      (SC := ex_codec) ex_conn st_view st_sent LiveOkx (Some (λ _, false)) ∅ (ex_world false) ex_frames)
      as (w' & Hr & Hw & _). eexists _, w'. split; [exact Hr|].
    split; [reflexivity|]. split; [reflexivity|]. by apply Hw.
  - destruct (live_shards_fold_changes (DL := z_decimal) (TL := z_time) (JL := tree_json)
      (SC := ex_codec) ex_conn st_view st_sent LiveBybit (Some (λ _, false)) ∅ (ex_world false) ex_ticks)
      as (w' & Hr & Hw & _). eexists _, w'. split; [exact Hr|].
    split; [reflexivity|]. split; [reflexivity|]. by apply Hw.
Defined.

Lemma every_instrument_subscribed_witness :
  records_sends ex_send id ∧
  ∃ ms, (on_connect (okx_ws (JL := tree_json) ex_send ["BTC"; "ETH"]%string) []).2 = ms
    ∧ covers "open-interest" 40 ["BTC"; "ETH"]%string ms.
Proof.
  assert (Hs : records_sends ex_send id) by (intros m w w' [= <-]; reflexivity).
  split; [exact Hs|].
  destruct (every_instrument_subscribed (JL := tree_json) ex_send id Hs ["BTC"; "ETH"]%string)
    as ([_ H] & _).
  apply Forall_cons in H as [[_ H] _].
  destruct (H [] _ eq_refl) as (ms & Hms & Hc). exists ms. split; [exact Hms|exact Hc].
Defined.
