(* ===== verification/LoopMetrics.v ===== *)
(** The collector's tasks with their metrics: the minute loop of
    [oi-collector/src/runner.rs], the cycle of [funding_sweep.rs] and the
    publishing shards of [live.rs] once more, with every call to the recorder.
    They are shown to do what those of [Runner], [Sweep] and [Live] do, and the
    counters to be what the repository accepted. *)

From Stdlib Require Import ZArith Lia String.
From stdpp Require Import base option list strings gmap.
From S2P Require Import Prelude Externals Concrete Domain FanOut Aggregator Pricing Repository Adapter Runner Metrics.
From S2P Require Sweep Live WsClient.
Open Scope Z_scope.
Open Scope oi_scope.

Section metered.
Context {DL : DecimalLib} {TL : TimeLib}.

(** * The minute loop *)

(** The price of a reading; a borrowed one is counted. *)
Definition m_price (ex : Exchange) (p : InMemoryPriceProvider) (meta : InstrumentMeta) (r : RawOi)
  : option Dec * Calls :=
  match price_usd_with_fallback p (raw_instrument r) (base_asset meta) (quote_asset meta)
          (raw_bucket_ts r) with
  | Some (price, Native) => (Some price, [])
  | Some (price, Fallback from quote_match) =>
      (Some price, [inc_price_fallback (code ex) (code from) quote_match])
  | None => (None, [])
  end.
Definition m_observe_raw (ex : Exchange) (ms : list InstrumentMeta) (p : InMemoryPriceProvider)
    (bars : OiAggregator) (cs : Calls) (r : RawOi) : run (OiAggregator * Calls) :=
  match List.find (λ m, bool_decide (meta_id m = raw_instrument r)) ms with
  | None => Ret (bars, cs)
  | Some meta =>
      let '(price, counted) := m_price ex p meta r in
      e ← enrich r meta price;
      Ret (match e with
           | Ok s => (agg_observe bars s).2
           | Err _ => bars
           end, cs ++ counted)
  end.
Fixpoint m_observe_raws (ex : Exchange) (ms : list InstrumentMeta) (p : InMemoryPriceProvider)
    (bars : OiAggregator) (cs : Calls) (raw : list RawOi) : run (OiAggregator * Calls) :=
  match raw with
  | [] => Ret (bars, cs)
  | r :: raw' =>
      bc ← m_observe_raw ex ms p bars cs r;
      m_observe_raws ex ms p bc.1 bc.2 raw'
  end.

(** [crate::metrics::..] after a write that succeeded. *)
Definition on_ok {A} (r : result CoreError A) (c : MetricCall) : Calls :=
  match r with Ok _ => [c] | Err _ => [] end.

Definition m_funding_step {W} (ex : Exchange) (repo : OiRepository W)
    (fetched : result ExchangeError (list FundingBar)) (cursor : gmap InstrumentId (OffsetDateTime * Dec)) (cs : Calls) (w : W)
  : gmap InstrumentId (OffsetDateTime * Dec) * Calls * W :=
  match fetched with
  | Ok ((_ :: _) as funding) =>
      let count := Z.of_nat (length funding) in
      let '(events, cursor) := derive_events cursor funding in
      let '(cs, w) := match events with
                      | [] => (cs, w)
                      | _ =>
                          let n := Z.of_nat (length events) in
                          let '(r, w) := upsert_funding_events repo events w in
                          (cs ++ on_ok r (inc_funding_events (code ex) n), w)
                      end in
      let '(r, w) := upsert_funding repo funding w in
      (cursor, cs ++ on_ok r (inc_funding (code ex) count), w)
  | Ok [] => (cursor, cs, w)
  | Err e => (cursor, cs ++ [inc_rest_error (code ex) (classify_err e)], w)
  end.

Definition m_loop_iteration {W} (repo : OiRepository W) (a : ExchangeAdapter)
    (lease : option (W → bool)) (order : OiAggregator → list (InstrumentId * OiSnapshot)) (due : bool)
    (bucket : OffsetDateTime) (st : LoopState) (cs : Calls) (w : W) : run (LoopState * Calls * W) :=
  let ex := ad_exchange a in
  let ids := active_ids (metas st) in
  let '(p, cs) := match ad_fetch_prices a ids with
                  | Ok quotes => (ingest (loop_prices st) quotes, cs)
                  | Err e => (loop_prices st, cs ++ [inc_rest_error (code ex) (classify_err e)])
                  end in
  match ad_fetch_oi a ids bucket with
  | Err e =>
      Ret (mkLoop (metas st) p (loop_bars st) (symbol_list st) (funding_cursor st),
           cs ++ [inc_rest_error (code ex) (classify_err e)], w)
  | Ok raw =>
      bc ← m_observe_raws ex (metas st) p (loop_bars st) cs raw;
      let '(bars, cs) := bc in
      let '(snaps, bars) := flush_through (order bars) bars bucket in
      let cs := cs ++ [set_leader (match lease with Some l => l w | None => true end)] in
      let '(r, w) := upsert_snapshots repo snaps w in
      let cs := cs ++ on_ok r (inc_snapshots (code ex) (Z.of_nat (length snaps))) in
      let '(cursor, cs, w) :=
        m_funding_step ex repo (ad_fetch_funding a ids bucket) (funding_cursor st) cs w in
      let '(ms, symbols, w) := refresh_step repo a due (metas st) (symbol_list st) w in
      Ret (mkLoop ms p bars symbols cursor, cs, w)
  end.

(** The start of the loop: the gauge is set once discovery succeeded. *)
Definition m_loop_start {W} (a : ExchangeAdapter) (repo : OiRepository W)
    (p : InMemoryPriceProvider) (bars : OiAggregator) (cs : Calls) (w : W)
  : option LoopState * Calls * W :=
  match loop_start a repo p bars w with
  | (Some st, w) =>
      (Some st, cs ++ [set_instruments_tracked (code (ad_exchange a))
                         (Z.of_nat (length (filter (λ m, active m = true) (metas st))))], w)
  | (None, w) => (None, cs, w)
  end.

(** The minutes of a task: what the venue answers in each. *)
Record Minute := mkMinute { mn_adapter : ExchangeAdapter; mn_due : bool; mn_bucket : OffsetDateTime }.
Fixpoint m_loop_run {W} (repo : OiRepository W) (lease : option (W → bool))
    (order : OiAggregator → list (InstrumentId * OiSnapshot)) (minutes : list Minute)
    (st : LoopState) (cs : Calls) (w : W) : run (LoopState * Calls * W) :=
  match minutes with
  | [] => Ret (st, cs, w)
  | m :: minutes' =>
      o ← m_loop_iteration repo (mn_adapter m) lease order (mn_due m) (mn_bucket m) st cs w;
      let '(st, cs, w) := o in m_loop_run repo lease order minutes' st cs w
  end.
Fixpoint loop_run {W} (repo : OiRepository W)
    (order : OiAggregator → list (InstrumentId * OiSnapshot)) (minutes : list Minute)
    (st : LoopState) (w : W) : run (LoopState * W) :=
  match minutes with
  | [] => Ret (st, w)
  | m :: minutes' =>
      o ← loop_iteration repo (mn_adapter m) order (mn_due m) (mn_bucket m) st w;
      loop_run repo order minutes' o.1 o.2
  end.

(** * They do what the bare ones do *)

Definition bare {W} (o : LoopState * Calls * W) : LoopState * W := (o.1.1, o.2).

Lemma run_bind_fmap {A B C} (m : run A) (f : A → run B) (g : B → C) :
  (g <$> (m ≫= f)) = (m ≫= λ a, g <$> f a).
Proof. by destruct m. Qed.
Lemma run_fmap_bind {A B C} (m : run A) (f : A → B) (g : B → run C) :
  ((f <$> m) ≫= g) = (m ≫= λ a, g (f a)).
Proof. by destruct m. Qed.

Lemma m_price_bare ex p meta r :
  (m_price ex p meta r).1 = fst <$> price_usd_with_fallback p (raw_instrument r) (base_asset meta)
                                      (quote_asset meta) (raw_bucket_ts r).
Proof. unfold m_price. by destruct (price_usd_with_fallback _ _ _ _ _) as [[price []]|]. Qed.

Lemma observe_raws_bare ex ms p bars cs raw :
  fst <$> m_observe_raws ex ms p bars cs raw = observe_raws ms p bars raw.
Proof.
  revert bars cs. induction raw as [|r raw IH]; intros bars cs; [done|].
  cbn [m_observe_raws observe_raws]. rewrite run_bind_fmap.
  assert (H : fst <$> m_observe_raw ex ms p bars cs r = observe_raw ms p bars r).
  { unfold m_observe_raw, observe_raw. destruct (List.find _ ms) as [meta|]; [|done].
    pose proof (m_price_bare ex p meta r) as Hp. destruct (m_price ex p meta r) as [price counted].
    simpl in Hp. subst price. by destruct (enrich r meta _). }
  rewrite <- H, run_fmap_bind. destruct (m_observe_raw ex ms p bars cs r) as [[]|]; [apply IH|done].
Qed.

Lemma funding_step_bare {W} ex (repo : OiRepository W) fetched cursor cs w :
  let o := m_funding_step ex repo fetched cursor cs w in
  (o.1.1, o.2) = funding_step repo fetched cursor w.
Proof.
  unfold m_funding_step, funding_step. destruct fetched as [[|f fs]|e]; [done| |done].
  destruct (derive_events cursor (f :: fs)) as [[|e es] cur].
  - by destruct (upsert_funding repo (f :: fs) w).
  - destruct (upsert_funding_events repo (e :: es) w) as [r w1]. cbn [snd].
    by destruct (upsert_funding repo (f :: fs) w1).
Qed.

Lemma loop_iteration_bare {W} (repo : OiRepository W) a lease order due bucket st cs w :
  bare <$> m_loop_iteration repo a lease order due bucket st cs w
  = loop_iteration repo a order due bucket st w.
Proof.
  unfold m_loop_iteration, loop_iteration. set (ids := active_ids _).
  set (p := match ad_fetch_prices a ids with Ok _ => _ | Err _ => loop_prices st end).
  assert (∃ cs0, match ad_fetch_prices a ids with
    | Ok quotes => (ingest (loop_prices st) quotes, cs)
    | Err e => (loop_prices st, cs ++ [inc_rest_error (code (ad_exchange a)) (classify_err e)])
    end = (p, cs0)) as [cs0 ->] by (subst p; destruct (ad_fetch_prices a ids); eauto).
  destruct (ad_fetch_oi a ids bucket) as [raw|e]; [|done].
  rewrite <- (observe_raws_bare (ad_exchange a) _ _ _ cs0), run_bind_fmap, run_fmap_bind.
  destruct (m_observe_raws _ _ _ _ _ _) as [[bars cs1]|]; [|done]. simpl.
  destruct (flush_through (order bars) bars bucket) as [snaps bars'].
  destruct (upsert_snapshots repo snaps w) as [r w1].
  pose proof (funding_step_bare (ad_exchange a) repo (ad_fetch_funding a ids bucket)
    (funding_cursor st)
    ((cs1 ++ [set_leader (match lease with Some l => l w | None => true end)])
     ++ on_ok r (inc_snapshots (code (ad_exchange a)) (Z.of_nat (length snaps)))) w1) as Hf.
  destruct (m_funding_step _ _ _ _ _ _) as [[cursor cs2] w2]. simpl in Hf. rewrite <- Hf.
  by destruct (refresh_step _ _ _ _ _ _) as [[ms symbols] w3].
Qed.

Lemma loop_run_bare {W} (repo : OiRepository W) lease order minutes st cs w :
  bare <$> m_loop_run repo lease order minutes st cs w = loop_run repo order minutes st w.
Proof.
  revert st cs w. induction minutes as [|m minutes IH]; intros st cs w; [done|].
  cbn [m_loop_run loop_run]. rewrite run_bind_fmap.
  rewrite <- (loop_iteration_bare repo (mn_adapter m) lease order _ _ _ cs), run_fmap_bind.
  destruct (m_loop_iteration _ _ _ _ _ _ _ _ _) as [[[st' cs'] w']|]; [apply IH|done].
Qed.

(** * The counters are what the repository accepted *)

Record Accepted := mkAccepted { ac_bars : Z; ac_funding : Z; ac_events : Z }.

(** The repository, counting for itself. *)
Definition counting {W} (repo : OiRepository W) : OiRepository (Accepted * W) :=
  let count {A} (n : list A → Accepted → Accepted) (f : list A → SE W CoreError unit) (l : list A)
    : SE (Accepted * W) CoreError unit := λ aw,
    let '(r, w) := f l aw.2 in (r, (match r with Ok _ => n l aw.1 | Err _ => aw.1 end, w)) in
  {| upsert_snapshots := count (λ l a, mkAccepted (ac_bars a + Z.of_nat (length l)) (ac_funding a)
                                         (ac_events a)) (upsert_snapshots repo);
     upsert_instruments metas := se_snd (upsert_instruments repo metas);
     range i from to := se_snd (range repo i from to);
     latest i := se_snd (latest repo i);
     upsert_funding := count (λ l a, mkAccepted (ac_bars a) (ac_funding a + Z.of_nat (length l))
                                       (ac_events a)) (upsert_funding repo);
     funding_range i from to := se_snd (funding_range repo i from to);
     latest_funding i := se_snd (latest_funding repo i);
     upsert_funding_events := count (λ l a, mkAccepted (ac_bars a) (ac_funding a)
                                (ac_events a + Z.of_nat (length l))) (upsert_funding_events repo);
     funding_events_range i from to := se_snd (funding_events_range repo i from to);
     latest_funding_event i := se_snd (latest_funding_event repo i) |}.

Definition snapshots_key (ex : Exchange) : Key :=
  ("oi_snapshots_written_total", [("exchange", code ex)])%string.
Definition funding_key (ex : Exchange) : Key :=
  ("oi_funding_written_total", [("exchange", code ex)])%string.
Definition events_key (ex : Exchange) : Key :=
  ("oi_funding_events_written_total", [("exchange", code ex)])%string.
Definition leader_key : Key := ("oi_leader"%string, []).
Definition rest_errors : Calls → Z := named_total "oi_rest_errors_total".
Definition fallbacks : Calls → Z := named_total "oi_price_fallback_total".

(** What the counters of an exchange say, and what they should. *)
Definition shown (ex : Exchange) (cs : Calls) : Accepted :=
  mkAccepted (total (snapshots_key ex) cs) (total (funding_key ex) cs) (total (events_key ex) cs).
Definition plus (a b : Accepted) : Accepted :=
  mkAccepted (ac_bars a + ac_bars b) (ac_funding a + ac_funding b) (ac_events a + ac_events b).

Lemma shown_app ex cs1 cs2 : shown ex (cs1 ++ cs2) = plus (shown ex cs1) (shown ex cs2).
Proof. unfold shown, plus. by rewrite !total_app. Qed.
Lemma plus_assoc a b c : plus a (plus b c) = plus (plus a b) c.
Proof. unfold plus. simpl. f_equal; lia. Qed.
Lemma plus_zero a : plus a (mkAccepted 0 0 0) = a.
Proof. destruct a. unfold plus. simpl. f_equal; lia. Qed.

Lemma zero_plus a : plus (mkAccepted 0 0 0) a = a.
Proof. by destruct a. Qed.

Lemma shown_one ex c :
  shown ex [c] =
  mkAccepted (increment_of (snapshots_key ex) c) (increment_of (funding_key ex) c)
    (increment_of (events_key ex) c).
Proof. unfold shown. simpl. by rewrite !Z.add_0_r. Qed.
Lemma shown_snapshots ex n : shown ex [inc_snapshots (code ex) n] = mkAccepted n 0 0.
Proof. rewrite shown_one. decide_keys. Qed.
Lemma shown_funding ex n : shown ex [inc_funding (code ex) n] = mkAccepted 0 n 0.
Proof. rewrite shown_one. decide_keys. Qed.
Lemma shown_events ex n : shown ex [inc_funding_events (code ex) n] = mkAccepted 0 0 n.
Proof. rewrite shown_one. decide_keys. Qed.
Lemma shown_rest_error ex ex' kind : shown ex [inc_rest_error ex' kind] = mkAccepted 0 0 0.
Proof. rewrite shown_one. decide_keys. Qed.
Lemma shown_fallback ex t d q : shown ex [inc_price_fallback t d q] = mkAccepted 0 0 0.
Proof. rewrite shown_one. decide_keys. Qed.
Lemma shown_leader ex b : shown ex [set_leader b] = mkAccepted 0 0 0.
Proof. by rewrite shown_one. Qed.

(** The readings of a minute whose price is borrowed from another venue. *)
Definition borrowed (ms : list InstrumentMeta) (p : InMemoryPriceProvider) (r : RawOi) : bool :=
  match List.find (λ m, bool_decide (meta_id m = raw_instrument r)) ms with
  | Some meta =>
      match price_usd_with_fallback p (raw_instrument r) (base_asset meta) (quote_asset meta)
              (raw_bucket_ts r) with
      | Some (_, Fallback _ _) => true
      | _ => false
      end
  | None => false
  end.
Definition count_if {A} (f : A → bool) (l : list A) : Z :=
  foldr (λ x n, (if f x then 1 else 0) + n) 0 l.

(** What calls say about a minute: rows, errors, borrowed prices, the lead. *)
Definition says (ex : Exchange) (new : Calls) (acc : Accepted) (errors borrows : Z)
    (lead : option Reading) : Prop :=
  shown ex new = acc ∧ rest_errors new = errors ∧ fallbacks new = borrows
  ∧ gauge leader_key new = lead.
Lemma says_app ex cs1 cs2 a1 e1 b1 l1 a2 e2 b2 l2 :
  says ex cs1 a1 e1 b1 l1 → says ex cs2 a2 e2 b2 l2 →
  says ex (cs1 ++ cs2) (plus a1 a2) (e1 + e2) (b1 + b2) (match l2 with Some v => Some v | None => l1 end).
Proof.
  intros (<- & <- & <- & <-) (<- & <- & <- & <-). split; [apply shown_app|].
  split; [apply named_total_app|]. split; [apply named_total_app|]. apply gauge_app.
Qed.
Lemma says_nil ex : says ex [] (mkAccepted 0 0 0) 0 0 None.
Proof. done. Qed.
Lemma says_rest_error ex ex' kind : says ex [inc_rest_error ex' kind] (mkAccepted 0 0 0) 1 0 None.
Proof. split; [apply shown_rest_error|done]. Qed.
Lemma says_leader ex b : says ex [set_leader b] (mkAccepted 0 0 0) 0 0
  (Some (Exactly (if b then 1 else 0))).
Proof. split; [apply shown_leader|done]. Qed.

Lemma observe_raws_says ex ms p bars cs raw bars' cs' :
  m_observe_raws ex ms p bars cs raw = Ret (bars', cs') →
  ∃ new, cs' = cs ++ new ∧ says ex new (mkAccepted 0 0 0) 0 (count_if (borrowed ms p) raw) None.
Proof.
  revert bars cs. induction raw as [|r raw IH]; intros bars cs; cbn [m_observe_raws].
  { intros [= <- <-]. exists []. by rewrite app_nil_r. }
  assert (H : ∀ o, m_observe_raw ex ms p bars cs r = Ret o → ∃ new, o.2 = cs ++ new
    ∧ says ex new (mkAccepted 0 0 0) 0 (if borrowed ms p r then 1 else 0) None).
  { intros o. unfold m_observe_raw, borrowed, m_price. destruct (List.find _ ms) as [meta|].
    2:{ intros [= <-]. exists []. by rewrite app_nil_r. }
    destruct (price_usd_with_fallback _ _ _ _ _) as [[price [|from q]]|];
      (destruct (enrich r meta _) as [s|]; [|done]); intros [= <-]; eexists; (split; [done|]);
      [done| |done].
    split; [apply shown_fallback|done]. }
  destruct (m_observe_raw ex ms p bars cs r) as [o|]; [|done].
  destruct (H o eq_refl) as (n1 & E1 & S1). simpl. intros (n2 & E2 & S2)%IH.
  exists (n1 ++ n2). rewrite E2, E1, app_assoc. split; [done|].
  exact (says_app _ _ _ _ _ _ _ _ _ _ _ S1 S2).
Qed.

Lemma on_ok_says {A} ex (r : result CoreError A) c a :
  says ex [c] a 0 0 None →
  says ex (on_ok r c) (match r with Ok _ => a | Err _ => mkAccepted 0 0 0 end) 0 0 None.
Proof. intros H. by destruct r. Qed.

Definition failed {E A} (r : result E A) : Z := match r with Ok _ => 0 | Err _ => 1 end.
Lemma funding_says {W} ex (repo : OiRepository W) fetched cursor cs acc w cursor' cs' acc' w' :
  m_funding_step ex (counting repo) fetched cursor cs (acc, w) = (cursor', cs', (acc', w')) →
  ∃ new a, cs' = cs ++ new ∧ acc' = plus acc a
    ∧ says ex new a (failed fetched) 0 None.
Proof.
  unfold m_funding_step. destruct fetched as [[|f fs]|e].
  - intros [= <- <- <- <-]. exists [], (mkAccepted 0 0 0). by rewrite app_nil_r, plus_zero.
  - set (l := f :: fs). destruct (derive_events cursor l) as [evs cur].
    assert (Hfund : ∀ cs1 acc1 w1 cursor' cs' acc' w',
      (let '(r, x) := upsert_funding (counting repo) l (acc1, w1) in
       (cur, cs1 ++ on_ok r (inc_funding (code ex) (Z.of_nat (length l))), x))
      = (cursor', cs', (acc', w')) →
      ∃ new a, cs' = cs1 ++ new ∧ acc' = plus acc1 a ∧ says ex new a 0 0 None).
    { intros cs1 acc1 w1 c2 cs2 acc2 w2. cbn [upsert_funding counting snd fst].
      destruct (upsert_funding repo l w1) as [r w3]. intros [= <- <- <- <-].
      eexists _, _. split; [done|]. split; [|apply on_ok_says; split; [apply shown_funding|done]].
      destruct r; [|by rewrite plus_zero]. unfold plus. simpl. f_equal; lia. }
    destruct evs as [|ev evs]; [apply Hfund|].
    cbn [upsert_funding_events counting snd fst].
    destruct (upsert_funding_events repo (ev :: evs) w) as [r w1].
    intros (n2 & a2 & -> & -> & S2)%Hfund.
    set (n1 := on_ok r _). assert (S1 : says ex n1 (match r with Ok _ =>
      mkAccepted 0 0 (Z.of_nat (length (ev :: evs))) | Err _ => mkAccepted 0 0 0 end) 0 0 None)
      by (apply on_ok_says; split; [apply shown_events|done]).
    eexists (n1 ++ n2), _. split; [by rewrite app_assoc|]. split; [|exact (says_app _ _ _ _ _ _ _ _ _ _ _ S1 S2)].
    rewrite plus_assoc. f_equal. destruct r; [|by rewrite plus_zero]. unfold plus. simpl. f_equal; lia.
  - intros [= <- <- <- <-]. eexists _, (mkAccepted 0 0 0). split; [done|].
    split; [by rewrite plus_zero|]. apply says_rest_error.
Qed.

(** The fetches of a minute that fail; funding is asked only after the readings. *)
Definition failed_fetches (a : ExchangeAdapter) (ids : list InstrumentId) (bucket : OffsetDateTime) : Z :=
  failed (ad_fetch_prices a ids)
  + match ad_fetch_oi a ids bucket with
    | Ok _ => failed (ad_fetch_funding a ids bucket)
    | Err _ => 1
    end.
Definition minute_prices (a : ExchangeAdapter) (st : LoopState) : InMemoryPriceProvider :=
  match ad_fetch_prices a (active_ids (metas st)) with
  | Ok quotes => ingest (loop_prices st) quotes
  | Err _ => loop_prices st
  end.

Lemma refresh_keeps {W} (repo : OiRepository W) a due ms sy acc w o acc' w' :
  refresh_step (counting repo) a due ms sy (acc, w) = (o, (acc', w')) → acc' = acc.
Proof.
  unfold refresh_step. destruct due; [|by intros [= _ <- _]].
  destruct (ad_discover_instruments a) as [m|e]; [|by intros [= _ <- _]].
  cbn [upsert_instruments counting]. unfold se_snd. cbn [fst snd].
  destruct (upsert_instruments repo m w). by intros [= _ <- _].
Qed.

Lemma iteration_says {W} (repo : OiRepository W) a lease order due bucket st cs acc w st' cs' acc' w' :
  m_loop_iteration (counting repo) a lease order due bucket st cs (acc, w) = Ret (st', cs', (acc', w')) →
  let ids := active_ids (metas st) in
  ∃ new got, cs' = cs ++ new ∧ acc' = plus acc got
    ∧ says (ad_exchange a) new got (failed_fetches a ids bucket)
        (match ad_fetch_oi a ids bucket with
         | Ok raw => count_if (borrowed (metas st) (minute_prices a st)) raw
         | Err _ => 0
         end)
        (match ad_fetch_oi a ids bucket with
         | Ok _ => Some (Exactly (if match lease with Some l => l (acc, w) | None => true end
                                  then 1 else 0))
         | Err _ => None
         end).
Proof.
  unfold m_loop_iteration, failed_fetches, minute_prices. set (ids := active_ids _).
  set (ex := ad_exchange a). intros H. cbv zeta.
  assert (∃ n0 p, match ad_fetch_prices a ids with
      | Ok quotes => (ingest (loop_prices st) quotes, cs)
      | Err e => (loop_prices st, cs ++ [inc_rest_error (code ex) (classify_err e)])
      end = (p, cs ++ n0)
    ∧ p = match ad_fetch_prices a ids with Ok q => ingest (loop_prices st) q
                                         | Err _ => loop_prices st end
    ∧ says ex n0 (mkAccepted 0 0 0) (failed (ad_fetch_prices a ids)) 0 None)
    as (n0 & p & Hp & Ep & S0).
  { destruct (ad_fetch_prices a ids) as [q|e].
    - exists [], (ingest (loop_prices st) q). by rewrite app_nil_r.
    - eexists _, _. split; [done|]. split; [done|]. apply says_rest_error. }
  rewrite Hp in H. rewrite <- Ep. clear Hp Ep. cbv beta iota zeta in H.
  destruct (ad_fetch_oi a ids bucket) as [raw|e].
  2:{ injection H as <- <- <- <-. eexists (n0 ++ [_]), (mkAccepted 0 0 0).
      split; [by rewrite app_assoc|]. split; [by rewrite plus_zero|].
      exact (says_app _ _ _ _ _ _ _ _ _ _ _ S0 (says_rest_error _ _ _)). }
  destruct (m_observe_raws ex (metas st) p (loop_bars st) (cs ++ n0) raw) as [[bars cs1]|] eqn:Eo;
    [|done].
  apply observe_raws_says in Eo as (n1 & -> & S1). cbn beta iota in H. simpl in H.
  destruct (flush_through (order bars) bars bucket) as [snaps bars'].
  destruct (upsert_snapshots repo snaps w) as [r w1]. cbn [fst snd] in H.
  set (n2 := [set_leader _]) in H. set (n3 := on_ok r _) in H.
  destruct (m_funding_step ex (counting repo) _ _ _ _) as [[cursor cs2] [acc2 w2]] eqn:Ef.
  apply funding_says in Ef as (n4 & got & -> & Hacc & S4).
  assert (S2 : says ex n2 (mkAccepted 0 0 0) 0 0 _) by apply says_leader.
  assert (S3 : says ex n3 (match r with Ok _ => mkAccepted (Z.of_nat (length snaps)) 0 0
                                      | Err _ => mkAccepted 0 0 0 end) 0 0 None)
    by (apply on_ok_says; split; [apply shown_snapshots|done]).
  destruct (refresh_step (counting repo) a due _ _ _) as [[ms sy] [acc3 w3]] eqn:Er.
  apply refresh_keeps in Er as ->. injection H as <- <- <- <-.
  pose proof (says_app _ _ _ _ _ _ _ _ _ _ _ S0 (says_app _ _ _ _ _ _ _ _ _ _ _ S1
    (says_app _ _ _ _ _ _ _ _ _ _ _ S2 (says_app _ _ _ _ _ _ _ _ _ _ _ S3 S4)))) as S.
  rewrite !zero_plus, !Z.add_0_l, !Z.add_0_r in S.
  eexists (n0 ++ n1 ++ n2 ++ n3 ++ n4), _. split; [by rewrite !app_assoc|]. split; [|exact S].
  rewrite Hacc, plus_assoc. f_equal. destruct r; [|by rewrite plus_zero].
  unfold plus. simpl. f_equal; lia.
Qed.

(** C15. The collector's counters are what the repository accepted.  A task of
    the minute loop with its metrics does to its state and its repository exactly
    what the bare loop does; over any sequence of minutes the written counters of
    its exchange (bars, funding rates, settlement events) grow by what the
    repository accepted, counted by the repository itself, refused writes not
    included; and in every minute the error counters grow by the number of
    fetches that failed, the fallback counters by the number of readings whose
    price was borrowed, and the leader gauge is set to the lead as it is just
    before the write, but only if the readings were fetched. *)
Theorem minute_metrics_account {W} (repo : OiRepository W) order :
  (∀ lease minutes st cs w,
     bare <$> m_loop_run repo lease order minutes st cs w = loop_run repo order minutes st w)
  ∧ (∀ lease ex minutes st w st' cs acc w',
       Forall (λ m, ad_exchange (mn_adapter m) = ex) minutes →
       m_loop_run (counting repo) lease order minutes st [] (mkAccepted 0 0 0, w)
         = Ret (st', cs, (acc, w')) →
       shown ex cs = acc)
  ∧ ∀ lease a due bucket st cs acc w st' cs' acc' w',
      m_loop_iteration (counting repo) a lease order due bucket st cs (acc, w)
        = Ret (st', cs', (acc', w')) →
      let ids := active_ids (metas st) in
      rest_errors cs' = rest_errors cs + failed_fetches a ids bucket
      ∧ fallbacks cs' = fallbacks cs
          + match ad_fetch_oi a ids bucket with
            | Ok raw => count_if (borrowed (metas st) (minute_prices a st)) raw
            | Err _ => 0
            end
      ∧ gauge leader_key cs'
        = match ad_fetch_oi a ids bucket with
          | Ok _ => Some (Exactly (if match lease with Some l => l (acc, w) | None => true end
                                   then 1 else 0))
          | Err _ => gauge leader_key cs
          end.
Proof.
  split; [intros; apply loop_run_bare|]. split.
  - intros lease ex minutes st w st' cs acc w' Hm H.
    assert (Hg : ∀ minutes st cs0 acc0 w st' cs acc w', Forall (λ m, ad_exchange (mn_adapter m) = ex) minutes →
      m_loop_run (counting repo) lease order minutes st cs0 (acc0, w) = Ret (st', cs, (acc, w')) →
      shown ex cs0 = acc0 → shown ex cs = acc).
    { clear. induction minutes as [|m minutes IH]; intros st cs0 acc0 w st' cs acc w' Hm.
      { intros [= <- <- <- <-]. done. }
      apply Forall_cons in Hm as [He Hm]. cbn [m_loop_run].
      destruct (m_loop_iteration _ _ _ _ _ _ _ _ _) as [[[st1 cs1] [acc1 w1]]|] eqn:E; [|done].
      apply iteration_says in E as (new & got & -> & -> & (Hs & _)). simpl. intros H Hc.
      eapply IH; [done|exact H|]. by rewrite shown_app, Hc, <- He, Hs. }
    by eapply Hg.
  - intros lease a due bucket st cs acc w st' cs' acc' w' H. cbv zeta.
    apply iteration_says in H as (new & got & -> & -> & (_ & He & Hf & Hl)).
    unfold rest_errors, fallbacks in *. rewrite !named_total_app, He, Hf, gauge_app, Hl.
    split; [done|]. split; [done|]. by destruct (ad_fetch_oi _ _ _).
Qed.
End metered.

(** * The other tasks *)

Section tasks.
Context {DL : DecimalLib} {TL : TimeLib}.

(** A sweep cycle of a leader counts the events it fetched. *)
Definition m_sweep_cycle {W} (ex : Exchange) (is_leader : bool) (interval : Z)
    (sweep : W → Sweep.SweepStats * W) (cs : Calls) (w : W) : Z * Calls * W :=
  if is_leader then
    let '(stats, w) := sweep w in
    (if Sweep.WAF_BAN_THRESHOLD <=? Sweep.auth_failures stats then Sweep.WAF_COOLDOWN else interval,
     cs ++ [inc_funding_events (code ex) (Sweep.events stats)], w)
  else (interval, cs, w).

Lemma sweep_cycle_bare {W} ex is_leader interval (sweep : W → Sweep.SweepStats * W) cs w :
  let o := m_sweep_cycle ex is_leader interval sweep cs w in
  (o.1.1, o.2) = Sweep.sweep_cycle is_leader interval sweep w
  ∧ total (events_key ex) o.1.2
    = total (events_key ex) cs + (if is_leader then Sweep.events (sweep w).1 else 0).
Proof.
  unfold m_sweep_cycle, Sweep.sweep_cycle. destruct is_leader; [|split; [done|simpl; lia]].
  destruct (sweep w) as [stats w']. split; [done|]. cbn [fst snd]. rewrite total_snoc. decide_keys.
Qed.

Context {SC : SnapCodec} {W : Type} (publisher : RedisConn W) (lease : option (W → bool)).

Definition venue_name (v : Live.LiveVenue) : string :=
  match v with
  | Live.LiveBybit => "bybit" | Live.LiveOkx => "okx" | Live.LiveBitget => "bitget"
  | Live.LiveHyperliquid => "hyperliquid"
  end.

(** The end of every live handler: a publish that succeeds is counted. *)
Definition m_fold_sample (v : Live.LiveVenue) (st : OiAggregator * Calls * W) (sample : OiSample)
  : OiAggregator * Calls * W :=
  let '(agg, cs, w) := st in
  let '(bar, agg) := agg_observe agg sample in
  if negb (Live.may_publish lease w) then (agg, cs, w)
  else let '(r, w) := publish publisher [bar] w in
       (agg, cs ++ on_ok r (inc_live_publishes (venue_name v) 1), w).

Definition live_key (v : Live.LiveVenue) : Key :=
  ("oi_live_publishes_total", [("exchange", venue_name v)])%string.

Lemma fold_sample_bare v agg cs w s :
  let o := m_fold_sample v (agg, cs, w) s in
  (o.1.1, o.2) = Live.fold_sample publisher lease (agg, w) s
  ∧ total (live_key v) cs ≤ total (live_key v) o.1.2 ≤ total (live_key v) cs + 1
  ∧ (Live.may_publish lease w = true → (∀ b, (publish publisher [b] w).1 = Ok tt) →
     total (live_key v) o.1.2 = total (live_key v) cs + 1).
Proof.
  unfold m_fold_sample, Live.fold_sample. destruct (agg_observe agg s) as [bar agg'].
  destruct (Live.may_publish lease w); [|split; [done|]; simpl; split; [lia|done]].
  cbn [negb]. destruct (publish publisher [bar] w) as [r w'] eqn:Ep. cbn [fst snd].
  assert (Ht : total (live_key v) (cs ++ on_ok r (inc_live_publishes (venue_name v) 1))
    = total (live_key v) cs + match r with Ok _ => 1 | Err _ => 0 end).
  { rewrite total_app. destruct r; decide_keys. }
  rewrite Ht. split; [done|]. split; [destruct r; lia|].
  intros _ Hp. specialize (Hp bar). rewrite Ep in Hp. simpl in Hp. by subst r.
Qed.

(** The counter is at most the number of samples, and exactly it when every
    publish is allowed and succeeds. *)
Lemma fold_samples_bare v samples agg cs w :
  let o := foldl (m_fold_sample v) (agg, cs, w) samples in
  (o.1.1, o.2) = foldl (Live.fold_sample publisher lease) (agg, w) samples
  ∧ total (live_key v) cs ≤ total (live_key v) o.1.2
    ≤ total (live_key v) cs + Z.of_nat (length samples)
  ∧ ((∀ w, Live.may_publish lease w = true) → (∀ b w, (publish publisher [b] w).1 = Ok tt) →
     total (live_key v) o.1.2 = total (live_key v) cs + Z.of_nat (length samples)).
Proof.
  revert agg cs w. induction samples as [|s samples IH]; intros agg cs w; cbn [foldl].
  { split; [done|]. simpl. split; lia. }
  destruct (fold_sample_bare v agg cs w s) as (H1 & H2 & H3).
  destruct (m_fold_sample v (agg, cs, w) s) as [[agg1 cs1] w1]. cbn [fst snd] in *.
  rewrite <- H1. destruct (IH agg1 cs1 w1) as (H4 & H5 & H6). cbn [length].
  split; [done|]. split; [lia|]. intros Hm Hp. rewrite H6, H3 by auto. lia.
Qed.
End tasks.

(** ** The WebSocket supervisor *)

Section supervisor.
Context {JL : JsonLib} {W : Type} (send : WsClient.OutMsg → SE W string unit).

(** [handler.name()] is [name]; every connection that ends is counted. *)
Definition oi_ws_reconnects_total (name : string) : Key :=
  ("oi_ws_reconnects_total", [("handler", name)])%string.
Fixpoint m_run_supervisor (name : string) (h : WsClient.WsHandler) (backoff : nat → option Z)
    (turn : nat) (attempts : list WsClient.Attempt) (cs : Calls) (w : W)
  : WsClient.Supervised * Calls * W :=
  match attempts with
  | [] => (WsClient.mkSupervised [] [] [] false, cs, w)
  | a :: attempts' =>
      if WsClient.tx_closed a then (WsClient.mkSupervised [] [] [] true, cs, w)
      else
        let '(frames, o, w) := WsClient.connect_once send h a w in
        let cs := cs ++ [Increment (oi_ws_reconnects_total name) 1] in
        let delay := default (dur_seconds 30) (backoff turn) in
        let '(s, cs, w) := m_run_supervisor name h backoff (S turn) attempts' cs w in
        (WsClient.mkSupervised (frames ++ WsClient.delivered s) (o :: WsClient.outcomes s)
           (delay :: WsClient.delays s) (WsClient.stopped s), cs, w)
  end.

Lemma supervisor_bare name h backoff turn attempts cs w :
  let o := m_run_supervisor name h backoff turn attempts cs w in
  (o.1.1, o.2) = WsClient.run_supervisor send h backoff turn attempts w
  ∧ total (oi_ws_reconnects_total name) o.1.2
    = total (oi_ws_reconnects_total name) cs + Z.of_nat (length (WsClient.outcomes o.1.1)).
Proof.
  revert turn cs w. induction attempts as [|a attempts IH]; intros turn cs w;
    cbn [m_run_supervisor WsClient.run_supervisor]; [split; [done|simpl; lia]|].
  destruct (WsClient.tx_closed a); [split; [done|simpl; lia]|].
  destruct (WsClient.connect_once send h a w) as [[frames o] w1].
  destruct (IH (S turn) (cs ++ [Increment (oi_ws_reconnects_total name) 1]) w1) as [H1 H2].
  destruct (m_run_supervisor name h backoff (S turn) attempts _ w1) as [[s cs2] w2].
  cbn [fst snd] in *. rewrite <- H1. split; [done|]. rewrite H2, total_snoc.
  cbn [WsClient.outcomes length]. decide_keys. lia.
Qed.
End supervisor.

(** * Two concrete minutes *)

(** One that writes a bar, and one in which the venue is away. *)
Definition ex_away : ExchangeAdapter (DL := z_decimal) (TL := z_time) :=
  {| ad_exchange := Binance; ad_discover_instruments := Ok [];
     ad_fetch_oi _ _ := Err (Transient "http" ""); ad_fetch_prices _ := Err (RateLimited None);
     ad_fetch_funding _ _ := Ok []; ad_fetch_funding_history _ _ := Ret (Ok []) |}.
Definition ex_two : list (Minute (DL := z_decimal) (TL := z_time)) :=
  [mkMinute (DL := z_decimal) (TL := z_time) ex_adapter false 0;
   mkMinute (DL := z_decimal) (TL := z_time) ex_away false 60000000000].

Lemma minute_metrics_account_witness :
  ∃ st cs w, m_loop_run (counting ex_repo) (Some (λ _, true)) map_to_list ex_two ex_state []
      (mkAccepted 0 0 0, []) = Ret (st, cs, (mkAccepted 1 0 0, w))
    ∧ total (snapshots_key Binance) cs = 1 ∧ rest_errors cs = 2
    ∧ gauge leader_key cs = Some (Exactly 1).
Proof.
  destruct (minute_metrics_account (DL := z_decimal) (TL := z_time) ex_repo map_to_list) as (_ & H & _).
  eexists _, _, _. split; [reflexivity|].
  assert (Hs := H (Some (λ _, true)) Binance ex_two ex_state [] _ _ _ _
    ltac:(repeat constructor) eq_refl).
  split; [exact (f_equal ac_bars Hs)|]. split; reflexivity.
Defined.
