(* ===== verification/SysMetrics.v ===== *)
(** The system-metrics endpoint of [oi-api/src/sysmetrics.rs]: the figures it
    derives from one reading of the operating system, in 64-bit integers and
    32-bit floats ([SpecFloat] with a 24-bit significand), and the lock-free
    maximum [CPU_PEAK_CENTI] that concurrent requests update with a
    compare-and-exchange loop. *)

From Stdlib Require Import ZArith Lia String.
From Stdlib Require Import Floats.SpecFloat.
From stdpp Require Import base option list strings gmap relations.
From S2P Require Import Prelude Domain.
Open Scope Z_scope.
Open Scope oi_scope.

(** * f32 *)

Definition F32 : Type := spec_float.
Definition f32_prec : Z := 24.
Definition f32_emax : Z := 128.
Definition f32_mul : F32 → F32 → F32 := SFmul f32_prec f32_emax.
Definition f32_div : F32 → F32 → F32 := SFdiv f32_prec f32_emax.
(** [n as f32] for an unsigned integer: to nearest, ties to even. *)
Definition f32_of_int (n : Z) : F32 := binary_normalize f32_prec f32_emax n 0 false.
Definition f32_zero : F32 := S754_zero false.
Definition f32_hundred : F32 := f32_of_int 100.

(** [x.round() as u32]: to nearest, ties away from zero; the cast saturates and
    sends NaN to zero. *)
Definition round_as_u32 (x : F32) : Z :=
  match x with
  | S754_finite false m e =>
      let n := if 0 <=? e then Z.shiftl (Z.pos m) e
               else Z.shiftr (Z.pos m + Z.shiftl 1 (- e - 1)) (- e) in
      Z.min n u32_max
  | S754_infinity false => u32_max
  | _ => 0
  end.

(** * One reading *)

Record DiskReading := mkDiskReading {
  mount_point : string; total_space : Z; available_space : Z }.
(** What [sysinfo] reports, and what ClickHouse answers about its tables. *)
Record TableSize := mkTableSize {
  ts_table : string; ts_rows : Z; ts_compressed : Z; ts_uncompressed : Z }.
Record SysReading := mkReading {
  host_name : option string;
  sys_uptime : Z;
  cpus_len : Z;
  global_cpu_usage : F32;
  load_average : spec_float * spec_float * spec_float;
  total_memory : Z;
  available_memory : Z;
  disks_list : list DiskReading;
}.

Record TableUsage := mkUsage {
  u_table : string; u_rows : Z; u_compressed_bytes : Z; u_uncompressed_bytes : Z }.
Record CpuMetrics := mkCpu {
  cores : Z; usage_pct : F32; peak_pct : F32;
  load1 : spec_float; load5 : spec_float; load15 : spec_float }.
Record MemMetrics := mkMem {
  m_total_bytes : Z; m_used_bytes : Z; m_available_bytes : Z; m_used_pct : F32 }.
Record DiskMetrics := mkDiskMetrics {
  d_mount : string; d_total_bytes : Z; d_used_bytes : Z; d_free_bytes : Z; d_used_pct : F32 }.
Record SystemMetrics := mkMetrics {
  hostname : string; uptime_secs : Z; cpu : CpuMetrics; mem : MemMetrics;
  disk : DiskMetrics; tables : list TableUsage }.

Definition num_cpus (len : Z) : Z := if len =? 0 then 1 else len.

Definition pct (used total : Z) : F32 :=
  if 0 <? total
  then f32_mul (f32_div (f32_of_int used) (f32_of_int total)) f32_hundred
  else f32_zero.

Definition mem_metrics (total avail : Z) : MemMetrics :=
  let used := saturating_sub total avail in
  mkMem total used avail (pct used total).

Definition disk_candidate (d : DiskReading) : DiskMetrics :=
  let used := saturating_sub (total_space d) (available_space d) in
  mkDiskMetrics (mount_point d) (total_space d) used (available_space d) (pct used (total_space d)).
(** The loop over the mounts: strictly larger replaces. *)
Definition best_step (best : option DiskMetrics) (d : DiskReading) : option DiskMetrics :=
  let cand := disk_candidate d in
  match best with
  | None => Some cand
  | Some b => if d_total_bytes b <? d_total_bytes cand then Some cand else best
  end.
Definition best_disk (ds : list DiskReading) : DiskMetrics :=
  match foldl best_step None ds with
  | Some d => d
  | None => mkDiskMetrics "unknown" 0 0 0 f32_zero
  end.

(** [None]: no client was wired; a failed query gives no tables either. *)
Definition table_usage (answer : option (result CoreError (list TableSize))) : list TableUsage :=
  match answer with
  | Some (Ok rows) =>
      (λ r, mkUsage (ts_table r) (ts_rows r) (ts_compressed r) (ts_uncompressed r)) <$> rows
  | Some (Err _) | None => []
  end.

Definition centi_of (usage : F32) : Z := round_as_u32 (f32_mul usage f32_hundred).
Definition peak_of_centi (centi : Z) : F32 := f32_div (f32_of_int centi) f32_hundred.

(** The handler, given the value the final load of the peak returned. *)
Definition system_metrics (r : SysReading) (answer : option (result CoreError (list TableSize)))
    (peak_centi : Z) : SystemMetrics :=
  let '(one, five, fifteen) := load_average r in
  mkMetrics (default "unknown"%string (host_name r)) (sys_uptime r)
    (mkCpu (num_cpus (cpus_len r)) (global_cpu_usage r) (peak_of_centi peak_centi) one five fifteen)
    (mem_metrics (total_memory r) (available_memory r))
    (best_disk (disks_list r))
    (table_usage answer).

(** * The peak *)

(** What one request measured: its reading, and the answer about the tables. *)
Record SysRequest := mkRequest {
  rq_reading : SysReading; rq_tables : option (result CoreError (list TableSize)) }.
Definition rq_centi (q : SysRequest) : Z := centi_of (global_cpu_usage (rq_reading q)).

(** One request between its measurement and its answer: about to load, in the
    loop with the value it last saw, past the loop, answered with a body. *)
Inductive PeakTask :=
| PLoad (q : SysRequest)
| PLoop (q : SysRequest) (prev : Z)
| PRead (q : SysRequest)
| PDone (q : SysRequest) (body : SystemMetrics).

Definition task_centi (t : PeakTask) : Z :=
  match t with PLoad q | PLoop q _ | PRead q | PDone q _ => rq_centi q end.

(** The next atomic access of a request; [spurious] is the failure
    [compare_exchange_weak] may report although the value was as expected. *)
Definition peak_step (spurious : bool) (cell : Z) (t : PeakTask) : Z * PeakTask :=
  match t with
  | PLoad q => (cell, PLoop q cell)
  | PLoop q prev =>
      if prev <? rq_centi q then
        if (cell =? prev) && negb spurious then (rq_centi q, PRead q) else (cell, PLoop q cell)
      else (cell, PRead q)
  | PRead q => (cell, PDone q (system_metrics (rq_reading q) (rq_tables q) cell))
  | PDone q m => (cell, PDone q m)
  end.

(** Requests are never removed, so the tasks are the history of the process. *)
Record PeakState := mkPeak { peak_cell : Z; peak_tasks : gmap nat PeakTask }.

Inductive peak_trans : PeakState → PeakState → Prop :=
| pt_request s id q : peak_tasks s !! id = None →
    peak_trans s (mkPeak (peak_cell s) (<[id := PLoad q]> (peak_tasks s)))
| pt_step s id t spurious : peak_tasks s !! id = Some t →
    peak_trans s (let '(cell, t') := peak_step spurious (peak_cell s) t in
                  mkPeak cell (<[id := t']> (peak_tasks s))).

Definition peak_reachable (s : PeakState) : Prop := rtc peak_trans (mkPeak 0 ∅) s.

(** Past its compare-and-exchange loop. *)
Definition past_loop (t : PeakTask) : bool :=
  match t with PRead _ | PDone _ _ => true | PLoad _ | PLoop _ _ => false end.

(** * Lemmas *)

Lemma round_as_u32_range x : 0 ≤ round_as_u32 x ≤ u32_max.
Proof.
  assert (0 ≤ u32_max) by (unfold u32_max; lia).
  destruct x as [s|[]| |[] m e]; simpl; try lia.
  assert (H0 : 0 ≤ (if 0 <=? e then Z.shiftl (Z.pos m) e
                    else Z.shiftr (Z.pos m + Z.shiftl 1 (- e - 1)) (- e))).
  { destruct (0 <=? e); [by apply Z.shiftl_nonneg|].
    apply Z.shiftr_nonneg. pose proof (proj2 (Z.shiftl_nonneg 1 (- e - 1)) ltac:(lia)). lia. }
  lia.
Qed.

Lemma rq_centi_range q : 0 ≤ rq_centi q ≤ u32_max.
Proof. apply round_as_u32_range. Qed.

(** What each task knows of the cell. *)
Definition peak_task_ok (cell : Z) (t : PeakTask) : Prop :=
  match t with
  | PLoad _ => True
  | PLoop _ prev => prev ≤ cell
  | PRead q => rq_centi q ≤ cell
  | PDone q m => ∃ p, m = system_metrics (rq_reading q) (rq_tables q) p ∧ rq_centi q ≤ p ≤ cell
  end.
Definition peak_ok (s : PeakState) : Prop :=
  (∀ id t, peak_tasks s !! id = Some t → peak_task_ok (peak_cell s) t)
  ∧ (peak_cell s = 0 ∨ ∃ id t, peak_tasks s !! id = Some t ∧ task_centi t = peak_cell s).

Lemma peak_task_ok_mono cell cell' t : cell ≤ cell' → peak_task_ok cell t → peak_task_ok cell' t.
Proof. intros ?. destruct t; simpl; [lia..|]. intros (p & ? & ?). exists p. split; [done|lia]. Qed.

Lemma past_loop_le cell t : peak_task_ok cell t → past_loop t = true → task_centi t ≤ cell.
Proof. destruct t; simpl; try done. intros (p & _ & ?) _. lia. Qed.

Lemma task_centi_range t : 0 ≤ task_centi t ≤ u32_max.
Proof. destruct t; apply rq_centi_range. Qed.

Lemma peak_step_ok spurious cell t cell' t' :
  peak_task_ok cell t → peak_step spurious cell t = (cell', t') →
  cell ≤ cell' ∧ peak_task_ok cell' t' ∧ task_centi t' = task_centi t
  ∧ (cell' = cell ∨ cell' = task_centi t).
Proof.
  destruct t as [q|q prev|q|q m]; simpl; intros Ht.
  - intros [= <- <-]. repeat split; simpl; auto; lia.
  - destruct (Z.ltb_spec prev (rq_centi q)); [destruct (Z.eqb_spec cell prev), spurious|]; simpl;
      intros [= <- <-]; repeat split; simpl; auto; lia.
  - intros [= <- <-]. split; [lia|]. split; [|auto]. simpl. exists cell. split; [done|lia].
  - intros [= <- <-]. split; [lia|]. by split; [|auto].
Qed.

Lemma peak_ok_trans s s' : peak_trans s s' → peak_ok s → peak_ok s' ∧ peak_cell s ≤ peak_cell s'.
Proof.
  intros [s0 id q Hid|s0 id t spurious Hid] [Hall Hmax].
  - split; [|simpl; lia]. split; simpl.
    + intros i t. destruct (decide (i = id)) as [->|].
      * by rewrite lookup_insert_eq; intros [= <-].
      * rewrite lookup_insert_ne by done. apply Hall.
    + destruct Hmax as [->|(i & t & Hi & Ht)]; [by left|right]. exists i, t. split; [|done].
      rewrite lookup_insert_ne; [done|]. congruence.
  - destruct (peak_step spurious (peak_cell s0) t) as [cell t'] eqn:E.
    destruct (peak_step_ok _ _ _ _ _ (Hall id t Hid) E) as (Hle & Hok & Hcenti & Hcell).
    split; [|done]. split; simpl.
    + intros i u. destruct (decide (i = id)) as [->|].
      * rewrite lookup_insert_eq. by intros [= <-].
      * rewrite lookup_insert_ne by done. intros Hi. by eapply peak_task_ok_mono; [|apply (Hall i)].
    + destruct Hcell as [-> | ->].
      * destruct Hmax as [->|(i & u & Hi & Hu)]; [by left|right].
        destruct (decide (i = id)) as [->|].
        -- exists id, t'. rewrite lookup_insert_eq. split; [done|]. congruence.
        -- exists i, u. by rewrite lookup_insert_ne.
      * right. exists id, t'. by rewrite lookup_insert_eq.
Qed.

Lemma peak_ok_reachable s : peak_reachable s → peak_ok s.
Proof.
  assert (H0 : peak_ok (mkPeak 0 ∅)) by (split; [intros id t H; simpl in H; by rewrite lookup_empty in H|by left]).
  intros Hr. revert H0. unfold peak_reachable in Hr.
  induction Hr as [|s1 s2 s3 Hs _ IH]; [done|]. intros H. apply IH. by apply (peak_ok_trans _ _ Hs).
Qed.

Lemma peak_pct_answer r answer p :
  peak_pct (cpu (system_metrics r answer p)) = peak_of_centi p.
Proof. unfold system_metrics. by destruct (load_average r) as [[]]. Qed.

(** The step that answers a request answers the cell as it is then. *)
Lemma read_answer s s' id q body :
  peak_trans s s' → peak_tasks s !! id = Some (PRead q) →
  peak_tasks s' !! id = Some (PDone q body) →
  body = system_metrics (rq_reading q) (rq_tables q) (peak_cell s).
Proof.
  intros [s0 i q0 Hi|s0 i t spurious Hi] Hq.
  - simpl. rewrite lookup_insert_ne; congruence.
  - destruct (peak_step spurious (peak_cell s0) t) as [cell t'] eqn:E. simpl.
    destruct (decide (i = id)) as [->|].
    + rewrite lookup_insert_eq. intros [= ->]. rewrite Hq in Hi. injection Hi as <-.
      simpl in E. by injection E as _ <-.
    + rewrite lookup_insert_ne; congruence.
Qed.

(** C38. The reported peak is a maximum whatever requests overlap and however
    often an exchange fails. The cell never goes down and stays a 32-bit value.
    The answer a request takes is the response over its own reading whose peak
    percentage is the value [p] of the cell at its read: [p] is at least its own
    measurement, at least the measurement of every request that has passed its
    loop by then, at least the peak every earlier answer carried, and it is
    itself one of the measurements, or zero. Every answer given stays under the
    cell, and once no request is in flight the cell is at least every
    measurement there was. *)
Theorem peak_is_maximum s :
  peak_reachable s →
  0 ≤ peak_cell s ≤ u32_max
  ∧ (∀ s', peak_trans s s' → peak_cell s ≤ peak_cell s')
  ∧ (∀ s' id q body, peak_trans s s' →
       peak_tasks s !! id = Some (PRead q) → peak_tasks s' !! id = Some (PDone q body) →
       ∃ p, body = system_metrics (rq_reading q) (rq_tables q) p
         ∧ peak_pct (cpu body) = peak_of_centi p
         ∧ rq_centi q ≤ p
         ∧ (∀ id' t, peak_tasks s !! id' = Some t → past_loop t = true → task_centi t ≤ p)
         ∧ (∀ id' q' body', peak_tasks s !! id' = Some (PDone q' body') →
              ∃ p', body' = system_metrics (rq_reading q') (rq_tables q') p' ∧ p' ≤ p)
         ∧ (p = 0 ∨ ∃ id' t, peak_tasks s !! id' = Some t ∧ task_centi t = p))
  ∧ (∀ id q body, peak_tasks s !! id = Some (PDone q body) →
       ∃ p, body = system_metrics (rq_reading q) (rq_tables q) p ∧ rq_centi q ≤ p ≤ peak_cell s)
  ∧ ((∀ id t, peak_tasks s !! id = Some t → past_loop t = true) →
     ∀ id t, peak_tasks s !! id = Some t → task_centi t ≤ peak_cell s).
Proof.
  intros Hr. pose proof (peak_ok_reachable s Hr) as Hok. destruct (id Hok) as [Hall Hmax].
  split; [|split; [|split; [|split]]].
  - destruct Hmax as [->|(id & t & Ht & <-)]; [unfold u32_max; lia|]. apply task_centi_range.
  - intros s' Hs. by apply (peak_ok_trans _ _ Hs).
  - intros s' id q body Hs Hid Hid'. exists (peak_cell s).
    assert (Hb : body = system_metrics (rq_reading q) (rq_tables q) (peak_cell s))
      by exact (read_answer _ _ _ _ _ Hs Hid Hid').
    split; [done|]. split; [by rewrite Hb, peak_pct_answer|]. split; [apply (Hall _ _ Hid)|].
    split; [|split; [|done]].
    + intros id' t Ht. by apply past_loop_le, (Hall id').
    + intros id' q' body' Ht. destruct (Hall _ _ Ht) as (p' & -> & ?). exists p'. split; [done|lia].
  - intros id q body Ht. apply (Hall _ _ Ht).
  - intros Hdone id t Ht. by apply past_loop_le; [apply (Hall id)|apply (Hdone id)].
Qed.

(** The loop keeps a largest mount, the first of them. *)
Lemma best_disk_fold best ds b :
  foldl best_step best ds = Some b →
  (best = Some b ∧ ∀ d, d ∈ ds → total_space d ≤ d_total_bytes b)
  ∨ ∃ l1 d l2, ds = l1 ++ d :: l2 ∧ b = disk_candidate d
      ∧ (∀ d', d' ∈ l1 → total_space d' < total_space d)
      ∧ (∀ d', d' ∈ l2 → total_space d' ≤ total_space d)
      ∧ ∀ b0, best = Some b0 → d_total_bytes b0 < total_space d.
Proof.
  revert best. induction ds as [|x ds IH]; intros best; simpl.
  { intros ->. left. split; [done|]. by intros d ?%not_elem_of_nil. }
  intros H. destruct (IH _ H) as [[Hb Hle]|(l1 & d & l2 & -> & -> & H1 & H2 & H3)].
  - unfold best_step in Hb. destruct best as [b0|].
    + destruct (Z.ltb_spec (d_total_bytes b0) (total_space x)) as [Hlt|Hge]; simpl in Hb;
        [rewrite (proj2 (Z.ltb_lt _ _) Hlt) in Hb|rewrite (proj2 (Z.ltb_ge _ _) Hge) in Hb];
        injection Hb as <-.
      * right. exists [], x, ds. split; [done|]. split; [done|]. split; [by intros d ?%not_elem_of_nil|].
        split; [done|]. by intros b1 [= <-].
      * left. split; [done|]. intros d [->|Hd]%elem_of_cons; [done|by apply Hle].
    + injection Hb as <-. right. exists [], x, ds. split; [done|]. split; [done|].
      split; [by intros d ?%not_elem_of_nil|]. done.
  - right. exists (x :: l1), d, l2. split; [done|]. split; [done|].
    assert (Hx : ∀ b0, best_step best x = Some b0 → d_total_bytes b0 < total_space d) by auto.
    unfold best_step in Hx. split; [|split; [done|]].
    + intros d' [->|Hd]%elem_of_cons; [|by apply H1]. destruct best as [b0|]; simpl in Hx.
      * destruct (Z.ltb_spec (d_total_bytes b0) (total_space x)); [by apply (Hx _ eq_refl)|].
        specialize (Hx b0 eq_refl). lia.
      * by apply (Hx _ eq_refl).
    + intros b0 ->. simpl in Hx.
      destruct (Z.ltb_spec (d_total_bytes b0) (total_space x)).
      * specialize (Hx _ eq_refl). simpl in Hx. lia.
      * by apply Hx.
Qed.

Lemma best_disk_some ds b : foldl best_step (Some b) ds ≠ None.
Proof.
  revert b. induction ds as [|x ds IH]; intros b; [done|]. simpl. destruct (_ <? _); apply IH.
Qed.

Definition u64 (z : Z) : Prop := 0 ≤ z ≤ u64_max.
Definition reading_ok (r : SysReading) : Prop :=
  u64 (total_memory r) ∧ u64 (available_memory r) ∧ 0 ≤ cpus_len r
  ∧ ∀ d, d ∈ disks_list r → u64 (total_space d) ∧ u64 (available_space d).

Lemma system_metrics_mem r answer p :
  mem (system_metrics r answer p) = mem_metrics (total_memory r) (available_memory r)
  ∧ disk (system_metrics r answer p) = best_disk (disks_list r)
  ∧ cores (cpu (system_metrics r answer p)) = num_cpus (cpus_len r)
  ∧ tables (system_metrics r answer p) = table_usage answer.
Proof. unfold system_metrics. by destruct (load_average r) as [[]]. Qed.

(** The used part of a total, given what is free of it. *)
Definition used_of (total free used : Z) : Prop :=
  u64 used ∧ used ≤ total ∧ (free ≤ total → used + free = total) ∧ (total < free → used = 0).

Lemma used_of_sub a b : u64 a → u64 b → used_of a b (saturating_sub a b).
Proof. unfold used_of, u64, saturating_sub. lia. Qed.

Lemma best_disk_none ds : foldl best_step None ds = None → ds = [].
Proof. destruct ds as [|d ds]; [done|]. by intros H%best_disk_some. Qed.

Lemma pct_zero used total :
  0 ≤ total →
  pct used total = if total =? 0 then f32_zero
                   else f32_mul (f32_div (f32_of_int used) (f32_of_int total)) f32_hundred.
Proof. unfold pct. intros ?. destruct (Z.ltb_spec 0 total), (Z.eqb_spec total 0); done || lia. Qed.

(** C39. The reported figures stay within 64 bits and add up. For the memory and
    for every mount the used part is at most the total; together with the free
    part it is exactly the total, and when the system reports more free than
    total it is zero; a total of zero gives zero percent instead of a division,
    any other the ratio as a percentage. The totals and free parts are those of
    the reading. There is always at least one core, the number of the reading
    when it is not zero. The disk reported is the first of the mounts with the
    greatest total, and there is such a mount unless the list is empty, when it
    is the placeholder of zeros. A missing client or a failed query gives an
    empty table list, not an error, and a successful one lists every table. *)
Theorem system_metrics_bounds r answer p :
  reading_ok r →
  let s := system_metrics r answer p in
  (m_total_bytes (mem s) = total_memory r ∧ m_available_bytes (mem s) = available_memory r
   ∧ used_of (total_memory r) (available_memory r) (m_used_bytes (mem s))
   ∧ m_used_pct (mem s) =
       if total_memory r =? 0 then f32_zero
       else f32_mul (f32_div (f32_of_int (m_used_bytes (mem s))) (f32_of_int (total_memory r)))
              f32_hundred)
  ∧ 1 ≤ cores (cpu s) ∧ (cpus_len r ≠ 0 → cores (cpu s) = cpus_len r)
  ∧ (disks_list r = [] ∧ disk s = mkDiskMetrics "unknown" 0 0 0 f32_zero
     ∨ ∃ l1 d l2, disks_list r = l1 ++ d :: l2
       ∧ (∀ d', d' ∈ l1 → total_space d' < total_space d)
       ∧ (∀ d', d' ∈ l2 → total_space d' ≤ total_space d)
       ∧ d_mount (disk s) = mount_point d
       ∧ d_total_bytes (disk s) = total_space d ∧ d_free_bytes (disk s) = available_space d
       ∧ used_of (total_space d) (available_space d) (d_used_bytes (disk s))
       ∧ d_used_pct (disk s) =
           if total_space d =? 0 then f32_zero
           else f32_mul (f32_div (f32_of_int (d_used_bytes (disk s))) (f32_of_int (total_space d)))
                  f32_hundred)
  ∧ match answer with
    | Some (Ok rows) =>
        u_table <$> tables s = ts_table <$> rows ∧ u_rows <$> tables s = ts_rows <$> rows
        ∧ u_compressed_bytes <$> tables s = ts_compressed <$> rows
        ∧ u_uncompressed_bytes <$> tables s = ts_uncompressed <$> rows
    | Some (Err _) | None => tables s = []
    end.
Proof.
  intros (Ht & Ha & Hc & Hd). cbv zeta.
  destruct (system_metrics_mem r answer p) as (-> & -> & -> & ->).
  split; [|split; [|split; [|split]]].
  - simpl. do 2 (split; [done|]). split; [by apply used_of_sub|]. by apply pct_zero, Ht.
  - unfold num_cpus. destruct (Z.eqb_spec (cpus_len r) 0); lia.
  - unfold num_cpus. by destruct (Z.eqb_spec (cpus_len r) 0).
  - unfold best_disk. destruct (foldl best_step None (disks_list r)) as [b|] eqn:E;
      [|left; split; [by apply best_disk_none|done]].
    right. apply best_disk_fold in E as [[? _]|(l1 & d & l2 & Hl & -> & Hl1 & Hl2 & _)]; [done|].
    destruct (Hd d) as [Hdt Hda]; [rewrite Hl; set_solver|].
    exists l1, d, l2. do 6 (split; [done|]). split; [by apply used_of_sub|]. by apply pct_zero, Hdt.
  - destruct answer as [[rows|]|]; [|done..]. simpl.
    by rewrite <- !list_fmap_compose.
Qed.

(** * Concrete runs *)

Definition ex_f32 : F32 := f32_div (f32_of_int 371) (f32_of_int 10).
Example round_half_up : round_as_u32 (f32_mul ex_f32 f32_hundred) = 3710.
Proof. reflexivity. Qed.
Example full_disk_pct : pct 7 7 = f32_hundred.
Proof. reflexivity. Qed.
Example nan_is_zero : round_as_u32 S754_nan = 0.
Proof. reflexivity. Qed.

Definition ex_reading : SysReading :=
  mkReading (Some "box"%string) 60 0 ex_f32 (f32_zero, f32_zero, f32_zero) 100 30
    [mkDiskReading "/" 10 4; mkDiskReading "/data" 20 25].
Definition ex_busy : SysRequest :=
  mkRequest (mkReading None 60 2 f32_hundred (f32_zero, f32_zero, f32_zero) 100 30 []) None.
Definition ex_calm : SysRequest := mkRequest ex_reading None.

(** Two requests overlap: the busy one has stored 10000 before the calm one,
    which measured 3710, reads the cell. *)
Lemma peak_is_maximum_witness :
  ∃ s s' body, peak_reachable s ∧ peak_trans s s'
  ∧ peak_tasks s' !! 1%nat = Some (PDone ex_calm body)
  ∧ peak_pct (cpu body) = f32_hundred
  ∧ ∃ p, 3710 ≤ p ∧ 10000 ≤ p ∧ body = system_metrics ex_reading None p.
Proof.
  set (t0 := <[0%nat := PLoad ex_busy]> ∅ : gmap nat PeakTask).
  set (t1 := <[0%nat := PLoop ex_busy 0]> t0). set (t2 := <[0%nat := PRead ex_busy]> t1).
  set (t3 := <[1%nat := PLoad ex_calm]> t2). set (t4 := <[1%nat := PLoop ex_calm 10000]> t3).
  set (t5 := <[1%nat := PRead ex_calm]> t4).
  assert (Hr : peak_reachable (mkPeak 10000 t5)).
  { eapply rtc_l; [exact (pt_request (mkPeak 0 ∅) 0 ex_busy (lookup_empty _))|].
    eapply rtc_l; [exact (pt_step (mkPeak 0 t0) 0 (PLoad ex_busy) false (lookup_insert_eq _ _ _))|].
    eapply rtc_l; [exact (pt_step (mkPeak 0 t1) 0 (PLoop ex_busy 0) false (lookup_insert_eq _ _ _))|].
    eapply rtc_l; [exact (pt_request (mkPeak 10000 t2) 1 ex_calm eq_refl)|].
    eapply rtc_l; [exact (pt_step (mkPeak 10000 t3) 1 (PLoad ex_calm) false (lookup_insert_eq _ _ _))|].
    eapply rtc_l; [exact (pt_step (mkPeak 10000 t4) 1 (PLoop ex_calm 10000) false
                           (lookup_insert_eq _ _ _))|].
    apply rtc_refl. }
  pose proof (pt_step (mkPeak 10000 t5) 1 (PRead ex_calm) false (lookup_insert_eq _ _ _)) as Hs.
  set (body := system_metrics ex_reading None 10000).
  exists (mkPeak 10000 t5), (mkPeak 10000 (<[1%nat := PDone ex_calm body]> t5)), body.
  assert (Hd : (<[1%nat := PDone ex_calm body]> t5) !! 1%nat = Some (PDone ex_calm body))
    by apply lookup_insert_eq.
  destruct (peak_is_maximum _ Hr) as (_ & _ & H & _).
  destruct (H _ 1%nat ex_calm body Hs (lookup_insert_eq _ _ _) Hd)
    as (p & Hb & _ & H1 & H2 & _).
  split; [exact Hr|]. split; [exact Hs|]. split; [exact Hd|]. split; [reflexivity|].
  exists p. split; [exact H1|]. split; [exact (H2 0%nat (PRead ex_busy) eq_refl eq_refl)|exact Hb].
Defined.

Lemma system_metrics_bounds_witness :
  let s := system_metrics ex_reading None 3710 in
  used_of 100 30 (m_used_bytes (mem s))
  ∧ 1 ≤ cores (cpu s) ∧ d_mount (disk s) = "/data"%string ∧ d_used_bytes (disk s) = 0.
Proof.
  destruct (system_metrics_bounds ex_reading None 3710) as ((_ & _ & H1 & _) & H2 & _).
  - split; [vm_compute; split; discriminate|]. split; [vm_compute; split; discriminate|].
    split; [vm_compute; discriminate|]. intros d Hd.
    apply elem_of_cons in Hd as [->|Hd]; [vm_compute; repeat split; discriminate|].
    apply list_elem_of_singleton in Hd as ->. vm_compute; repeat split; discriminate.
  - split; [exact H1|]. split; [exact H2|]. split; reflexivity.
Defined.
