(* ===== verification/Pipeline.v ===== *)
(** The whole way of a measurement: from a venue's answer through the minute
    loop, the storage stack and the database to the reader of the REST API, and
    from a venue's push through the live shard and Redis to a browser. *)

From Stdlib Require Import ZArith Lia String.
From stdpp Require Import base option list strings gmap sorting.
From S2P Require Import Prelude Externals Concrete Domain Buckets Aggregator Pricing Repository Wal Lease Cluster Queues ClickHouse Tables Adapter Runner ApiRest.
From S2P Require WsClient Live Hub ApiWs ApiAuth.
Open Scope Z_scope.
Open Scope oi_scope.

(** * From the venue to the REST reader *)

Section stored.
Context {DL : DecimalLib} {TL : TimeLib} {DLaws : DecimalLaws DL} {TLaws : TimeLaws TL}.
Context {SC : SnapCodec} {CL : CodecLaws SC}.
Context {W : Type} (c : ChClient W) (v : Server W) {SL : ServerLaws c v}.
Context (lead : W → bool) (wal : FileWal).

Abbreviation bars_of w := (inserted v w "oi.oi_minute").

(** Redis is another system: what it is asked changes neither the node's disk
    nor the bars' table. *)
Context (conn : RedisConn (Disk * W)).
Definition redis_apart : Prop := ∀ cmds d w r d' w',
  redis_pipe conn cmds (d, w) = (r, (d', w')) → d' = d ∧ bars_of w' = bars_of w.
Context (Hredis : redis_apart).

(** The repository of the API process, over the same database. *)
Definition api_repo (api_conn : RedisConn W) : OiRepository W :=
  composite (mkComposite (ch_repo c) api_conn None).

Abbreviation stack := (node_stack (ch_repo c) lead wal conn).

Lemma bulk_set_apart snaps d w r d' w' :
  bulk_set_latest conn snaps (d, w) = (r, (d', w')) → d' = d ∧ bars_of w' = bars_of w.
Proof.
  unfold bulk_set_latest. destruct snaps as [|s snaps]; [by intros [= _ <- <-]|].
  intros [(e & H & _)|(pipe & w1 & H & Hr)]%se_bind_inv; unfold se_lift in H.
  - by injection H as _ -> ->.
  - injection H as _ <-. apply se_map_err_inv in Hr as (r0 & Hr & _). by eapply Hredis.
Qed.
Lemma publish_apart snaps d w r d' w' :
  publish conn snaps (d, w) = (r, (d', w')) → d' = d ∧ bars_of w' = bars_of w.
Proof.
  unfold publish. destruct snaps as [|s snaps]; [by intros [= _ <- <-]|].
  intros [(e & H & _)|(pipe & w1 & H & Hr)]%se_bind_inv; unfold se_lift in H.
  - by injection H as _ -> ->.
  - injection H as _ <-. apply se_map_err_inv in Hr as (r0 & Hr & _). by eapply Hredis.
Qed.

(** A batch through the stack is a batch through the log, as far as the disk
    and the table go. *)
Lemma stack_upsert snaps d w r d' w' :
  upsert_snapshots stack snaps (d, w) = (r, (d', w')) →
  ∃ w1, upsert_snapshots (wal_backed (leader_gated (ch_repo c) lead) wal) snaps (d, w) = (r, (d', w1))
    ∧ bars_of w' = bars_of w1.
Proof.
  cbn [upsert_snapshots node_stack composite]. unfold composite_upsert, composite_leads.
  cbn [primary cache leader_gate with_leader_gate with_primary].
  destruct (upsert_snapshots (wal_backed _ wal) snaps (d, w)) as [r1 [d1 w1]].
  cbn [snd]. destruct (lead w1); [|intros [= <- <- <-]; by exists w1].
  destruct (bulk_set_latest conn snaps (d1, w1)) as [r2 [d2 w2]] eqn:E2.
  destruct (publish conn snaps (d2, w2)) as [r3 [d3 w3]] eqn:E3.
  intros [= <- <- <-]. apply bulk_set_apart in E2 as [-> E2]. apply publish_apart in E3 as [-> E3].
  exists w1. split; [done|]. by rewrite E3, E2.
Qed.

(** Funding writes of the loop touch neither the disk nor the bars. *)
Lemma funding_apart fetched cursor d w cursor' d' w' :
  funding_step stack fetched cursor (d, w) = (cursor', (d', w')) → d' = d ∧ bars_of w' = bars_of w.
Proof.
  assert (Hg : ∀ (t : string) (rows : list ChRow) w r w', t ≠ "oi.oi_minute"%string →
    insert_rows c t rows w = (r, w') → bars_of w' = bars_of w).
  { intros t rows w0 r w0' Ht H. apply (insert_rows_spec c v) in H as [H _].
    destruct (H "oi.oi_minute"%string) as (new & -> & Hn & _). by rewrite Hn, app_nil_r. }
  assert (Hf : ∀ l d w r d' w', upsert_funding stack l (d, w) = (r, (d', w')) →
    d' = d ∧ bars_of w' = bars_of w).
  { intros l d0 w0 r d1 w1. simpl. unfold se_snd, gated. simpl. destruct (lead w0); [|by intros [= _ <- <-]].
    destruct (insert_rows c _ _ w0) as [r1 w2] eqn:E. intros [= _ <- <-]. split; [done|].
    eapply Hg; [|exact E]. done. }
  assert (He : ∀ l d w r d' w', upsert_funding_events stack l (d, w) = (r, (d', w')) →
    d' = d ∧ bars_of w' = bars_of w).
  { intros l d0 w0 r d1 w1. simpl. unfold se_snd, gated. simpl. destruct (lead w0); [|by intros [= _ <- <-]].
    destruct (insert_rows c _ _ w0) as [r1 w2] eqn:E. intros [= _ <- <-]. split; [done|].
    eapply Hg; [|exact E]. done. }
  unfold funding_step. destruct fetched as [[|f fs]|]; [by intros [= _ <- <-]| |by intros [= _ <- <-]].
  destruct (derive_events cursor (f :: fs)) as [[|e es] cur].
  - destruct (upsert_funding stack (f :: fs) (d, w)) as [r [d1 w1]] eqn:E. intros [= _ <- <-].
    by eapply Hf.
  - destruct (upsert_funding_events stack (e :: es) (d, w)) as [r1 [d1 w1]] eqn:E1. cbn [snd].
    destruct (upsert_funding stack (f :: fs) (d1, w1)) as [r2 [d2 w2]] eqn:E2. intros [= _ <- <-].
    apply He in E1 as [-> <-]. by eapply Hf.
Qed.

(** The disk refuses to take the batch: the append reports an error, which it does
    not when every call succeeds, the clock is past the epoch and the batch can be
    encoded. *)
Definition disk_refuses (d : Disk) (snaps : list OiSnapshot) : Prop :=
  is_ok (wal_append wal snaps d).1 = false
  ∧ ¬ (no_faults d ∧ is_Some (clock d) ∧ is_ok (mp_encode_batch snaps) = true).
(** Where the minute's batch is after the iteration, from a table that held the
    bars [log]: in the table, in the node's log, or refused by the disk. *)
Definition batch_outcome (log snaps : list OiSnapshot) (d d' : Disk) (w' : W) : Prop :=
  bars_of w' = bar_row v <$> (log ++ snaps)
  ∨ (∃ f, is_pending f = true ∧ stored wal (files d') f = Some snaps)
  ∨ (disk_refuses d snaps ∧ bars_of w' = bar_row v <$> log
     ∧ ∀ n, is_pending n = true → files d' !! n = files d !! n).

Lemma stack_outcome log snaps d w r d' w' :
  wal_wf d → fresh_name d → lead w = true → bars_of w = bar_row v <$> log →
  upsert_snapshots stack snaps (d, w) = (r, (d', w')) → batch_outcome log snaps d d' w'.
Proof.
  intros Hwf Hfr Hl Hlog Hu. apply stack_upsert in Hu as (w1 & Hu & Hb).
  unfold batch_outcome. rewrite Hb. destruct snaps as [|s snaps].
  { injection Hu as _ <- <-. left. by rewrite app_nil_r. }
  assert (Hne : s :: snaps ≠ []) by done.
  destruct (walbacked_durable _ _ _ _ _ _ _ _ Hwf Hfr Hne Hu) as (H & _).
  cbn [leader_gated upsert_snapshots] in H. unfold gated in H. rewrite Hl in H.
  destruct H as [H|[(e & p & _ & _ & Hp)|(e & _ & -> & He & Hn)]].
  - left. pose proof (@insert_accepted _ _ _ _ (ch_repo c) (bar_row v) (λ w, bars_of w)
      (ch_repo_inserts c v) _ _ _ H) as ->. by rewrite Hlog, fmap_app.
  - right; left. by exists p.
  - right; right. split; [split; [done|by eapply append_refused]|by split].
Qed.

Lemma last_of_batch b old snaps later :
  b ∈ snaps → NoDup (instrument <$> snaps) →
  (∀ s, s ∈ later → instrument s = instrument b → bar_ms s ≠ bar_ms b) →
  last_version (old ++ snaps ++ later) b.
Proof.
  intros [l1 [l2 ->]]%list_elem_of_split Hnd Hl. exists (old ++ l1), (l2 ++ later).
  split; [by rewrite <- !app_assoc|]. intros s [Hs|Hs]%elem_of_app; [|by apply Hl].
  intros Hi. exfalso. rewrite fmap_app, fmap_cons in Hnd.
  apply NoDup_app in Hnd as (_ & _ & Hnd). apply NoDup_cons in Hnd as [Hnd _].
  apply Hnd. rewrite <- Hi. by apply list_elem_of_fmap_2.
Qed.

Lemma minute_bars_distinct ms p raw :
  NoDup (raw_instrument <$> raw) → NoDup (instrument <$> omap (minute_bar ms p) raw).
Proof.
  induction raw as [|r raw IH]; [constructor|]. rewrite fmap_cons.
  intros [Hr Hnd]%NoDup_cons. cbn [omap list_omap].
  destruct (minute_bar ms p r) as [b|] eqn:E; [|by apply IH].
  rewrite fmap_cons. apply NoDup_cons. split; [|by apply IH].
  intros (b' & Hb & (r' & Hr' & E')%list_elem_of_omap)%list_elem_of_fmap.
  apply minute_bar_some in E as (Hi & _). apply minute_bar_some in E' as (Hi' & _).
  apply Hr. rewrite <- Hi, Hb, Hi'. by apply list_elem_of_fmap_2.
Qed.

End stored.

(** * From a node's queue to the REST reader *)

Section delivered.
Context {DL : DecimalLib} {TL : TimeLib} {DLaws : DecimalLaws DL} {TLaws : TimeLaws TL}.
Context {SC : SnapCodec} {CL : CodecLaws SC}.
Context {W : Type} (c : ChClient W) (v : Server W) {SL : ServerLaws c v}.
Context (wal : FileWal) (follower_max_age : option Z) (ttl : Z).

Abbreviation bars_in w := (inserted v w "oi.oi_minute").
Abbreviation steps := (rtc (cstep (ch_repo c) (λ w, bars_in w) wal follower_max_age ttl)).

(** Rows that came from bars with a property. *)
Lemma rows_of_bars (P : OiSnapshot → Prop) (rows : list ChRow) :
  (∀ x, x ∈ rows → ∃ s, P s ∧ x = bar_row v s) →
  ∃ log : list OiSnapshot, rows = bar_row v <$> log ∧ ∀ s, s ∈ log → P s.
Proof.
  induction rows as [|x rows IH]; intros H.
  { exists []. split; [done|]. by intros s ?%not_elem_of_nil. }
  destruct (H x) as (s & Hs & ->); [left|].
  destruct IH as (log & -> & Hl); [intros; apply H; by right|].
  exists (s :: log). split; [done|]. by intros s' [->|?%Hl]%elem_of_cons.
Qed.

(** Every bar of a table has a last version. *)
Lemma last_version_exists (log : list OiSnapshot) s :
  s ∈ log →
  ∃ s', s' ∈ log ∧ last_version log s' ∧ instrument s' = instrument s ∧ bar_ms s' = bar_ms s.
Proof.
  induction log as [|x log IH] using rev_ind; [by intros ?%not_elem_of_nil|].
  destruct (decide (instrument x = instrument s ∧ bar_ms x = bar_ms s)) as [Hx|Hx]; intros Hs.
  - exists x. split; [apply elem_of_app; right; left|]. split; [|done].
    exists log, []. split; [done|]. by intros s' ?%not_elem_of_nil.
  - apply elem_of_app in Hs as [Hs|[->|[]%not_elem_of_nil]%elem_of_cons]; [|by destruct Hx].
    destruct (IH Hs) as (s' & Hin & (l1 & l2 & -> & Hl) & Hi & Hm). exists s'.
    split; [apply elem_of_app; by left|]. split; [|done]. exists l1, (l2 ++ [x]).
    split; [by rewrite <- app_assoc|].
    intros s2 [?|[->|[]%not_elem_of_nil]%elem_of_cons]%elem_of_app; [by apply Hl|].
    rewrite Hi, Hm. intros ??. by apply Hx.
Qed.

(** A bar that some node appended to its log, in a cluster. *)
Definition appended (w : World (DB := W)) (s : OiSnapshot) : Prop :=
  ∃ n p b, (p, b) ∈ nd_log (cw_node w n) ∧ s ∈ b.

(** What a REST range answers over a table whose rows come from bars with [P]. *)
Lemma rest_reads (P : OiSnapshot → Prop) api_conn ex sym from_s to_s i from to db rows db' :
  (∀ x, x ∈ bars_in db → ∃ s, P s ∧ x = bar_row v s) →
  parse_id ex sym = Ok i → parse_rfc3339 from_s = Ok from → parse_rfc3339 to_s = Ok to →
  ch_fetch_oi c SELECT_OHLC_COLUMNS (range_binds i from to) db = (Ok rows, db') →
  ∃ bars, rest_range (api_repo c api_conn) ex sym from_s to_s None db
      = (JsonBody (OiRows (BarDto_from <$> bars)), db')
    ∧ (∀ b, b ∈ bars → ∃ s, P s ∧ instrument s = i
         ∧ unix_millis from ≤ bar_ms s < unix_millis to ∧ b ≡ wire_snap v s)
    ∧ ∀ s, bar_row v s ∈ bars_in db → instrument s = i →
        unix_millis from ≤ bar_ms s < unix_millis to →
        (∀ s', instrument s' = i → bar_ms s' = bar_ms s → alive v db (bar_row v s')) →
        ∃ b s', b ∈ bars ∧ P s' ∧ instrument s' = i ∧ bar_ms s' = bar_ms s ∧ b ≡ wire_snap v s'.
Proof.
  intros (log & Hlog & HP)%rows_of_bars Hid Hfrom Hto Hf.
  destruct (range_reads c v _ _ _ _ _ _ _ Hlog Hf) as (bars & Hrange & _ & Hown & Hlast).
  exists bars. split; [|split].
  - unfold rest_range. rewrite Hid, Hfrom, Hto. simpl. simpl in Hrange. by rewrite Hrange.
  - intros b (s & ?%HP & ? & ? & ?)%Hown. eauto.
  - intros s Hs Hi Hw Ha. rewrite Hlog in Hs. apply list_elem_of_fmap in Hs as (s0 & E & Hs0).
    assert (instrument s = instrument s0 ∧ bar_ms s = bar_ms s0) as [Hi0 Hm0]
      by (apply bar_row_key_eq with c v; [done|by rewrite E]).
    destruct (last_version_exists log s0 Hs0) as (s' & Hin & Hlv & Hi' & Hm').
    destruct (Hlast s' Hin Hlv) as (b & Hb & Heq); [apply Ha; congruence|congruence|congruence|].
    exists b, s'. split; [done|]. split; [by apply HP|]. split; [congruence|]. split; [congruence|done].
Qed.

(** C4. What was accepted becomes readable, and nothing else.  Take any state
    the cluster of nodes over a ClickHouse database can reach from an empty
    bars' table.  If the node that leads has an idle drainer, a working disk and
    a database that accepts, then some number of steps of its drainer, and of
    nothing else, empty its queue, and from the state they lead to on, whatever
    any node does, the bars of every batch that was waiting in its queue can be
    read: a REST range over the minute of such a bar which the server answers has
    status 200 and contains a version of that instrument's minute (as long as none
    has passed its TTL), and every bar in the answer is one that some node
    appended to its log, equal up to the text of decimals and the milliseconds of
    times. *)
Theorem accepted_bar_becomes_readable w0 w n :
  cw_init w0 → steps w0 w → bars_in (cw_db w0) = [] →
  leads w n = true → nd_drainer (cw_node w n) = DIdle → no_faults (nd_disk (cw_node w n)) →
  (∀ b db, ∃ db', upsert_snapshots (ch_repo c) b db = (Ok tt, db')) →
  ∃ k, let w1 := drain_turns (ch_repo c) wal follower_max_age k w n in
    steps w w1 ∧ nd_drainer (cw_node w1 n) = DIdle
    ∧ pending_names (files (nd_disk (cw_node w1 n))) = []
    ∧ ∀ p b s w2 api_conn ex sym from_s to_s from to rows db',
        (p, b) ∈ nd_log (cw_node w n) →
        stored wal (files (nd_disk (cw_node w n))) p = Some b → s ∈ b →
        steps w1 w2 →
        (∀ s', instrument s' = instrument s → bar_ms s' = bar_ms s →
           alive v (cw_db w2) (bar_row v s')) →
        parse_id ex sym = Ok (instrument s) →
        parse_rfc3339 from_s = Ok from → parse_rfc3339 to_s = Ok to →
        unix_millis from ≤ bar_ms s < unix_millis to →
        ch_fetch_oi c SELECT_OHLC_COLUMNS (range_binds (instrument s) from to) (cw_db w2)
          = (Ok rows, db') →
        ∃ bars, rest_range (api_repo c api_conn) ex sym from_s to_s None (cw_db w2)
            = (JsonBody (OiRows (BarDto_from <$> bars)), db')
          ∧ (∃ b' s', b' ∈ bars ∧ appended w2 s' ∧ instrument s' = instrument s
               ∧ bar_ms s' = bar_ms s ∧ b' ≡ wire_snap v s')
          ∧ ∀ b', b' ∈ bars → ∃ s', appended w2 s' ∧ instrument s' = instrument s
               ∧ unix_millis from ≤ bar_ms s' < unix_millis to ∧ b' ≡ wire_snap v s'.
Proof.
  intros Hi Hr Hempty Hlead Hidle Hnf Hup.
  assert (Hok : cluster_ok (bar_row v) (λ w, bars_in w) wal w).
  { apply (cluster_ok_reachable (ch_repo c) _ _ _ follower_max_age ttl). by exists w0. }
  destruct (leader_drains (ch_repo c) _ _ wal follower_max_age ttl w n Hok Hlead Hidle Hnf Hup)
    as (k & Hk & Hidle' & Hdrained & Hland). exists k. cbv zeta in *.
  set (w1 := drain_turns _ _ _ k w n) in *. do 3 (split; [done|]).
  intros p b s w2 api_conn ex sym from_s to_s from to rows db' Hin Hst Hs Hr2 Ha Hid Hfrom Hto Hw Hf.
  assert (H02 : steps w0 w2) by (etransitivity; [exact Hr|etransitivity; [exact Hk|exact Hr2]]).
  assert (Hown : ∀ x, x ∈ bars_in (cw_db w2) → ∃ s, appended w2 s ∧ x = bar_row v s).
  { intros x [Hx|(m & q & b0 & s0 & ? & ? & ->)]%(rows_appended (ch_repo c) (bar_row v) _ _ _ _ _ _ _ Hi H02).
    - rewrite Hempty in Hx. by apply not_elem_of_nil in Hx.
    - exists s0. split; [|done]. by exists m, q, b0. }
  destruct (rest_reads _ api_conn _ _ _ _ _ _ _ _ _ _ Hown Hid Hfrom Hto Hf)
    as (bars & Hrest & Hall & Hsome).
  exists bars. split; [done|]. split; [|done].
  destruct (Hsome s) as (b' & s' & ? & ? & ? & ? & ?); [|done..|by exists b', s'].
  assert (Hok1 : cluster_ok (bar_row v) (λ w, bars_in w) wal w1).
  { apply (cluster_ok_reachable (ch_repo c) _ _ _ follower_max_age ttl). exists w0.
    split; [done|]. etransitivity; [exact Hr|exact Hk]. }
  destruct (rows_grow (ch_repo c) _ _ _ _ _ _ _ Hok1 Hr2) as (new & ->).
  apply elem_of_app. left. by apply (Hland p b).
Qed.
End delivered.

(** * From the venue to the browser *)

Section streamed.
Context {DL : DecimalLib} {TL : TimeLib} {JL : JsonLib} {SC : SnapCodec}.
Context {DLaws : DecimalLaws DL} {CL : CodecLaws SC}.
Context {W : Type} (publisher : RedisConn W) (view : W → gmap string (list Z)).
Context (sent : W → list (string * list Z)) {RL : RedisLaws publisher view sent}.
Context {BC : Hub.BroadcastChan OiSnapshot} {BL : Hub.BroadcastLaws BC}.
Context (to_json : OiSnapshot → option string) (auth : option ApiAuth.AuthState).

Lemma bars_after_length agg samples : length (Live.bars_after agg samples) = length samples.
Proof.
  revert agg. induction samples as [|s samples IH]; intros agg; [done|]. simpl.
  destruct (agg_observe agg s) as [bar agg']. simpl. by rewrite IH.
Qed.

(** C6. From the venue's push to the browser.  A shard of any of the four live
    venues on a node that holds the lead (or has no lease) and whose publishes
    succeed, and a hub with an open connection that has read everything so far:
    when Redis hands the hub the messages the shard sent, and there are no more
    changes than the ring holds, the connection's socket receives, in order, the
    JSON text of the bar in progress right after every change of a wanted
    instrument that the frames carried; and the shared aggregator has folded
    exactly those changes. *)
Theorem push_reaches_browser ven lease agg w frames samples acts h id cl :
  Live.venue_samples ven frames = Ret samples →
  (∀ w, Live.may_publish lease w = true) →
  (∀ b w, b ∈ Live.bars_after agg samples → (publish publisher [b] w).1 = Ok tt) →
  Hub.hub_run to_json auth acts Hub.hub_init = Some h → Hub.hub_bus h = Hub.Up [] →
  Hub.hub_clients h !! id = Some cl → ApiWs.closed (Hub.cl_conn cl) = false →
  Hub.cl_next cl = length (subscribe_stream (Hub.hub_heard h)) →
  Z.of_nat (length samples) ≤ Hub.BROADCAST_CAPACITY →
  ∃ agg' w' msgs hub_acts h' cl',
    Live.run_shard publisher ven lease (agg, w) frames = Ret (agg', w')
    ∧ agg' = foldl (λ agg s, (agg_observe agg s).2) agg samples
    ∧ sent w' = sent w ++ msgs
    ∧ hub_acts = (Hub.Delivered <$> on_channel FIREHOSE_CHANNEL msgs)
         ++ replicate (length (on_channel FIREHOSE_CHANNEL msgs)) Hub.Forward
         ++ replicate (length samples) (Hub.Take id (Hub.Recv ApiWs.Flushed))
    ∧ Hub.hub_run to_json auth hub_acts h = Some h'
    ∧ Hub.hub_clients h' !! id = Some cl' ∧ ApiWs.closed (Hub.cl_conn cl') = false
    ∧ ApiWs.texts (Hub.cl_conn cl')
      = ApiWs.texts (Hub.cl_conn cl)
        ++ ApiWs.wanted_texts to_json (Hub.cl_filter cl) (Live.bars_after agg samples).
Proof.
  intros Hs Hl Hp Hr Hbus Hid Hcl Hnext Hcap.
  pose proof (Live.shard_spec publisher ven lease agg w frames) as Hrun. rewrite Hs in Hrun.
  destruct (Live.fold_samples_published publisher lease view sent samples agg w Hl Hp)
    as (msgs & Hsent & Hnew).
  destruct (Hub.payloads_reach_browser to_json auth acts h id cl (on_channel FIREHOSE_CHANNEL msgs)
    Hr Hbus Hid Hcl Hnext) as (h' & cl' & Hh & Hid' & Hcl' & Ht);
    [by rewrite Hnew, bars_after_length|].
  rewrite Hnew in Hh, Ht. rewrite bars_after_length in Hh.
  eexists _, _, msgs, _, h', cl'.
  split; [by rewrite Hrun; simpl; rewrite <- surjective_pairing|].
  split; [apply Live.fold_samples_agg|]. by repeat (split; [done|]).
Qed.
End streamed.

(** * A concrete minute *)

Definition ex_minute_bar : OiSnapshot (DL := z_decimal) (TL := z_time) :=
  mkSnapshot (DL := z_decimal) (TL := z_time) (mkId Binance "BTC") 0 1 1 1 Coins
    7 7 7 7 (Some 7) (Some 7) (Some 7) (Some 7) (Some 70) (Some 70) (Some 70) (Some 70) (Some 10).
Definition ex_minute_codec : SnapCodec := table_codec [[ex_minute_bar]].
(** A Redis that is down. *)
Definition ex_no_redis {W} : RedisConn W :=
  mkConn (λ _ w, (Err "down"%string, w)) (λ _ w, (Err "down"%string, w)).
Definition ex_empty : ExTables := mkTables (""%string, []) [].
Definition ex_stack : OiRepository (Disk * ExTables) :=
  node_stack (SC := ex_minute_codec) (ch_repo ex_client) (λ _, true) ex_wal ex_no_redis.
Definition ex_outcome : LoopState (DL := z_decimal) (TL := z_time) * (Disk * ExTables) :=
  run_or (ex_state, (ex_disk (λ _, None), ex_empty))
    (loop_iteration ex_stack ex_adapter map_to_list false 0 ex_state (ex_disk (λ _, None), ex_empty)).

Lemma ret_run_or {A} (d : A) (r : run A) :
  match r with Ret _ => true | Panic => false end = true → r = Ret (run_or d r).
Proof. by destruct r. Qed.

Lemma ex_minute_runs :
  loop_iteration ex_stack ex_adapter map_to_list false 0 ex_state (ex_disk (λ _, None), ex_empty)
  = Ret (ex_outcome.1, (ex_outcome.2.1, ex_outcome.2.2)).
Proof.
  transitivity (Ret ex_outcome); [apply ret_run_or; reflexivity|].
  generalize ex_outcome. by intros [? [? ?]].
Qed.


(** * A concrete delivery *)

Lemma ex_inserts (b : list OiSnapshot) db :
  ∃ db', upsert_snapshots (ch_repo ex_client) b db = (Ok tt, db').
Proof.
  assert (H : ∀ rows w, ∃ w', write_rows ex_client rows w = (Ok tt, w')).
  { induction rows as [|r rows IH]; intros w; [by eexists|]. apply IH. }
  cbn [upsert_snapshots ch_repo]. destruct b as [|s b]; [by eexists|].
  unfold insert_rows. rewrite fmap_cons. unfold mbind, se_bind, se_map_err at 1. cbn [ch_insert ex_client].
  edestruct H as [w' ->]. by eexists.
Qed.
Lemma ex_fetch_bars bs (w : ExTables) :
  (∀ x, x ∈ inserted ex_server w "oi.oi_minute" → ∃ s, True ∧ x = bar_row ex_server s) →
  ∃ rows, ch_fetch_oi ex_client SELECT_OHLC_COLUMNS bs w = (Ok rows, w).
Proof.
  intros H. cbn [ch_fetch_oi ex_client]. unfold ex_fetch.
  assert (Hl : ∀ x, x ∈ ex_answer SELECT_OHLC_COLUMNS bs w → ∃ s, x = bar_row ex_server s).
  { intros x Hx. unfold ex_answer in Hx. cbn [sel_limit select_of] in Hx.
    rewrite (merge_sort_Permutation (ts_order _)), list_elem_of_filter in Hx.
    destruct Hx as [_ (s & _ & ->)%H]. by exists s. }
  induction (ex_answer SELECT_OHLC_COLUMNS bs w) as [|x l IH]; [by exists []|].
  destruct IH as [rows Hr]; [intros; apply Hl; by right|].
  destruct (Hl x) as (s & ->); [left|]. injection Hr as Hr. eexists. simpl. by rewrite Hr.
Qed.

Lemma accepted_bar_becomes_readable_witness :
  ∃ w1, ∃ bars, rest_range (api_repo (SC := ex_codec) ex_client ex_no_redis)
      "okx" "BTC-USDT-SWAP" "0" "60000000000" None (cw_db w1)
      = (JsonBody (OiRows (BarDto_from <$> bars)), cw_db w1)
    ∧ ∃ b', b' ∈ bars ∧ bar_ms b' = 0.
Proof.
  pose proof (ex_steps (ch_repo ex_client) (λ w, inserted ex_server w "oi.oi_minute") ex_empty) as Hr.
  destruct (accepted_bar_becomes_readable (SC := ex_codec) ex_client ex_server ex_wal None 15000
    _ _ "a" (ex_init ex_empty) Hr) as (k & Hw1 & _ & _ & Hread);
    [reflexivity|reflexivity|reflexivity|intros n; reflexivity|apply ex_inserts|].
  set (w1 := drain_turns _ _ _ k _ _) in *.
  assert (Hr1 := Hr). apply (transitivity (R := rtc _)) with (2 := Hw1) in Hr1.
  destruct (ex_fetch_bars (range_binds (TL := z_time) ex_btc 0 60000000000) (cw_db w1)) as [rows Hf].
  { intros x Hx. destruct (rows_appended (ch_repo ex_client) (bar_row ex_server) _ ex_wal None 15000
      _ w1 x (ex_init ex_empty) Hr1 Hx) as [H|(n & p & b & s & _ & _ & ->)];
      [by apply not_elem_of_nil in H|by exists s]. }
  exists w1.
  destruct (Hread ex_name ex_batch (Repository.ex_bar 2) w1 ex_no_redis "okx"%string "BTC-USDT-SWAP"%string "0"%string
    "60000000000"%string 0
    60000000000 rows (cw_db w1)) as (bars & Hrest & (b' & s' & Hb & _ & _ & Hms & He) & _);
    [left|reflexivity|right; left|apply rtc_refl|done|reflexivity..|
     split; [discriminate|reflexivity]|exact Hf|].
  exists bars. split; [exact Hrest|]. exists b'. split; [exact Hb|].
  destruct He as (_ & E & _). unfold bar_ms in *. rewrite E. simpl.
  rewrite (to_millis_wire ex_client ex_server). exact Hms.
Defined.

(** * A concrete push *)

Definition ex_pushes : list (OffsetDateTime (TimeLib := z_time) * WsClient.Frame (JL := tree_json)) :=
  Live.ex_frames.
Definition ex_samples : list (OiSample (DL := z_decimal) (TL := z_time)) :=
  run_or [] (Live.venue_samples (DL := z_decimal) (JL := tree_json) Live.LiveOkx ex_pushes).
Definition ex_bars : list (OiSnapshot (DL := z_decimal) (TL := z_time)) :=
  Live.bars_after ∅ ex_samples.
Definition ex_bar_codec : SnapCodec := table_codec ((λ b, [b]) <$> ex_bars).
Definition ex_hub_start : list (Hub.HubAction) := [Hub.Subscribed; Hub.Join 2 None ""].
Definition ex_hub : Hub.Hub (BC := Hub.ring_chan _) :=
  default Hub.ex_hub_init
    (Hub.hub_run (SC := ex_bar_codec) Hub.ex_text None ex_hub_start Hub.ex_hub_init).

Lemma push_reaches_browser_witness :
  length ex_samples = 2%nat
  ∧ ∃ acts h', Hub.hub_run (SC := ex_bar_codec) Hub.ex_text None acts ex_hub = Some h'
    ∧ Hub.ex_texts h' 2 = Some ["5"; "6"]%string.
Proof.
  split; [vm_compute; reflexivity|].
  assert (Hp : ∀ b w, b ∈ ex_bars → (publish (SC := ex_bar_codec) ex_conn [b] w).1 = Ok tt).
  { intros b w Hb. assert (∃ b1 b2, ex_bars = [b1; b2]
      ∧ (∀ w, (publish (SC := ex_bar_codec) ex_conn [b1] w).1 = Ok tt)
      ∧ (∀ w, (publish (SC := ex_bar_codec) ex_conn [b2] w).1 = Ok tt)) as (b1 & b2 & E & H1 & H2).
    { eexists _, _. split; [reflexivity|]. split; intros ?; reflexivity. }
    rewrite E in Hb. apply list_elem_of_In in Hb as [<-|[<-|[]]]; [apply H1|apply H2]. }
  destruct (push_reaches_browser (DL := z_decimal) (JL := tree_json) (SC := ex_bar_codec)
    (BL := Hub.ring_laws _) ex_conn
    st_view st_sent Hub.ex_text None Live.LiveOkx (Some (λ _, true)) ∅ (ex_world true) ex_pushes ex_samples ex_hub_start
    ex_hub 2 Hub.ex_client) as (agg' & w' & msgs & acts & h' & cl' & _ & _ & _ & _ & Hr & Hid & _ & Ht);
    [reflexivity|reflexivity|exact Hp|reflexivity|reflexivity|reflexivity|reflexivity|reflexivity|by vm_compute|].
  exists acts, h'. split; [exact Hr|]. unfold Hub.ex_texts. rewrite Hid. simpl. rewrite Ht.
  reflexivity.
Defined.
