(* ===== verification/TestKit.v ===== *)
(** What a replay of the repository's unit tests needs.

    A test of the repository is a definition here, statement by statement: a
    pure one is a boolean, one that awaits operations on a world is a program
    ([Prog]) that stops when an [unwrap] or an assertion fails.  A suite names its
    tests; [failing] lists those that do not pass, so that a suite passes when
    the list is empty.  The tests run on [Exact.v]'s decimals and date-times, so
    they check the model and its third-party instance together. *)

From Stdlib Require Import ZArith Lia String.
From stdpp Require Import base option list strings.
From S2P Require Import Prelude Externals Concrete Exact Domain.
Open Scope Z_scope.
Open Scope oi_scope.

(** * Programs *)

Definition Prog (W A : Type) : Type := W → option (A * W).
#[export] Instance prog_ret W : MRet (Prog W) := λ A a w, Some (a, w).
#[export] Instance prog_bind W : MBind (Prog W) := λ A B f m w,
  match m w with Some (a, w') => f a w' | None => None end.

(** [call().await.unwrap()] and [unwrap_err()]. *)
Definition unwrap {W E A} (m : SE W E A) : Prog W A := λ w,
  match m w with (Ok a, w') => Some (a, w') | (Err _, _) => None end.
Definition unwrap_err {W E A} (m : SE W E A) : Prog W E := λ w,
  match m w with (Err e, w') => Some (e, w') | (Ok _, _) => None end.
Definition unwrap_some {W A} (o : option A) : Prog W A := λ w, (λ a, (a, w)) <$> o.
Definition assert_that {W} (b : bool) : Prog W unit := λ w, if b then Some (tt, w) else None.
Definition get_world {W} : Prog W W := λ w, Some (w, w).
Definition change_world {W} (f : W → W) : Prog W unit := λ w, Some (tt, f w).

Definition passes {W A} (t : Prog W A) (w : W) : bool := bool_decide (is_Some (t w)).

(** * Assertions *)

(** [assert_eq!] on decimals compares numbers, not texts. *)
Definition dec_is (a b : Dec (DecimalLib := x_decimal)) : bool := dec_eqb (H := x_decimal) a b.
Definition odec_is (a b : option (Dec (DecimalLib := x_decimal))) : bool :=
  match a, b with
  | Some x, Some y => dec_is x y
  | None, None => true
  | _, _ => false
  end.
Definition is_none {A} (o : option A) : bool := match o with None => true | Some _ => false end.
Definition is_schema {A} (r : result ExchangeError A) : bool :=
  match r with Err (Schema _) => true | _ => false end.
Definition is_rate_limited {A} (r : result ExchangeError A) : bool :=
  match r with Err (RateLimited _) => true | _ => false end.
Definition ret_is {A} (p : A → bool) (r : run A) : bool :=
  match r with Ret a => p a | Panic => false end.
Definition ok_is {E A} (p : A → bool) (r : result E A) : bool :=
  match r with Ok a => p a | Err _ => false end.
Definition some_is {A} (p : A → bool) (o : option A) : bool :=
  match o with Some a => p a | None => false end.

(** [s.contains(sub)] *)
Fixpoint contains (sub s : string) : bool :=
  String.prefix sub s || match s with EmptyString => false | String _ s' => contains sub s' end.

(** * Suites *)

Definition Suite : Type := list (string * bool).
Definition failing (s : list (string * bool)) : list string := (filter (λ t, t.2 = false) s).*1.

Lemma suite_passes (s : list (string * bool)) : failing s = [] ↔ Forall (λ t, t.2 = true) s.
Proof.
  unfold failing. induction s as [|[n b] s IH]; [by split|].
  rewrite filter_cons, Forall_cons. simpl. destruct b; simpl; [naive_solver|].
  split; [done|]. by intros [? _].
Qed.
