(* ===== verification/TestsCore.v ===== *)
(** The unit tests of oi-core and of the minute arithmetic of
    [common/bucket.rs], replayed on the model. *)

From Stdlib Require Import ZArith Lia String.
From stdpp Require Import base option list strings.
From S2P Require Import Prelude Externals Concrete Exact Domain Buckets Json CoreJson TestKit.
Open Scope Z_scope.
Open Scope oi_scope.

#[local] Existing Instance x_decimal | 0.
#[local] Existing Instance z_time | 0.

(** * error.rs, exchange.rs, instrument.rs *)

Definition transient_and_ratelimited_are_retryable : bool :=
  is_retryable (Transient "http" "502 bad gateway")
  && is_retryable (RateLimited (Some (dur_seconds 1)))
  && negb (is_retryable (Auth "bad sig"))
  && negb (is_retryable (Schema "unknown field")).

Definition code_roundtrip_for_every_exchange : bool :=
  forallb (λ ex, ok_is (λ e, bool_decide (e = ex)) (exchange_from_str (code ex))) exchange_all.
Definition from_str_is_case_insensitive : bool :=
  ok_is (λ e, bool_decide (e = Binance)) (exchange_from_str "BINANCE")
  && ok_is (λ e, bool_decide (e = BingX)) (exchange_from_str "BinGx").
Definition unknown_exchange_errors : bool := negb (is_ok (exchange_from_str "deribit")).

Definition id_key_is_exchange_colon_symbol : bool :=
  String.eqb (id_key (mkId Binance "BTCUSDT")) "binance:BTCUSDT".

(** ** JSON *)

(** [serde_json::to_string] and [from_str] between them. *)
Definition no_other_dec (_ : json) : option xdec := None.
#[local] Instance x_meta_eq : EqDecision (InstrumentMeta (DL := x_decimal)).
Proof. solve_decision. Defined.
#[local] Instance x_funding_eq : EqDecision (FundingBar (DL := x_decimal) (TL := z_time)).
Proof. solve_decision. Defined.
#[local] Instance x_event_eq : EqDecision (FundingEvent (DL := x_decimal) (TL := z_time)).
Proof. solve_decision. Defined.

Definition meta_serde_roundtrip : bool :=
  let meta := mkMeta (mkId Okx "BTC-USDT-SWAP") "BTC" "USDT" true Contracts
    (Some (dec "0.01")) (Some (dec "0.1")) (Some (dec "0.01")) true in
  bool_decide (de_meta no_other_dec (ser_meta meta) = Some meta).

Definition funding_roundtrips (bar : FundingBar) : bool :=
  bool_decide ((ser_funding bar ≫= de_funding no_other_dec) = Some bar).
Definition serde_roundtrip_with_optional_fields_set : bool :=
  funding_roundtrips (mkFunding (mkId Binance "BTCUSDT") (datetime 2026 4 26 10 0 0 0)
    (datetime 2026 4 26 10 0 2 0) (dec "0.0001") (Some (datetime 2026 4 26 16 0 0 0)) (Some 8)).
Definition serde_roundtrip_with_optional_fields_absent : bool :=
  funding_roundtrips (mkFunding (mkId Hyperliquid "BTC") (datetime 2026 4 26 10 0 0 0)
    (datetime 2026 4 26 10 0 2 0) (dec "-0.00005") None None).
Definition event_roundtrips (e : FundingEvent) : bool :=
  bool_decide ((ser_event e ≫= de_event no_other_dec) = Some e).
Definition funding_event_serde_roundtrip : bool :=
  event_roundtrips (mkEvent (mkId Binance "BTCUSDT") (datetime 2026 4 26 16 0 0 0)
    (dec "0.0001") (Some (dec "64000.5"))).
Definition funding_event_serde_without_mark_price : bool :=
  event_roundtrips (mkEvent (mkId Bybit "BTCUSDT") (datetime 2026 4 26 16 0 0 0)
    (dec "-0.00012") None).

(** * unit.rs *)

Definition coins_to_usd_uses_price : bool :=
  ret_is (odec_is (Some (dec "20000"))) (to_usd Coins (dec "10") None (Some (dec "2000"))).
Definition contracts_to_coins_requires_multiplier : bool :=
  ret_is (odec_is (Some (dec "1"))) (to_coins Contracts (dec "100") (Some (dec "0.01")))
  && ret_is is_none (to_coins Contracts (dec "100") None).
Definition contracts_to_usd_multiplies_both : bool :=
  ret_is (odec_is (Some (dec "50000")))
    (to_usd Contracts (dec "100") (Some (dec "0.01")) (Some (dec "50000"))).
Definition usd_native_returns_itself : bool :=
  ret_is (odec_is (Some (dec "123456"))) (to_usd Usd (dec "123456") None None).
Definition usd_cannot_be_converted_back_to_coins_without_price : bool :=
  ret_is is_none (to_coins Usd (dec "1000") None).

(** * snapshot.rs *)

(** [datetime!(2026-04-24 10:mi:s UTC)] *)
Definition at_10 (mi s : Z) : Z := datetime 2026 4 24 10 mi s 0.

Definition meta_contracts : InstrumentMeta :=
  mkMeta (mkId Okx "BTC-USDT-SWAP") "BTC" "USDT" true Contracts
    (Some (dec "0.01")) (Some (dec "0.1")) (Some (dec "0.01")) true.
Definition raw_at (value : xdec) (recv_ts : Z) : RawOi :=
  mkRaw (meta_id meta_contracts) value Contracts (at_10 0 0) recv_ts None.

Definition sample_enrich_contracts_with_price_fills_both_columns : bool :=
  ret_is (ok_is (λ s, odec_is (s_oi_coins s) (Some (dec "10"))
                      && odec_is (s_oi_usd s) (Some (dec "500000"))))
    (enrich (raw_at (dec "1000") (at_10 0 2)) meta_contracts (Some (dec "50000"))).
Definition sample_enrich_rejects_mismatched_instrument : bool :=
  let raw := raw_at (dec "1") (at_10 0 0) in
  let raw := mkRaw (mkId Binance "BTCUSDT") (raw_value raw) Coins (raw_bucket_ts raw)
               (raw_recv_ts raw) (raw_price_hint raw) in
  ret_is is_schema (enrich raw meta_contracts None).

Definition mk_sample (value : xdec) (coins : option xdec) (recv : Z) : OiSample :=
  mkSample (meta_id meta_contracts) (at_10 0 0) recv value Contracts coins None None.

Definition one_sample_yields_o_eq_h_eq_l_eq_c : bool :=
  let s := mk_sample (dec "100") (Some (dec "1")) (at_10 0 2) in
  let bar := start_from_sample s in
  (samples bar =? 1) && dec_is (native_open bar) (dec "100")
  && dec_is (native_high bar) (dec "100") && dec_is (native_low bar) (dec "100")
  && dec_is (native_close bar) (dec "100") && odec_is (oi_coins_open bar) (Some (dec "1"))
  && odec_is (oi_coins_close bar) (Some (dec "1")).

Definition ohlc_tracks_extremes_across_a_run_of_samples : bool :=
  let bar := start_from_sample (mk_sample (dec "100") (Some (dec "10")) (at_10 0 1)) in
  ok_is (λ bar,
    (samples bar =? 4) && dec_is (native_open bar) (dec "100")
    && dec_is (native_high bar) (dec "105") && dec_is (native_low bar) (dec "95")
    && dec_is (native_close bar) (dec "102")
    && odec_is (oi_coins_open bar) (Some (dec "10"))
    && odec_is (oi_coins_high bar) (Some (dec "11"))
    && odec_is (oi_coins_low bar) (Some (dec "9"))
    && odec_is (oi_coins_close bar) (Some (dec "10.2"))
    && odt_eqb (first_recv_ts bar) (at_10 0 1) && odt_eqb (last_recv_ts bar) (at_10 0 45))
  (let? bar := observe bar (mk_sample (dec "105") (Some (dec "11")) (at_10 0 15)) in
   let? bar := observe bar (mk_sample (dec "95") (Some (dec "9")) (at_10 0 30)) in
   observe bar (mk_sample (dec "102") (Some (dec "10.2")) (at_10 0 45))).

Definition first_priced_sample_in_bar_initializes_optional_ohlc_after_unpriced_open : bool :=
  let bar := start_from_sample (mk_sample (dec "100") None (at_10 0 1)) in
  is_none (oi_coins_open bar)
  && ok_is (λ bar,
       odec_is (oi_coins_open bar) (Some (dec "20"))
       && odec_is (oi_coins_high bar) (Some (dec "20"))
       && odec_is (oi_coins_low bar) (Some (dec "20"))
       && odec_is (oi_coins_close bar) (Some (dec "20")))
     (observe bar (mk_sample (dec "101") (Some (dec "20")) (at_10 0 15))).

Definition observe_rejects_cross_bucket_sample : bool :=
  let bar := start_from_sample (mk_sample (dec "1") None (at_10 0 0)) in
  let s := mk_sample (dec "2") None (at_10 1 0) in
  let wrong := mkSample (s_instrument s) (at_10 1 0) (s_recv_ts s) (s_native_value s)
                 (s_native_unit s) (s_oi_coins s) (s_oi_usd s) (s_price_used s) in
  is_schema (observe bar wrong).

(** * common/bucket.rs *)

Definition floor_zeroes_seconds_and_nanos : bool :=
  let t := datetime 2026 4 24 10 15 37 123456000 in
  ret_is (odt_eqb (datetime 2026 4 24 10 15 0 0)) (floor_to_minute t).
Definition floor_is_idempotent : bool :=
  let t := datetime 2026 4 24 10 15 0 0 in
  ret_is (odt_eqb t) (floor_to_minute t ≫= floor_to_minute).
Definition next_minute_is_strictly_after : bool :=
  ret_is (odt_eqb (datetime 2026 4 24 10 16 0 0))
    (next_minute_after (datetime 2026 4 24 10 15 0 0))
  && ret_is (odt_eqb (datetime 2026 4 24 10 16 0 0))
       (next_minute_after (datetime 2026 4 24 10 15 59 999000000)).

(** The same test of backfill.rs and of live.rs for their own copies. *)
Definition floor_to_minute_zeroes_sub_minute_components : bool :=
  ret_is (odt_eqb (datetime 2026 4 24 10 15 0 0))
    (backfill_floor (datetime 2026 4 24 10 15 37 500000000)).
Definition floor_to_minute_is_correct : bool :=
  ret_is (odt_eqb (datetime 2026 4 25 10 15 0 0))
    (live_floor (datetime 2026 4 25 10 15 37 500000000)).

Definition core_suite : Suite := [
  ("transient_and_ratelimited_are_retryable", transient_and_ratelimited_are_retryable);
  ("code_roundtrip_for_every_exchange", code_roundtrip_for_every_exchange);
  ("from_str_is_case_insensitive", from_str_is_case_insensitive);
  ("unknown_exchange_errors", unknown_exchange_errors);
  ("id_key_is_exchange_colon_symbol", id_key_is_exchange_colon_symbol);
  ("meta_serde_roundtrip", meta_serde_roundtrip);
  ("serde_roundtrip_with_optional_fields_set", serde_roundtrip_with_optional_fields_set);
  ("funding_event_serde_roundtrip", funding_event_serde_roundtrip);
  ("funding_event_serde_without_mark_price", funding_event_serde_without_mark_price);
  ("serde_roundtrip_with_optional_fields_absent", serde_roundtrip_with_optional_fields_absent);
  ("coins_to_usd_uses_price", coins_to_usd_uses_price);
  ("contracts_to_coins_requires_multiplier", contracts_to_coins_requires_multiplier);
  ("contracts_to_usd_multiplies_both", contracts_to_usd_multiplies_both);
  ("usd_native_returns_itself", usd_native_returns_itself);
  ("usd_cannot_be_converted_back_to_coins_without_price",
    usd_cannot_be_converted_back_to_coins_without_price);
  ("sample_enrich_contracts_with_price_fills_both_columns",
    sample_enrich_contracts_with_price_fills_both_columns);
  ("sample_enrich_rejects_mismatched_instrument", sample_enrich_rejects_mismatched_instrument);
  ("one_sample_yields_o_eq_h_eq_l_eq_c", one_sample_yields_o_eq_h_eq_l_eq_c);
  ("ohlc_tracks_extremes_across_a_run_of_samples", ohlc_tracks_extremes_across_a_run_of_samples);
  ("first_priced_sample_in_bar_initializes_optional_ohlc_after_unpriced_open",
    first_priced_sample_in_bar_initializes_optional_ohlc_after_unpriced_open);
  ("observe_rejects_cross_bucket_sample", observe_rejects_cross_bucket_sample);
  ("floor_zeroes_seconds_and_nanos", floor_zeroes_seconds_and_nanos);
  ("floor_is_idempotent", floor_is_idempotent);
  ("next_minute_is_strictly_after", next_minute_is_strictly_after);
  ("floor_to_minute_zeroes_sub_minute_components",
    floor_to_minute_zeroes_sub_minute_components);
  ("floor_to_minute_is_correct", floor_to_minute_is_correct)]%string.

Example core_suite_passes : failing core_suite = [].
Proof. vm_compute. reflexivity. Qed.
