(* ===== verification/TestsStorage.v ===== *)
(** The unit tests of oi-storage (wal.rs, leader_gated.rs, clickhouse.rs,
    pubsub.rs, redis.rs) and of oi-replication (failover.rs), replayed on the
    model.  A sleep of a test is the clock moving on; [std::fs] is the model's
    disk. *)

From Stdlib Require Import ZArith Lia String Ascii.
From stdpp Require Import base option list strings gmap.
From S2P Require Import Prelude TextOrder Externals Concrete Exact Domain Repository Wal Lease ClickHouse TestKit.
Open Scope Z_scope.
Open Scope oi_scope.

#[local] Existing Instance x_decimal | 0.
#[local] Existing Instance z_time | 0.

Definition storage_text (e : CoreError) : string :=
  match e with CStorage m | CConfig m | CIo m | COther m => m | CExchange _ => EmptyString end.

(** * wal.rs *)

Definition sample_snap : OiSnapshot :=
  let recv := datetime 2026 4 24 10 0 2 0 in
  let o := dec "100" in
  let usd := Some (dec "6400000") in
  mkSnapshot (mkId Binance "BTCUSDT") (datetime 2026 4 24 10 0 0 0) recv recv 1 Coins
    o o o o (Some o) (Some o) (Some o) (Some o) usd usd usd usd (Some (dec "64000")).

(** A stand-in for MessagePack that knows the batches of these tests, with the
    real checksum. *)
Definition known_batches : list (list OiSnapshot) := [[sample_snap]; [sample_snap; sample_snap]].
Definition x_encode (l : list OiSnapshot) : result string (list Z) :=
  match list_find (λ x, x = l) known_batches with
  | Some (i, _) => Ok [145; Z.of_nat i]
  | None => Err "unknown batch"%string
  end.
Definition x_decode (b : list Z) : result string (list OiSnapshot) :=
  match b with
  | [145; i] => match known_batches !! Z.to_nat i with
                | Some l => Ok l | None => Err "invalid index"%string end
  | _ => Err "invalid length"%string
  end.
#[local] Instance x_codec : SnapCodec := {|
  mp_encode s := x_encode [s];
  mp_decode b := match x_decode b with
                 | Ok [s] => Ok s | Ok _ => Err "not one bar"%string | Err e => Err e end;
  mp_encode_batch := x_encode; mp_decode_batch := x_decode;
  crc32 := crc32_ieee |}.

(** A fresh directory at noon; [sleep] in milliseconds. *)
Definition tmpdir : string := "/tmp/oi-wal-test-2a-0".
Definition fresh_disk : Disk := mkDisk ∅ (Some 1777032000000) 42 1 (λ _, None) 0 (mkBack ∅ [] []).
Definition sleep (ms : Z) : Prog Disk unit :=
  change_world (λ d, mkDisk (files d) ((λ t, t + ms) <$> clock d) (pid d) (counter d)
                       (faults d) (ops d) (back d)).
Definition std_write (name : string) (bytes : list Z) : Prog Disk unit :=
  change_world (set_files (<[name := mkFile bytes false]>)).
Definition std_read (name : string) : Prog Disk (list Z) :=
  d ← get_world; unwrap_some (data <$> files d !! name).
Definition exists_file (name : string) : Prog Disk bool :=
  d ← get_world; mret (bool_decide (is_Some (files d !! name))).

Definition append_read_ack_roundtrip : Prog Disk unit :=
  wal ← unwrap (wal_open tmpdir 1000);
  let snap := sample_snap in
  path ← unwrap (wal_append wal [snap]);
  pending ← unwrap (wal_pending wal);
  _ ← assert_that (length pending =? 1)%nat;
  _ ← assert_that (bool_decide (pending !! 0%nat = Some path));
  replay ← unwrap (wal_read wal path);
  _ ← assert_that (bool_decide (replay = [snap]));
  _ ← unwrap (wal_ack wal path);
  rest ← unwrap (wal_pending wal);
  assert_that (bool_decide (rest = [])).

Definition ack_of_missing_file_is_idempotent : Prog Disk unit :=
  wal ← unwrap (wal_open tmpdir 1000);
  path ← unwrap (wal_append wal [sample_snap]);
  _ ← unwrap (wal_ack wal path);
  unwrap (wal_ack wal path).

Definition pending_is_sorted_chronologically : Prog Disk unit :=
  wal ← unwrap (wal_open tmpdir 1000);
  a ← unwrap (wal_append wal [sample_snap]);
  _ ← sleep 5;
  b ← unwrap (wal_append wal [sample_snap]);
  list ← unwrap (wal_pending wal);
  _ ← assert_that (length list =? 2)%nat;
  _ ← assert_that (bool_decide (list !! 0%nat = Some a));
  assert_that (bool_decide (list !! 1%nat = Some b)).

Definition append_writes_oiw1_framed_file : Prog Disk unit :=
  wal ← unwrap (wal_open tmpdir 1000);
  path ← unwrap (wal_append wal [sample_snap]);
  raw ← std_read path;
  _ ← assert_that (FRAME_HEADER_LEN <? length raw)%nat;
  _ ← assert_that (bool_decide (take 4 raw = FRAME_MAGIC));
  let stored_crc := be_value32 (take 4 (drop 4 raw)) in
  assert_that (stored_crc =? crc32 (drop FRAME_HEADER_LEN raw)).

Definition read_rejects_corrupted_payload : Prog Disk unit :=
  wal ← unwrap (wal_open tmpdir 1000);
  path ← unwrap (wal_append wal [sample_snap]);
  raw ← std_read path;
  let lastp := (length raw - 1)%nat in
  let raw := alter (λ b, Z.lxor b 255) lastp raw in
  _ ← std_write path raw;
  err ← unwrap_err (wal_read wal path);
  assert_that (contains "crc mismatch" (storage_text err)).

Definition read_accepts_legacy_unframed_msgpack : Prog Disk unit :=
  wal ← unwrap (wal_open tmpdir 1000);
  let snaps := [sample_snap] in
  payload ← unwrap_some (result_ok (mp_encode_batch snaps));
  let legacy_path := "0-deadbeef-1.mpk"%string in
  _ ← std_write legacy_path payload;
  read_back ← unwrap (wal_read wal legacy_path);
  assert_that (bool_decide (read_back = snaps)).

Definition reap_deletes_files_older_than_max_age : Prog Disk unit :=
  wal ← unwrap (wal_open tmpdir 1000);
  recent ← unwrap (wal_append wal [sample_snap]);
  now_ms ← unwrap now_ms;
  let old_ts_ms := now_ms - 10 * 60 * 1000 in
  let old_path := int_to_string old_ts_ms +:+ "-deadbeef-1.mpk" in
  payload ← unwrap_some (result_ok (mp_encode_batch [sample_snap]));
  let crc := crc32 payload in
  let framed := [79; 73; 87; 49] ++ be_bytes32 crc ++ payload in
  _ ← std_write old_path framed;
  n ← unwrap (reap_older_than wal (5 * 60 * 1000));
  _ ← assert_that (n =? 1);
  old ← exists_file old_path;
  _ ← assert_that (negb old);
  young ← exists_file recent;
  assert_that young.

Definition reap_is_a_noop_when_queue_is_empty_or_young : Prog Disk unit :=
  wal ← unwrap (wal_open tmpdir 1000);
  n ← unwrap (reap_older_than wal (60 * 1000));
  _ ← assert_that (n =? 0);
  _ ← unwrap (wal_append wal [sample_snap]);
  m ← unwrap (reap_older_than wal (3600 * 1000));
  assert_that (m =? 0).

Definition parse_ts_ms_handles_real_filenames_and_garbage : bool :=
  bool_decide (parse_ts_ms "1714000000000-2a3f-0.mpk" = Some 1714000000000)
  && bool_decide (parse_ts_ms "0-deadbeef-1.mpk" = Some 0)
  && is_none (parse_ts_ms "nodashhere.mpk") && is_none (parse_ts_ms "notanumber-x-y.mpk").

Definition oldest_pending_age_is_none_when_empty_else_monotone : Prog Disk unit :=
  wal ← unwrap (wal_open tmpdir 1000);
  a0 ← unwrap (oldest_pending_age wal);
  _ ← assert_that (is_none a0);
  _ ← unwrap (wal_append wal [sample_snap]);
  o1 ← unwrap (oldest_pending_age wal);
  a1 ← unwrap_some o1;
  _ ← sleep 20;
  o2 ← unwrap (oldest_pending_age wal);
  a2 ← unwrap_some o2;
  assert_that (a1 <=? a2).

Definition oldest_pending_age_tracks_oldest_not_newest : Prog Disk unit :=
  wal ← unwrap (wal_open tmpdir 1000);
  oldest ← unwrap (wal_append wal [sample_snap]);
  _ ← sleep 50;
  _ ← unwrap (wal_append wal [sample_snap]);
  o ← unwrap (oldest_pending_age wal);
  age ← unwrap_some o;
  _ ← assert_that (50 <=? age);
  _ ← unwrap (wal_ack wal oldest);
  o' ← unwrap (oldest_pending_age wal);
  age_after ← unwrap_some o';
  assert_that (age_after <? age).

(** ** The drainer *)

(** [Counting]: the calls and the rows. *)
Definition wal_counting : OiRepository (Z * Z) :=
  with_default_funding
    (λ snaps w, (Ok tt, (w.1 + 1, w.2 + Z.of_nat (length snaps))))
    (λ _, mret tt) (λ _ _ _, mret []) (λ _, mret None).
Definition drainer_acks_successful_inner_write : Prog (Disk * (Z * Z)) unit :=
  wal ← unwrap (se_fst (wal_open tmpdir 1000));
  _ ← unwrap (se_fst (wal_append wal [sample_snap]));
  _ ← unwrap (se_fst (wal_append wal [sample_snap; sample_snap]));
  before ← unwrap (se_fst (wal_pending wal));
  _ ← assert_that (length before =? 2)%nat;
  _ ← unwrap (drain_once wal wal_counting);
  rest ← unwrap (se_fst (wal_pending wal));
  assert_that (bool_decide (rest = [])).

Definition wal_failing : OiRepository unit :=
  with_default_funding
    (λ _, se_fail (CStorage "synthetic downstream failure"))
    (λ _, mret tt) (λ _ _ _, mret []) (λ _, mret None).
Definition drainer_stops_on_first_failure_and_leaves_files : Prog (Disk * unit) unit :=
  wal ← unwrap (se_fst (wal_open tmpdir 1000));
  _ ← unwrap (se_fst (wal_append wal [sample_snap]));
  _ ← unwrap (se_fst (wal_append wal [sample_snap]));
  err ← unwrap_err (drain_once wal wal_failing);
  _ ← assert_that (contains "synthetic" (storage_text err));
  rest ← unwrap (se_fst (wal_pending wal));
  assert_that (length rest =? 2)%nat.

(** [Noop] panics when it is called: the world records it. *)
Definition wal_noop : OiRepository bool :=
  with_default_funding (λ _ _, (Ok tt, true)) (λ _ _, (Ok tt, true))
    (λ _ _ _ _, (Ok [], true)) (λ _ _, (Ok None, true)).
Definition empty_batch_is_a_noop : Prog (Disk * bool) unit :=
  wal ← unwrap (se_fst (wal_open tmpdir 1000));
  let backed := wal_backed wal_noop wal in
  _ ← unwrap (upsert_snapshots backed []);
  w ← get_world;
  assert_that (negb w.2).

(** * leader_gated.rs *)

(** [CountingInner] and the flag the gate reads. *)
Definition gate_counting : OiRepository (Z * bool) :=
  with_default_funding (λ _ w, (Ok tt, (w.1 + 1, w.2)))
    (λ _, mret tt) (λ _ _ _, mret []) (λ _, mret None).
Definition gate_snap : OiSnapshot :=
  let recv := datetime 2026 4 25 0 0 1 0 in
  let o := dec "1" in
  mkSnapshot (mkId Binance "BTCUSDT") (datetime 2026 4 25 0 0 0 0) recv recv 1 Coins
    o o o o (Some o) (Some o) (Some o) (Some o) None None None None None.
Definition gate_repo : OiRepository (Z * bool) := leader_gated gate_counting snd.
Definition upserts : Prog (Z * bool) Z := w ← get_world; mret w.1.

Definition leader_passes_writes_through : Prog (Z * bool) unit :=
  _ ← unwrap (upsert_snapshots gate_repo [gate_snap]);
  n ← upserts;
  assert_that (n =? 1).
Definition follower_returns_err_and_skips_inner : Prog (Z * bool) unit :=
  err ← unwrap_err (upsert_snapshots gate_repo [gate_snap]);
  _ ← assert_that (contains "not leader" (storage_text err));
  n ← upserts;
  assert_that (n =? 0).
Definition read_paths_pass_through_regardless_of_leadership : Prog (Z * bool) unit :=
  let id := mkId Binance "BTCUSDT" in
  _ ← unwrap (range gate_repo id (datetime 2026 4 25 0 0 0 0) (datetime 2026 4 25 1 0 0 0));
  _ ← unwrap (latest gate_repo id);
  mret tt.
Definition gate_can_flip_at_runtime : Prog (Z * bool) unit :=
  _ ← unwrap_err (upsert_snapshots gate_repo [gate_snap]);
  _ ← change_world (λ w, (w.1, true));
  _ ← unwrap (upsert_snapshots gate_repo [gate_snap]);
  n ← upserts;
  assert_that (n =? 1).

(** * clickhouse.rs, pubsub.rs, redis.rs *)

Definition nl : string := String newline EmptyString.
Definition split_sql_produces_multiple_statements : bool :=
  let sql := "CREATE TABLE a(x Int64) ENGINE=Memory;" +:+ nl +:+ nl +:+ "-- comment only" +:+ nl
             +:+ ";" +:+ nl +:+ "CREATE TABLE b(y Int64) ENGINE=Memory;" in
  (length (split_sql sql) =? 2)%nat.
Definition split_sql_ignores_semicolons_inside_line_comments : bool :=
  let sql := "-- header: (note about A; and about B)." +:+ nl
             +:+ "CREATE TABLE a(x Int64) ENGINE=Memory;" +:+ nl
             +:+ "-- another with ; in it." +:+ nl
             +:+ "CREATE TABLE b(y Int64) ENGINE=Memory;" +:+ nl in
  let parts := split_sql sql in
  (length parts =? 2)%nat
  && some_is (contains "CREATE TABLE a") (parts !! 0%nat)
  && some_is (contains "CREATE TABLE b") (parts !! 1%nat).

Definition channel_names_are_stable : bool :=
  String.eqb FIREHOSE_CHANNEL "oi:stream"
  && String.eqb (exchange_channel Binance) "oi:stream:binance"
  && String.eqb (exchange_channel Hyperliquid) "oi:stream:hyperliquid".
Definition latest_key_is_stable : bool :=
  String.eqb (latest_key (mkId Binance "BTCUSDT")) "oi:latest:binance:BTCUSDT".

(** * failover.rs *)

(** [LeaseConfig::new]; the node id is a fresh UUID. *)
Definition a_uuid : string := "67e55044-10b1-426f-9247-bb680e5fe0c8".
Definition config_defaults_are_sane : bool :=
  let cfg := lease_config_new "redis://localhost" a_uuid in
  String.eqb (key cfg) "oi:lease:writer" && (ttl_ms cfg =? 15000)
  && (refresh_interval_ms cfg <? ttl_ms cfg) && negb (String.eqb (node_id cfg) "").
Definition custom_node_id_overrides_default : bool :=
  String.eqb (node_id (with_node_id (lease_config_new "redis://localhost" a_uuid) "node-A"))
    "node-A".
(** A handle is a view of the shared flag: a node of the cluster's state. *)
Definition lease_manager_reports_initial_state_as_follower : bool :=
  negb (is_leader (c_init 0 None) "test").
Definition atomic_flip_is_visible_through_clones : bool :=
  let c := c_init 0 None in
  let flipped := mkCluster (c_now c) (c_slot c) (upd "test" true (c_held c)) (c_granted c) in
  let h1 := is_leader flipped "test" in
  let h2 := is_leader flipped "test" in
  h1 && h2.

Definition storage_suite : Suite := [
  ("append_read_ack_roundtrip", passes append_read_ack_roundtrip fresh_disk);
  ("ack_of_missing_file_is_idempotent", passes ack_of_missing_file_is_idempotent fresh_disk);
  ("pending_is_sorted_chronologically", passes pending_is_sorted_chronologically fresh_disk);
  ("append_writes_oiw1_framed_file", passes append_writes_oiw1_framed_file fresh_disk);
  ("read_rejects_corrupted_payload", passes read_rejects_corrupted_payload fresh_disk);
  ("read_accepts_legacy_unframed_msgpack",
    passes read_accepts_legacy_unframed_msgpack fresh_disk);
  ("reap_deletes_files_older_than_max_age",
    passes reap_deletes_files_older_than_max_age fresh_disk);
  ("reap_is_a_noop_when_queue_is_empty_or_young",
    passes reap_is_a_noop_when_queue_is_empty_or_young fresh_disk);
  ("parse_ts_ms_handles_real_filenames_and_garbage",
    parse_ts_ms_handles_real_filenames_and_garbage);
  ("oldest_pending_age_is_none_when_empty_else_monotone",
    passes oldest_pending_age_is_none_when_empty_else_monotone fresh_disk);
  ("oldest_pending_age_tracks_oldest_not_newest",
    passes oldest_pending_age_tracks_oldest_not_newest fresh_disk);
  ("drainer_acks_successful_inner_write",
    passes drainer_acks_successful_inner_write (fresh_disk, (0, 0)));
  ("drainer_stops_on_first_failure_and_leaves_files",
    passes drainer_stops_on_first_failure_and_leaves_files (fresh_disk, tt));
  ("empty_batch_is_a_noop", passes empty_batch_is_a_noop (fresh_disk, false));
  ("leader_passes_writes_through", passes leader_passes_writes_through (0, true));
  ("follower_returns_err_and_skips_inner",
    passes follower_returns_err_and_skips_inner (0, false));
  ("read_paths_pass_through_regardless_of_leadership",
    passes read_paths_pass_through_regardless_of_leadership (0, false));
  ("gate_can_flip_at_runtime", passes gate_can_flip_at_runtime (0, false));
  ("split_sql_produces_multiple_statements", split_sql_produces_multiple_statements);
  ("split_sql_ignores_semicolons_inside_line_comments",
    split_sql_ignores_semicolons_inside_line_comments);
  ("channel_names_are_stable", channel_names_are_stable);
  ("latest_key_is_stable", latest_key_is_stable);
  ("config_defaults_are_sane", config_defaults_are_sane);
  ("custom_node_id_overrides_default", custom_node_id_overrides_default);
  ("lease_manager_reports_initial_state_as_follower",
    lease_manager_reports_initial_state_as_follower);
  ("atomic_flip_is_visible_through_clones", atomic_flip_is_visible_through_clones)]%string.

Example storage_suite_passes : failing storage_suite = [].
Proof. vm_compute. reflexivity. Qed.
