(* ===== verification/TestsCollector.v ===== *)
(** The unit tests of oi-collector (price_provider.rs, aggregator.rs,
    scheduler.rs), replayed on the model. *)

From Stdlib Require Import ZArith Lia String.
From stdpp Require Import base option list strings gmap.
From S2P Require Import Prelude Externals Concrete Exact Domain Scheduler Aggregator Pricing TestKit.
Open Scope Z_scope.
Open Scope oi_scope.

#[local] Existing Instance x_decimal | 0.
#[local] Existing Instance z_time | 0.

(** [datetime!(2026-04-25 h:mi:s UTC)] *)
Definition apr25 (h mi s : Z) : Z := datetime 2026 4 25 h mi s 0.

(** * price_provider.rs *)

Definition quote (ex : Exchange) (sym : string) (price : xdec) (ts : Z) : PriceQuote :=
  mkQuote (mkId ex sym) price Mark ts.
(** [assert_eq!(got, (price, provenance))]. *)
Definition provenance_eqb (a b : Provenance) : bool :=
  match a, b with
  | Native, Native => true
  | Fallback e q, Fallback e' q' => bool_decide (e = e') && Bool.eqb q q'
  | _, _ => false
  end.
Definition got_price (price : xdec) (from : Provenance) (got : option (xdec * Provenance)) : bool :=
  some_is (λ g, dec_is g.1 price && provenance_eqb g.2 from) got.
Definition provider : InMemoryPriceProvider := with_tolerance (dur_minutes 5).

Definition recent_price_is_returned : bool :=
  let id := mkId Binance "BTCUSDT" in
  let p := ingest provider [quote Binance "BTCUSDT" (dec "65000") (apr25 10 0 0)] in
  odec_is (price_usd p id (apr25 10 1 0)) (Some (dec "65000")).

Definition stale_price_is_suppressed : bool :=
  let id := mkId Binance "BTCUSDT" in
  let p := ingest provider [quote Binance "BTCUSDT" (dec "65000") (apr25 10 0 0)] in
  is_none (price_usd p id (apr25 11 0 0)).

Definition fallback_finds_same_quote_family_first : bool :=
  let target := mkId Mexc "BTC_USDT" in
  let p := register_instrument provider target "BTC" "USDT" in
  let p := register_instrument p (mkId Bybit "BTCUSDC") "BTC" "USDC" in
  let p := register_instrument p (mkId Binance "BTCUSDT") "BTC" "USDT" in
  let p := ingest p [quote Bybit "BTCUSDC" (dec "64995") (apr25 10 0 0)] in
  got_price (dec "64995") (Fallback Bybit true)
    (price_usd_with_fallback p target "BTC" "USDT" (apr25 10 1 0)).

Definition loose_pass_picks_up_different_quote_family : bool :=
  let target := mkId Mexc "BTC_USDT" in
  let p := register_instrument provider target "BTC" "USDT" in
  let p := register_instrument p (mkId Binance "BTCEUR") "BTC" "EUR" in
  let p := ingest p [quote Binance "BTCEUR" (dec "60000") (apr25 10 0 0)] in
  got_price (dec "60000") (Fallback Binance false)
    (price_usd_with_fallback p target "BTC" "USDT" (apr25 10 1 0)).

Definition strict_pass_beats_loose_when_both_available : bool :=
  let target := mkId Mexc "BTC_USDT" in
  let p := register_instrument provider target "BTC" "USDT" in
  let p := register_instrument p (mkId Binance "BTCEUR") "BTC" "EUR" in
  let p := register_instrument p (mkId Bybit "BTCUSDT") "BTC" "USDT" in
  let p := ingest p [quote Binance "BTCEUR" (dec "60000") (apr25 10 0 0);
                     quote Bybit "BTCUSDT" (dec "64995") (apr25 10 0 0)] in
  got_price (dec "64995") (Fallback Bybit true)
    (price_usd_with_fallback p target "BTC" "USDT" (apr25 10 1 0)).

Definition native_price_wins_over_fallback : bool :=
  let mexc := mkId Mexc "BTC_USDT" in
  let p := register_instrument provider mexc "BTC" "USDT" in
  let p := register_instrument p (mkId Binance "BTCUSDT") "BTC" "USDT" in
  let p := ingest p [quote Mexc "BTC_USDT" (dec "64950") (apr25 10 0 0);
                     quote Binance "BTCUSDT" (dec "65000") (apr25 10 0 0)] in
  got_price (dec "64950") Native (price_usd_with_fallback p mexc "BTC" "USDT" (apr25 10 1 0)).

Definition xbt_canonicalized_to_btc_for_kucoin : bool :=
  let kucoin := mkId KuCoin "XBTUSDTM" in
  let p := register_instrument provider kucoin "XBT" "USDT" in
  let p := register_instrument p (mkId Binance "BTCUSDT") "BTC" "USDT" in
  let p := ingest p [quote Binance "BTCUSDT" (dec "65000") (apr25 10 0 0)] in
  got_price (dec "65000") (Fallback Binance true)
    (price_usd_with_fallback p kucoin "XBT" "USDT" (apr25 10 1 0)).

Definition fallback_returns_none_when_all_sources_stale : bool :=
  let mexc := mkId Mexc "BTC_USDT" in
  let p := register_instrument provider mexc "BTC" "USDT" in
  let p := register_instrument p (mkId Binance "BTCUSDT") "BTC" "USDT" in
  let p := ingest p [quote Mexc "BTC_USDT" (dec "64950") (apr25 9 0 0);
                     quote Binance "BTCUSDT" (dec "65000") (apr25 9 0 0)] in
  is_none (price_usd_with_fallback p mexc "BTC" "USDT" (apr25 10 0 0)).

Definition declaration_order_priority_within_strict_pass : bool :=
  let target := mkId Mexc "BTC_USDT" in
  let p := foldl (λ p id, register_instrument p id "BTC" "USDT") provider
             [target; mkId Bybit "BTCUSDT"; mkId Binance "BTCUSDT"] in
  let p := ingest p [quote Bybit "BTCUSDT" (dec "64900") (apr25 10 0 0);
                     quote Binance "BTCUSDT" (dec "65000") (apr25 10 0 0)] in
  got_price (dec "65000") (Fallback Binance true)
    (price_usd_with_fallback p target "BTC" "USDT" (apr25 10 1 0)).

Definition canonical_base_handles_known_aliases : bool :=
  String.eqb (canonical_base "BTC") "BTC" && String.eqb (canonical_base "XBT") "BTC"
  && String.eqb (canonical_base "xbt") "BTC" && String.eqb (canonical_base "ETH") "ETH".

Definition canonical_quote_collapses_usd_pegged_stables : bool :=
  forallb (λ q, String.eqb (canonical_quote q) "USD-PEG")
    ["USDT"; "USDC"; "BUSD"; "FDUSD"; "USD"; "TUSD"; "DAI"]%string
  && String.eqb (canonical_quote "usdt") "USD-PEG"
  && String.eqb (canonical_quote "EUR") "EUR" && String.eqb (canonical_quote "BTC") "BTC".

Definition register_instrument_is_idempotent : bool :=
  let id := mkId Binance "BTCUSDT" in
  let p := register_instrument provider id "BTC" "USDT" in
  let p := register_instrument p id "BTC" "USDT" in
  let p := register_instrument p id "BTC" "USDT" in
  some_is (λ entries, (length entries =? 1)%nat) (by_base p !! "BTC"%string).

(** * aggregator.rs *)

(** The aggregator is behind an [Arc]: the world of the program. *)
Abbreviation XBars := (gmap InstrumentId XSnapshot).
Abbreviation Agg := (Prog XBars).
Definition agg_do_observe (s : XSample) : Agg XSnapshot := λ bars, Some (agg_observe bars s).
Definition agg_do_flush_through (up_to : Z) : Agg (list XSnapshot) := λ bars,
  Some (flush_through (map_to_list bars) bars up_to).
Definition agg_do_flush_all : Agg (list XSnapshot) := λ bars,
  Some (flush_all (map_to_list bars) bars).
Definition agg_has (n : nat) : Agg unit :=
  bars ← get_world; assert_that (agg_len bars =? n)%nat.

Definition agg_sample (value : xdec) (recv : Z) : XSample :=
  mkSample (mkId Bybit "BTCUSDT") (apr25 10 0 0) recv value Coins (Some value)
    (Some (run_or value (x_mul value (dec "64000")))) (Some (dec "64000")).

Definition first_observe_creates_bar_with_one_sample : Agg unit :=
  bar ← agg_do_observe (agg_sample (dec "100") (apr25 10 0 1));
  _ ← assert_that ((samples bar =? 1) && dec_is (native_open bar) (dec "100")
                   && dec_is (native_close bar) (dec "100"));
  agg_has 1.

Definition many_observes_in_same_minute_fold_into_one_bar : Agg unit :=
  _ ← agg_do_observe (agg_sample (dec "100") (apr25 10 0 1));
  _ ← agg_do_observe (agg_sample (dec "105") (apr25 10 0 15));
  _ ← agg_do_observe (agg_sample (dec "95") (apr25 10 0 30));
  bar ← agg_do_observe (agg_sample (dec "102") (apr25 10 0 45));
  _ ← assert_that ((samples bar =? 4) && dec_is (native_open bar) (dec "100")
                   && dec_is (native_high bar) (dec "105") && dec_is (native_low bar) (dec "95")
                   && dec_is (native_close bar) (dec "102"));
  agg_has 1.

Definition flush_through_drains_only_completed_buckets : Agg unit :=
  _ ← agg_do_observe (agg_sample (dec "100") (apr25 10 0 1));
  let other := mkSample (mkId Okx "BTC-USDT-SWAP") (apr25 10 1 0) (apr25 10 1 1) (dec "200")
                 Coins None None None in
  _ ← agg_do_observe other;
  drained ← agg_do_flush_through (apr25 10 0 0);
  _ ← assert_that (length drained =? 1)%nat;
  _ ← assert_that (some_is (λ b, bool_decide (exchange (instrument b) = Bybit)) (drained !! 0%nat));
  agg_has 1.

Definition current_returns_in_progress_bar_without_mutating : Agg unit :=
  _ ← agg_do_observe (agg_sample (dec "100") (apr25 10 0 1));
  _ ← agg_do_observe (agg_sample (dec "105") (apr25 10 0 15));
  bars ← get_world;
  peek ← unwrap_some (current bars (mkId Bybit "BTCUSDT"));
  _ ← assert_that ((samples peek =? 2) && dec_is (native_high peek) (dec "105"));
  agg_has 1.

Definition bucket_roll_replaces_stale_bar_with_new_one : Agg unit :=
  _ ← agg_do_observe (agg_sample (dec "100") (apr25 10 0 1));
  let s := agg_sample (dec "200") (apr25 10 1 1) in
  let next_minute := mkSample (s_instrument s) (apr25 10 1 0) (s_recv_ts s) (s_native_value s)
                       (s_native_unit s) (s_oi_coins s) (s_oi_usd s) (s_price_used s) in
  new_bar ← agg_do_observe next_minute;
  _ ← assert_that (dec_is (native_open new_bar) (dec "200") && (samples new_bar =? 1)
                   && odt_eqb (bucket_ts new_bar) (apr25 10 1 0));
  agg_has 1.

Definition flush_all_empties_the_aggregator : Agg unit :=
  _ ← agg_do_observe (agg_sample (dec "1") (apr25 10 0 1));
  _ ← agg_do_observe (agg_sample (dec "2") (apr25 10 0 2));
  bars ← agg_do_flush_all;
  _ ← assert_that (length bars =? 1)%nat;
  _ ← assert_that (some_is (λ b, samples b =? 2) (bars !! 0%nat));
  left ← get_world;
  assert_that (agg_is_empty left).

(** * scheduler.rs *)

Definition OFF : Z := dur_seconds 2.
(** [datetime!(2026-05-16 h:mi:s UTC)] *)
Definition may16 (h mi s : Z) : Z := datetime 2026 5 16 h mi s 0.
Definition planned (target : Z) (wait : Z → bool) (r : run (Z * Z)) : bool :=
  ret_is (λ tw, odt_eqb tw.1 target && wait tw.2) r.

Definition first_call_targets_the_already_closed_minute : bool :=
  planned (may16 9 59 0) (λ wait, wait <=? 0) (plan None (may16 10 0 30) OFF).
Definition steady_state_sleeps_to_next_aligned_deadline : bool :=
  planned (may16 10 1 0) (λ wait, wait =? dur_seconds 57)
    (plan (Some (may16 10 0 0)) (may16 10 1 5) OFF).
Definition overrun_processes_the_next_minute_immediately_not_skipped : bool :=
  planned (may16 10 1 0) (λ wait, wait <=? 0)
    (plan (Some (may16 10 0 0)) (may16 10 2 40) OFF).

(** The loop of the test: each iteration takes 86 seconds. *)
Fixpoint overrun_loop (n : nat) (last : option Z) (now : Z) : run (list Z) :=
  match n with
  | O => Ret []
  | S n' =>
      '(target, _) ← plan last now OFF;
      now ← odt_add now (dur_seconds 86);
      rest ← overrun_loop n' (Some target) now;
      Ret (target :: rest)
  end.
Fixpoint windows_are (step : Z) (l : list Z) : bool :=
  match l with
  | a :: (b :: _) as l' => (odt_diff b a =? step) && windows_are step l'
  | _ => true
  end.
Definition no_skip_invariant_under_sustained_overrun : bool :=
  ret_is (λ produced,
    windows_are (dur_minutes 1) produced
    && some_is (odt_eqb (may16 10 1 0)) (head produced)
    && some_is (odt_eqb (may16 10 10 0)) (last produced))
    (overrun_loop 10 (Some (may16 10 0 0)) (may16 10 1 28)).

Definition self_heals_back_to_aligned_cadence_after_a_spike : bool :=
  planned (may16 10 1 0) (λ w1, w1 <=? 0) (plan (Some (may16 10 0 0)) (may16 10 2 40) OFF)
  && ret_is (λ r, odt_eqb r.1 (may16 10 2 0) && (r.2 =? dur_seconds 17))
       ('(t1, _) ← plan (Some (may16 10 0 0)) (may16 10 2 40) OFF;
        plan (Some t1) (may16 10 2 45) OFF).

Definition collector_suite : Suite := [
  ("recent_price_is_returned", recent_price_is_returned);
  ("stale_price_is_suppressed", stale_price_is_suppressed);
  ("fallback_finds_same_quote_family_first", fallback_finds_same_quote_family_first);
  ("loose_pass_picks_up_different_quote_family", loose_pass_picks_up_different_quote_family);
  ("strict_pass_beats_loose_when_both_available", strict_pass_beats_loose_when_both_available);
  ("native_price_wins_over_fallback", native_price_wins_over_fallback);
  ("xbt_canonicalized_to_btc_for_kucoin", xbt_canonicalized_to_btc_for_kucoin);
  ("fallback_returns_none_when_all_sources_stale",
    fallback_returns_none_when_all_sources_stale);
  ("declaration_order_priority_within_strict_pass",
    declaration_order_priority_within_strict_pass);
  ("canonical_base_handles_known_aliases", canonical_base_handles_known_aliases);
  ("canonical_quote_collapses_usd_pegged_stables",
    canonical_quote_collapses_usd_pegged_stables);
  ("register_instrument_is_idempotent", register_instrument_is_idempotent);
  ("first_observe_creates_bar_with_one_sample",
    passes first_observe_creates_bar_with_one_sample aggregator_new);
  ("many_observes_in_same_minute_fold_into_one_bar",
    passes many_observes_in_same_minute_fold_into_one_bar aggregator_new);
  ("flush_through_drains_only_completed_buckets",
    passes flush_through_drains_only_completed_buckets aggregator_new);
  ("current_returns_in_progress_bar_without_mutating",
    passes current_returns_in_progress_bar_without_mutating aggregator_new);
  ("bucket_roll_replaces_stale_bar_with_new_one",
    passes bucket_roll_replaces_stale_bar_with_new_one aggregator_new);
  ("flush_all_empties_the_aggregator", passes flush_all_empties_the_aggregator aggregator_new);
  ("first_call_targets_the_already_closed_minute",
    first_call_targets_the_already_closed_minute);
  ("steady_state_sleeps_to_next_aligned_deadline",
    steady_state_sleeps_to_next_aligned_deadline);
  ("overrun_processes_the_next_minute_immediately_not_skipped",
    overrun_processes_the_next_minute_immediately_not_skipped);
  ("no_skip_invariant_under_sustained_overrun", no_skip_invariant_under_sustained_overrun);
  ("self_heals_back_to_aligned_cadence_after_a_spike",
    self_heals_back_to_aligned_cadence_after_a_spike)]%string.

Example collector_suite_passes : failing collector_suite = [].
Proof. vm_compute. reflexivity. Qed.
