(* ===== verification/TestsExchanges.v ===== *)
(** The unit tests of oi-exchanges, replayed on the model: the ticker streams,
    the envelopes and wire types of the REST adapters, the WebSocket handlers and
    the HTTP layer.  A test whose name several venues use carries the venue's. *)

From Stdlib Require Import ZArith Lia String Ascii.
From stdpp Require Import base option list strings gmap.
From S2P Require Import Prelude Externals Concrete Exact Domain Buckets Http Adapter Binance Bybit Okx Bitget Hyperliquid Mexc KuCoin BingX Aster Json Wire WsClient TestKit.
Open Scope Z_scope.
Open Scope oi_scope.

#[local] Existing Instance x_decimal | 0.
#[local] Existing Instance z_time | 0.
#[local] Existing Instance text_serde | 0.

(** [datetime!(2026-04-24 10:mi:s UTC)] *)
Definition apr24 (mi s : Z) : Z := datetime 2026 4 24 10 mi s 0.
Abbreviation XRaw := (RawOi (DL := x_decimal) (TL := z_time)).
Abbreviation XSample := (OiSample (DL := x_decimal) (TL := z_time)).

(** [json!] of an object of texts, and [serde_json::from_str::<T>]. *)
Definition texts (l : list (string * string)) : json := JObj (prod_map id JStr <$> l).
Definition parse {A} (d : De A) (body : string) : option A := json_read (js body) ≫= d.
Definition str_eq (a b : string) : bool := String.eqb a b.

(** * bybit/stream.rs *)

Definition snapshot (symbol oi mark : string) : json :=
  JObj [("topic", JStr ("tickers." +:+ symbol)); ("type", JStr "snapshot");
        ("ts", JNum "1714000000000");
        ("data", texts [("symbol", symbol); ("openInterest", oi); ("markPrice", mark);
                        ("lastPrice", mark)])]%string.
Definition delta (symbol : string) (fields : json) : json :=
  JObj [("topic", JStr ("tickers." +:+ symbol)); ("type", JStr "delta");
        ("ts", JNum "1714000000500"); ("data", fields)]%string.
(** [f.get("data").unwrap()] *)
Definition data_of (f : json) : json := default JNull (json_get (JsonLib := json_lib) f "data").
Abbreviation XState := (SymbolState (DL := x_decimal)).
Definition merged (st : XState) (ty : FrameType) (f : json) : XState * option xdec :=
  Bybit.merge (JL := json_lib) st ty (data_of f).
Definition after_snapshot : XState :=
  (merged state_default Snapshot (snapshot "BTCUSDT" "100.0" "64000.0")).1.

Definition classifies_snapshot_and_delta : bool :=
  some_is (λ c, match c.1 with Snapshot => str_eq c.2 "BTCUSDT" | Delta => false end)
    (classify_frame (JL := json_lib) (snapshot "BTCUSDT" "1.0" "64000"))
  && some_is (λ c, match c.1 with Delta => true | Snapshot => false end)
    (classify_frame (JL := json_lib) (delta "BTCUSDT" (texts [("openInterest", "2.0")]%string))).
Definition snapshot_populates_all_fields : bool :=
  let '(st, changed) := merged state_default Snapshot (snapshot "BTCUSDT" "100.0" "64000.0") in
  odec_is changed (Some (dec "100.0")) && odec_is (Bybit.open_interest st) (Some (dec "100.0"))
  && odec_is (Bybit.mark_price st) (Some (dec "64000.0")).
Definition delta_oi_change_signals_emit : bool :=
  odec_is (merged after_snapshot Delta
             (delta "BTCUSDT" (texts [("openInterest", "110.0")]%string))).2 (Some (dec "110.0")).
Definition delta_without_oi_change_is_silent : bool :=
  let '(st, changed) :=
    merged after_snapshot Delta (delta "BTCUSDT" (texts [("markPrice", "64100.0")]%string)) in
  is_none changed && odec_is (Bybit.mark_price st) (Some (dec "64100.0")).
Definition delta_with_same_oi_is_silent : bool :=
  is_none (merged after_snapshot Delta
             (delta "BTCUSDT" (texts [("openInterest", "100.0")]%string))).2.
Definition to_raw_uses_mark_price_hint_when_available : bool :=
  some_is (λ raw : XRaw, dec_is (raw_value raw) (dec "100.0")
             && some_is (λ h, match q_source h with Mark => true | _ => false end) (raw_price_hint raw))
    (Bybit.to_raw after_snapshot "BTCUSDT" (apr24 0 0) (apr24 0 5)).
Definition enrich_computes_usd_from_coins_and_price : bool :=
  let id := mkId Domain.Bybit "BTCUSDT" in
  let raw : XRaw := mkRaw id (dec "100") Coins (apr24 0 0) (apr24 0 0)
               (Some (mkQuote id (dec "64000") Mark (apr24 0 0))) in
  ret_is (λ snap : XSample, odec_is (s_oi_coins snap) (Some (dec "100"))
                  && odec_is (s_oi_usd snap) (Some (dec "6400000"))) (enrich_bybit raw).

(** * okx/stream.rs *)

Definition okx_frame (channel : string) (rows : list json) : json :=
  JObj [("arg", texts [("channel", channel); ("instId", "BTC-USDT-SWAP")]);
        ("data", JArr rows)]%string.
Definition okx_extract : json → option (string * xdec) := Okx.extract_oi_update (JL := json_lib).

Definition extracts_instid_and_coins_from_open_interest_push : bool :=
  some_is (λ u, str_eq u.1 "BTC-USDT-SWAP" && dec_is u.2 (dec "1234.56"))
    (okx_extract (okx_frame "open-interest"
       [texts [("instType", "SWAP"); ("instId", "BTC-USDT-SWAP"); ("oi", "123456");
               ("oiCcy", "1234.56"); ("ts", "1714000000000")]%string])).
Definition ignores_non_open_interest_channel : bool :=
  is_none (okx_extract (okx_frame "tickers"
    [texts [("instId", "BTC-USDT-SWAP"); ("oiCcy", "1.0")]%string])).
Definition ignores_empty_data : bool :=
  is_none (okx_extract
    (JObj [("arg", texts [("channel", "open-interest")]); ("data", JArr [])]%string)).
Definition ignores_missing_oiccy : bool :=
  is_none (okx_extract (okx_frame "open-interest"
    [texts [("instId", "BTC-USDT-SWAP"); ("oi", "1")]%string])).
Definition enrich_copies_coins_and_leaves_usd_null : bool :=
  ret_is (λ raw, let snap : XSample := enrich_okx raw in
    dec_is (s_native_value snap) (dec "1234.56")
    && odec_is (s_oi_coins snap) (Some (dec "1234.56")) && is_none (s_oi_usd snap)
    && odt_eqb (s_bucket_ts snap) (apr24 15 0))
    (Okx.to_raw "BTC-USDT-SWAP" (dec "1234.56") (apr24 15 37)).

(** * bitget/stream.rs and hyperliquid/stream.rs *)

Definition bitget_extract : json → option (string * xdec * option xdec) :=
  Bitget.extract_oi_update (JL := json_lib).
Definition extracts_oi_and_mark_price_from_ticker_push : bool :=
  some_is (λ u, str_eq u.1.1 "BTCUSDT" && dec_is u.1.2 (dec "12345.67")
                && odec_is u.2 (Some (dec "64001")))
    (bitget_extract
      (JObj [("action", JStr "snapshot");
             ("arg", texts [("instType", "USDT-FUTURES"); ("channel", "ticker");
                            ("instId", "BTCUSDT")]);
             ("data", JArr [texts [("instId", "BTCUSDT"); ("last", "64000");
                ("markPrice", "64001"); ("holdingAmount", "12345.67");
                ("ts", "1714000000000")]])]%string)).
Definition ignores_non_ticker_channel : bool :=
  is_none (bitget_extract
    (JObj [("arg", texts [("channel", "trade"); ("instId", "BTCUSDT")]);
           ("data", JArr [texts [("instId", "BTCUSDT"); ("holdingAmount", "1")]])]%string)).
Definition enriched (bucket : option Z) (r : run OiSample) : bool :=
  ret_is (λ snap : XSample, odec_is (s_oi_coins snap) (Some (dec "100"))
             && odec_is (s_oi_usd snap) (Some (dec "6400000"))
             && match bucket with None => true | Some t => odt_eqb (s_bucket_ts snap) t end) r.
Definition enrich_computes_usd_when_price_present : bool :=
  enriched (Some (apr24 15 0))
    (raw ← Bitget.to_raw "BTCUSDT" (dec "100") (Some (dec "64000")) (apr24 15 37);
     enrich_bitget raw).

Definition hl_extract : json → option (string * xdec * option xdec) :=
  Hyperliquid.extract_oi_update (JL := json_lib).
Definition extracts_coin_oi_and_markpx : bool :=
  some_is (λ u, str_eq u.1.1 "BTC" && dec_is u.1.2 (dec "1234.5")
                && odec_is u.2 (Some (dec "64000")))
    (hl_extract
      (JObj [("channel", JStr "activeAssetCtx");
             ("data", JObj [("coin", JStr "BTC");
                ("ctx", texts [("markPx", "64000"); ("openInterest", "1234.5");
                               ("oraclePx", "64001")])])]%string)).
Definition ignores_other_channels : bool :=
  is_none (hl_extract (JObj [("channel", JStr "l2Book"); ("data", JObj [])]%string)).
Definition enrich_produces_usd_from_coins_times_markpx : bool :=
  enriched None
    (raw ← Hyperliquid.to_raw "BTC" (dec "100") (Some (dec "64000")) (apr24 15 0);
     enrich_hyperliquid raw).

(** * The REST adapters' wire types *)

Definition nothing {A} (r : result ExchangeError (list A)) : bool :=
  ok_is (λ l, (length l =? 0)%nat) r.

(** ** mexc/mod.rs and kucoin/mod.rs *)

Definition number_is (text : string) (to_decimal : string → option xdec) : bool :=
  some_is (λ n, odec_is (to_decimal n) (Some (dec text))) (parse de_number text).
Definition number_to_decimal_preserves_small_contract_size : bool :=
  number_is "0.0001" Mexc.number_to_decimal.
Definition number_to_decimal_preserves_integers : bool :=
  number_is "123456" Mexc.number_to_decimal.
Definition mexc_check (body : string) : option (result ExchangeError (list Mexc.TickerRow)) :=
  Mexc.check <$> parse (de_mexc_envelope (de_vec de_mexc_ticker)) body.
Definition envelope_success_requires_code_zero_and_success_true : bool :=
  some_is nothing (mexc_check "{'success':true,'code':0,'data':[]}").
Definition mexc_envelope_rate_limit_code_maps_to_rate_limited : bool :=
  some_is is_rate_limited (mexc_check "{'success':false,'code':510,'data':[]}").
Definition envelope_generic_failure_is_schema_error : bool :=
  some_is is_schema (mexc_check "{'success':false,'code':1002,'data':[]}").

Definition kucoin_check (body : string)
  : option (result ExchangeError (list KuCoin.ContractRow)) :=
  KuCoin.check <$> parse (de_kucoin_envelope (de_vec de_kucoin_contract)) body.
Definition envelope_success_code_is_six_zeros_prefix : bool :=
  some_is nothing (kucoin_check "{'code':'200000','data':[]}").
Definition kucoin_envelope_rate_limit_code_maps_to_rate_limited : bool :=
  some_is is_rate_limited (kucoin_check "{'code':'429000','msg':'too many','data':[]}").
Definition number_to_decimal_preserves_multiplier_precision : bool :=
  number_is "0.001" KuCoin.number_to_decimal.

(** ** bingx/mod.rs *)

Definition bingx_check (body : string) : option (result ExchangeError OpenInterestData) :=
  BingX.check <$> parse (de_bingx_envelope de_open_interest_data) body.
Definition envelope_success_passes : bool :=
  some_is (ok_is (λ d, str_eq (BingX.open_interest d) "1"))
    (bingx_check "{'code':0,'msg':'','data':{'openInterest':'1','symbol':'BTC-USDT','time':1}}").
Definition envelope_throttle_code_is_rate_limited : bool :=
  some_is is_rate_limited
    (bingx_check
      "{'code':100410,'msg':'throttle','data':{'openInterest':'','symbol':'','time':0}}").

(** ** bybit/rest.rs *)

Definition bybit_check (body : string) : option (result ExchangeError (list Bybit.TickerRow)) :=
  Bybit.check <$> parse (de_bybit_envelope de_tickers_result) body.
Definition envelope_success_passes_through : bool :=
  some_is nothing (bybit_check "{'retCode':0,'retMsg':'OK','result':{'list':[]}}").
Definition envelope_known_rate_limit_code_maps_to_rate_limited : bool :=
  some_is is_rate_limited
    (bybit_check "{'retCode':10006,'retMsg':'too many requests','result':{'list':[]}}").
Definition envelope_unknown_nonzero_code_is_schema_error : bool :=
  some_is is_schema (bybit_check "{'retCode':110025,'retMsg':'whatever','result':{'list':[]}}").
Definition instrument_row_parses_with_optional_filters : bool :=
  some_is (λ r, str_eq (ir_symbol r) "BTCUSDT" && is_none (Bybit.tick_size r))
    (parse de_bybit_instrument
      "{'symbol':'BTCUSDT','contractType':'LinearPerpetual','status':'Trading','baseCoin':'BTC','quoteCoin':'USDT'}").

(** ** binance/rest.rs *)

Definition parses_exchange_info_symbol_filters : bool :=
  let filters := [texts [("filterType", "PRICE_FILTER"); ("tickSize", "0.10")];
                  texts [("filterType", "LOT_SIZE"); ("stepSize", "0.001")];
                  texts [("filterType", "MIN_NOTIONAL"); ("notional", "5")]]%string in
  let '(tick, step) := extract_filters (JL := json_lib) filters in
  odec_is tick (Some (dec "0.10")) && odec_is step (Some (dec "0.001")).
Definition parses_open_interest_response_shape : bool :=
  some_is (λ resp, str_eq (Binance.oi_symbol resp) "BTCUSDT"
                   && ok_is (λ d, dec_is d (dec "12345.678"))
                        (x_from_str (Binance.open_interest resp)))
    (parse de_open_interest_resp
      "{'symbol':'BTCUSDT','openInterest':'12345.678','time':1714000000000}").
Definition parses_mark_price_response_shape : bool :=
  some_is (λ resp, (length resp =? 1)%nat
                   && some_is (λ r, str_eq (mp_symbol r) "BTCUSDT") (head resp))
    (parse (de_vec de_mark_price_resp)
      "[{'symbol':'BTCUSDT','markPrice':'64000.50','time':1714000000000}]").

(** ** hyperliquid/rest.rs *)

Definition deserialises_positional_meta_ctxs : bool :=
  some_is (λ p, (length p.1 =? 2)%nat && some_is (λ u, str_eq (u_name u) "BTC") (head p.1)
                && (length p.2 =? 2)%nat
                && some_is (λ c, bool_decide (Hyperliquid.open_interest c = Some "1234.5"%string))
                     (head p.2))
    (parse de_meta_and_ctxs "[
            {'universe':[{'name':'BTC','szDecimals':5,'maxLeverage':50},{'name':'ETH','szDecimals':4,'maxLeverage':50}]},
            [
              {'openInterest':'1234.5','markPx':'64000.0','oraclePx':'63999.0','premium':'0.0001'},
              {'openInterest':'9876.0','markPx':'3200.0','oraclePx':'3200.5'}
            ]
        ]").
Definition tolerates_missing_optional_fields : bool :=
  some_is (λ p, some_is (λ c, bool_decide (Hyperliquid.open_interest c = Some "1"%string)
                              && is_none (Hyperliquid.mark_px c)) (head p.2))
    (parse de_meta_and_ctxs "[
            {'universe':[{'name':'BTC','szDecimals':5}]},
            [ {'openInterest':'1'} ]
        ]").

(** ** okx/rest.rs and bitget/rest.rs *)

Definition okx_check (body : string) : option (result ExchangeError (list OiRow)) :=
  Okx.check <$> parse (de_okx_envelope de_oi_row) body.
Definition envelope_success_passes_data : bool :=
  some_is (ok_is (λ rows, (length rows =? 1)%nat))
    (okx_check
      "{'code':'0','msg':'','data':[{'instId':'BTC-USDT-SWAP','oi':'1','oiCcy':'0.01','ts':'1'}]}").
Definition envelope_non_zero_code_is_schema_error : bool :=
  some_is is_schema
    (okx_check "{'code':'51001','msg':'Instrument does not exist','data':[]}").
Definition instrument_derives_base_from_instid : bool :=
  some_is (λ r, str_eq (Okx.inst_id r) "BTC-USDT-SWAP"
                && str_eq (split_first "-"%char (Okx.inst_id r)) "BTC")
    (parse de_okx_instrument
      "{'instId':'BTC-USDT-SWAP','instType':'SWAP','baseCcy':'','quoteCcy':'USDT','ctVal':'0.01','ctValCcy':'BTC','settleCcy':'USDT','tickSz':'0.1','lotSz':'1','state':'live','ctType':'linear'}").

Definition bitget_check (body : string)
  : option (result ExchangeError (list Bitget.TickerRow)) :=
  Bitget.check <$> parse (de_bitget_envelope (de_vec de_bitget_ticker)) body.
Definition envelope_success_code_is_five_zeros : bool :=
  some_is nothing (bitget_check "{'code':'00000','msg':'success','data':[]}").
Definition bitget_envelope_rate_limit_code_maps_to_rate_limited : bool :=
  some_is is_rate_limited (bitget_check "{'code':'429','msg':'too many','data':[]}").
Definition envelope_unknown_nonzero_is_schema_error : bool :=
  some_is is_schema (bitget_check "{'code':'40002','msg':'bad param','data':[]}").

(** * The WebSocket handlers *)

(** A socket that refuses nothing and keeps nothing: the handlers' static parts
    do not depend on it. *)
Definition quiet (_ : OutMsg) : SE unit string unit := mret tt.
Definition names (n : nat) (suffix : string) : list string :=
  (λ i, "SYM" +:+ int_to_string (Z.of_nat i) +:+ suffix) <$> seq 0 n.
Definition chunks_are (cap n : nat) (l : list string) (sizes : list nat) : bool :=
  bool_decide (length <$> chunks cap l = sizes) && (length l =? n)%nat.

Definition topics_are_formatted_with_prefix : bool :=
  bool_decide (bybit_topics ["BTCUSDT"; "ETHUSDT"]%string
               = ["tickers.BTCUSDT"; "tickers.ETHUSDT"]%string).
Definition default_url_is_linear_public_v5 : bool :=
  str_eq (h_url (bybit_ws (JL := json_lib) quiet ["BTCUSDT"]%string))
    "wss://stream.bybit.com/v5/public/linear".
Definition topic_chunks_respect_arg_cap : bool :=
  chunks_are BYBIT_MAX_ARGS_PER_SUB 25 (bybit_topics (names 25 "USDT")) [10; 10; 5]%nat.
Definition default_url_is_public_v5 : bool :=
  str_eq (h_url (okx_ws (JL := json_lib) quiet ["BTC-USDT-SWAP"]%string))
    "wss://ws.okx.com:8443/ws/v5/public".
Definition chunking_respects_arg_cap : bool :=
  chunks_are OKX_MAX_ARGS_PER_SUB 100 (names 100 "-USDT-SWAP") [40; 40; 20]%nat.
Definition default_url_is_v2_public : bool :=
  str_eq (h_url (bitget_ws (JL := json_lib) quiet ["BTCUSDT"]%string))
    "wss://ws.bitget.com/v2/ws/public".
Definition arg_chunks_respect_cap : bool :=
  chunks_are BITGET_MAX_ARGS_PER_SUB 120 (names 120 "USDT") [50; 50; 20]%nat.
Definition default_url_is_hyperliquid_ws : bool :=
  str_eq (h_url (hyperliquid_ws (JL := json_lib) quiet ["BTC"]%string))
    "wss://api.hyperliquid.xyz/ws".
(** The coins a connection subscribes to are those given. *)
Definition note (m : OutMsg) : SE (list string) string unit := λ seen,
  (Ok tt, match m with SubscribeMsg _ args => seen ++ args | _ => seen end).
Definition stores_coins_verbatim : bool :=
  let coins := ["BTC"; "ETH"; "SOL"]%string in
  bool_decide ((on_connect (hyperliquid_ws (JL := json_lib) note coins) []).2 = coins).
(** [TestHandler] overrides neither default. *)
Definition handler_defaults_are_reasonable : bool :=
  (default_ping_interval =? dur_seconds 20) && (default_idle_timeout =? dur_seconds 60).

(** * common/http.rs and aster/mod.rs *)

Definition any_build (_ : string) : result string unit := Ok tt.
Definition constructs_with_sane_defaults : bool :=
  ok_is (λ c, 1 <=? client_burst c) (client_new any_build "0.1.0" "test" 10 5).
Definition zero_rps_is_coerced_to_one : bool :=
  is_ok (client_new any_build "0.1.0" "test" 0 0).
Definition truncate_does_not_panic_on_multibyte : bool :=
  str_eq (Http.truncate "abcdef" 100) "abcdef".
Definition retag_changes_only_the_exchange : bool :=
  let tagged := retag Domain.Aster (mkId Domain.Binance "BTCUSDT") in
  bool_decide (exchange tagged = Domain.Aster) && str_eq (symbol tagged) "BTCUSDT".

Definition exchanges_suite : Suite := [
  ("classifies_snapshot_and_delta", classifies_snapshot_and_delta);
  ("snapshot_populates_all_fields", snapshot_populates_all_fields);
  ("delta_oi_change_signals_emit", delta_oi_change_signals_emit);
  ("delta_without_oi_change_is_silent", delta_without_oi_change_is_silent);
  ("delta_with_same_oi_is_silent", delta_with_same_oi_is_silent);
  ("to_raw_uses_mark_price_hint_when_available",
    to_raw_uses_mark_price_hint_when_available);
  ("enrich_computes_usd_from_coins_and_price", enrich_computes_usd_from_coins_and_price);
  ("extracts_instid_and_coins_from_open_interest_push",
    extracts_instid_and_coins_from_open_interest_push);
  ("ignores_non_open_interest_channel", ignores_non_open_interest_channel);
  ("ignores_empty_data", ignores_empty_data);
  ("ignores_missing_oiccy", ignores_missing_oiccy);
  ("enrich_copies_coins_and_leaves_usd_null", enrich_copies_coins_and_leaves_usd_null);
  ("extracts_oi_and_mark_price_from_ticker_push",
    extracts_oi_and_mark_price_from_ticker_push);
  ("ignores_non_ticker_channel", ignores_non_ticker_channel);
  ("enrich_computes_usd_when_price_present", enrich_computes_usd_when_price_present);
  ("extracts_coin_oi_and_markpx", extracts_coin_oi_and_markpx);
  ("ignores_other_channels", ignores_other_channels);
  ("enrich_produces_usd_from_coins_times_markpx",
    enrich_produces_usd_from_coins_times_markpx);
  ("number_to_decimal_preserves_small_contract_size",
    number_to_decimal_preserves_small_contract_size);
  ("number_to_decimal_preserves_integers", number_to_decimal_preserves_integers);
  ("envelope_success_requires_code_zero_and_success_true",
    envelope_success_requires_code_zero_and_success_true);
  ("mexc_envelope_rate_limit_code_maps_to_rate_limited",
    mexc_envelope_rate_limit_code_maps_to_rate_limited);
  ("envelope_generic_failure_is_schema_error", envelope_generic_failure_is_schema_error);
  ("envelope_success_code_is_six_zeros_prefix", envelope_success_code_is_six_zeros_prefix);
  ("kucoin_envelope_rate_limit_code_maps_to_rate_limited",
    kucoin_envelope_rate_limit_code_maps_to_rate_limited);
  ("number_to_decimal_preserves_multiplier_precision",
    number_to_decimal_preserves_multiplier_precision);
  ("envelope_success_passes", envelope_success_passes);
  ("envelope_throttle_code_is_rate_limited", envelope_throttle_code_is_rate_limited);
  ("envelope_success_passes_through", envelope_success_passes_through);
  ("envelope_known_rate_limit_code_maps_to_rate_limited",
    envelope_known_rate_limit_code_maps_to_rate_limited);
  ("envelope_unknown_nonzero_code_is_schema_error",
    envelope_unknown_nonzero_code_is_schema_error);
  ("instrument_row_parses_with_optional_filters",
    instrument_row_parses_with_optional_filters);
  ("parses_exchange_info_symbol_filters", parses_exchange_info_symbol_filters);
  ("parses_open_interest_response_shape", parses_open_interest_response_shape);
  ("parses_mark_price_response_shape", parses_mark_price_response_shape);
  ("deserialises_positional_meta_ctxs", deserialises_positional_meta_ctxs);
  ("tolerates_missing_optional_fields", tolerates_missing_optional_fields);
  ("envelope_success_passes_data", envelope_success_passes_data);
  ("envelope_non_zero_code_is_schema_error", envelope_non_zero_code_is_schema_error);
  ("instrument_derives_base_from_instid", instrument_derives_base_from_instid);
  ("envelope_success_code_is_five_zeros", envelope_success_code_is_five_zeros);
  ("bitget_envelope_rate_limit_code_maps_to_rate_limited",
    bitget_envelope_rate_limit_code_maps_to_rate_limited);
  ("envelope_unknown_nonzero_is_schema_error", envelope_unknown_nonzero_is_schema_error);
  ("topics_are_formatted_with_prefix", topics_are_formatted_with_prefix);
  ("default_url_is_linear_public_v5", default_url_is_linear_public_v5);
  ("topic_chunks_respect_arg_cap", topic_chunks_respect_arg_cap);
  ("default_url_is_public_v5", default_url_is_public_v5);
  ("chunking_respects_arg_cap", chunking_respects_arg_cap);
  ("default_url_is_v2_public", default_url_is_v2_public);
  ("arg_chunks_respect_cap", arg_chunks_respect_cap);
  ("default_url_is_hyperliquid_ws", default_url_is_hyperliquid_ws);
  ("stores_coins_verbatim", stores_coins_verbatim);
  ("handler_defaults_are_reasonable", handler_defaults_are_reasonable);
  ("constructs_with_sane_defaults", constructs_with_sane_defaults);
  ("zero_rps_is_coerced_to_one", zero_rps_is_coerced_to_one);
  ("truncate_does_not_panic_on_multibyte", truncate_does_not_panic_on_multibyte);
  ("retag_changes_only_the_exchange", retag_changes_only_the_exchange)]%string.

Example exchanges_suite_passes : failing exchanges_suite = [].
Proof. vm_compute. reflexivity. Qed.
