(* ===== verification/TestsWire.v ===== *)
(** The integration tests of oi-exchanges ([tests/*_wiremock.rs]), replayed: each
    adapter runs against a mock server, from the texts the exchange sends to the
    readings the collector gets.  The server's address is the adapter's default
    base URL. *)

From Stdlib Require Import ZArith Lia String Ascii.
From stdpp Require Import base option list strings gmap.
From S2P Require Import Prelude TextOrder Externals Concrete Exact Domain Http Adapter Binance Bybit Okx Bitget Hyperliquid Mexc KuCoin BingX Aster Adapters Json Wire ApiWs TestKit.
Open Scope Z_scope.
Open Scope oi_scope.

#[local] Existing Instance x_decimal | 0.
#[local] Existing Instance z_time | 0.
#[local] Existing Instance text_serde | 0.

(** * The mock server *)

(** [Mock::given(method).and(path(..)).and(query_param(..)).respond_with(..)]. *)
Record Mock := mkMock {
  mock_path : string; mock_params : list string; mock_reply : Http.Response }.
Definition ok_body (text : string) : Http.Response := mkResponse 200 None (js text).

Definition matches (url : string) (m : Mock) : bool :=
  match split_on "?" url with
  | at_path :: rest =>
      ends_with (mock_path m) at_path
      && forallb (λ p, existsb (λ q, existsb (String.eqb p) (split_on "&" q)) rest) (mock_params m)
  | [] => false
  end.
(** The first mock that matches answers; the server's own answer is a 404. *)
Definition respond (mocks : list Mock) (url : string) : Transport :=
  Responded (match List.find (matches url) mocks with
             | Some m => mock_reply m
             | None => mkResponse 404 None ""
             end).
Definition mock_web (mocks : list Mock) : Web :=
  mkWeb (respond mocks) (λ url body,
    match body with MetaAndAssetCtxs => respond mocks url | _ => Responded (mkResponse 404 None "") end).

Abbreviation XAdapter := (ExchangeAdapter (DL := x_decimal) (TL := z_time)).
Abbreviation XMeta := (InstrumentMeta (DL := x_decimal)).
Abbreviation XRaw := (RawOi (DL := x_decimal) (TL := z_time)).
Abbreviation XQuote := (PriceQuote (DL := x_decimal) (TL := z_time)).

(** [with_base_url(server.uri()).unwrap()] *)
Definition against (ex : Exchange) (mocks : list Mock) : XAdapter :=
  make_adapter (DL := x_decimal) (TL := z_time) (JL := json_lib)
    (wire_net (mock_web mocks) (datetime 2026 4 24 10 0 5 0) (λ n, n) (λ m, map_to_list m) ∅ ∅) ex.
(** [datetime!(2026-04-24 10:00:00 UTC)] *)
Definition bucket_10 : Z := datetime 2026 4 24 10 0 0 0.

Definition syms (metas : list XMeta) : list string := (λ m, symbol (meta_id m)) <$> metas.
Definition ids_of (metas : list XMeta) : list InstrumentId := meta_id <$> metas.
Definition only_active (metas : list XMeta) : list XMeta := List.filter active metas.
Definition syms_are (l : list string) (metas : list XMeta) : bool := bool_decide (syms metas = l).
Definition unit_eqb (a b : UnitKind) : bool :=
  match a, b with Coins, Coins | Usd, Usd | Contracts, Contracts => true | _, _ => false end.
Definition raw_of (sym : string) (l : list XRaw) : option XRaw :=
  List.find (λ r, String.eqb (symbol (raw_instrument r)) sym) l.
Definition reading (sym : string) (u : UnitKind) (value : string) (hint : option string)
    (l : list XRaw) : bool :=
  some_is (λ r, dec_is (raw_value r) (dec value) && unit_eqb (raw_unit r) u
                && odt_eqb (raw_bucket_ts r) bucket_10
                && match hint with
                   | None => true
                   | Some p => odec_is (q_price <$> raw_price_hint r) (Some (dec p))
                   end) (raw_of sym l).
Definition count {A} (n : nat) (l : list A) : bool := (length l =? n)%nat.
Definition fetched (a : XAdapter) (ids : list InstrumentId) (p : list XRaw → bool) : bool :=
  ok_is p (ad_fetch_oi a ids bucket_10).

(** * binance_wiremock.rs and aster_wiremock.rs *)

Definition EXCHANGE_INFO : string := "{
  'timezone': 'UTC',
  'serverTime': 1714000000000,
  'symbols': [
    {
      'symbol': 'BTCUSDT',
      'contractType': 'PERPETUAL',
      'baseAsset': 'BTC',
      'quoteAsset': 'USDT',
      'status': 'TRADING',
      'filters': [
        {'filterType': 'PRICE_FILTER', 'tickSize': '0.10'},
        {'filterType': 'LOT_SIZE', 'stepSize': '0.001'}
      ]
    },
    {
      'symbol': 'ETHUSDT',
      'contractType': 'PERPETUAL',
      'baseAsset': 'ETH',
      'quoteAsset': 'USDT',
      'status': 'TRADING',
      'filters': [
        {'filterType': 'PRICE_FILTER', 'tickSize': '0.01'},
        {'filterType': 'LOT_SIZE', 'stepSize': '0.001'}
      ]
    },
    {
      'symbol': 'BTCUSDT_240628',
      'contractType': 'CURRENT_QUARTER',
      'baseAsset': 'BTC',
      'quoteAsset': 'USDT',
      'status': 'TRADING',
      'filters': []
    },
    {
      'symbol': 'TSLAUSDT',
      'contractType': 'TRADIFI_PERPETUAL',
      'underlyingType': 'EQUITY',
      'baseAsset': 'TSLA',
      'quoteAsset': 'USDT',
      'status': 'TRADING',
      'filters': [
        {'filterType': 'PRICE_FILTER', 'tickSize': '0.01'},
        {'filterType': 'LOT_SIZE', 'stepSize': '0.01'}
      ]
    }
  ]
}".
Definition PREMIUM_INDEX : string := "[
  {'symbol':'BTCUSDT','markPrice':'64000.50','indexPrice':'64010.00','estimatedSettlePrice':'63990.00','lastFundingRate':'0.0001','nextFundingTime':1714003200000,'interestRate':'0.0001','time':1714000000000},
  {'symbol':'ETHUSDT','markPrice':'3200.10','indexPrice':'3201.00','estimatedSettlePrice':'3199.90','lastFundingRate':'0.0001','nextFundingTime':1714003200000,'interestRate':'0.0001','time':1714000000000},
  {'symbol':'DOGEUSDT','markPrice':'0.12','indexPrice':'0.12','estimatedSettlePrice':'0.12','lastFundingRate':'0.0001','nextFundingTime':1714003200000,'interestRate':'0.0001','time':1714000000000}
]".
Definition open_interest_of (sym value : string) : Mock :=
  mkMock "/fapi/v1/openInterest" ["symbol=" +:+ sym]
    (ok_body ("{'symbol':'" +:+ sym +:+ "','openInterest':'" +:+ value +:+ "','time':1714000000000}")).

Definition binance_discovery_oi_and_prices_end_to_end : bool :=
  let a := against Domain.Binance [
    mkMock "/fapi/v1/exchangeInfo" [] (ok_body EXCHANGE_INFO);
    open_interest_of "BTCUSDT" "80123.456"; open_interest_of "ETHUSDT" "555000.0";
    open_interest_of "TSLAUSDT" "43965.43";
    mkMock "/fapi/v1/premiumIndex" [] (ok_body PREMIUM_INDEX)] in
  ok_is (λ metas : list XMeta,
    syms_are ["BTCUSDT"; "ETHUSDT"; "TSLAUSDT"]%string metas
    && forallb (λ m, unit_eqb (meta_native_unit m) Coins && is_perpetual m && active m) metas
    && fetched a (ids_of metas) (λ raw,
         count 3 raw && reading "BTCUSDT" Coins "80123.456" None raw
         && reading "TSLAUSDT" Coins "43965.43" None raw)
    && ok_is (λ quotes : list XQuote,
         some_is (λ q, dec_is (q_price q) (dec "64000.50")
                       && bool_decide (exchange (q_instrument q) = Domain.Binance))
           (List.find (λ q, String.eqb (symbol (q_instrument q)) "BTCUSDT") quotes))
         (ad_fetch_prices a (ids_of metas)))
    (ad_discover_instruments a).
Definition binance_handles_rate_limit_response : bool :=
  match ad_discover_instruments (against Domain.Binance [
          mkMock "/fapi/v1/exchangeInfo" []
            (mkResponse 429 (Some "2") (js "{'code':-1003,'msg':'Too many requests'}"))%string]) with
  | Err (RateLimited (Some d)) => d =? dur_seconds 2
  | _ => false
  end.

Definition ASTER_INFO : string := "{
  'timezone':'UTC','serverTime':1714000000000,
  'symbols':[{'symbol':'BTCUSDT','contractType':'PERPETUAL','baseAsset':'BTC','quoteAsset':'USDT','status':'TRADING','filters':[]}]
}".
Definition aster_delegates_to_binance_shape_and_retags : bool :=
  let a := against Domain.Aster [
    mkMock "/fapi/v1/exchangeInfo" [] (ok_body ASTER_INFO); open_interest_of "BTCUSDT" "500.0"] in
  ok_is (λ metas : list XMeta,
    bool_decide (ids_of metas = [mkId Domain.Aster "BTCUSDT"])) (ad_discover_instruments a)
  && fetched a [mkId Domain.Aster "BTCUSDT"] (λ raw,
       count 1 raw && reading "BTCUSDT" Coins "500.0" None raw
       && forallb (λ r, bool_decide (exchange (raw_instrument r) = Domain.Aster)) raw).

(** * bingx_wiremock.rs *)

Definition BINGX_CONTRACTS : string := "{'code':0,'msg':'','data':[
  {'symbol':'BTC-USDT','asset':'BTC','currency':'USDT','status':1,'pricePrecision':1,'quantityPrecision':4,'tradeMinLimit':0.0001},
  {'symbol':'ETH-USDT','asset':'ETH','currency':'USDT','status':1,'pricePrecision':2,'quantityPrecision':4,'tradeMinLimit':0.001},
  {'symbol':'DOGE-USDT','asset':'DOGE','currency':'USDT','status':0,'pricePrecision':5,'quantityPrecision':0,'tradeMinLimit':1}
]}".
Definition bingx_open_interest (sym value : string) : Mock :=
  mkMock "/openApi/swap/v2/quote/openInterest" ["symbol=" +:+ sym]
    (ok_body ("{'code':0,'msg':'','data':{'openInterest':'" +:+ value +:+ "','symbol':'" +:+ sym
              +:+ "','time':1714000000000}}")).
Definition bingx_discovery_and_per_symbol_oi : bool :=
  let a := against Domain.BingX [
    mkMock "/openApi/swap/v2/quote/contracts" [] (ok_body BINGX_CONTRACTS);
    bingx_open_interest "BTC-USDT" "1234.56"; bingx_open_interest "ETH-USDT" "9876.5"] in
  ok_is (λ metas : list XMeta,
    syms_are ["BTC-USDT"; "ETH-USDT"]%string (only_active metas)
    && some_is (λ m, negb (active m))
         (List.find (λ m : XMeta, String.eqb (symbol (meta_id m)) "DOGE-USDT") metas)
    && forallb (λ m, unit_eqb (meta_native_unit m) Coins) metas
    && fetched a (ids_of (only_active metas)) (λ raw,
         count 2 raw && reading "BTC-USDT" Coins "1234.56" None raw))
    (ad_discover_instruments a).
Definition bingx_throttle_code_is_rate_limited : bool :=
  fetched (against Domain.BingX [
      mkMock "/openApi/swap/v2/quote/openInterest" [] (ok_body
        "{'code':100410,'msg':'throttle','data':{'openInterest':'','symbol':'','time':0}}")])
    [mkId Domain.BingX "BTC-USDT"] (count 0).

(** * bitget_wiremock.rs *)

Definition BITGET_CONTRACTS : string := "{'code':'00000','msg':'success','data':[
  {'symbol':'BTCUSDT','baseCoin':'BTC','quoteCoin':'USDT','symbolType':'perpetual','symbolStatus':'normal','minTradeNum':'0.001'},
  {'symbol':'ETHUSDT','baseCoin':'ETH','quoteCoin':'USDT','symbolType':'perpetual','symbolStatus':'normal','minTradeNum':'0.01'},
  {'symbol':'SOLUSDT_240628','baseCoin':'SOL','quoteCoin':'USDT','symbolType':'delivery','symbolStatus':'normal'}
]}".
Definition BITGET_TICKERS : string := "{'code':'00000','msg':'success','data':[
  {'symbol':'BTCUSDT','holdingAmount':'12345.67','markPrice':'64001','indexPrice':'64000.5','lastPr':'64000','ts':'1714000000000'},
  {'symbol':'ETHUSDT','holdingAmount':'200000','markPrice':'3200','indexPrice':'3200.5','lastPr':'3201','ts':'1714000000000'}
]}".
Definition bitget_discovery_filters_perpetuals_only : bool :=
  ok_is (λ metas : list XMeta,
    syms_are ["BTCUSDT"; "ETHUSDT"]%string metas
    && forallb (λ m, unit_eqb (meta_native_unit m) Coins) metas)
    (ad_discover_instruments (against Domain.Bitget [
       mkMock "/api/v2/mix/market/contracts" ["productType=USDT-FUTURES"]%string
         (ok_body BITGET_CONTRACTS)])).
Definition bitget_fetch_oi_uses_holding_amount_and_mark_price : bool :=
  fetched (against Domain.Bitget [
      mkMock "/api/v2/mix/market/tickers" ["productType=USDT-FUTURES"]%string
        (ok_body BITGET_TICKERS)])
    [mkId Domain.Bitget "BTCUSDT"] (λ raw,
      count 1 raw && reading "BTCUSDT" Coins "12345.67" (Some "64001"%string) raw).

(** * bybit_wiremock.rs *)

Definition PAGE_1 : string := "{
  'retCode': 0,
  'retMsg': 'OK',
  'result': {
    'category': 'linear',
    'nextPageCursor': 'next_page_token',
    'list': [
      {'symbol':'BTCUSDT','contractType':'LinearPerpetual','status':'Trading','baseCoin':'BTC','quoteCoin':'USDT','priceFilter':{'tickSize':'0.10'},'lotSizeFilter':{'qtyStep':'0.001'}},
      {'symbol':'ETHUSDT','contractType':'LinearPerpetual','status':'Trading','baseCoin':'ETH','quoteCoin':'USDT','priceFilter':{'tickSize':'0.01'},'lotSizeFilter':{'qtyStep':'0.001'}},
      {'symbol':'SOLUSDT_240628','contractType':'LinearFutures','status':'Trading','baseCoin':'SOL','quoteCoin':'USDT'}
    ]
  }
}".
Definition PAGE_2 : string := "{
  'retCode': 0,
  'retMsg': 'OK',
  'result': {
    'category': 'linear',
    'nextPageCursor': '',
    'list': [
      {'symbol':'DOGEUSDT','contractType':'LinearPerpetual','status':'Trading','baseCoin':'DOGE','quoteCoin':'USDT','priceFilter':{'tickSize':'0.00001'},'lotSizeFilter':{'qtyStep':'1'}}
    ]
  }
}".
Definition TICKERS : string := "{
  'retCode': 0,
  'retMsg': 'OK',
  'result': {
    'category': 'linear',
    'list': [
      {'symbol':'BTCUSDT','openInterest':'12345.67','openInterestValue':'789012345.67','markPrice':'64001.00','lastPrice':'64000.00','indexPrice':'64000.50'},
      {'symbol':'ETHUSDT','openInterest':'200000.0','openInterestValue':'640000000','markPrice':'3200.00','lastPrice':'3200.10','indexPrice':'3200.05'},
      {'symbol':'DOGEUSDT','openInterest':'5000000','openInterestValue':'600000','markPrice':'0.12','lastPrice':'0.12','indexPrice':'0.12'}
    ]
  }
}".
Definition bybit_discovery_follows_cursor_pagination : bool :=
  let at_ := "/v5/market/instruments-info"%string in
  ok_is (λ metas : list XMeta,
    syms_are ["BTCUSDT"; "ETHUSDT"; "DOGEUSDT"]%string metas
    && forallb (λ m, unit_eqb (meta_native_unit m) Coins && is_perpetual m) metas
    && some_is (λ m : XMeta, odec_is (price_tick m) (Some (dec "0.10"))
                     && odec_is (qty_step m) (Some (dec "0.001"))) (head metas))
    (ad_discover_instruments (against Domain.Bybit [
       mkMock at_ ["category=linear"; "cursor=next_page_token"]%string (ok_body PAGE_2);
       mkMock at_ ["category=linear"]%string (ok_body PAGE_1)])).
Definition bybit_fetch_oi_includes_mark_price_hint : bool :=
  fetched (against Domain.Bybit [
      mkMock "/v5/market/tickers" ["category=linear"]%string (ok_body TICKERS)])
    [mkId Domain.Bybit "BTCUSDT"; mkId Domain.Bybit "ETHUSDT"] (λ raw,
      count 2 raw && reading "BTCUSDT" Coins "12345.67" (Some "64001.00"%string) raw).
Definition bybit_rate_limit_code_surfaces_as_rate_limited : bool :=
  is_rate_limited (ad_fetch_oi (against Domain.Bybit [
      mkMock "/v5/market/tickers" [] (ok_body
        "{'retCode':10006,'retMsg':'too many requests','result':{'list':[]}}")]) [] bucket_10).

(** * hyperliquid_wiremock.rs *)

Definition HL_RESPONSE : string := "[
  {'universe':[
    {'name':'BTC','szDecimals':5,'maxLeverage':50},
    {'name':'ETH','szDecimals':4,'maxLeverage':50},
    {'name':'DOGE','szDecimals':0,'maxLeverage':10,'isDelisted':true}
  ]},
  [
    {'openInterest':'1234.5','markPx':'64000','oraclePx':'63999','premium':'0.0001'},
    {'openInterest':'9876.0','markPx':'3200','oraclePx':'3200.5'},
    {'openInterest':'0','markPx':'0.12'}
  ]
]".
Definition hyperliquid_discovers_and_fetches_oi_in_one_call : bool :=
  let a := against Domain.Hyperliquid [mkMock "/info" [] (ok_body HL_RESPONSE)] in
  ok_is (λ metas : list XMeta,
    syms_are ["BTC"; "ETH"; "DOGE"]%string metas
    && forallb (λ m, unit_eqb (meta_native_unit m) Coins && is_perpetual m) metas
    && some_is (λ m, negb (active m))
         (List.find (λ m : XMeta, String.eqb (symbol (meta_id m)) "DOGE") metas)
    && fetched a (ids_of (only_active metas)) (λ raw,
         count 2 raw && reading "BTC" Coins "1234.5" (Some "64000"%string) raw))
    (ad_discover_instruments a).

(** * kucoin_wiremock.rs *)

Definition KUCOIN_CONTRACTS : string := "{'code':'200000','data':[
  {'symbol':'XBTUSDTM','rootSymbol':'USDT','type':'FFWCSX','baseCurrency':'XBT','quoteCurrency':'USDT','settleCurrency':'USDT','multiplier':0.001,'tickSize':0.1,'openInterest':'123456','markPrice':64001,'lastTradePrice':64000,'indexPrice':64000.5,'isInverse':false,'status':'Open'},
  {'symbol':'ETHUSDTM','rootSymbol':'USDT','type':'FFWCSX','baseCurrency':'ETH','quoteCurrency':'USDT','settleCurrency':'USDT','multiplier':0.01,'tickSize':0.01,'openInterest':'98760','markPrice':3200,'lastTradePrice':3201,'indexPrice':3200.5,'isInverse':false,'status':'Open'},
  {'symbol':'XBTUSDM','rootSymbol':'USD','type':'FFICSX','baseCurrency':'XBT','quoteCurrency':'USD','settleCurrency':'XBT','multiplier':1,'tickSize':1,'openInterest':'1000','markPrice':64000,'lastTradePrice':64000,'indexPrice':64000.5,'isInverse':true,'status':'Open'}
]}".
Definition kucoin_single_call_covers_discovery_and_oi : bool :=
  let a := against Domain.KuCoin [
    mkMock "/api/v1/contracts/active" [] (ok_body KUCOIN_CONTRACTS)] in
  ok_is (λ metas : list XMeta,
    syms_are ["XBTUSDTM"; "ETHUSDTM"]%string metas
    && forallb (λ m : XMeta, unit_eqb (meta_native_unit m) Contracts
                     && negb (is_none (contract_multiplier m))) metas
    && some_is (λ m : XMeta, odec_is (contract_multiplier m) (Some (dec "0.001")))
         (List.find (λ m : XMeta, String.eqb (symbol (meta_id m)) "XBTUSDTM") metas)
    && fetched a (ids_of metas) (λ raw,
         count 2 raw && reading "XBTUSDTM" Contracts "123456" (Some "64001"%string) raw))
    (ad_discover_instruments a).
Definition kucoin_429000_code_surfaces_as_rate_limited : bool :=
  is_rate_limited (ad_discover_instruments (against Domain.KuCoin [
    mkMock "/api/v1/contracts/active" []
      (ok_body "{'code':'429000','msg':'throttled','data':[]}")])).

(** * mexc_wiremock.rs *)

Definition DETAIL : string := "{'success':true,'code':0,'data':[
  {'symbol':'BTC_USDT','baseCoin':'BTC','quoteCoin':'USDT','contractSize':0.0001,'priceUnit':0.1,'volUnit':1,'state':0},
  {'symbol':'ETH_USDT','baseCoin':'ETH','quoteCoin':'USDT','contractSize':0.01,'priceUnit':0.01,'volUnit':1,'state':0},
  {'symbol':'OLD_USDT','baseCoin':'OLD','quoteCoin':'USDT','contractSize':1,'state':2}
]}".
Definition MEXC_TICKER : string := "{'success':true,'code':0,'data':[
  {'symbol':'BTC_USDT','holdVol':123456,'fairPrice':64001,'lastPrice':64000,'indexPrice':64000.5,'timestamp':1714000000000},
  {'symbol':'ETH_USDT','holdVol':50000,'fairPrice':3200,'lastPrice':3201,'indexPrice':3200.5,'timestamp':1714000000000}
]}".
Definition mexc_discovery_captures_contract_multiplier : bool :=
  ok_is (λ metas : list XMeta,
    some_is (λ m : XMeta, unit_eqb (meta_native_unit m) Contracts
                  && odec_is (contract_multiplier m) (Some (dec "0.0001")))
      (List.find (λ m : XMeta, String.eqb (symbol (meta_id m)) "BTC_USDT") metas)
    && some_is (λ m, negb (active m))
         (List.find (λ m : XMeta, String.eqb (symbol (meta_id m)) "OLD_USDT") metas))
    (ad_discover_instruments (against Domain.Mexc [
       mkMock "/api/v1/contract/detail" [] (ok_body DETAIL)])).
Definition mexc_fetch_oi_returns_contracts_with_price_hint : bool :=
  fetched (against Domain.Mexc [mkMock "/api/v1/contract/ticker" [] (ok_body MEXC_TICKER)])
    [mkId Domain.Mexc "BTC_USDT"] (λ raw,
      count 1 raw && reading "BTC_USDT" Contracts "123456" (Some "64001"%string) raw).

(** * okx_wiremock.rs *)

Definition INSTRUMENTS : string := "{'code':'0','msg':'','data':[
  {'instId':'BTC-USDT-SWAP','instType':'SWAP','baseCcy':'','quoteCcy':'USDT','ctVal':'0.01','ctValCcy':'BTC','settleCcy':'USDT','tickSz':'0.1','lotSz':'1','state':'live','ctType':'linear'},
  {'instId':'ETH-USDT-SWAP','instType':'SWAP','baseCcy':'','quoteCcy':'USDT','ctVal':'0.1','ctValCcy':'ETH','settleCcy':'USDT','tickSz':'0.01','lotSz':'1','state':'live','ctType':'linear'},
  {'instId':'BTC-USD-SWAP','instType':'SWAP','baseCcy':'','quoteCcy':'USD','ctVal':'100','ctValCcy':'USD','settleCcy':'BTC','tickSz':'0.1','lotSz':'1','state':'live','ctType':'inverse'}
]}".
Definition OI : string := "{'code':'0','msg':'','data':[
  {'instId':'BTC-USDT-SWAP','instType':'SWAP','oi':'123450','oiCcy':'1234.5','ts':'1714000000000'},
  {'instId':'ETH-USDT-SWAP','instType':'SWAP','oi':'98760','oiCcy':'9876.0','ts':'1714000000000'}
]}".
Definition okx_discovery_filters_to_linear_swaps : bool :=
  ok_is (λ metas : list XMeta,
    syms_are ["BTC-USDT-SWAP"; "ETH-USDT-SWAP"]%string metas
    && forallb (λ m : XMeta, unit_eqb (meta_native_unit m) Coins
                     && negb (is_none (contract_multiplier m))) metas)
    (ad_discover_instruments (against Domain.Okx [
       mkMock "/api/v5/public/instruments" ["instType=SWAP"]%string (ok_body INSTRUMENTS)])).
Definition okx_fetch_oi_prefers_oiccy_coins : bool :=
  fetched (against Domain.Okx [
      mkMock "/api/v5/public/open-interest" ["instType=SWAP"]%string (ok_body OI)])
    [mkId Domain.Okx "BTC-USDT-SWAP"; mkId Domain.Okx "ETH-USDT-SWAP"] (λ raw,
      count 2 raw && reading "BTC-USDT-SWAP" Coins "1234.5" None raw).
Definition okx_non_zero_code_is_reported_as_schema : bool :=
  is_schema (ad_fetch_oi (against Domain.Okx [
      mkMock "/api/v5/public/open-interest" [] (ok_body
        "{'code':'50001','msg':'Service unavailable','data':[]}")]) [] bucket_10).

Definition wire_suite : Suite := [
  ("binance_discovery_oi_and_prices_end_to_end",
    binance_discovery_oi_and_prices_end_to_end);
  ("binance_handles_rate_limit_response", binance_handles_rate_limit_response);
  ("aster_delegates_to_binance_shape_and_retags",
    aster_delegates_to_binance_shape_and_retags);
  ("bingx_discovery_and_per_symbol_oi", bingx_discovery_and_per_symbol_oi);
  ("bingx_throttle_code_is_rate_limited", bingx_throttle_code_is_rate_limited);
  ("bitget_discovery_filters_perpetuals_only", bitget_discovery_filters_perpetuals_only);
  ("bitget_fetch_oi_uses_holding_amount_and_mark_price",
    bitget_fetch_oi_uses_holding_amount_and_mark_price);
  ("bybit_discovery_follows_cursor_pagination", bybit_discovery_follows_cursor_pagination);
  ("bybit_fetch_oi_includes_mark_price_hint", bybit_fetch_oi_includes_mark_price_hint);
  ("bybit_rate_limit_code_surfaces_as_rate_limited",
    bybit_rate_limit_code_surfaces_as_rate_limited);
  ("hyperliquid_discovers_and_fetches_oi_in_one_call",
    hyperliquid_discovers_and_fetches_oi_in_one_call);
  ("kucoin_single_call_covers_discovery_and_oi",
    kucoin_single_call_covers_discovery_and_oi);
  ("kucoin_429000_code_surfaces_as_rate_limited",
    kucoin_429000_code_surfaces_as_rate_limited);
  ("mexc_discovery_captures_contract_multiplier",
    mexc_discovery_captures_contract_multiplier);
  ("mexc_fetch_oi_returns_contracts_with_price_hint",
    mexc_fetch_oi_returns_contracts_with_price_hint);
  ("okx_discovery_filters_to_linear_swaps", okx_discovery_filters_to_linear_swaps);
  ("okx_fetch_oi_prefers_oiccy_coins", okx_fetch_oi_prefers_oiccy_coins);
  ("okx_non_zero_code_is_reported_as_schema", okx_non_zero_code_is_reported_as_schema)]%string.

Example wire_suite_passes : failing wire_suite = [].
Proof. vm_compute. reflexivity. Qed.
