(* ===== verification/TestsApi.v ===== *)
(** The tests of oi-api, replayed: the unit tests of auth.rs and ws.rs,
    [tests/auth_middleware.rs] against the routed server, and the path of
    [tests/e2e_pipeline.rs] from a mocked exchange to the REST answer, with a
    repository in memory where the test starts ClickHouse and Redis. *)

From Stdlib Require Import ZArith Lia String Ascii.
From stdpp Require Import base option list strings gmap.
From S2P Require Import Prelude Externals Concrete Exact Domain Repository Http Adapter Adapters Json Wire Backfill Config ApiAuth ApiRest ApiWs Hub Server TestKit TestsWire.
Open Scope Z_scope.
Open Scope oi_scope.

#[local] Existing Instance x_decimal | 0.
#[local] Existing Instance z_time | 0.
#[local] Existing Instance text_serde | 0.

(** * auth.rs *)

Definition bearer_is (h token : option string) : bool := bool_decide (extract_bearer h = token).
Definition extract_bearer_recognizes_only_proper_prefix : bool :=
  bearer_is (Some "Bearer s3cr3t") (Some "s3cr3t") && bearer_is (Some "bearer s3cr3t") None
  && bearer_is (Some "Token s3cr3t") None && bearer_is None None.
Definition ct_eq_matches_eq_for_equal_and_unequal_inputs : bool :=
  let eq a b := ct_eq (as_bytes a) (as_bytes b) in
  eq "abcd" "abcd" && negb (eq "abcd" "abce") && negb (eq "abc" "abcd") && eq "" "".
Definition auth_state_accepts_listed_tokens_only : bool :=
  let s : AuthState := ["alpha"; "bravo"]%string in
  accepts s "alpha" && accepts s "bravo" && negb (accepts s "charlie") && negb (accepts s "").
Definition public_path_check_is_strict_prefix : bool :=
  forallb is_public_path ["/health"; "/health/live"; "/health/ready"; "/metrics"]%string
  && forallb (λ p, negb (is_public_path p))
       ["/healthier"; "/v1/oi/latest/binance/BTCUSDT"; "/"]%string.

(** * ws.rs *)

Definition parse_instrument_accepts_exchange_colon_symbol : bool :=
  bool_decide (parse_instrument "binance:BTCUSDT" = Some (mkId Domain.Binance "BTCUSDT")).
Definition parse_instrument_rejects_unknown_exchange : bool :=
  is_none (parse_instrument "noex:BTCUSDT").
Definition parse_instrument_rejects_missing_separator : bool :=
  is_none (parse_instrument "BTCUSDT").

(** A fresh broadcaster has no connection reading from it. *)
Definition ws_state_subscribers_count_is_zero_at_start : bool :=
  bool_decide (map_to_list (hub_clients (hub_init (BC := ring_chan XSnapshot))) = []).

(** * tests/auth_middleware.rs *)

Abbreviation XBar := (OiSnapshot (DL := x_decimal) (TL := z_time)).
Definition NoopRepo : OiRepository (DL := x_decimal) (TL := z_time) unit :=
  with_default_funding (λ _, mret tt) (λ _, mret tt) (λ _ _ _, mret []) (λ _, mret None).

(** A GET through the bearer layer, then the latest handler: the status. *)
Definition latest_status (bearer : option string) : Z :=
  match http_answer (mkAuthCfg true ["s3cr3t"%string])
          (mkRequest GET "/v1/oi/latest/binance/BTCUSDT" ((λ t, "Bearer " +:+ t) <$> bearer) None) with
  | Unauthorized => 401
  | Routed_ (To OiLatest [ex; sym]) =>
      match (rest_latest NoopRepo ex sym tt).1 with
      | JsonBody _ => 200
      | TextBody NOT_FOUND _ => 404
      | TextBody _ _ => 500
      end
  | Routed_ _ => 0
  end.
Definition health_endpoints_bypass_auth_data_endpoints_require_it : bool :=
  match http_answer (mkAuthCfg true ["s3cr3t"%string]) (mkRequest GET "/health/live" None None) with
  | Routed_ (To HealthLive []) => true
  | _ => false
  end
  && (latest_status None =? 401) && (latest_status (Some "wrong-token"%string) =? 401)
  && (latest_status (Some "s3cr3t"%string) =? 404).

(** * tests/e2e_pipeline.rs *)

Definition memory_repo : OiRepository (DL := x_decimal) (TL := z_time) (list XBar) :=
  with_default_funding (λ l w, (Ok tt, w ++ l)) (λ _, mret tt)
    (λ i _ _ w, (Ok (List.filter (λ b : XBar, bool_decide (instrument b = i)) w), w))
    (λ i w, (Ok (last (List.filter (λ b : XBar, bool_decide (instrument b = i)) w)), w)).
Definition E2E_PREMIUM_INDEX : string := "[
  {'symbol':'BTCUSDT','markPrice':'64000.50','indexPrice':'64010.00','estimatedSettlePrice':'63990.00','lastFundingRate':'0.0001','nextFundingTime':1714003200000,'interestRate':'0.0001','time':1714000000000}
]".
(** The body of the [for r in raw] loop, over the whole of it. *)
Fixpoint bars_of_raw (meta_by_id : InstrumentId → option (InstrumentMeta (DL := x_decimal)))
    (price_by_inst : InstrumentId → option xdec) (raws : list XRaw)
  : run (option (list XBar)) :=
  match raws with
  | [] => Ret (Some [])
  | r :: raws' =>
      match meta_by_id (raw_instrument r) with
      | None => Panic
      | Some meta =>
          enriched ← enrich (DL := x_decimal) r meta (price_by_inst (raw_instrument r));
          rest ← bars_of_raw meta_by_id price_by_inst raws';
          Ret (match enriched, rest with
               | Ok s, Some bars => Some (start_from_sample s :: bars)
               | _, _ => None
               end)
      end
  end.
(** One tick of the pipeline; the bars the repository then holds. *)
Definition e2e_tick : option (list XBar) :=
  let a := against Domain.Binance [
    mkMock "/fapi/v1/exchangeInfo" [] (ok_body ASTER_INFO); open_interest_of "BTCUSDT" "777.5";
    mkMock "/fapi/v1/premiumIndex" [] (ok_body E2E_PREMIUM_INDEX)] in
  match ad_discover_instruments a with
  | Err _ => None
  | Ok metas =>
      match ad_fetch_prices a (ids_of metas), ad_fetch_oi a (ids_of metas) bucket_10 with
      | Ok quotes, Ok raw =>
          match bars_of_raw (λ i, List.find (λ m : XMeta, bool_decide (meta_id m = i)) metas)
                  (λ i, option_map (λ q : XQuote, q_price q)
                     (List.find (λ q, bool_decide (q_instrument q = i)) quotes)) raw with
          | Ret (Some snaps) =>
              match upsert_snapshots memory_repo snaps [] with (Ok _, w) => Some w | _ => None end
          | _ => None
          end
      | _, _ => None
      end
  end.
(** The product keeps the digits of its factors: the dollar value is served as
    49760388.750, the number the test expects, but not the text. *)
Definition e2e_binance_through_rest : bool :=
  match e2e_tick with
  | None => false
  | Some w =>
      match (rest_latest memory_repo "binance" "BTCUSDT" w).1 with
      | JsonBody bar =>
          String.eqb (d_exchange bar) "binance" && String.eqb (d_symbol bar) "BTCUSDT"
          && String.eqb (d_native_open bar) "777.5" && String.eqb (d_native_close bar) "777.5"
          && (d_samples bar =? 1)
          && bool_decide (d_oi_usd_close bar = Some "49760388.750"%string)
          && ok_is (λ d, dec_is d (dec "49760388.75"))
               (x_from_str (default EmptyString (d_oi_usd_close bar)))
      | TextBody _ _ => false
      end
  end.

Definition api_suite : Suite := [
  ("extract_bearer_recognizes_only_proper_prefix",
    extract_bearer_recognizes_only_proper_prefix);
  ("ct_eq_matches_eq_for_equal_and_unequal_inputs",
    ct_eq_matches_eq_for_equal_and_unequal_inputs);
  ("auth_state_accepts_listed_tokens_only", auth_state_accepts_listed_tokens_only);
  ("public_path_check_is_strict_prefix", public_path_check_is_strict_prefix);
  ("parse_instrument_accepts_exchange_colon_symbol",
    parse_instrument_accepts_exchange_colon_symbol);
  ("parse_instrument_rejects_unknown_exchange", parse_instrument_rejects_unknown_exchange);
  ("parse_instrument_rejects_missing_separator",
    parse_instrument_rejects_missing_separator);
  ("ws_state_subscribers_count_is_zero_at_start",
    ws_state_subscribers_count_is_zero_at_start);
  ("health_endpoints_bypass_auth_data_endpoints_require_it",
    health_endpoints_bypass_auth_data_endpoints_require_it);
  ("e2e_binance_through_rest", e2e_binance_through_rest)]%string.

Example api_suite_passes : failing api_suite = [].
Proof. vm_compute. reflexivity. Qed.
